(** * Result-set storage and iteration: a shallow embedding

    The definitions below follow [QueryEngine/ResultSetIteration.cpp],
    [QueryEngine/ResultSet.h] and
    [QueryEngine/Descriptors/QueryMemoryDescriptor.h].  Pointers into a
    storage buffer are byte offsets from the start of that buffer, [size_t]
    values are integers reduced modulo [2^64], and every function that can
    hit a [CHECK] or read outside its buffer returns an [outcome]. *)

From Stdlib Require Import ZArith List Bool Lia Strings.Byte Floats Uint63.
From Stdlib Require String.
Import ListNotations.
Open Scope Z_scope.

(** ** Outcomes of fallible code *)

Inductive outcome (A : Type) : Type :=
| Ok (a : A)
| CheckFailed   (* a CHECK or UNREACHABLE fired: the process terminates *)
| Undefined     (* undefined in C++: a read outside a buffer or vector *)
| OutOfFuel.    (* the loop bound of the model was exhausted *)

Arguments Ok {A} a.
Arguments CheckFailed {A}.
Arguments Undefined {A}.
Arguments OutOfFuel {A}.

Definition bind {A B : Type} (c : outcome A) (k : A -> outcome B) : outcome B :=
  match c with
  | Ok a => k a
  | CheckFailed => CheckFailed
  | Undefined => Undefined
  | OutOfFuel => OutOfFuel
  end.

Declare Scope outcome_scope.
Delimit Scope outcome_scope with outcome.
Notation "x <- c ;; k" := (bind c (fun x => k))
  (at level 61, c at next level, right associativity) : outcome_scope.
Notation "' p <- c ;; k" := (bind c (fun p => k))
  (at level 61, p pattern, c at next level, right associativity) : outcome_scope.
Notation "'CHECK' b ;; k" := (if b then k else CheckFailed)
  (at level 61, b at next level, right associativity) : outcome_scope.
Open Scope outcome_scope.

(** ** Machine integers *)

Definition size_t_modulus : Z := 2 ^ 64.

(** Conversion to [size_t], also the result of unsigned 64-bit arithmetic. *)
Definition to_size_t (z : Z) : Z := z mod size_t_modulus.

(** Two's complement reading of an unsigned value of [bits] bits. *)
Definition to_signed (bits : Z) (u : Z) : Z :=
  if u <? 2 ^ (bits - 1) then u else u - 2 ^ bits.

(** ** Buffers *)

Definition Buffer := list byte.

Definition byte_at (buff : Buffer) (p : Z) : outcome Z :=
  if p <? 0 then Undefined
  else match nth_error buff (Z.to_nat p) with
       | Some b => Ok (Z.of_N (Byte.to_N b))
       | None => Undefined
       end.

(** Little-endian unsigned load of [n] bytes at offset [p]. *)
Fixpoint load_unsigned (n : nat) (buff : Buffer) (p : Z) : outcome Z :=
  match n with
  | O => Ok 0
  | S n' =>
      lo <- byte_at buff p ;;
      hi <- load_unsigned n' buff (p + 1) ;;
      Ok (lo + 256 * hi)
  end.

(** [*reinterpret_cast<const intN_t*>(buff + p)] for [N = 8 * nbytes]. *)
Definition load_int (nbytes : nat) (buff : Buffer) (p : Z) : outcome Z :=
  u <- load_unsigned nbytes buff p ;;
  Ok (to_signed (8 * Z.of_nat nbytes) u).

(** ** Layout descriptor *)

(** Modelled from the spec: the enumeration [heavyai::QueryDescriptionType] is
    declared outside the sources at hand; the spec lists its members as
    [queryType]. *)
Inductive QueryDescriptionType : Type :=
| NonGroupedAggregate
| GroupByPerfectHash
| GroupByBaselineHash
| Projection
| TableFunction.

Definition QueryDescriptionType_eqb (a b : QueryDescriptionType) : bool :=
  match a, b with
  | NonGroupedAggregate, NonGroupedAggregate
  | GroupByPerfectHash, GroupByPerfectHash
  | GroupByBaselineHash, GroupByBaselineHash
  | Projection, Projection
  | TableFunction, TableFunction => true
  | _, _ => false
  end.

Module QueryMemoryDescriptor.

(** The members of [class QueryMemoryDescriptor] that the iteration code
    reads.  [col_slot_context_] is kept as the list of (padded, logical)
    slot widths. *)
Record t : Type := mk {
  query_desc_type_ : QueryDescriptionType;
  keyless_hash_ : bool;
  idx_target_as_key_ : Z;           (* int32_t *)
  group_col_widths_ : list Z;       (* std::vector<int8_t> *)
  group_col_compact_width_ : Z;     (* int8_t *)
  target_groupby_indices_ : list Z; (* std::vector<int64_t> *)
  entry_count_ : Z;                 (* size_t *)
  output_columnar_ : bool;
  col_slot_context_ : list (Z * Z)
}.

Definition getQueryDescriptionType (d : t) := query_desc_type_ d.
Definition hasKeylessHash (d : t) := keyless_hash_ d.
Definition getTargetIdxForKey (d : t) := idx_target_as_key_ d.
Definition getEntryCount (d : t) := entry_count_ d.
Definition didOutputColumnar (d : t) := output_columnar_ d.

Definition setEntryCount (d : t) (val : Z) : t :=
  mk (query_desc_type_ d) (keyless_hash_ d) (idx_target_as_key_ d)
     (group_col_widths_ d) (group_col_compact_width_ d)
     (target_groupby_indices_ d) val (output_columnar_ d)
     (col_slot_context_ d).

Definition setOutputColumnar (d : t) (val : bool) : t :=
  mk (query_desc_type_ d) (keyless_hash_ d) (idx_target_as_key_ d)
     (group_col_widths_ d) (group_col_compact_width_ d)
     (target_groupby_indices_ d) (entry_count_ d) val
     (col_slot_context_ d).

Definition getGroupbyColCount (d : t) : Z :=
  Z.of_nat (length (group_col_widths_ d)).

Definition isSingleColumnGroupByWithPerfectHash (d : t) : bool :=
  QueryDescriptionType_eqb (getQueryDescriptionType d) GroupByPerfectHash
  && (getGroupbyColCount d =? 1).

Definition groupColWidth (d : t) (key_idx : Z) : outcome Z :=
  CHECK (key_idx <? getGroupbyColCount d) ;;
  match nth_error (group_col_widths_ d) (Z.to_nat key_idx) with
  | Some w => Ok w
  | None => Undefined
  end.

Definition getEffectiveKeyWidth (d : t) : Z :=
  if group_col_compact_width_ d =? 0 then 8
  else to_size_t (group_col_compact_width_ d).

Definition targetGroupbyIndicesSize (d : t) : Z :=
  Z.of_nat (length (target_groupby_indices_ d)).

Definition getTargetGroupbyIndex (d : t) (target_idx : Z) : outcome Z :=
  CHECK (target_idx <? targetGroupbyIndicesSize d) ;;
  match nth_error (target_groupby_indices_ d) (Z.to_nat target_idx) with
  | Some i => Ok i
  | None => Undefined
  end.

End QueryMemoryDescriptor.

(** ** Targets *)

(** A [SQLTypeInfo] is represented by the answers of the predicates the
    iteration code asks of it. *)
Record SQLTypeInfo : Type := mkSQLTypeInfo {
  is_integer : bool;
  is_decimal : bool;
  is_fp : bool;
  is_geometry : bool;
  is_array : bool;
  is_string : bool;
  is_none_encoded : bool;   (* get_compression() == kENCODING_NONE *)
  usesFlatBuffer : bool
}.

Inductive SQLAgg : Type :=
| kAVG | kMIN | kMAX | kSUM | kCOUNT | kAPPROX_COUNT_DISTINCT
| kAPPROX_QUANTILE | kSAMPLE | kSINGLE_VALUE | kMODE.

Definition SQLAgg_eqb (a b : SQLAgg) : bool :=
  match a, b with
  | kAVG, kAVG | kMIN, kMIN | kMAX, kMAX | kSUM, kSUM | kCOUNT, kCOUNT
  | kAPPROX_COUNT_DISTINCT, kAPPROX_COUNT_DISTINCT
  | kAPPROX_QUANTILE, kAPPROX_QUANTILE | kSAMPLE, kSAMPLE
  | kSINGLE_VALUE, kSINGLE_VALUE | kMODE, kMODE => true
  | _, _ => false
  end.

Record TargetInfo : Type := mkTargetInfo {
  is_agg : bool;
  agg_kind : SQLAgg;
  sql_type : SQLTypeInfo;
  agg_arg_type : SQLTypeInfo
}.

(** Materialised values: the alternatives of [TargetValue] that the code
    under study builds itself. *)
Inductive TargetValue : Type :=
| IntTV (v : Z)
| DoubleTV (d : float)
| StringTV (s : String.string)
| NullStringTV                 (* NullableString(nullptr) *)
| OtherTV (tag : Z).

Definition Row := list TargetValue.

(** ** Storage *)

Module ResultSetStorage.

Record t : Type := mk {
  query_mem_desc_ : QueryMemoryDescriptor.t;
  buff_ : Buffer;
  targets_ : list TargetInfo;
  target_init_vals_ : list Z
}.

(** Modelled from the spec: [ResultSetStorage::getEntryCount] and
    [ResultSetStorage::updateEntryCount] are declared in a header that is not
    among the sources; a storage is one buffer plus its layout descriptor,
    and its entry count is that descriptor's. *)
Definition getEntryCount (s : t) : Z :=
  QueryMemoryDescriptor.getEntryCount (query_mem_desc_ s).

Definition updateEntryCount (s : t) (new_entry_count : Z) : t :=
  mk (QueryMemoryDescriptor.setEntryCount (query_mem_desc_ s) new_entry_count)
     (buff_ s) (targets_ s) (target_init_vals_ s).

End ResultSetStorage.

(** ** Helpers declared outside the sources

    The buffer-geometry helpers of [ResultSetBufferAccessors.h] and
    [BufferCompaction.h], and the descriptor methods that are only declared
    in [QueryMemoryDescriptor.h], are parameters: every statement below holds
    for any implementation of them. *)
Class BufferAccessors : Type := {
  EMPTY_KEY_64 : Z;
  EMPTY_KEY_32 : Z;
  EMPTY_KEY_16 : Z;
  EMPTY_KEY_8 : Z;
  read_int_from_buff : Buffer -> Z -> Z -> outcome Z;
  row_ptr_rowwise : QueryMemoryDescriptor.t -> Z -> Z;
  get_key_bytes_rowwise : QueryMemoryDescriptor.t -> Z;
  align_to_int64 : Z -> Z;
  get_cols_ptr : QueryMemoryDescriptor.t -> Z;
  advance_to_next_columnar_target_buff :
    Z -> QueryMemoryDescriptor.t -> Z -> Z;
  advance_slot : Z -> TargetInfo -> bool -> Z;
  advance_target_ptr_row_wise :
    Z -> TargetInfo -> Z -> QueryMemoryDescriptor.t -> bool -> Z;
  advance_target_ptr_col_wise :
    Z -> TargetInfo -> Z -> QueryMemoryDescriptor.t -> bool -> Z;
  getPaddedSlotWidthBytes : QueryMemoryDescriptor.t -> Z -> outcome Z;
  getLogicalSlotWidthBytes : QueryMemoryDescriptor.t -> Z -> outcome Z;
  getBufferColSlotCount : QueryMemoryDescriptor.t -> Z;
  getPrependedGroupColOffInBytes : QueryMemoryDescriptor.t -> Z -> Z
}.

Section Storage.

Context {BA : BufferAccessors}.

(** [QueryMemoryDescriptor::getPaddedColWidthForRange]: the loop runs over
    [i = offset, ..., offset + range - 1]; [n] is the number of iterations
    left. *)
Fixpoint getPaddedColWidthForRange_loop (d : QueryMemoryDescriptor.t)
    (n : nat) (i : Z) (ret : Z) : outcome Z :=
  match n with
  | O => Ok ret
  | S n' =>
      w <- getPaddedSlotWidthBytes d i ;;
      getPaddedColWidthForRange_loop d n' (to_size_t (i + 1))
        (to_size_t (ret + to_size_t w))
  end.

Definition getPaddedColWidthForRange (d : QueryMemoryDescriptor.t)
    (offset range : Z) : outcome Z :=
  getPaddedColWidthForRange_loop d
    (Z.to_nat (to_size_t (offset + range) - offset)) offset 0.

(** [result_set::get_byteoff_of_slot] *)
Definition get_byteoff_of_slot (slot_idx : Z) (d : QueryMemoryDescriptor.t)
    : outcome Z :=
  getPaddedColWidthForRange d 0 slot_idx.

(** [advance_col_buff_to_slot]: the loop over [targets], carrying
    [crt_col_ptr] and [agg_col_idx]. *)
Fixpoint advance_col_buff_to_slot_loop (d : QueryMemoryDescriptor.t)
    (targets : list TargetInfo) (slot_idx : Z) (separate_varlen_storage : bool)
    (crt_col_ptr agg_col_idx : Z) : outcome Z :=
  match targets with
  | [] => CheckFailed
  | agg_info :: rest =>
      if agg_col_idx =? slot_idx then Ok crt_col_ptr
      else
        CHECK (agg_col_idx <? getBufferColSlotCount d) ;;
        let crt_col_ptr :=
          advance_to_next_columnar_target_buff crt_col_ptr d agg_col_idx in
        if is_agg agg_info && SQLAgg_eqb (agg_kind agg_info) kAVG then
          if to_size_t (agg_col_idx + 1) =? slot_idx then Ok crt_col_ptr
          else
            let crt_col_ptr :=
              advance_to_next_columnar_target_buff crt_col_ptr d
                (to_size_t (agg_col_idx + 1)) in
            advance_col_buff_to_slot_loop d rest slot_idx
              separate_varlen_storage crt_col_ptr
              (advance_slot agg_col_idx agg_info separate_varlen_storage)
        else
          advance_col_buff_to_slot_loop d rest slot_idx
            separate_varlen_storage crt_col_ptr
            (advance_slot agg_col_idx agg_info separate_varlen_storage)
  end.

Definition advance_col_buff_to_slot (d : QueryMemoryDescriptor.t)
    (targets : list TargetInfo) (slot_idx : Z) (separate_varlen_storage : bool)
    : outcome Z :=
  advance_col_buff_to_slot_loop d targets slot_idx separate_varlen_storage
    (get_cols_ptr d) 0.

(** [target_init_vals_[idx]] *)
Definition target_init_val (s : ResultSetStorage.t) (idx : Z) : outcome Z :=
  match nth_error (ResultSetStorage.target_init_vals_ s) (Z.to_nat idx) with
  | Some v => Ok v
  | None => Undefined
  end.

(** The checks shared by the keyless branches of both emptiness tests. *)
Definition check_keyless (s : ResultSetStorage.t) : bool :=
  let d := ResultSetStorage.query_mem_desc_ s in
  QueryDescriptionType_eqb (QueryMemoryDescriptor.getQueryDescriptionType d)
    GroupByPerfectHash
  && (0 <=? QueryMemoryDescriptor.getTargetIdxForKey d)
  && (to_size_t (QueryMemoryDescriptor.getTargetIdxForKey d)
      <? Z.of_nat (length (ResultSetStorage.target_init_vals_ s))).

(** [ResultSetStorage::isEmptyEntryColumnar] *)
Definition isEmptyEntryColumnar (s : ResultSetStorage.t) (entry_idx : Z)
    (buff : Buffer) : outcome bool :=
  let d := ResultSetStorage.query_mem_desc_ s in
  let ty := QueryMemoryDescriptor.getQueryDescriptionType d in
  CHECK (QueryMemoryDescriptor.didOutputColumnar d) ;;
  if QueryDescriptionType_eqb ty NonGroupedAggregate then Ok false
  else if QueryDescriptionType_eqb ty TableFunction then
    CHECK (entry_idx <? ResultSetStorage.getEntryCount s) ;;
    Ok false
  else if QueryMemoryDescriptor.hasKeylessHash d then
    CHECK (check_keyless s) ;;
    let key_target := QueryMemoryDescriptor.getTargetIdxForKey d in
    col_buff <- advance_col_buff_to_slot d (ResultSetStorage.targets_ s)
                  (to_size_t key_target) false ;;
    w <- getPaddedSlotWidthBytes d (to_size_t key_target) ;;
    let entry_buff := col_buff + to_size_t (entry_idx * to_size_t w) in
    v <- read_int_from_buff buff entry_buff w ;;
    init <- target_init_val s (to_size_t key_target) ;;
    Ok (v =? init)
  else if QueryDescriptionType_eqb ty Projection then
    k <- load_int 8 buff (8 * entry_idx) ;;
    Ok (k =? EMPTY_KEY_64)
  else
    CHECK (0 <? QueryMemoryDescriptor.getGroupbyColCount d) ;;
    let target_buff := getPrependedGroupColOffInBytes d 0 in
    w <- QueryMemoryDescriptor.groupColWidth d 0 ;;
    if w =? 8 then
      k <- load_int 8 buff (target_buff + 8 * entry_idx) ;;
      Ok (k =? EMPTY_KEY_64)
    else if w =? 4 then
      k <- load_int 4 buff (target_buff + 4 * entry_idx) ;;
      Ok (k =? EMPTY_KEY_32)
    else if w =? 2 then
      k <- load_int 2 buff (target_buff + 2 * entry_idx) ;;
      Ok (k =? EMPTY_KEY_16)
    else if w =? 1 then
      k <- load_int 1 buff (target_buff + 1 * entry_idx) ;;
      Ok (k =? EMPTY_KEY_8)
    else CheckFailed.

(** [ResultSetStorage::isEmptyEntry(entry_idx, buff)] *)
Definition isEmptyEntry_buff (s : ResultSetStorage.t) (entry_idx : Z)
    (buff : Buffer) : outcome bool :=
  let d := ResultSetStorage.query_mem_desc_ s in
  let ty := QueryMemoryDescriptor.getQueryDescriptionType d in
  if QueryDescriptionType_eqb NonGroupedAggregate ty then Ok false
  else if QueryMemoryDescriptor.didOutputColumnar d then
    isEmptyEntryColumnar s entry_idx buff
  else if QueryMemoryDescriptor.hasKeylessHash d then
    CHECK (check_keyless s) ;;
    let key_target := QueryMemoryDescriptor.getTargetIdxForKey d in
    let rowwise_target_ptr := row_ptr_rowwise d entry_idx in
    target_slot_off <- get_byteoff_of_slot (to_size_t key_target) d ;;
    w <- getPaddedSlotWidthBytes d (to_size_t key_target) ;;
    v <- read_int_from_buff buff (rowwise_target_ptr + target_slot_off) w ;;
    init <- target_init_val s (to_size_t key_target) ;;
    Ok (v =? init)
  else
    let keys_ptr := row_ptr_rowwise d entry_idx in
    let w := QueryMemoryDescriptor.getEffectiveKeyWidth d in
    if w =? 4 then
      CHECK (negb (QueryDescriptionType_eqb GroupByPerfectHash ty)) ;;
      k <- load_int 4 buff keys_ptr ;;
      Ok (k =? EMPTY_KEY_32)
    else if w =? 8 then
      k <- load_int 8 buff keys_ptr ;;
      Ok (k =? EMPTY_KEY_64)
    else CheckFailed.

(** [ResultSetStorage::isEmptyEntry(entry_idx)] *)
Definition isEmptyEntry (s : ResultSetStorage.t) (entry_idx : Z)
    : outcome bool :=
  isEmptyEntry_buff s entry_idx (ResultSetStorage.buff_ s).

(** [make_bin_search]: the [while (l != r)] loop.  Each iteration halves
    [r - l], so the model bounds the loop by [log2 (r - l) + 1] iterations. *)
Fixpoint make_bin_search_loop (fuel : nat) (l r : Z)
    (is_empty_fn : Z -> outcome bool) : outcome Z :=
  if l =? r then Ok r
  else
    match fuel with
    | O => OutOfFuel
    | S fuel' =>
        let c := to_size_t (l + r) / 2 in
        e <- is_empty_fn c ;;
        if e then make_bin_search_loop fuel' l c is_empty_fn
        else make_bin_search_loop fuel' (to_size_t (c + 1)) r is_empty_fn
    end.

Definition make_bin_search (l r : Z) (is_empty_fn : Z -> outcome bool)
    : outcome Z :=
  e <- is_empty_fn (to_size_t (r - 1)) ;;
  if negb e then Ok r
  else
    let r := to_size_t (r - 1) in
    make_bin_search_loop (Z.to_nat (Z.log2 (r - l) + 1)) l r is_empty_fn.

(** [ResultSetStorage::binSearchRowCount] *)
Definition binSearchRowCount (s : ResultSetStorage.t) : outcome Z :=
  let d := ResultSetStorage.query_mem_desc_ s in
  let buff := ResultSetStorage.buff_ s in
  CHECK (QueryDescriptionType_eqb
           (QueryMemoryDescriptor.getQueryDescriptionType d) Projection) ;;
  CHECK (QueryMemoryDescriptor.getEffectiveKeyWidth d =? 8) ;;
  if QueryMemoryDescriptor.getEntryCount d =? 0 then Ok 0
  else if QueryMemoryDescriptor.didOutputColumnar d then
    make_bin_search 0 (QueryMemoryDescriptor.getEntryCount d)
      (fun idx => k <- load_int 8 buff (8 * idx) ;; Ok (k =? EMPTY_KEY_64))
  else
    make_bin_search 0 (QueryMemoryDescriptor.getEntryCount d)
      (fun idx =>
         let keys_ptr := row_ptr_rowwise d idx in
         k <- load_int 8 buff keys_ptr ;; Ok (k =? EMPTY_KEY_64)).

End Storage.

(** ** Result set *)

Module ResultSet.

Record t : Type := mk {
  query_mem_desc_ : QueryMemoryDescriptor.t;
  storage_ : option ResultSetStorage.t;        (* null when absent *)
  appended_storage_ : list ResultSetStorage.t;
  crt_row_buff_idx_ : Z;                       (* mutable size_t *)
  fetched_so_far_ : Z;                         (* mutable size_t *)
  drop_first_ : Z;
  keep_first_ : Z;
  permutation_ : list Z;                       (* std::vector<uint32_t> *)
  separate_varlen_storage_valid_ : bool;
  explanation_ : String.string;
  just_explain_ : bool
}.

Definition set_crt_row_buff_idx_ (rs : t) (v : Z) : t :=
  mk (query_mem_desc_ rs) (storage_ rs) (appended_storage_ rs) v
     (fetched_so_far_ rs) (drop_first_ rs) (keep_first_ rs) (permutation_ rs)
     (separate_varlen_storage_valid_ rs) (explanation_ rs) (just_explain_ rs).

Definition set_fetched_so_far_ (rs : t) (v : Z) : t :=
  mk (query_mem_desc_ rs) (storage_ rs) (appended_storage_ rs)
     (crt_row_buff_idx_ rs) v (drop_first_ rs) (keep_first_ rs)
     (permutation_ rs) (separate_varlen_storage_valid_ rs) (explanation_ rs)
     (just_explain_ rs).

Definition set_query_mem_desc_ (rs : t) (d : QueryMemoryDescriptor.t) : t :=
  mk d (storage_ rs) (appended_storage_ rs) (crt_row_buff_idx_ rs)
     (fetched_so_far_ rs) (drop_first_ rs) (keep_first_ rs) (permutation_ rs)
     (separate_varlen_storage_valid_ rs) (explanation_ rs) (just_explain_ rs).

Definition set_storage_ (rs : t) (s : option ResultSetStorage.t) : t :=
  mk (query_mem_desc_ rs) s (appended_storage_ rs) (crt_row_buff_idx_ rs)
     (fetched_so_far_ rs) (drop_first_ rs) (keep_first_ rs) (permutation_ rs)
     (separate_varlen_storage_valid_ rs) (explanation_ rs) (just_explain_ rs).

Definition set_appended_storage_ (rs : t)
    (appended : list ResultSetStorage.t) : t :=
  mk (query_mem_desc_ rs) (storage_ rs) appended (crt_row_buff_idx_ rs)
     (fetched_so_far_ rs) (drop_first_ rs) (keep_first_ rs) (permutation_ rs)
     (separate_varlen_storage_valid_ rs) (explanation_ rs) (just_explain_ rs).

Definition set_permutation_ (rs : t) (p : list Z) : t :=
  mk (query_mem_desc_ rs) (storage_ rs) (appended_storage_ rs)
     (crt_row_buff_idx_ rs) (fetched_so_far_ rs) (drop_first_ rs)
     (keep_first_ rs) p (separate_varlen_storage_valid_ rs) (explanation_ rs)
     (just_explain_ rs).

Definition set_limits (rs : t) (drop keep : Z) : t :=
  mk (query_mem_desc_ rs) (storage_ rs) (appended_storage_ rs)
     (crt_row_buff_idx_ rs) (fetched_so_far_ rs) drop keep (permutation_ rs)
     (separate_varlen_storage_valid_ rs) (explanation_ rs) (just_explain_ rs).

(** [struct StorageLookupResult] *)
Record StorageLookupResult : Type := mkStorageLookupResult {
  storage_ptr : ResultSetStorage.t;
  fixedup_entry_idx : Z;
  storage_idx : Z
}.

End ResultSet.

(** The value builders of [ResultSet] whose bodies are not needed here, and
    the target predicates declared outside the sources.  They read the
    immutable members of the result set only, so they take the buffer and
    the descriptors they are handed and nothing of the cursor. *)
Class TargetMaterializers : Type := {
  takes_float_argument : TargetInfo -> bool;
  is_real_str_or_array : TargetInfo -> bool;
  (* the binary64 bit pattern of a binary32 bit pattern widened to double *)
  float_to_double_bits : Z -> Z;
  makeTargetValue :
    Buffer -> Z -> Z -> TargetInfo -> Z -> bool -> bool -> Z ->
    outcome TargetValue;
  makeVarlenTargetValue :
    Buffer -> Z -> Z -> Z -> Z -> TargetInfo -> Z -> bool -> Z ->
    outcome TargetValue;
  makeGeoTargetValue :
    Buffer -> Z -> Z -> TargetInfo -> Z -> Z -> outcome TargetValue;
  isFlatBuffer : Buffer -> Z -> bool;
  getTargetValueFromFlatBuffer :
    Buffer -> Z -> TargetInfo -> Z -> Z -> Z -> Z -> bool ->
    outcome TargetValue
}.

(** *** The AVG pair *)

(** [static_cast<double>] of a 64-bit signed integer. *)
Definition int_to_double (z : Z) : float :=
  if z =? - 2 ^ 63 then PrimFloat.opp (Z.ldexp PrimFloat.one 63)
  else if z <? 0 then PrimFloat.opp (PrimFloat.of_uint63 (Uint63.of_Z (- z)))
  else PrimFloat.of_uint63 (Uint63.of_Z z).

(** The double whose binary64 bit pattern is the 64-bit integer [bits]. *)
Definition double_of_bits (bits : Z) : float :=
  let u := bits mod 2 ^ 64 in
  let m := u mod 2 ^ 52 in
  let e := (u / 2 ^ 52) mod 2 ^ 11 in
  let magnitude :=
    if e =? 2047 then
      if m =? 0 then PrimFloat.infinity else PrimFloat.nan
    else if e =? 0 then
      Z.ldexp (PrimFloat.of_uint63 (Uint63.of_Z m)) (- 1074)
    else
      Z.ldexp (PrimFloat.of_uint63 (Uint63.of_Z (2 ^ 52 + m))) (e - 1075) in
  if u <? 2 ^ 63 then magnitude else PrimFloat.opp magnitude.

(** Modelled from the spec: [pair_to_double] is defined outside the sources;
    the spec gives the AVG value as the two-slot sum/count division, taken
    in double precision.  The sum of a floating-point argument is carried as
    the bit pattern of a double, as [make_avg_target_value] stores it. *)
Definition pair_to_double (fp_pair : Z * Z) (ti : SQLTypeInfo)
    (float_argument_input : bool) : float :=
  let dividend :=
    if is_fp ti then double_of_bits (fst fp_pair)
    else int_to_double (fst fp_pair) in
  PrimFloat.div dividend (int_to_double (snd fp_pair)).

(** Conversion of a [size_t] back to [int8_t]. *)
Definition to_int8 (z : Z) : Z := to_signed 8 (z mod 256).

Section ResultSetOps.

Context {BA : BufferAccessors} {TM : TargetMaterializers}.

(** [make_avg_target_value]: reads the sum at [ptr1] and the count at [ptr2]
    and hands the pair to [pair_to_double]. *)
Definition make_avg_target_value (buff : Buffer) (ptr1 compact_sz1 : Z)
    (ptr2 compact_sz2 : Z) (target_info : TargetInfo) : outcome TargetValue :=
  CHECK (SQLAgg_eqb (agg_kind target_info) kAVG) ;;
  let float_argument_input := takes_float_argument target_info in
  let actual_compact_sz1 :=
    if float_argument_input then 4 else to_size_t compact_sz1 in
  let agg_ti := agg_arg_type target_info in
  sum <- (if is_integer agg_ti || is_decimal agg_ti then
            read_int_from_buff buff ptr1 (to_int8 actual_compact_sz1)
          else if is_fp agg_ti then
            if actual_compact_sz1 =? 8 then load_int 8 buff ptr1
            else if actual_compact_sz1 =? 4 then
              f <- load_unsigned 4 buff ptr1 ;;
              Ok (to_signed 64 (float_to_double_bits f))
            else CheckFailed
          else CheckFailed) ;;
  count <- read_int_from_buff buff ptr2 compact_sz2 ;;
  Ok (DoubleTV (pair_to_double (sum, count) (sql_type target_info) false)).

(** [columnar_elem_ptr] *)
Definition columnar_elem_ptr (entry_idx col1_ptr compact_sz1 : Z) : Z :=
  col1_ptr + to_size_t (to_size_t compact_sz1 * entry_idx).

(** The test [targetGroupbyIndicesSize() == 0 ||
    getTargetGroupbyIndex(target_logical_idx) < 0]. *)
Definition not_groupby_passthrough (d : QueryMemoryDescriptor.t)
    (target_logical_idx : Z) : outcome bool :=
  if QueryMemoryDescriptor.targetGroupbyIndicesSize d =? 0 then Ok true
  else
    i <- QueryMemoryDescriptor.getTargetGroupbyIndex d target_logical_idx ;;
    Ok (i <? 0).

(** [ResultSet::getTargetValueFromBufferColwise]; [d_rs] is the result
    set's own [query_mem_desc_], [query_mem_desc] the storage's. *)
Definition getTargetValueFromBufferColwise (d_rs : QueryMemoryDescriptor.t)
    (buff : Buffer) (col_ptr keys_ptr : Z)
    (query_mem_desc : QueryMemoryDescriptor.t)
    (local_entry_idx global_entry_idx : Z) (target_info : TargetInfo)
    (target_logical_idx slot_idx : Z)
    (translate_strings decimal_to_double : bool) : outcome TargetValue :=
  CHECK (QueryMemoryDescriptor.didOutputColumnar d_rs) ;;
  let col1_ptr := col_ptr in
  if usesFlatBuffer (sql_type target_info) then
    CHECK (isFlatBuffer buff col_ptr) ;;
    getTargetValueFromFlatBuffer buff col_ptr target_info slot_idx
      target_logical_idx global_entry_idx local_entry_idx translate_strings
  else
    compact_sz1 <- getPaddedSlotWidthBytes query_mem_desc slot_idx ;;
    let next_col_ptr :=
      advance_to_next_columnar_target_buff col1_ptr query_mem_desc slot_idx in
    let two_slots :=
      (is_agg target_info && SQLAgg_eqb (agg_kind target_info) kAVG)
      || is_real_str_or_array target_info in
    let col2_ptr := if two_slots then Some next_col_ptr else None in
    compact_sz2 <- (if two_slots then
                      getPaddedSlotWidthBytes query_mem_desc
                        (to_size_t (slot_idx + 1))
                    else Ok 0) ;;
    if is_geometry (sql_type target_info) then
      makeGeoTargetValue buff col1_ptr slot_idx target_info
        target_logical_idx global_entry_idx
    else
      let ptr1 := columnar_elem_ptr local_entry_idx col1_ptr compact_sz1 in
      if SQLAgg_eqb (agg_kind target_info) kAVG
         || is_real_str_or_array target_info then
        match col2_ptr with
        | None => CheckFailed
        | Some col2_ptr =>
            CHECK (negb (compact_sz2 =? 0)) ;;
            let ptr2 :=
              columnar_elem_ptr local_entry_idx col2_ptr compact_sz2 in
            if SQLAgg_eqb (agg_kind target_info) kAVG then
              make_avg_target_value buff ptr1 compact_sz1 ptr2 compact_sz2
                target_info
            else
              makeVarlenTargetValue buff ptr1 compact_sz1 ptr2 compact_sz2
                target_info target_logical_idx translate_strings
                global_entry_idx
        end
      else
        plain <- not_groupby_passthrough d_rs target_logical_idx ;;
        if plain then
          makeTargetValue buff ptr1 compact_sz1 target_info target_logical_idx
            translate_strings decimal_to_double global_entry_idx
        else
          let key_width := QueryMemoryDescriptor.getEffectiveKeyWidth d_rs in
          key_idx <- QueryMemoryDescriptor.getTargetGroupbyIndex d_rs
                       target_logical_idx ;;
          CHECK (0 <=? key_idx) ;;
          let key_col_ptr :=
            keys_ptr
            + to_size_t (to_size_t (to_size_t key_idx
                                    * QueryMemoryDescriptor.getEntryCount d_rs)
                         * key_width) in
          makeTargetValue buff
            (columnar_elem_ptr local_entry_idx key_col_ptr key_width)
            (to_int8 key_width) target_info target_logical_idx
            translate_strings decimal_to_double global_entry_idx.

(** [ResultSet::getTargetValueFromBufferRowwise]; [d] is the result set's
    [query_mem_desc_] and [separate_varlen] its
    [separate_varlen_storage_valid_].  With [fixup_count_distinct_pointers]
    the source rewrites count-distinct pointers inside the buffer and
    returns [int64_t(0)]; the rewriting of the buffer is left out. *)
Definition getTargetValueFromBufferRowwise (d : QueryMemoryDescriptor.t)
    (separate_varlen : bool) (buff : Buffer)
    (rowwise_target_ptr keys_ptr entry_buff_idx : Z)
    (target_info : TargetInfo) (target_logical_idx slot_idx : Z)
    (translate_strings decimal_to_double fixup_count_distinct_pointers : bool)
    : outcome TargetValue :=
  CHECK (negb (usesFlatBuffer (sql_type target_info))) ;;
  if fixup_count_distinct_pointers then Ok (IntTV 0)
  else if is_geometry (sql_type target_info) then
    makeGeoTargetValue buff rowwise_target_ptr slot_idx target_info
      target_logical_idx entry_buff_idx
  else
    let ptr1 := rowwise_target_ptr in
    padded1 <- getPaddedSlotWidthBytes d slot_idx ;;
    compact_sz1 <-
      (if QueryMemoryDescriptor.isSingleColumnGroupByWithPerfectHash d
          && negb (QueryMemoryDescriptor.hasKeylessHash d)
          && negb (is_agg target_info)
       then getLogicalSlotWidthBytes d slot_idx
       else Ok padded1) ;;
    if SQLAgg_eqb (agg_kind target_info) kAVG
       || is_real_str_or_array target_info then
      off2 <- getPaddedSlotWidthBytes d slot_idx ;;
      let ptr2 := rowwise_target_ptr + off2 in
      compact_sz2 <-
        (if negb (separate_varlen
                  && (is_array (sql_type target_info)
                      || (is_string (sql_type target_info)
                          && is_none_encoded (sql_type target_info))))
         then getPaddedSlotWidthBytes d (to_size_t (slot_idx + 1))
         else Ok 0) ;;
      let compact_sz2 :=
        if separate_varlen && is_agg target_info then 8 else compact_sz2 in
      if SQLAgg_eqb (agg_kind target_info) kAVG then
        make_avg_target_value buff ptr1 compact_sz1 ptr2 compact_sz2
          target_info
      else
        makeVarlenTargetValue buff ptr1 compact_sz1 ptr2 compact_sz2
          target_info target_logical_idx translate_strings entry_buff_idx
    else
      plain <- not_groupby_passthrough d target_logical_idx ;;
      if plain then
        makeTargetValue buff ptr1 compact_sz1 target_info target_logical_idx
          translate_strings decimal_to_double entry_buff_idx
      else
        let key_width := QueryMemoryDescriptor.getEffectiveKeyWidth d in
        key_idx <- QueryMemoryDescriptor.getTargetGroupbyIndex d
                     target_logical_idx ;;
        let ptr1 := keys_ptr + to_size_t (to_size_t key_idx * key_width) in
        makeTargetValue buff ptr1 (to_int8 key_width) target_info
          target_logical_idx translate_strings decimal_to_double
          entry_buff_idx.

End ResultSetOps.

(** *** Storage lookup *)

(** Modelled from the spec: [ResultSet::getStorageIndex] and
    [ResultSet::findStorage] are declared in [ResultSet.h] and defined outside
    the sources.  Entry [i] of the combined sequence resolves to the primary
    storage if [i < primary.entryCount], else into successive appended
    storages; storage ordinal 0 is the primary, [n] is [appended[n-1]].  An
    index beyond every storage is an invalid storage lookup index, a fatal
    defect. *)
Fixpoint getStorageIndex_appended (appended : list ResultSetStorage.t)
    (ordinal fixedup_entry_idx : Z) : outcome (Z * Z) :=
  match appended with
  | [] => CheckFailed
  | s :: rest =>
      let entry_count := ResultSetStorage.getEntryCount s in
      if fixedup_entry_idx <? entry_count then Ok (ordinal, fixedup_entry_idx)
      else
        getStorageIndex_appended rest (ordinal + 1)
          (fixedup_entry_idx - entry_count)
  end.

Definition getStorageIndex (rs : ResultSet.t) (entry_idx : Z)
    : outcome (Z * Z) :=
  match ResultSet.storage_ rs with
  | None => CheckFailed
  | Some s =>
      let entry_count := ResultSetStorage.getEntryCount s in
      if entry_idx <? entry_count then Ok (0, entry_idx)
      else
        getStorageIndex_appended (ResultSet.appended_storage_ rs) 1
          (entry_idx - entry_count)
  end.

Definition findStorage (rs : ResultSet.t) (entry_idx : Z)
    : outcome ResultSet.StorageLookupResult :=
  '(stg_idx, fixedup) <- getStorageIndex rs entry_idx ;;
  let found :=
    if stg_idx =? 0 then ResultSet.storage_ rs
    else nth_error (ResultSet.appended_storage_ rs) (Z.to_nat (stg_idx - 1)) in
  match found with
  | Some s => Ok (ResultSet.mkStorageLookupResult s fixedup stg_idx)
  | None => CheckFailed
  end.

(** The summed entry counts of the first [k] appended storages. *)
Definition entry_counts_before (appended : list ResultSetStorage.t) (k : nat)
    : Z :=
  fold_right (fun s acc => ResultSetStorage.getEntryCount s + acc) 0
    (firstn k appended).

Section ResultSetAccess.

Context {BA : BufferAccessors} {TM : TargetMaterializers}.

(** [ResultSet::entryCount] *)
Definition entryCount (rs : ResultSet.t) : Z :=
  match ResultSet.permutation_ rs with
  | [] => QueryMemoryDescriptor.getEntryCount (ResultSet.query_mem_desc_ rs)
  | _ :: _ => Z.of_nat (length (ResultSet.permutation_ rs))
  end.

(** [permutation_[i]] *)
Definition permutation_at (rs : ResultSet.t) (i : Z) : outcome Z :=
  if i <? 0 then Undefined
  else match nth_error (ResultSet.permutation_ rs) (Z.to_nat i) with
       | Some e => Ok e
       | None => Undefined
       end.

(** [permutation_.empty() ? logical_index : permutation_[logical_index]] *)
Definition entry_idx_of (rs : ResultSet.t) (logical_index : Z) : outcome Z :=
  match ResultSet.permutation_ rs with
  | [] => Ok logical_index
  | _ :: _ => permutation_at rs logical_index
  end.

(** One element of the row: the value of target [target_idx], or
    [NullableString(nullptr)] when [targets_to_skip] says so. *)
Definition skip_or (targets_to_skip : list bool) (target_idx : Z)
    (v : outcome TargetValue) : outcome TargetValue :=
  match targets_to_skip with
  | [] => v
  | _ :: _ =>
      match nth_error targets_to_skip (Z.to_nat target_idx) with
      | Some false => v
      | Some true => Ok NullStringTV
      | None => Undefined
      end
  end.

(** The loop of [ResultSet::getRowAt(global_entry_idx, ...)] over
    [storage->targets_]. *)
Fixpoint getRowAt_loop (rs : ResultSet.t) (storage : ResultSetStorage.t)
    (local_entry_idx global_entry_idx : Z)
    (translate_strings decimal_to_double fixup_count_distinct_pointers : bool)
    (targets_to_skip : list bool) (targets : list TargetInfo)
    (target_idx agg_col_idx rowwise_target_ptr keys_ptr crt_col_ptr : Z)
    : outcome Row :=
  let d := ResultSet.query_mem_desc_ rs in
  let sd := ResultSetStorage.query_mem_desc_ storage in
  let buff := ResultSetStorage.buff_ storage in
  let separate_varlen := ResultSet.separate_varlen_storage_valid_ rs in
  match targets with
  | [] => Ok []
  | agg_info :: rest =>
      if QueryMemoryDescriptor.didOutputColumnar d then
        v <- skip_or targets_to_skip target_idx
               (getTargetValueFromBufferColwise d buff crt_col_ptr keys_ptr sd
                  local_entry_idx global_entry_idx agg_info target_idx
                  agg_col_idx translate_strings decimal_to_double) ;;
        tl <- getRowAt_loop rs storage local_entry_idx global_entry_idx
                translate_strings decimal_to_double
                fixup_count_distinct_pointers targets_to_skip rest
                (to_size_t (target_idx + 1))
                (advance_slot agg_col_idx agg_info separate_varlen)
                rowwise_target_ptr keys_ptr
                (advance_target_ptr_col_wise crt_col_ptr agg_info agg_col_idx
                   sd separate_varlen) ;;
        Ok (v :: tl)
      else
        v <- skip_or targets_to_skip target_idx
               (getTargetValueFromBufferRowwise d separate_varlen buff
                  rowwise_target_ptr keys_ptr global_entry_idx agg_info
                  target_idx agg_col_idx translate_strings decimal_to_double
                  fixup_count_distinct_pointers) ;;
        tl <- getRowAt_loop rs storage local_entry_idx global_entry_idx
                translate_strings decimal_to_double
                fixup_count_distinct_pointers targets_to_skip rest
                (to_size_t (target_idx + 1))
                (advance_slot agg_col_idx agg_info separate_varlen)
                (advance_target_ptr_row_wise rowwise_target_ptr agg_info
                   agg_col_idx d separate_varlen)
                keys_ptr crt_col_ptr ;;
        Ok (v :: tl)
  end.

(** The part of [ResultSet::getRowAt(global_entry_idx, ...)] that follows
    the emptiness test: the pointers into the buffer of [storage] and the
    loop over its targets.  A storage always owns its buffer here, so
    [CHECK(buff)] passes. *)
Definition getRowAt_targets (rs : ResultSet.t) (storage : ResultSetStorage.t)
    (local_entry_idx global_entry_idx : Z)
    (translate_strings decimal_to_double fixup_count_distinct_pointers : bool)
    (targets_to_skip : list bool) : outcome Row :=
  let d := ResultSet.query_mem_desc_ rs in
  if QueryMemoryDescriptor.didOutputColumnar d then
    let keys_ptr := 0 in
    let crt_col_ptr :=
      get_cols_ptr (ResultSetStorage.query_mem_desc_ storage) in
    getRowAt_loop rs storage local_entry_idx global_entry_idx
      translate_strings decimal_to_double fixup_count_distinct_pointers
      targets_to_skip (ResultSetStorage.targets_ storage) 0 0 0 keys_ptr
      crt_col_ptr
  else
    let keys_ptr := row_ptr_rowwise d local_entry_idx in
    let key_bytes_with_padding :=
      align_to_int64 (get_key_bytes_rowwise d) in
    let rowwise_target_ptr := keys_ptr + key_bytes_with_padding in
    getRowAt_loop rs storage local_entry_idx global_entry_idx
      translate_strings decimal_to_double fixup_count_distinct_pointers
      targets_to_skip (ResultSetStorage.targets_ storage) 0 0
      rowwise_target_ptr keys_ptr 0.

(** [ResultSet::getRowAt(global_entry_idx, translate_strings,
    decimal_to_double, fixup_count_distinct_pointers, targets_to_skip)] *)
Definition getRowAt_entry (rs : ResultSet.t) (global_entry_idx : Z)
    (translate_strings decimal_to_double fixup_count_distinct_pointers : bool)
    (targets_to_skip : list bool) : outcome Row :=
  storage_lookup_result <-
    (if fixup_count_distinct_pointers then
       match ResultSet.storage_ rs with
       | Some s => Ok (ResultSet.mkStorageLookupResult s global_entry_idx 0)
       | None => Undefined
       end
     else findStorage rs global_entry_idx) ;;
  let storage := ResultSet.storage_ptr storage_lookup_result in
  let local_entry_idx := ResultSet.fixedup_entry_idx storage_lookup_result in
  empty <- (if fixup_count_distinct_pointers then Ok false
            else isEmptyEntry storage local_entry_idx) ;;
  if empty then Ok []
  else
    getRowAt_targets rs storage local_entry_idx global_entry_idx
      translate_strings decimal_to_double fixup_count_distinct_pointers
      targets_to_skip.

(** [ResultSet::getRowAt(logical_index)] *)
Definition getRowAt (rs : ResultSet.t) (logical_index : Z) : outcome Row :=
  if entryCount rs <=? logical_index then Ok []
  else
    entry_idx <- entry_idx_of rs logical_index ;;
    getRowAt_entry rs entry_idx true false false [].

(** [ResultSet::getRowAtNoTranslations] *)
Definition getRowAtNoTranslations (rs : ResultSet.t) (logical_index : Z)
    (targets_to_skip : list bool) : outcome Row :=
  if entryCount rs <=? logical_index then Ok []
  else
    entry_idx <- entry_idx_of rs logical_index ;;
    getRowAt_entry rs entry_idx false false false targets_to_skip.

(** [ResultSet::isRowAtEmpty] *)
Definition isRowAtEmpty (rs : ResultSet.t) (logical_index : Z)
    : outcome bool :=
  if entryCount rs <=? logical_index then Ok true
  else
    entry_idx <- entry_idx_of rs logical_index ;;
    storage_lookup_result <- findStorage rs entry_idx ;;
    isEmptyEntry (ResultSet.storage_ptr storage_lookup_result)
      (ResultSet.fixedup_entry_idx storage_lookup_result).

End ResultSetAccess.

(** *** Sequential iteration *)

Section ResultSetCursor.

Context {BA : BufferAccessors} {TM : TargetMaterializers}.

(** Emptiness of the entry behind logical position [i]: the permutation,
    then the storage lookup, then [isEmptyEntry], as both cursor loops do. *)
Definition isEmptyAt (rs : ResultSet.t) (i : Z) : outcome bool :=
  entry_idx <- entry_idx_of rs i ;;
  storage_lookup_result <- findStorage rs entry_idx ;;
  isEmptyEntry (ResultSet.storage_ptr storage_lookup_result)
    (ResultSet.fixedup_entry_idx storage_lookup_result).

(** The [while (crt_row_buff_idx_ < entryCount())] loop of
    [ResultSet::advanceCursorToNextEntry()]; it runs at most
    [entryCount() - crt_row_buff_idx_] times. *)
Fixpoint advanceCursorToNextEntry_loop (fuel : nat) (rs : ResultSet.t)
    : outcome ResultSet.t :=
  if ResultSet.crt_row_buff_idx_ rs <? entryCount rs then
    match fuel with
    | O => OutOfFuel
    | S fuel' =>
        empty <- isEmptyAt rs (ResultSet.crt_row_buff_idx_ rs) ;;
        if negb empty then Ok rs
        else
          advanceCursorToNextEntry_loop fuel'
            (ResultSet.set_crt_row_buff_idx_ rs
               (to_size_t (ResultSet.crt_row_buff_idx_ rs + 1)))
    end
  else Ok rs.

(** [ResultSet::advanceCursorToNextEntry()] *)
Definition advanceCursorToNextEntry (rs : ResultSet.t)
    : outcome (Z * ResultSet.t) :=
  rs <- advanceCursorToNextEntry_loop
          (Z.to_nat (entryCount rs - ResultSet.crt_row_buff_idx_ rs)) rs ;;
  let crt := ResultSet.crt_row_buff_idx_ rs in
  match ResultSet.permutation_ rs with
  | [] => Ok (crt, rs)
  | _ :: _ =>
      let size := Z.of_nat (length (ResultSet.permutation_ rs)) in
      CHECK (crt <=? size) ;;
      if crt =? size then Ok (crt, rs)
      else e <- permutation_at rs crt ;; Ok (e, rs)
  end.

(** The [do ... while] loop of [ResultSet::getNextRowImpl]: [None] when the
    body returns the empty row, [Some entry_buff_idx] when the loop is left.
    Every further iteration has consumed an entry, so the loop runs at most
    [entryCount() - crt_row_buff_idx_ + 1] times. *)
Fixpoint getNextRowImpl_loop (fuel : nat) (rs : ResultSet.t)
    : outcome (option Z * ResultSet.t) :=
  match fuel with
  | O => OutOfFuel
  | S fuel' =>
      if negb (ResultSet.keep_first_ rs =? 0)
         && (to_size_t (ResultSet.drop_first_ rs + ResultSet.keep_first_ rs)
             <=? ResultSet.fetched_so_far_ rs)
      then Ok (None, rs)
      else
        '(entry_buff_idx, rs) <- advanceCursorToNextEntry rs ;;
        if entryCount rs <=? ResultSet.crt_row_buff_idx_ rs then
          CHECK (entryCount rs =? ResultSet.crt_row_buff_idx_ rs) ;;
          Ok (None, rs)
        else
          let rs := ResultSet.set_crt_row_buff_idx_ rs
                      (to_size_t (ResultSet.crt_row_buff_idx_ rs + 1)) in
          let rs := ResultSet.set_fetched_so_far_ rs
                      (to_size_t (ResultSet.fetched_so_far_ rs + 1)) in
          if negb (ResultSet.drop_first_ rs =? 0)
             && (ResultSet.fetched_so_far_ rs <=? ResultSet.drop_first_ rs)
          then getNextRowImpl_loop fuel' rs
          else Ok (Some entry_buff_idx, rs)
  end.

(** [ResultSet::getNextRowImpl] *)
Definition getNextRowImpl (translate_strings decimal_to_double : bool)
    (rs : ResultSet.t) : outcome (Row * ResultSet.t) :=
  '(found, rs) <-
    getNextRowImpl_loop
      (S (Z.to_nat (entryCount rs - ResultSet.crt_row_buff_idx_ rs))) rs ;;
  match found with
  | None => Ok ([], rs)
  | Some entry_buff_idx =>
      row <- getRowAt_entry rs entry_buff_idx translate_strings
               decimal_to_double false [] ;;
      CHECK (negb (Nat.eqb (length row) 0)) ;;
      Ok (row, rs)
  end.

(** [ResultSet::getNextRowUnlocked] *)
Definition getNextRowUnlocked (translate_strings decimal_to_double : bool)
    (rs : ResultSet.t) : outcome (Row * ResultSet.t) :=
  if ResultSet.just_explain_ rs then
    if negb (ResultSet.fetched_so_far_ rs =? 0) then Ok ([], rs)
    else
      Ok ([StringTV (ResultSet.explanation_ rs)],
          ResultSet.set_fetched_so_far_ rs 1)
  else getNextRowImpl translate_strings decimal_to_double rs.

(** [ResultSet::getNextRow]; the lock serialises callers and has no other
    effect on a single caller. *)
Definition getNextRow (translate_strings decimal_to_double : bool)
    (rs : ResultSet.t) : outcome (Row * ResultSet.t) :=
  match ResultSet.storage_ rs with
  | None =>
      if negb (ResultSet.just_explain_ rs) then Ok ([], rs)
      else getNextRowUnlocked translate_strings decimal_to_double rs
  | Some _ => getNextRowUnlocked translate_strings decimal_to_double rs
  end.

(** [n] successive calls of [getNextRow], with the rows they return. *)
Fixpoint getNextRow_times (n : nat) (translate_strings decimal_to_double : bool)
    (rs : ResultSet.t) : outcome (list Row * ResultSet.t) :=
  match n with
  | O => Ok ([], rs)
  | S n' =>
      '(row, rs) <- getNextRow translate_strings decimal_to_double rs ;;
      '(rows, rs) <- getNextRow_times n' translate_strings decimal_to_double
                       rs ;;
      Ok (row :: rows, rs)
  end.

(** A fresh cursor: the first two assignments of [ResultSet::initStatus]. *)
Definition fresh_cursor (rs : ResultSet.t) : ResultSet.t :=
  ResultSet.set_fetched_so_far_ (ResultSet.set_crt_row_buff_idx_ rs 0) 0.

(** *** Mutators of [ResultSet.h] *)

(** [ResultSet::updateStorageEntryCount] *)
Definition updateStorageEntryCount (rs : ResultSet.t) (new_entry_count : Z)
    : outcome ResultSet.t :=
  let ty := QueryMemoryDescriptor.getQueryDescriptionType
              (ResultSet.query_mem_desc_ rs) in
  CHECK (QueryDescriptionType_eqb ty Projection
         || QueryDescriptionType_eqb ty TableFunction) ;;
  let rs := ResultSet.set_query_mem_desc_ rs
              (QueryMemoryDescriptor.setEntryCount
                 (ResultSet.query_mem_desc_ rs) new_entry_count) in
  match ResultSet.storage_ rs with
  | None => CheckFailed
  | Some s =>
      Ok (ResultSet.set_storage_ rs
            (Some (ResultSetStorage.updateEntryCount s new_entry_count)))
  end.

(** [ResultSet::clearPermutation] *)
Definition clearPermutation (rs : ResultSet.t) : ResultSet.t :=
  match ResultSet.permutation_ rs with
  | [] => rs
  | _ :: _ => ResultSet.set_permutation_ rs []
  end.

(** [ResultSet::initStatus]; the geo return type and the cached row count
    are not part of the model. *)
Definition initStatus (rs : ResultSet.t) : ResultSet.t :=
  ResultSet.set_limits (clearPermutation (fresh_cursor rs)) 0 0.

(** *** Row count *)

(** Modelled from the spec: [ResultSet::rowCount] is defined outside the
    sources.  It is the number of valid entries; without LIMIT/OFFSET the
    spec computes it by a scan over [entryCount()].  The closed form for
    LIMIT/OFFSET is not given by the spec, so statements about [rowCount]
    take result sets without LIMIT and OFFSET. *)
Fixpoint rowCount_scan (rs : ResultSet.t) (n : nat) (i : Z) (row_count : Z)
    : outcome Z :=
  match n with
  | O => Ok row_count
  | S n' =>
      empty <- isEmptyAt rs i ;;
      rowCount_scan rs n' (i + 1)
        (if empty then row_count else row_count + 1)
  end.

Definition rowCount (rs : ResultSet.t) : outcome Z :=
  rowCount_scan rs (Z.to_nat (entryCount rs)) 0 0.

End ResultSetCursor.

(** ** Row iterator *)

Module ResultSetRowIterator.

(** [class ResultSetRowIterator]; the result set it points to is passed to
    the operations. *)
Record t : Type := mk {
  crt_row_buff_idx_ : Z;
  global_entry_idx_ : Z;
  global_entry_idx_valid_ : bool;
  fetched_so_far_ : Z;
  translate_strings_ : bool;
  decimal_to_double_ : bool
}.

(** The private constructor. *)
Definition make (translate_strings decimal_to_double : bool) : t :=
  mk 0 0 false 0 translate_strings decimal_to_double.

Definition set_cursor (iter : t) (crt fetched : Z) : t :=
  mk crt (global_entry_idx_ iter) (global_entry_idx_valid_ iter) fetched
     (translate_strings_ iter) (decimal_to_double_ iter).

Definition set_global (iter : t) (idx : Z) (valid : bool) : t :=
  mk (crt_row_buff_idx_ iter) idx valid (fetched_so_far_ iter)
     (translate_strings_ iter) (decimal_to_double_ iter).

End ResultSetRowIterator.

Section RowIterator.

Context {BA : BufferAccessors} {TM : TargetMaterializers}.

(** The [while (iter.crt_row_buff_idx_ < entryCount())] loop of
    [ResultSet::advanceCursorToNextEntry(ResultSetRowIterator&)]; it runs at
    most [entryCount() - iter.crt_row_buff_idx_] times. *)
Fixpoint advanceIterator_loop (fuel : nat) (rs : ResultSet.t)
    (iter : ResultSetRowIterator.t) : outcome ResultSetRowIterator.t :=
  let crt := ResultSetRowIterator.crt_row_buff_idx_ iter in
  let fetched := ResultSetRowIterator.fetched_so_far_ iter in
  if crt <? entryCount rs then
    match fuel with
    | O => OutOfFuel
    | S fuel' =>
        empty <- isEmptyAt rs crt ;;
        if negb empty then
          if fetched <? ResultSet.drop_first_ rs then
            advanceIterator_loop fuel' rs
              (ResultSetRowIterator.set_cursor iter (to_size_t (crt + 1))
                 (to_size_t (fetched + 1)))
          else Ok iter
        else
          advanceIterator_loop fuel' rs
            (ResultSetRowIterator.set_cursor iter (to_size_t (crt + 1))
               fetched)
    end
  else Ok iter.

(** [ResultSet::advanceCursorToNextEntry(ResultSetRowIterator&)] *)
Definition advanceIterator (rs : ResultSet.t) (iter : ResultSetRowIterator.t)
    : outcome ResultSetRowIterator.t :=
  if negb (ResultSet.keep_first_ rs =? 0)
     && (to_size_t (ResultSet.drop_first_ rs + ResultSet.keep_first_ rs)
         <=? ResultSetRowIterator.fetched_so_far_ iter)
  then
    Ok (ResultSetRowIterator.set_global iter
          (ResultSetRowIterator.global_entry_idx_ iter) false)
  else
    iter <- advanceIterator_loop
              (Z.to_nat (entryCount rs
                         - ResultSetRowIterator.crt_row_buff_idx_ iter))
              rs iter ;;
    let crt := ResultSetRowIterator.crt_row_buff_idx_ iter in
    global <-
      match ResultSet.permutation_ rs with
      | [] => Ok crt
      | _ :: _ =>
          let size := Z.of_nat (length (ResultSet.permutation_ rs)) in
          CHECK (crt <=? size) ;;
          if crt =? size then Ok crt else permutation_at rs crt
      end ;;
    let valid := crt <? entryCount rs in
    let iter := ResultSetRowIterator.set_global iter global valid in
    if valid then
      Ok (ResultSetRowIterator.set_cursor iter (to_size_t (crt + 1))
            (to_size_t (ResultSetRowIterator.fetched_so_far_ iter + 1)))
    else Ok iter.

(** [ResultSetRowIterator::operator++] *)
Definition iterator_next (rs : ResultSet.t) (iter : ResultSetRowIterator.t)
    : outcome ResultSetRowIterator.t :=
  match ResultSet.storage_ rs, ResultSet.just_explain_ rs with
  | None, false =>
      Ok (ResultSetRowIterator.set_global iter
            (ResultSetRowIterator.global_entry_idx_ iter) false)
  | _, true =>
      let iter :=
        ResultSetRowIterator.set_global iter
          (ResultSetRowIterator.global_entry_idx_ iter)
          (0 =? ResultSetRowIterator.fetched_so_far_ iter) in
      Ok (ResultSetRowIterator.set_cursor iter
            (ResultSetRowIterator.crt_row_buff_idx_ iter) 1)
  | Some _, false => advanceIterator rs iter
  end.

(** [ResultSetRowIterator::operator*] *)
Definition iterator_deref (rs : ResultSet.t) (iter : ResultSetRowIterator.t)
    : outcome Row :=
  if negb (ResultSetRowIterator.global_entry_idx_valid_ iter) then Ok []
  else if ResultSet.just_explain_ rs then
    Ok [StringTV (ResultSet.explanation_ rs)]
  else
    getRowAt_entry rs (ResultSetRowIterator.global_entry_idx_ iter)
      (ResultSetRowIterator.translate_strings_ iter)
      (ResultSetRowIterator.decimal_to_double_ iter) false [].

(** [n] applications of [operator++]. *)
Fixpoint iterator_next_times (n : nat) (rs : ResultSet.t)
    (iter : ResultSetRowIterator.t) : outcome ResultSetRowIterator.t :=
  match n with
  | O => Ok iter
  | S n' =>
      iter <- iterator_next rs iter ;;
      iterator_next_times n' rs iter
  end.

(** [ResultSet::rowIterator(from_logical_index, translate_strings,
    decimal_to_double)] *)
Definition rowIterator (rs : ResultSet.t) (from_logical_index : nat)
    (translate_strings decimal_to_double : bool)
    : outcome ResultSetRowIterator.t :=
  iterator_next_times (S from_logical_index) rs
    (ResultSetRowIterator.make translate_strings decimal_to_double).

(** The rows read by [m] rounds of [*iter] followed by [++iter]. *)
Fixpoint iterator_rows (m : nat) (rs : ResultSet.t)
    (iter : ResultSetRowIterator.t) : outcome (list Row) :=
  match m with
  | O => Ok []
  | S m' =>
      row <- iterator_deref rs iter ;;
      iter <- iterator_next rs iter ;;
      rows <- iterator_rows m' rs iter ;;
      Ok (row :: rows)
  end.

End RowIterator.

(** [ResultSetRowIterator::getCurrentRowBufferIndex]; [None] stands for the
    [std::runtime_error] that it throws before the first advance. *)
Definition getCurrentRowBufferIndex (iter : ResultSetRowIterator.t)
    : option Z :=
  if ResultSetRowIterator.crt_row_buff_idx_ iter =? 0 then None
  else Some (to_size_t (ResultSetRowIterator.crt_row_buff_idx_ iter - 1)).

(** ** A reference implementation of the helper interfaces

    Used to run the definitions on concrete buffers.  Keys come first (inline
    in a row, or as leading key columns), every region is aligned to eight
    bytes, and the sentinels are the largest values of their widths. *)

Module Reference.

Definition align8 (z : Z) : Z := (z + 7) / 8 * 8.

Definition load_sized (buff : Buffer) (p sz : Z) : outcome Z :=
  if sz =? 8 then load_int 8 buff p
  else if sz =? 4 then load_int 4 buff p
  else if sz =? 2 then load_int 2 buff p
  else if sz =? 1 then load_int 1 buff p
  else CheckFailed.

Definition padded_width (d : QueryMemoryDescriptor.t) (slot : Z) : outcome Z :=
  if slot <? 0 then CheckFailed
  else match nth_error (QueryMemoryDescriptor.col_slot_context_ d)
               (Z.to_nat slot) with
       | Some (padded, _) => Ok padded
       | None => CheckFailed
       end.

Definition logical_width (d : QueryMemoryDescriptor.t) (slot : Z) : outcome Z :=
  if slot <? 0 then CheckFailed
  else match nth_error (QueryMemoryDescriptor.col_slot_context_ d)
               (Z.to_nat slot) with
       | Some (_, logical) => Ok logical
       | None => CheckFailed
       end.

Definition width_or_zero (d : QueryMemoryDescriptor.t) (slot : Z) : Z :=
  match padded_width d slot with Ok w => w | _ => 0 end.

Definition key_bytes (d : QueryMemoryDescriptor.t) : Z :=
  if QueryMemoryDescriptor.hasKeylessHash d then 0
  else QueryMemoryDescriptor.getEffectiveKeyWidth d
       * QueryMemoryDescriptor.getGroupbyColCount d.

Definition slots_bytes (d : QueryMemoryDescriptor.t) : Z :=
  fold_right (fun w acc => fst w + acc) 0
    (QueryMemoryDescriptor.col_slot_context_ d).

Definition row_bytes (d : QueryMemoryDescriptor.t) : Z :=
  align8 (key_bytes d) + align8 (slots_bytes d).

Definition key_columns_bytes (d : QueryMemoryDescriptor.t) (upto : nat) : Z :=
  fold_right
    (fun w acc => align8 (w * QueryMemoryDescriptor.getEntryCount d) + acc) 0
    (firstn upto (QueryMemoryDescriptor.group_col_widths_ d)).

Definition is_avg (ti : TargetInfo) : bool :=
  is_agg ti && SQLAgg_eqb (agg_kind ti) kAVG.

Definition accessors : BufferAccessors := {|
  EMPTY_KEY_64 := 2 ^ 63 - 1;
  EMPTY_KEY_32 := 2 ^ 31 - 1;
  EMPTY_KEY_16 := 2 ^ 15 - 1;
  EMPTY_KEY_8 := 2 ^ 7 - 1;
  read_int_from_buff := load_sized;
  row_ptr_rowwise := fun d entry_idx => entry_idx * row_bytes d;
  get_key_bytes_rowwise := key_bytes;
  align_to_int64 := align8;
  get_cols_ptr := fun d =>
    if QueryMemoryDescriptor.hasKeylessHash d then 0
    else key_columns_bytes d
           (length (QueryMemoryDescriptor.group_col_widths_ d));
  advance_to_next_columnar_target_buff := fun p d slot =>
    p + align8 (width_or_zero d slot * QueryMemoryDescriptor.getEntryCount d);
  advance_slot := fun slot ti _ => if is_avg ti then slot + 2 else slot + 1;
  advance_target_ptr_row_wise := fun p ti slot d _ =>
    if is_avg ti then p + width_or_zero d slot + width_or_zero d (slot + 1)
    else p + width_or_zero d slot;
  advance_target_ptr_col_wise := fun p ti slot d _ =>
    let p1 :=
      p + align8 (width_or_zero d slot
                  * QueryMemoryDescriptor.getEntryCount d) in
    if is_avg ti then
      p1 + align8 (width_or_zero d (slot + 1)
                   * QueryMemoryDescriptor.getEntryCount d)
    else p1;
  getPaddedSlotWidthBytes := padded_width;
  getLogicalSlotWidthBytes := logical_width;
  getBufferColSlotCount := fun d =>
    Z.of_nat (length (QueryMemoryDescriptor.col_slot_context_ d));
  getPrependedGroupColOffInBytes := fun d group_idx =>
    key_columns_bytes d (Z.to_nat group_idx)
|}.

(** Integer targets are read as they are stored; the other builders are not
    exercised. *)
Definition materializers : TargetMaterializers := {|
  takes_float_argument := fun _ => false;
  is_real_str_or_array := fun _ => false;
  float_to_double_bits := fun bits => bits;
  makeTargetValue := fun buff ptr compact_sz _ _ _ _ _ =>
    v <- load_sized buff ptr compact_sz ;; Ok (IntTV v);
  makeVarlenTargetValue := fun _ _ _ _ _ _ _ _ _ => CheckFailed;
  makeGeoTargetValue := fun _ _ _ _ _ _ => CheckFailed;
  isFlatBuffer := fun _ _ => false;
  getTargetValueFromFlatBuffer := fun _ _ _ _ _ _ _ _ => CheckFailed
|}.

(** Encoders for test buffers. *)
Definition byte_of_Z (z : Z) : byte :=
  match Byte.of_N (Z.to_N (z mod 256)) with
  | Some b => b
  | None => Byte.x00
  end.

Fixpoint encode_int (nbytes : nat) (z : Z) : list byte :=
  match nbytes with
  | O => []
  | S n => byte_of_Z z :: encode_int n (z / 256)
  end.

Definition encode_ints (nbytes : nat) (zs : list Z) : Buffer :=
  flat_map (encode_int nbytes) zs.

Definition integer_type : SQLTypeInfo :=
  mkSQLTypeInfo true false false false false false false false.

Definition plain_target : TargetInfo :=
  mkTargetInfo false kMIN integer_type integer_type.

Definition avg_target : TargetInfo :=
  mkTargetInfo true kAVG integer_type integer_type.

(** A descriptor with one 8-byte group key and one 8-byte slot. *)
Definition descriptor (ty : QueryDescriptionType) (columnar : bool)
    (entry_count : Z) : QueryMemoryDescriptor.t :=
  QueryMemoryDescriptor.mk ty false (-1) [8] 8 [] entry_count columnar
    [(8, 8)].

(** Row-wise storage of [(key, value)] entries under [descriptor]. *)
Definition rowwise_storage (ty : QueryDescriptionType)
    (entries : list (Z * Z)) : ResultSetStorage.t :=
  ResultSetStorage.mk
    (descriptor ty false (Z.of_nat (length entries)))
    (encode_ints 8 (flat_map (fun kv => [fst kv; snd kv]) entries))
    [plain_target] [0].

(** Columnar storage of the same entries: the key column, then the slot. *)
Definition columnar_storage (ty : QueryDescriptionType)
    (entries : list (Z * Z)) : ResultSetStorage.t :=
  ResultSetStorage.mk
    (descriptor ty true (Z.of_nat (length entries)))
    (encode_ints 8 (map fst entries ++ map snd entries))
    [plain_target] [0].

Definition result_set (d : QueryMemoryDescriptor.t)
    (primary : ResultSetStorage.t) (appended : list ResultSetStorage.t)
    (drop keep : Z) (permutation : list Z) : ResultSet.t :=
  ResultSet.mk d (Some primary) appended 0 0 drop keep permutation false
    String.EmptyString false.

Definition empty_key : Z := 2 ^ 63 - 1.

End Reference.

(** ** The logical content that the emptiness tests look at *)

Section LogicalContent.

Context {BA : BufferAccessors}.

(** The first group key of entry [i], read where and as wide as the row-wise
    layout keeps it. *)
Definition first_key_rowwise (s : ResultSetStorage.t) (i : Z) : outcome Z :=
  let d := ResultSetStorage.query_mem_desc_ s in
  load_int (Z.to_nat (QueryMemoryDescriptor.getEffectiveKeyWidth d))
    (ResultSetStorage.buff_ s) (row_ptr_rowwise d i).

(** The same key in the columnar layout: the leading 8-byte column of a
    projection, else the first prepended group column. *)
Definition first_key_columnar (s : ResultSetStorage.t) (i : Z) : outcome Z :=
  let d := ResultSetStorage.query_mem_desc_ s in
  if QueryDescriptionType_eqb
       (QueryMemoryDescriptor.getQueryDescriptionType d) Projection
  then load_int 8 (ResultSetStorage.buff_ s) (8 * i)
  else
    w <- QueryMemoryDescriptor.groupColWidth d 0 ;;
    load_int (Z.to_nat w) (ResultSetStorage.buff_ s)
      (getPrependedGroupColOffInBytes d 0 + w * i).

(** The slot of the target that stands for the key in a keyless layout. *)
Definition key_target_rowwise (s : ResultSetStorage.t) (i : Z) : outcome Z :=
  let d := ResultSetStorage.query_mem_desc_ s in
  let key_target := to_size_t (QueryMemoryDescriptor.getTargetIdxForKey d) in
  target_slot_off <- get_byteoff_of_slot key_target d ;;
  w <- getPaddedSlotWidthBytes d key_target ;;
  read_int_from_buff (ResultSetStorage.buff_ s)
    (row_ptr_rowwise d i + target_slot_off) w.

Definition key_target_columnar (s : ResultSetStorage.t) (i : Z) : outcome Z :=
  let d := ResultSetStorage.query_mem_desc_ s in
  let key_target := to_size_t (QueryMemoryDescriptor.getTargetIdxForKey d) in
  col_buff <- advance_col_buff_to_slot d (ResultSetStorage.targets_ s)
                key_target false ;;
  w <- getPaddedSlotWidthBytes d key_target ;;
  read_int_from_buff (ResultSetStorage.buff_ s)
    (col_buff + to_size_t (i * to_size_t w)) w.

Definition first_key (s : ResultSetStorage.t) (i : Z) : outcome Z :=
  if QueryMemoryDescriptor.didOutputColumnar
       (ResultSetStorage.query_mem_desc_ s)
  then first_key_columnar s i else first_key_rowwise s i.

Definition key_target_slot (s : ResultSetStorage.t) (i : Z) : outcome Z :=
  if QueryMemoryDescriptor.didOutputColumnar
       (ResultSetStorage.query_mem_desc_ s)
  then key_target_columnar s i else key_target_rowwise s i.

(** The width in bytes of the key that the layout compares. *)
Definition layout_key_width (s : ResultSetStorage.t) : outcome Z :=
  let d := ResultSetStorage.query_mem_desc_ s in
  if QueryMemoryDescriptor.didOutputColumnar d then
    if QueryDescriptionType_eqb
         (QueryMemoryDescriptor.getQueryDescriptionType d) Projection
    then Ok 8
    else QueryMemoryDescriptor.groupColWidth d 0
  else Ok (QueryMemoryDescriptor.getEffectiveKeyWidth d).

(** The spec's words: the reserved empty-key sentinel of a 64/32/16/8-bit
    key. *)
Definition empty_key_sentinel (width : Z) : option Z :=
  if width =? 8 then Some EMPTY_KEY_64
  else if width =? 4 then Some EMPTY_KEY_32
  else if width =? 2 then Some EMPTY_KEY_16
  else if width =? 1 then Some EMPTY_KEY_8
  else None.



(** The spec's words: an entry is empty iff its key equals the reserved
    sentinel or, for keyless layouts, iff the designated key-target slot
    equals its reserved init value. *)
Definition isEmptyEntry_spec (s : ResultSetStorage.t) (i : Z) : Prop :=
  let d := ResultSetStorage.query_mem_desc_ s in
  if QueryMemoryDescriptor.hasKeylessHash d then
    exists v,
      key_target_slot s i = Ok v /\
      target_init_val s
        (to_size_t (QueryMemoryDescriptor.getTargetIdxForKey d)) = Ok v
  else
    exists w k,
      layout_key_width s = Ok w /\ first_key s i = Ok k /\
      empty_key_sentinel w = Some k.

(** The layout invariants that the emptiness tests assert. *)
Definition layout_checks (s : ResultSetStorage.t) : bool :=
  let d := ResultSetStorage.query_mem_desc_ s in
  let ty := QueryMemoryDescriptor.getQueryDescriptionType d in
  if QueryMemoryDescriptor.hasKeylessHash d then check_keyless s
  else if QueryMemoryDescriptor.didOutputColumnar d then
    if QueryDescriptionType_eqb ty Projection then true
    else match QueryMemoryDescriptor.groupColWidth d 0 with
         | Ok w => (w =? 8) || (w =? 4) || (w =? 2) || (w =? 1)
         | _ => false
         end
  else
    let w := QueryMemoryDescriptor.getEffectiveKeyWidth d in
    (w =? 8) || ((w =? 4) && negb (QueryDescriptionType_eqb ty
                                     GroupByPerfectHash)).

End LogicalContent.

(** ** Coherence of the entry counts *)

(** The summed entry counts of the storages of a result set. *)
Definition total_entry_count (rs : ResultSet.t) : Z :=
  match ResultSet.storage_ rs with
  | None => 0
  | Some primary =>
      ResultSetStorage.getEntryCount primary
      + entry_counts_before (ResultSet.appended_storage_ rs)
          (length (ResultSet.appended_storage_ rs))
  end.

(** Neither the entry count of the layout nor the size of the permutation
    exceeds what the storages hold. *)
Definition storages_cover (rs : ResultSet.t) : Prop :=
  Forall (fun s => 0 <= ResultSetStorage.getEntryCount s)
    (ResultSet.appended_storage_ rs) /\
  QueryMemoryDescriptor.getEntryCount (ResultSet.query_mem_desc_ rs)
    <= total_entry_count rs /\
  Z.of_nat (length (ResultSet.permutation_ rs)) <= total_entry_count rs.

(** ** Sample storages and result sets *)

Module Examples.

Import Reference.

(** A columnar table-function output with two rows. *)
Definition table_function_storage : ResultSetStorage.t :=
  columnar_storage TableFunction [(1, 10); (2, 20)].

(** A row-wise projection output: two rows, then an empty tail. *)
Definition projection_storage : ResultSetStorage.t :=
  rowwise_storage Projection
    [(1, 10); (2, 20); (empty_key, 0); (empty_key, 0)].

(** Its emptiness pattern. *)
Definition projection_storage_empty (i : Z) : bool := 2 <=? i.

(** A table-function output whose first key is the sentinel, in both
    layouts. *)
Definition table_function_rowwise : ResultSetStorage.t :=
  rowwise_storage TableFunction [(empty_key, 0); (5, 7)].

Definition table_function_columnar : ResultSetStorage.t :=
  columnar_storage TableFunction [(empty_key, 0); (5, 7)].

(** A hash group-by output with an empty entry before a valid one, in both
    layouts. *)
Definition baseline_rowwise : ResultSetStorage.t :=
  rowwise_storage GroupByBaselineHash [(empty_key, 0); (5, 7)].


(** A non-grouped aggregate whose leading 8 bytes equal the sentinel. *)
Definition non_grouped_storage : ResultSetStorage.t :=
  rowwise_storage NonGroupedAggregate [(empty_key, 0)].

(** Eight valid projected rows numbered 0..7, with OFFSET 2 and LIMIT 3. *)
Definition eight_rows : ResultSetStorage.t :=
  rowwise_storage Projection
    (map (fun k => (k, 100 + k)) [0; 1; 2; 3; 4; 5; 6; 7]).

Definition eight_rows_result_set : ResultSet.t :=
  result_set (descriptor Projection false 8) eight_rows [] 2 3 [].

(** A storage of five rows with a storage of three rows appended. *)
Definition five_rows : ResultSetStorage.t :=
  rowwise_storage Projection
    (map (fun k => (k, 100 + k)) [0; 1; 2; 3; 4]).

Definition three_rows : ResultSetStorage.t :=
  rowwise_storage Projection (map (fun k => (k, 200 + k)) [0; 1; 2]).

Definition appended_result_set : ResultSet.t :=
  result_set (descriptor Projection false 8) five_rows [three_rows] 0 0 [].

(** A hash group-by result whose first entry is empty. *)
Definition sparse_result_set : ResultSet.t :=
  result_set (descriptor GroupByBaselineHash false 2) baseline_rowwise [] 0 0
    [].

(** A sorted projection: five rows and a permutation over all of them. *)
Definition sorted_result_set : ResultSet.t :=
  result_set (descriptor Projection false 5) five_rows [] 0 0 [4; 3; 2; 1; 0].

(** The rows of [eight_rows_result_set], by position. *)
Definition eight_rows_row (i : Z) : Row := [IntTV (100 + i)].

(** [eight_rows_result_set] without OFFSET and LIMIT. *)
Definition eight_rows_unlimited : ResultSet.t :=
  result_set (descriptor Projection false 8) eight_rows [] 0 0 [].

(** A row-wise storage with one key and an AVG target: sum 15, count 3. *)
Definition avg_descriptor : QueryMemoryDescriptor.t :=
  QueryMemoryDescriptor.mk GroupByBaselineHash false (-1) [8] 8 [] 1 false
    [(8, 8); (8, 8)].

Definition avg_storage : ResultSetStorage.t :=
  ResultSetStorage.mk avg_descriptor (encode_ints 8 [42; 15; 3])
    [avg_target] [0; 0].

Definition avg_result_set : ResultSet.t :=
  result_set avg_descriptor avg_storage [] 0 0 [].

End Examples.

(** The number of valid positions among [i, i + 1, ..., i + len - 1], for an
    emptiness pattern [e]. *)
Fixpoint count_valid (e : Z -> bool) (i : Z) (len : nat) : Z :=
  match len with
  | O => 0
  | S len' => (if e i then 0 else 1) + count_valid e (i + 1) len'
  end.

(** ** The row sequence of a cursor, as lists *)

(** The logical positions [c, c + 1, ..., c + len - 1]. *)
Fixpoint positions (c : Z) (len : nat) : list Z :=
  match len with
  | O => []
  | S len' => c :: positions (c + 1) len'
  end.

(** The valid positions among [c, ..., n - 1], in order, for an emptiness
    pattern [e]. *)
Definition valid_from (e : Z -> bool) (n c : Z) : list Z :=
  filter (fun i => negb (e i)) (positions c (Z.to_nat (n - c))).

Definition valid_positions (e : Z -> bool) (n : Z) : list Z :=
  valid_from e n 0.

(** OFFSET [drop], then LIMIT [keep]; [keep = 0] stands for no limit. *)
Definition offset_limit {A : Type} (drop keep : Z) (l : list A) : list A :=
  let l := skipn (Z.to_nat drop) l in
  if keep =? 0 then l else firstn (Z.to_nat keep) l.

(** The positions still to be yielded by a cursor that stands at position
    [c] and has fetched [f] valid entries. *)
Definition remaining (e : Z -> bool) (n drop keep c f : Z) : list Z :=
  let l := skipn (Z.to_nat (drop - f)) (valid_from e n c) in
  if keep =? 0 then l
  else firstn (Z.to_nat (drop + keep - Z.max f drop)) l.

(** The first [m] elements of [l], padded with [pad] when [l] is shorter:
    what [m] calls return once the rows of [l] are used up. *)
Fixpoint take_padded {A : Type} (pad : A) (m : nat) (l : list A) : list A :=
  match m with
  | O => []
  | S m' =>
      match l with
      | [] => pad :: take_padded pad m' []
      | x :: l' => x :: take_padded pad m' l'
      end
  end.

(** A result set with its cursor at position [c] after [f] fetched entries. *)
Definition with_cursor (rs : ResultSet.t) (c f : Z) : ResultSet.t :=
  ResultSet.set_fetched_so_far_ (ResultSet.set_crt_row_buff_idx_ rs c) f.

(** An iterator at position [c] with [f] fetched entries. *)
Definition iterator_at (translate_strings decimal_to_double : bool)
    (c g : Z) (valid : bool) (f : Z) : ResultSetRowIterator.t :=
  ResultSetRowIterator.mk c g valid f translate_strings decimal_to_double.

(** An iterator stands on the list [R] of positions when dereferencing it
    and advancing it will yield [R]: it is valid on the entry behind the
    head of [R], and the rest of [R] remains from its cursor. *)
Definition positioned (rs : ResultSet.t)
    (e : Z -> bool) (n D K : Z) (translate_strings decimal_to_double : bool)
    (iter : ResultSetRowIterator.t) (R : list Z) : Prop :=
  exists c g f,
    0 <= f <= c /\ c <= n /\
    match R with
    | [] =>
        iter = iterator_at translate_strings decimal_to_double c g false f /\
        remaining e n D K c f = []
    | p :: R' =>
        iter = iterator_at translate_strings decimal_to_double c g true f /\
        entry_idx_of rs p = Ok g /\
        0 <= p < n /\ e p = false /\ remaining e n D K c f = R'
    end.

Section RandomAccessSequence.

Context {BA : BufferAccessors} {TM : TargetMaterializers}.

(** [getRowAt(i), getRowAt(i + 1), ..., getRowAt(i + len - 1)] *)
Fixpoint getRowAt_range (rs : ResultSet.t) (i : Z) (len : nat)
    : outcome (list Row) :=
  match len with
  | O => Ok []
  | S len' =>
      row <- getRowAt rs i ;;
      rows <- getRowAt_range rs (i + 1) len' ;;
      Ok (row :: rows)
  end.

End RandomAccessSequence.

(** ** Integer narrowing *)

(** [static_cast<intN_t>] of a 64-bit integer for [N = bits]: the low [bits]
    bits, read in two's complement. *)
Definition narrow (bits : Z) (ival : Z) : Z :=
  to_signed bits (ival mod 2 ^ bits).

(** [int_resize_cast] *)
Definition int_resize_cast (ival sz : Z) : outcome Z :=
  if sz =? 8 then Ok ival
  else if sz =? 4 then Ok (narrow 32 ival)
  else if sz =? 2 then Ok (narrow 16 ival)
  else if sz =? 1 then Ok (narrow 8 ival)
  else CheckFailed.

(** ** Fragments of lazily fetched columns *)

(** [v[i]] on a [std::vector]: undefined outside the vector. *)
Definition vec_at {A : Type} (v : list A) (i : Z) : outcome A :=
  if i <? 0 then Undefined
  else match nth_error v (Z.to_nat i) with
       | Some a => Ok a
       | None => Undefined
       end.

(** The loop of [get_frag_id_and_local_idx], from fragment [frag_id] down to
    fragment 1. *)
Fixpoint get_frag_id_and_local_idx_loop (frag_offsets : list (list Z))
    (tab_or_col_idx global_idx : Z) (frag_id : nat) : outcome (Z * Z) :=
  match frag_id with
  | O => Ok (- 1, - 1)
  | S prev =>
      offsets <- vec_at frag_offsets (Z.of_nat frag_id) ;;
      CHECK (tab_or_col_idx <? Z.of_nat (length offsets)) ;;
      frag_off <- vec_at offsets tab_or_col_idx ;;
      if frag_off <? global_idx then
        if global_idx - frag_off <? 2 ^ 63
        then Ok (Z.of_nat frag_id, global_idx - frag_off)
        else Undefined   (* signed overflow *)
      else
        get_frag_id_and_local_idx_loop frag_offsets tab_or_col_idx global_idx
          prev
  end.

(** [get_frag_id_and_local_idx]; the loop starts at
    [frag_offsets.size() - 1] and does not run for an empty vector. *)
Definition get_frag_id_and_local_idx (frag_offsets : list (list Z))
    (tab_or_col_idx global_idx : Z) : outcome (Z * Z) :=
  CHECK (0 <=? global_idx) ;;
  get_frag_id_and_local_idx_loop frag_offsets tab_or_col_idx global_idx
    (length frag_offsets - 1).

Module FragmentBuffers.

(** The members of [class ResultSet] that locate the source column of a
    lazily fetched value: per storage, the column buffers of every fragment,
    the row offsets of the fragments, and the fragment size when all
    fragments of a column have the same size (else [-1]).  A column buffer
    is kept as its address. *)
Record t : Type := mk {
  col_buffers_ : list (list (list Z));
  frag_offsets_ : list (list (list Z));
  consistent_frag_sizes_ : list (list Z)
}.

End FragmentBuffers.

(** [ResultSet::getColumnFrag]: the column buffers of the fragment that
    holds [global_idx], and [global_idx] as the function leaves it. *)
Definition getColumnFrag (fb : FragmentBuffers.t)
    (storage_idx col_logical_idx global_idx : Z) : outcome (list Z * Z) :=
  CHECK (storage_idx <? Z.of_nat (length (FragmentBuffers.col_buffers_ fb))) ;;
  buffers <- vec_at (FragmentBuffers.col_buffers_ fb) storage_idx ;;
  if 1 <? Z.of_nat (length buffers) then
    sizes <- vec_at (FragmentBuffers.consistent_frag_sizes_ fb) storage_idx ;;
    size <- vec_at sizes col_logical_idx ;;
    '(frag_id, local_idx) <-
      (if negb (size =? - 1) then
         if size =? 0 then Undefined   (* division by zero *)
         else Ok (Z.quot global_idx size, Z.rem global_idx size)
       else
         offsets <- vec_at (FragmentBuffers.frag_offsets_ fb) storage_idx ;;
         '(frag_id, local_idx) <-
           get_frag_id_and_local_idx offsets col_logical_idx global_idx ;;
         CHECK (local_idx <=? global_idx) ;;
         Ok (frag_id, local_idx)) ;;
    CHECK (0 <=? frag_id) ;;
    CHECK (frag_id <? Z.of_nat (length buffers)) ;;
    frag <- vec_at buffers frag_id ;;
    Ok (frag, local_idx)
  else
    CHECK (Z.of_nat (length buffers) =? 1) ;;
    frag <- vec_at buffers 0 ;;
    Ok (frag, global_idx).

(** The row offset of fragment [frag_id] for column [tab_or_col_idx]:
    [frag_offsets[frag_id][tab_or_col_idx]]. *)
Definition frag_offset (frag_offsets : list (list Z))
    (tab_or_col_idx frag_id : Z) : outcome Z :=
  offsets <- vec_at frag_offsets frag_id ;;
  vec_at offsets tab_or_col_idx.

(** ** Skipped targets *)

(** A row with the targets marked in [targets_to_skip] replaced by
    [NullableString(nullptr)]. *)
Definition skip_targets (targets_to_skip : list bool) (row : Row) : Row :=
  map (fun sv : bool * TargetValue =>
         if fst sv then NullStringTV else snd sv)
    (combine targets_to_skip row).

(** ** Further sample result sets *)

Module Samples.

Import Reference.

(** A row-wise hash group-by output with one 8-byte key and two 8-byte
    targets: the entry [(7; 10, 20)], then an empty entry. *)
Definition two_targets_descriptor : QueryMemoryDescriptor.t :=
  QueryMemoryDescriptor.mk GroupByBaselineHash false (-1) [8] 8 [] 2 false
    [(8, 8); (8, 8)].

Definition two_targets_storage : ResultSetStorage.t :=
  ResultSetStorage.mk two_targets_descriptor
    (encode_ints 8 [7; 10; 20; empty_key; 0; 0])
    [plain_target; plain_target] [0; 0].

Definition two_targets_result_set : ResultSet.t :=
  result_set two_targets_descriptor two_targets_storage [] 0 0 [].

(** The result of an EXPLAIN: no storage, only the text of the plan (here
    the one-letter text [p]). *)
Definition plan_text : String.string :=
  String.String (Ascii.Ascii false false false false true true true false)
    String.EmptyString.

Definition explain_result_set : ResultSet.t :=
  ResultSet.mk (descriptor Projection false 0) None [] 0 0 0 0 [] false
    plan_text true.

(** The projection of [Examples.projection_storage] as a result set. *)
Definition projection_result_set : ResultSet.t :=
  result_set (descriptor Projection false 4) Examples.projection_storage []
    0 0 [].

End Samples.

(** *** Access to one cell *)

Section CellAccess.

Context {BA : BufferAccessors} {TM : TargetMaterializers}.

(** [ResultSet::moveToBegin] is declared in [ResultSet.h] and defined outside
    the sources: it is a parameter of the functions that call it. *)
Variable moveToBegin : ResultSet.t -> ResultSet.t.

(** The loop of [ResultSet::getRowAt(row_idx, col_idx, ...)] that reads and
    drops the first [row_idx] rows. *)
Fixpoint getRowAt_cell_loop (n : nat) (translate_strings decimal_to_double : bool)
    (rs : ResultSet.t) : outcome ResultSet.t :=
  match n with
  | O => Ok rs
  | S n' =>
      '(crt_row, rs) <- getNextRowUnlocked translate_strings decimal_to_double
                          rs ;;
      CHECK (negb (Nat.eqb (length crt_row) 0)) ;;
      getRowAt_cell_loop n' translate_strings decimal_to_double rs
  end.

(** [ResultSet::getRowAt(row_idx, col_idx, translate_strings,
    decimal_to_double)]: the value, and the result set with the cursor where
    the call leaves it. *)
Definition getRowAt_cell (rs : ResultSet.t) (row_idx col_idx : Z)
    (translate_strings decimal_to_double : bool)
    : outcome (TargetValue * ResultSet.t) :=
  let rs := moveToBegin rs in
  rs <- getRowAt_cell_loop (Z.to_nat row_idx) translate_strings
          decimal_to_double rs ;;
  '(crt_row, rs) <- getNextRowUnlocked translate_strings decimal_to_double
                      rs ;;
  CHECK (negb (Nat.eqb (length crt_row) 0)) ;;
  v <- vec_at crt_row col_idx ;;
  Ok (v, rs).

End CellAccess.

(** *** Single-column rows *)

Section OneColumn.

Context {BA : BufferAccessors} {TM : TargetMaterializers}.

(** [ResultSet::getOneColRow], which returns a [OneIntegerColumnRow]
    [{value, valid}]; [targets] is the result set's own [targets_] member,
    whose [front()] the function reads. *)
Definition getOneColRow (targets : list TargetInfo) (rs : ResultSet.t)
    (global_entry_idx : Z) : outcome (Z * bool) :=
  storage_lookup_result <- findStorage rs global_entry_idx ;;
  let storage := ResultSet.storage_ptr storage_lookup_result in
  let local_entry_idx := ResultSet.fixedup_entry_idx storage_lookup_result in
  empty <- isEmptyEntry storage local_entry_idx ;;
  if empty then Ok (0, false)
  else
    let d := ResultSet.query_mem_desc_ rs in
    let buff := ResultSetStorage.buff_ storage in
    CHECK (negb (QueryMemoryDescriptor.didOutputColumnar d)) ;;
    let keys_ptr := row_ptr_rowwise d local_entry_idx in
    let key_bytes_with_padding :=
      align_to_int64 (get_key_bytes_rowwise d) in
    let rowwise_target_ptr := keys_ptr + key_bytes_with_padding in
    match targets with
    | [] => Undefined   (* front() of an empty vector *)
    | front :: _ =>
        tv <- getTargetValueFromBufferRowwise d
                (ResultSet.separate_varlen_storage_valid_ rs) buff
                rowwise_target_ptr keys_ptr global_entry_idx front 0 0
                false false false ;;
        match tv with
        | IntTV ival => Ok (ival, true)
        | _ => CheckFailed   (* not a scalar, or not an int64_t *)
        end
    end.

End OneColumn.

(** ** Direct access to columns *)

(** The layout queries of [QueryMemoryDescriptor] and [ResultSet] that are
    only declared in the sources and that direct columnar access relies
    on. *)
Class ColumnarAccessors : Type := {
  getSlotCount : QueryMemoryDescriptor.t -> Z;
  getColOffInBytes : QueryMemoryDescriptor.t -> Z -> Z;
  getRowSize : QueryMemoryDescriptor.t -> Z;
  isDirectColumnarConversionPossible : ResultSet.t -> bool
}.

(** The [n] bytes at offset [p] of a buffer, as [memcpy] reads them. *)
Definition read_bytes (buff : Buffer) (p n : Z) : outcome (list byte) :=
  if (p <? 0) || (n <? 0) || (Z.of_nat (length buff) <? p + n) then Undefined
  else Ok (firstn (Z.to_nat n) (skipn (Z.to_nat p) buff)).

(** A buffer with [src] written at offset [p], as [memcpy] writes it. *)
Definition write_bytes (dst : Buffer) (p : Z) (src : list byte)
    : outcome Buffer :=
  if (p <? 0) || (Z.of_nat (length dst) <? p + Z.of_nat (length src))
  then Undefined
  else Ok (firstn (Z.to_nat p) dst ++ src
           ++ skipn (Z.to_nat p + length src) dst).

Section ColumnCopy.

Context {BA : BufferAccessors} {CA : ColumnarAccessors}.

(** The loop of [ResultSet::copyColumnIntoBuffer] over the appended
    storages. *)
Fixpoint copyColumnIntoBuffer_loop (appended : list ResultSetStorage.t)
    (column_idx column_width_size output_buffer_size : Z)
    (out_buff_offset : Z) (output_buffer : Buffer) : outcome Buffer :=
  match appended with
  | [] => Ok output_buffer
  | s :: rest =>
      let crt_storage_row_count :=
        QueryMemoryDescriptor.getEntryCount
          (ResultSetStorage.query_mem_desc_ s) in
      if crt_storage_row_count =? 0 then
        copyColumnIntoBuffer_loop rest column_idx column_width_size
          output_buffer_size out_buff_offset output_buffer
      else
        CHECK (out_buff_offset <? output_buffer_size) ;;
        let crt_buffer_size :=
          to_size_t (crt_storage_row_count * to_size_t column_width_size) in
        let column_offset :=
          getColOffInBytes (ResultSetStorage.query_mem_desc_ s) column_idx in
        CHECK (to_size_t (out_buff_offset + crt_buffer_size)
               <=? output_buffer_size) ;;
        bytes <- read_bytes (ResultSetStorage.buff_ s) column_offset
                   crt_buffer_size ;;
        output_buffer <- write_bytes output_buffer out_buff_offset bytes ;;
        copyColumnIntoBuffer_loop rest column_idx column_width_size
          output_buffer_size (to_size_t (out_buff_offset + crt_buffer_size))
          output_buffer
  end.

(** [ResultSet::copyColumnIntoBuffer]: the output buffer after the call.
    The buffer of a storage is its [getUnderlyingBuffer()]. *)
Definition copyColumnIntoBuffer (rs : ResultSet.t) (column_idx : Z)
    (output_buffer : Buffer) (output_buffer_size : Z) : outcome Buffer :=
  CHECK (isDirectColumnarConversionPossible rs) ;;
  CHECK (column_idx <? getSlotCount (ResultSet.query_mem_desc_ rs)) ;;
  CHECK (0 <? output_buffer_size) ;;
  column_width_size <-
    getPaddedSlotWidthBytes (ResultSet.query_mem_desc_ rs) column_idx ;;
  match ResultSet.storage_ rs with
  | None => Undefined
  | Some storage =>
      let crt_storage_row_count :=
        QueryMemoryDescriptor.getEntryCount
          (ResultSetStorage.query_mem_desc_ storage) in
      let crt_buffer_size :=
        to_size_t (crt_storage_row_count * to_size_t column_width_size) in
      let column_offset :=
        getColOffInBytes (ResultSetStorage.query_mem_desc_ storage)
          column_idx in
      CHECK (crt_buffer_size <=? output_buffer_size) ;;
      bytes <- read_bytes (ResultSetStorage.buff_ storage) column_offset
                 crt_buffer_size ;;
      output_buffer <- write_bytes output_buffer 0 bytes ;;
      copyColumnIntoBuffer_loop (ResultSet.appended_storage_ rs) column_idx
        column_width_size output_buffer_size crt_buffer_size output_buffer
  end.

(** The bytes of column [column_idx] in a storage: [getEntryCount()] values
    of [column_width_size] bytes from the offset of the column. *)
Definition column_bytes (column_idx column_width_size : Z)
    (s : ResultSetStorage.t) : outcome (list byte) :=
  read_bytes (ResultSetStorage.buff_ s)
    (getColOffInBytes (ResultSetStorage.query_mem_desc_ s) column_idx)
    (to_size_t (QueryMemoryDescriptor.getEntryCount
                  (ResultSetStorage.query_mem_desc_ s)
                * to_size_t column_width_size)).

(** The columns of several storages, one after the other. *)
Fixpoint columns_bytes (column_idx column_width_size : Z)
    (storages : list ResultSetStorage.t) : outcome (list byte) :=
  match storages with
  | [] => Ok []
  | s :: rest =>
      bytes <- column_bytes column_idx column_width_size s ;;
      more <- columns_bytes column_idx column_width_size rest ;;
      Ok (bytes ++ more)
  end.

(** The appended storages that hold entries; [copyColumnIntoBuffer] skips
    the others. *)
Definition non_empty_storages (appended : list ResultSetStorage.t)
    : list ResultSetStorage.t :=
  filter (fun s => negb (QueryMemoryDescriptor.getEntryCount
                           (ResultSetStorage.query_mem_desc_ s) =? 0))
    appended.

(** [ResultSet::getColumnarPerfectHashEntryAt<ENTRY_TYPE>] for an integer
    [ENTRY_TYPE] of [nbytes] bytes. *)
Definition getColumnarPerfectHashEntryAt (nbytes : nat) (rs : ResultSet.t)
    (row_idx target_idx slot_idx : Z) : outcome Z :=
  match ResultSet.storage_ rs with
  | None => Undefined
  | Some storage =>
      let column_offset :=
        getColOffInBytes (ResultSetStorage.query_mem_desc_ storage)
          slot_idx in
      load_int nbytes (ResultSetStorage.buff_ storage)
        (column_offset + Z.of_nat nbytes * row_idx)
  end.

(** [ResultSet::getRowWisePerfectHashEntryAt<ENTRY_TYPE>] *)
Definition getRowWisePerfectHashEntryAt (nbytes : nat) (rs : ResultSet.t)
    (row_idx target_idx slot_idx : Z) : outcome Z :=
  match ResultSet.storage_ rs with
  | None => Undefined
  | Some storage =>
      let d := ResultSetStorage.query_mem_desc_ storage in
      let row_offset := to_size_t (getRowSize d * row_idx) in
      let column_offset := getColOffInBytes d slot_idx in
      load_int nbytes (ResultSetStorage.buff_ storage)
        (row_offset + column_offset)
  end.

(** [ResultSet::getRowWiseBaselineEntryAt<ENTRY_TYPE>] *)
Definition getRowWiseBaselineEntryAt (nbytes : nat) (rs : ResultSet.t)
    (row_idx target_idx slot_idx : Z) : outcome Z :=
  match ResultSet.storage_ rs with
  | None => Undefined
  | Some storage =>
      let d := ResultSetStorage.query_mem_desc_ storage in
      CHECK (negb (QueryMemoryDescriptor.targetGroupbyIndicesSize d =? 0)) ;;
      let key_width := QueryMemoryDescriptor.getEffectiveKeyWidth d in
      let keys_ptr := row_ptr_rowwise d row_idx in
      key_idx <- QueryMemoryDescriptor.getTargetGroupbyIndex d target_idx ;;
      let column_offset :=
        if key_idx <? 0 then getColOffInBytes d slot_idx
        else to_size_t (to_size_t key_idx * key_width) in
      load_int nbytes (ResultSetStorage.buff_ storage)
        (keys_ptr + column_offset)
  end.

(** [ResultSet::getColumnarBaselineEntryAt<ENTRY_TYPE>] *)
Definition getColumnarBaselineEntryAt (nbytes : nat) (rs : ResultSet.t)
    (row_idx target_idx slot_idx : Z) : outcome Z :=
  match ResultSet.storage_ rs with
  | None => Undefined
  | Some storage =>
      let d := ResultSetStorage.query_mem_desc_ storage in
      CHECK (negb (QueryMemoryDescriptor.targetGroupbyIndicesSize d =? 0)) ;;
      let key_width := QueryMemoryDescriptor.getEffectiveKeyWidth d in
      key_idx <- QueryMemoryDescriptor.getTargetGroupbyIndex d target_idx ;;
      let column_offset :=
        if key_idx <? 0 then getColOffInBytes d slot_idx
        else to_size_t (to_size_t (to_size_t key_idx * key_width)
                        * QueryMemoryDescriptor.getEntryCount d) in
      load_int nbytes (ResultSetStorage.buff_ storage)
        (column_offset + Z.of_nat nbytes * row_idx)
  end.

(** [ResultSet::getEntryAt<ENTRY_TYPE, QUERY_TYPE, COLUMNAR_FORMAT>] *)
Definition getEntryAt (nbytes : nat) (query_type : QueryDescriptionType)
    (columnar_format : bool) (rs : ResultSet.t)
    (row_idx target_idx slot_idx : Z) : outcome Z :=
  match query_type with
  | GroupByPerfectHash =>
      if columnar_format then
        getColumnarPerfectHashEntryAt nbytes rs row_idx target_idx slot_idx
      else getRowWisePerfectHashEntryAt nbytes rs row_idx target_idx slot_idx
  | GroupByBaselineHash =>
      if columnar_format then
        getColumnarBaselineEntryAt nbytes rs row_idx target_idx slot_idx
      else getRowWiseBaselineEntryAt nbytes rs row_idx target_idx slot_idx
  | _ => CheckFailed
  end.

End ColumnCopy.

(** A reference implementation of [ColumnarAccessors] for the columnar
    layout of [Reference.accessors]: the key columns, then one column per
    slot, each aligned to eight bytes. *)
Module ReferenceColumns.

Import Reference.

Definition slot_columns_bytes (d : QueryMemoryDescriptor.t) (upto : nat) : Z :=
  fold_right
    (fun w acc => align8 (fst w * QueryMemoryDescriptor.getEntryCount d) + acc)
    0 (firstn upto (QueryMemoryDescriptor.col_slot_context_ d)).

Definition columnar_accessors : ColumnarAccessors := {|
  getSlotCount := fun d =>
    Z.of_nat (length (QueryMemoryDescriptor.col_slot_context_ d));
  getColOffInBytes := fun d col_idx =>
    key_columns_bytes d (length (QueryMemoryDescriptor.group_col_widths_ d))
    + slot_columns_bytes d (Z.to_nat col_idx);
  getRowSize := row_bytes;
  isDirectColumnarConversionPossible := fun rs =>
    QueryMemoryDescriptor.didOutputColumnar (ResultSet.query_mem_desc_ rs)
|}.

(** Two columnar storages of a perfect-hash group-by with one 8-byte key and
    one 8-byte slot: entries [(1, 10); (2, 20)] and [(3, 30)]. *)
Definition first_part : ResultSetStorage.t :=
  columnar_storage GroupByPerfectHash [(1, 10); (2, 20)].

Definition second_part : ResultSetStorage.t :=
  columnar_storage GroupByPerfectHash [(3, 30)].

Definition two_parts : ResultSet.t :=
  result_set (descriptor GroupByPerfectHash true 3) first_part [second_part]
    0 0 [].

End ReferenceColumns.

(** ** Target accessors of the sort comparator *)

(** [struct ResultSet::TargetOffsets].  A pointer is a byte offset, from
    the start of the targets of a row in the row-wise accessor and from the
    start of the buffer in the column-wise one; [None] is [nullptr]. *)
Record TargetOffsets : Type := mkTargetOffsets {
  ptr1 : Z;
  compact_sz1 : Z;      (* size_t *)
  ptr2 : option Z;
  compact_sz2 : Z       (* size_t *)
}.

Section TargetAccessors.

Context {BA : BufferAccessors} {TM : TargetMaterializers}.

(** The loop over the targets in
    [ResultSet::RowWiseTargetAccessor::initializeOffsetsForStorage]. *)
Fixpoint RowWiseTargetAccessor_offsets (rs : ResultSet.t) (key_width : Z)
    (targets : list TargetInfo) (rowwise_target_ptr agg_col_idx : Z)
    : outcome (list TargetOffsets) :=
  let d := ResultSet.query_mem_desc_ rs in
  let separate_varlen := ResultSet.separate_varlen_storage_valid_ rs in
  match targets with
  | [] => Ok []
  | agg_info :: rest =>
      let ptr1 := rowwise_target_ptr in
      w <- getPaddedSlotWidthBytes d agg_col_idx ;;
      let compact_sz1 := if negb (w =? 0) then to_size_t w else key_width in
      '(ptr2, compact_sz2) <-
        (if is_agg agg_info && SQLAgg_eqb (agg_kind agg_info) kAVG then
           w2 <- getPaddedSlotWidthBytes d (to_size_t (agg_col_idx + 1)) ;;
           Ok (Some (ptr1 + compact_sz1), w2)
         else if is_real_str_or_array agg_info then
           if negb separate_varlen then
             w2 <- getPaddedSlotWidthBytes d (to_size_t (agg_col_idx + 1)) ;;
             Ok (Some (ptr1 + compact_sz1), w2)
           else Ok (Some (ptr1 + compact_sz1), 0)
         else Ok (None, 0)) ;;
      tl <- RowWiseTargetAccessor_offsets rs key_width rest
              (advance_target_ptr_row_wise rowwise_target_ptr agg_info
                 agg_col_idx d separate_varlen)
              (advance_slot agg_col_idx agg_info separate_varlen) ;;
      Ok (mkTargetOffsets ptr1 compact_sz1 ptr2 (to_size_t compact_sz2) :: tl)
  end.

(** The loop over the storages, [storage_idx = appended.size() + 1 - n, ...,
    appended.size()], with the [CHECK_EQ] that ends each round. *)
Fixpoint RowWiseTargetAccessor_storages (rs : ResultSet.t) (key_width : Z)
    (targets : list TargetInfo) (n : nat)
    : outcome (list (list TargetOffsets)) :=
  match n with
  | O => Ok []
  | S n' =>
      offsets <- RowWiseTargetAccessor_offsets rs key_width targets 0 0 ;;
      CHECK (Nat.eqb (length offsets) (length targets)) ;;
      tl <- RowWiseTargetAccessor_storages rs key_width targets n' ;;
      Ok (offsets :: tl)
  end.

(** [ResultSet::RowWiseTargetAccessor::initializeOffsetsForStorage]: the
    [offsets_for_storage_] it builds, with [key_width_] as the constructor
    sets it. *)
Definition RowWiseTargetAccessor_initializeOffsetsForStorage
    (rs : ResultSet.t) : outcome (list (list TargetOffsets)) :=
  let key_width :=
    QueryMemoryDescriptor.getEffectiveKeyWidth (ResultSet.query_mem_desc_ rs) in
  match ResultSet.storage_ rs with
  | None =>
      (* the loop runs at least once and reads through [storage_] *)
      Undefined
  | Some storage =>
      RowWiseTargetAccessor_storages rs key_width
        (ResultSetStorage.targets_ storage)
        (S (length (ResultSet.appended_storage_ rs)))
  end.

(** The loop over the targets in
    [ResultSet::ColumnWiseTargetAccessor::initializeOffsetsForStorage], for
    the storage with descriptor [crt_query_mem_desc]. *)
Fixpoint ColumnWiseTargetAccessor_offsets (rs : ResultSet.t) (key_width : Z)
    (crt_query_mem_desc : QueryMemoryDescriptor.t)
    (targets : list TargetInfo) (crt_col_ptr agg_col_idx : Z)
    : outcome (list TargetOffsets) :=
  let separate_varlen := ResultSet.separate_varlen_storage_valid_ rs in
  match targets with
  | [] => Ok []
  | agg_info :: rest =>
      w <- getPaddedSlotWidthBytes crt_query_mem_desc agg_col_idx ;;
      let compact_sz1 := if negb (w =? 0) then to_size_t w else key_width in
      let next_col_ptr :=
        advance_to_next_columnar_target_buff crt_col_ptr crt_query_mem_desc
          agg_col_idx in
      let uses_two_slots :=
        (is_agg agg_info && SQLAgg_eqb (agg_kind agg_info) kAVG)
        || is_real_str_or_array agg_info in
      let col2_ptr := if uses_two_slots then Some next_col_ptr else None in
      compact_sz2 <-
        (if uses_two_slots then
           getPaddedSlotWidthBytes crt_query_mem_desc
             (to_size_t (agg_col_idx + 1))
         else Ok 0) ;;
      let crt_col_ptr' :=
        if uses_two_slots then
          advance_to_next_columnar_target_buff next_col_ptr
            crt_query_mem_desc (to_size_t (agg_col_idx + 1))
        else next_col_ptr in
      tl <- ColumnWiseTargetAccessor_offsets rs key_width crt_query_mem_desc
              rest crt_col_ptr'
              (advance_slot agg_col_idx agg_info separate_varlen) ;;
      Ok (mkTargetOffsets crt_col_ptr compact_sz1 col2_ptr
            (to_size_t compact_sz2) :: tl)
  end.

(** The loop over the storages: the primary storage, then the appended
    ones.  A storage of the model always has a buffer, so [CHECK(buff)]
    passes. *)
Fixpoint ColumnWiseTargetAccessor_storages (rs : ResultSet.t) (key_width : Z)
    (targets : list TargetInfo) (storages : list ResultSetStorage.t)
    : outcome (list (list TargetOffsets)) :=
  match storages with
  | [] => Ok []
  | s :: rest =>
      let crt_query_mem_desc := ResultSetStorage.query_mem_desc_ s in
      offsets <- ColumnWiseTargetAccessor_offsets rs key_width
                   crt_query_mem_desc targets
                   (get_cols_ptr crt_query_mem_desc) 0 ;;
      CHECK (Nat.eqb (length offsets) (length targets)) ;;
      tl <- ColumnWiseTargetAccessor_storages rs key_width targets rest ;;
      Ok (offsets :: tl)
  end.

(** [ResultSet::ColumnWiseTargetAccessor::initializeOffsetsForStorage] *)
Definition ColumnWiseTargetAccessor_initializeOffsetsForStorage
    (rs : ResultSet.t) : outcome (list (list TargetOffsets)) :=
  let key_width :=
    QueryMemoryDescriptor.getEffectiveKeyWidth (ResultSet.query_mem_desc_ rs) in
  match ResultSet.storage_ rs with
  | None => Undefined
  | Some storage =>
      ColumnWiseTargetAccessor_storages rs key_width
        (ResultSetStorage.targets_ storage)
        (storage :: ResultSet.appended_storage_ rs)
  end.

(** The slot at which the target at position [k] starts: [agg_col_idx]
    when the loops above reach that target. *)
Fixpoint target_slot (separate_varlen : bool) (targets : list TargetInfo)
    (agg_col_idx : Z) (k : nat) : Z :=
  match k, targets with
  | S k', agg_info :: rest =>
      target_slot separate_varlen rest
        (advance_slot agg_col_idx agg_info separate_varlen) k'
  | _, _ => agg_col_idx
  end.

End TargetAccessors.

Module AccessorSamples.

Import Reference.

(** A columnar perfect-hash output of two entries with one 8-byte key, an
    average (slots 0 and 1) and a plain target (slot 2). *)
Definition avg_descriptor : QueryMemoryDescriptor.t :=
  QueryMemoryDescriptor.mk GroupByPerfectHash false (-1) [8] 8 [] 2 true
    [(8, 8); (8, 8); (8, 8)].

Definition avg_storage : ResultSetStorage.t :=
  ResultSetStorage.mk avg_descriptor
    (encode_ints 8 [1; 2; 10; 20; 2; 4; 5; 6])
    [avg_target; plain_target] [0; 0; 0].

Definition avg_result_set : ResultSet.t :=
  result_set avg_descriptor avg_storage [avg_storage] 0 0 [].

End AccessorSamples.

(** ** Lazily fetched values *)

(** [struct ColumnLazyFetchInfo], with the fields the code reads. *)
Record ColumnLazyFetchInfo : Type := mkColumnLazyFetchInfo {
  is_lazily_fetched : bool;
  local_col_id : Z;              (* int *)
  lazy_fetch_type : SQLTypeInfo  (* type *)
}.

(** [struct VarlenDatum], with the fields the code reads. *)
Record VarlenDatum : Type := mkVarlenDatum {
  vd_length : Z;
  vd_pointer : Z;
  vd_is_null : bool
}.

(** The decoders of fetched columns are declared outside the sources and
    are parameters: [result_set::lazy_decode]; [ChunkIter_get_nth], which
    gives the datum and the end flag; and the address of the copy that
    [row_set_mem_owner_->addString] keeps of the string of the given length
    at the given address. *)
Class LazyFetchers : Type := {
  lazy_decode : ColumnLazyFetchInfo -> Z -> Z -> Z;
  ChunkIter_get_nth : Z -> Z -> VarlenDatum * bool;
  addString : Z -> Z -> Z
}.

(** [ResultSet::areAnyColumnsLazyFetched] *)
Definition areAnyColumnsLazyFetched
    (lazy_fetch_info_ : list ColumnLazyFetchInfo) : bool :=
  existsb is_lazily_fetched lazy_fetch_info_.

(** [ResultSet::getNumColumnsLazyFetched] *)
Definition getNumColumnsLazyFetched
    (lazy_fetch_info_ : list ColumnLazyFetchInfo) : Z :=
  Z.of_nat (length (filter is_lazily_fetched lazy_fetch_info_)).

Section LazyFetch.

Context {LF : LazyFetchers}.

(** [ResultSet::lazyReadInt]; the members [lazy_fetch_info_] and [targets_]
    of the result set and its fragment buffers are arguments. *)
Definition lazyReadInt (lazy_fetch_info_ : list ColumnLazyFetchInfo)
    (targets_ : list TargetInfo) (fb : FragmentBuffers.t)
    (ival target_logical_idx : Z)
    (storage_lookup_result : ResultSet.StorageLookupResult) : outcome Z :=
  match lazy_fetch_info_ with
  | _ :: _ =>
      CHECK (target_logical_idx <? Z.of_nat (length lazy_fetch_info_)) ;;
      col_lazy_fetch <- vec_at lazy_fetch_info_ target_logical_idx ;;
      if is_lazily_fetched col_lazy_fetch then
        let storage_idx := ResultSet.storage_idx storage_lookup_result in
        CHECK (storage_idx
               <? Z.of_nat (length (FragmentBuffers.col_buffers_ fb))) ;;
        '(frag_col_buffers, ival_copy) <-
          getColumnFrag fb storage_idx target_logical_idx ival ;;
        frag_col_buffer <-
          vec_at frag_col_buffers (local_col_id col_lazy_fetch) ;;
        CHECK (target_logical_idx <? Z.of_nat (length targets_)) ;;
        target_info <- vec_at targets_ target_logical_idx ;;
        CHECK (negb (is_agg target_info)) ;;
        if is_string (sql_type target_info)
           && is_none_encoded (sql_type target_info) then
          let '(vd, is_end) := ChunkIter_get_nth frag_col_buffer ival_copy in
          CHECK (negb is_end) ;;
          if vd_is_null vd then Ok 0
          else Ok (addString (vd_pointer vd) (vd_length vd))
        else Ok (lazy_decode col_lazy_fetch frag_col_buffer ival_copy)
      else Ok ival
  | [] => Ok ival
  end.

End LazyFetch.

Module LazySamples.

(** Decoders that show which buffer and which row were asked for: the
    decoded value is the address of the column buffer plus the row. *)
Definition fetchers : LazyFetchers := {|
  lazy_decode := fun _ frag_col_buffer i => frag_col_buffer + i;
  ChunkIter_get_nth := fun _ _ => (mkVarlenDatum 0 0 true, false);
  addString := fun pointer _ => pointer
|}.

(** Two columns, the second lazily fetched from local column 1. *)
Definition lazy_fetch_info : list ColumnLazyFetchInfo :=
  [mkColumnLazyFetchInfo false 0 Reference.integer_type;
   mkColumnLazyFetchInfo true 1 Reference.integer_type].

(** One storage with three fragments of ten rows; every fragment has two
    column buffers. *)
Definition fragments : FragmentBuffers.t :=
  FragmentBuffers.mk [[[1000; 1100]; [2000; 2100]; [3000; 3100]]]
    [[[0; 0]; [10; 10]; [20; 20]]] [[10; 10]].

End LazySamples.

(** ** Direct fetch of a lazily fetched column value *)

(** The types [T] for which [ResultSet::fetchLazyColumnValue<T>] is
    instantiated. *)
Inductive LazyValueType : Type :=
| T_bool | T_int8 | T_int16 | T_int32 | T_int64 | T_float | T_double.

(** A value of one of these types; a [float] is kept as its binary32
    value. *)
Inductive LazyValue : Type :=
| BoolValue (b : bool)
| IntValue (v : Z)
| FloatValue (f : SpecFloat.spec_float)
| DoubleValue (d : float).

(** [static_cast<float>] of a double: rounding to binary32, to nearest with
    ties to even. *)
Definition double_to_float (d : float) : SpecFloat.spec_float :=
  match FloatOps.Prim2SF d with
  | SpecFloat.S754_finite s m e => SpecFloat.binary_round 24 128 s m e
  | x => x
  end.

(** [convert_value<T>] *)
Definition convert_value (T : LazyValueType) (ival : Z) : LazyValue :=
  match T with
  | T_float => FloatValue (double_to_float (double_of_bits ival))
  | T_double => DoubleValue (double_of_bits ival)
  | T_bool => BoolValue (negb (ival =? 0))
  | T_int8 => IntValue (narrow 8 ival)
  | T_int16 => IntValue (narrow 16 ival)
  | T_int32 => IntValue (narrow 32 ival)
  | T_int64 => IntValue ival
  end.

(** [sizeof(T)] for the integer types. *)
Definition sizeof_int (T : LazyValueType) : option Z :=
  match T with
  | T_int8 => Some 1
  | T_int16 => Some 2
  | T_int32 => Some 4
  | T_int64 => Some 8
  | _ => None
  end.

Section DirectFetch.

Context {BA : BufferAccessors} {TM : TargetMaterializers} {LF : LazyFetchers}.

(** [ResultSet::getKeyInfo]: the pair [(key_ptr, key_width)]; [buff] is the
    buffer of [storage], in which [key_ptr] is an offset. *)
Definition getKeyInfo (storage : ResultSetStorage.t)
    (col_idx local_entry_idx : Z) : outcome (Z * Z) :=
  let query_mem_desc := ResultSetStorage.query_mem_desc_ storage in
  plain <- not_groupby_passthrough query_mem_desc col_idx ;;
  if plain then
    let crt_col_ptr := get_cols_ptr query_mem_desc in
    let col_ptr :=
      if col_idx =? 0 then crt_col_ptr
      else advance_to_next_columnar_target_buff crt_col_ptr query_mem_desc
             col_idx in
    key_width <- getPaddedSlotWidthBytes query_mem_desc col_idx ;;
    let key_ptr := columnar_elem_ptr local_entry_idx col_ptr key_width in
    Ok (key_ptr, to_size_t key_width)
  else
    let key_width := QueryMemoryDescriptor.getEffectiveKeyWidth query_mem_desc in
    key_idx <- QueryMemoryDescriptor.getTargetGroupbyIndex query_mem_desc
                 col_idx ;;
    let key_col_ptr :=
      to_size_t (to_size_t (to_size_t key_idx
                            * QueryMemoryDescriptor.getEntryCount
                                query_mem_desc)
                 * key_width) in
    let key_ptr :=
      columnar_elem_ptr local_entry_idx key_col_ptr (to_int8 key_width) in
    Ok (key_ptr, key_width).

(** [ResultSet::fetchLazyColumnValue<T>]: the value written to
    [*output_ptr].  The member [lazy_fetch_info_] and the fragment buffers
    are arguments.  A storage of the model always has a buffer, so
    [CHECK(buff)] passes. *)
Definition fetchLazyColumnValue (T : LazyValueType) (rs : ResultSet.t)
    (lazy_fetch_info_ : list ColumnLazyFetchInfo) (fb : FragmentBuffers.t)
    (global_entry_idx col_idx : Z) : outcome LazyValue :=
  col_lazy_fetch <- vec_at lazy_fetch_info_ col_idx ;;
  storage_lookup_result <- findStorage rs global_entry_idx ;;
  let storage := ResultSet.storage_ptr storage_lookup_result in
  let local_entry_idx := ResultSet.fixedup_entry_idx storage_lookup_result in
  let buff := ResultSetStorage.buff_ storage in
  '(key_ptr, key_width) <- getKeyInfo storage col_idx local_entry_idx ;;
  ival <- read_int_from_buff buff key_ptr (to_int8 key_width) ;;
  CHECK (0 <=? ival) ;;
  storage_idx <- getStorageIndex rs global_entry_idx ;;
  CHECK (fst storage_idx
         <? Z.of_nat (length (FragmentBuffers.col_buffers_ fb))) ;;
  '(frag_col_buffers, ival) <-
    getColumnFrag fb (fst storage_idx) col_idx ival ;;
  frag_col_buffer <- vec_at frag_col_buffers (local_col_id col_lazy_fetch) ;;
  Ok (convert_value T (lazy_decode col_lazy_fetch frag_col_buffer ival)).

End DirectFetch.

Module DirectFetchSamples.

Import Reference.

(** A columnar projection of two entries whose slot holds row numbers of
    the source table: rows 25 and 7. *)
Definition row_ids_storage : ResultSetStorage.t :=
  columnar_storage Projection [(0, 25); (1, 7)].

Definition row_ids_result_set : ResultSet.t :=
  result_set (descriptor Projection true 2) row_ids_storage [] 0 0 [].

(** The one column is lazily fetched from local column 1. *)
Definition lazy_fetch_info : list ColumnLazyFetchInfo :=
  [mkColumnLazyFetchInfo true 1 integer_type].

End DirectFetchSamples.

(** ** Loops that collect *)

(** A loop that computes one result for each element of a list, in order,
    and stops at the first failure: the shape of a [for] loop whose body
    ends in [emplace_back], without any other check. *)
Fixpoint collect {A B : Type} (f : A -> outcome B) (l : list A)
    : outcome (list B) :=
  match l with
  | [] => Ok []
  | x :: rest =>
      y <- f x ;;
      tl <- collect f rest ;;
      Ok (y :: tl)
  end.

(** * Properties *)

(** ** Basic facts *)

Lemma QueryDescriptionType_eqb_spec (a b : QueryDescriptionType) :
  reflect (a = b) (QueryDescriptionType_eqb a b).
Proof. destruct a, b; simpl; constructor; congruence. Qed.

Lemma to_size_t_small (z : Z) : 0 <= z < 2 ^ 64 -> to_size_t z = z.
Proof. intros H. unfold to_size_t, size_t_modulus. apply Z.mod_small. exact H. Qed.

Lemma bind_Ok {A B : Type} (c : outcome A) (k : A -> outcome B) (b : B) :
  bind c k = Ok b -> exists a, c = Ok a /\ k a = Ok b.
Proof. destruct c; simpl; intros H; try discriminate. eauto. Qed.

Ltac inv_bind H :=
  let a := fresh "v" in
  let Ha := fresh "Hv" in
  apply bind_Ok in H; destruct H as [a [Ha H]].

Ltac inv_check H :=
  match type of H with
  | (if ?b then _ else CheckFailed) = Ok _ =>
      let E := fresh "Hchk" in
      destruct b eqn:E; [ | discriminate H ]
  end.

(** ** Binary search for the row count *)

Section BinarySearch.

Variable is_empty_fn : Z -> outcome bool.
Variable e : Z -> bool.
Variable n : Z.

Hypothesis fn_total : forall i, 0 <= i < n -> is_empty_fn i = Ok (e i).
Hypothesis packed : forall i j, 0 <= i <= j -> j < n -> e i = true -> e j = true.
Hypothesis n_bound : n <= 2 ^ 63.

Lemma make_bin_search_loop_correct (fuel : nat) :
  forall l r,
    0 <= l <= r -> r < n -> r - l < 2 ^ Z.of_nat fuel ->
    (forall i, 0 <= i < l -> e i = false) -> e r = true ->
    exists k, make_bin_search_loop fuel l r is_empty_fn = Ok k /\
              l <= k <= r /\ (forall i, 0 <= i < k -> e i = false) /\
              e k = true.
Proof.
  induction fuel as [| fuel IH]; intros l r Hlr Hrn Hsz Hlow Hr.
  - simpl in *. assert (l = r) by lia. subst l.
    rewrite Z.eqb_refl. exists r. repeat split; auto; lia.
  - cbn [make_bin_search_loop].
    destruct (Z.eqb_spec l r) as [-> | Hne].
    + exists r. repeat split; auto; lia.
    + rewrite Nat2Z.inj_succ, Z.pow_succ_r in Hsz by lia.
      rewrite (to_size_t_small (l + r)) by lia.
      set (c := (l + r) / 2).
      assert (Hc : l <= c < r) by (subst c; split;
        [apply Z.div_le_lower_bound | apply Z.div_lt_upper_bound]; lia).
      assert (Hc2 : 2 * c <= l + r < 2 * c + 2).
      { subst c. pose proof (Z.div_mod (l + r) 2 ltac:(lia)).
        pose proof (Z.mod_pos_bound (l + r) 2 ltac:(lia)). lia. }
      rewrite fn_total by lia. cbn [bind].
      destruct (e c) eqn:Ec.
      * destruct (IH l c) as [k [Hk [Hb [Hl He]]]]; auto; try lia.
        exists k. repeat split; auto; lia.
      * rewrite (to_size_t_small (c + 1)) by lia.
        destruct (IH (c + 1) r) as [k [Hk [Hb [Hl He]]]]; auto; try lia.
        { intros i Hi. destruct (e i) eqn:Ei; auto.
          rewrite (packed i c) in Ec; [discriminate | lia | lia | exact Ei]. }
        exists k. repeat split; auto; lia.
Qed.

Lemma make_bin_search_correct :
  0 < n ->
  exists k, make_bin_search 0 n is_empty_fn = Ok k /\ 0 <= k <= n /\
            (forall i, 0 <= i < k -> e i = false) /\
            (forall i, k <= i < n -> e i = true).
Proof.
  intros Hn. unfold make_bin_search.
  rewrite (to_size_t_small (n - 1)) by lia.
  rewrite fn_total by lia. cbn [bind].
  destruct (e (n - 1)) eqn:Elast; cbn [negb].
  - destruct (make_bin_search_loop_correct
                (Z.to_nat (Z.log2 (n - 1 - 0) + 1)) 0 (n - 1))
      as [k [Hk [Hb [Hl He]]]]; auto; try lia.
    { pose proof (Z.log2_nonneg (n - 1 - 0)).
      rewrite Z2Nat.id by lia.
      destruct (Z.eq_dec (n - 1 - 0) 0) as [E0 | E0].
      - rewrite E0. simpl. lia.
      - pose proof (Z.log2_spec (n - 1 - 0) ltac:(lia)).
        replace (Z.succ (Z.log2 (n - 1 - 0))) with (Z.log2 (n - 1 - 0) + 1)
          in * by lia.
        lia. }
    exists k. repeat split; auto; try lia.
    intros i Hi. apply (packed k i); auto; lia.
  - exists n. repeat split; auto; try lia.
    intros i Hi. destruct (e i) eqn:Ei; auto.
    rewrite (packed i (n - 1)) in Elast; [discriminate | lia | lia | exact Ei].
Qed.

End BinarySearch.

Section StorageProperties.

Context {BA : BufferAccessors}.

(** On a projection layout with 8-byte keys, [isEmptyEntry] is the test
    that the lambdas of [binSearchRowCount] perform. *)
Lemma isEmptyEntry_projection (s : ResultSetStorage.t) (i : Z) (b : bool) :
  QueryMemoryDescriptor.getQueryDescriptionType
    (ResultSetStorage.query_mem_desc_ s) = Projection ->
  QueryMemoryDescriptor.getEffectiveKeyWidth
    (ResultSetStorage.query_mem_desc_ s) = 8 ->
  isEmptyEntry s i = Ok b ->
  (if QueryMemoryDescriptor.didOutputColumnar
        (ResultSetStorage.query_mem_desc_ s)
   then k <- load_int 8 (ResultSetStorage.buff_ s) (8 * i) ;;
        Ok (k =? EMPTY_KEY_64)
   else k <- load_int 8 (ResultSetStorage.buff_ s)
               (row_ptr_rowwise (ResultSetStorage.query_mem_desc_ s) i) ;;
        Ok (k =? EMPTY_KEY_64)) = Ok b.
Proof.
  intros Hty Hw H.
  unfold isEmptyEntry, isEmptyEntry_buff, isEmptyEntryColumnar, check_keyless
    in H.
  rewrite Hty, Hw in H. cbn [QueryDescriptionType_eqb andb] in H.
  destruct (QueryMemoryDescriptor.didOutputColumnar _);
    destruct (QueryMemoryDescriptor.hasKeylessHash _);
    try discriminate H; exact H.
Qed.

(** C8 (amended): on a row-wise or columnar Projection layout with 8-byte
    keys in which no empty entry precedes a valid one, [binSearchRowCount]
    returns the index of the first empty entry, that is the number of
    leading valid entries; the loop of the search is bounded by
    [log2 entryCount + 1] iterations.  On a table-function layout the checked
    assertion fires instead. *)
Theorem binSearchRowCount_first_empty (s : ResultSetStorage.t) (e : Z -> bool) :
  QueryMemoryDescriptor.getEffectiveKeyWidth
    (ResultSetStorage.query_mem_desc_ s) = 8 ->
  0 <= ResultSetStorage.getEntryCount s <= 2 ^ 63 ->
  (forall i, 0 <= i < ResultSetStorage.getEntryCount s ->
             isEmptyEntry s i = Ok (e i)) ->
  (forall i j, 0 <= i <= j -> j < ResultSetStorage.getEntryCount s ->
               e i = true -> e j = true) ->
  (QueryMemoryDescriptor.getQueryDescriptionType
     (ResultSetStorage.query_mem_desc_ s) = Projection ->
   exists k,
     binSearchRowCount s = Ok k /\
     0 <= k <= ResultSetStorage.getEntryCount s /\
     (forall i, 0 <= i < k -> isEmptyEntry s i = Ok false) /\
     (forall i, k <= i < ResultSetStorage.getEntryCount s ->
                isEmptyEntry s i = Ok true)) /\
  (QueryMemoryDescriptor.getQueryDescriptionType
     (ResultSetStorage.query_mem_desc_ s) = TableFunction ->
   binSearchRowCount s = CheckFailed).
Proof.
  intros Hw Hn Hfn Hpacked. split.
  - intros Hty. unfold binSearchRowCount.
    unfold ResultSetStorage.getEntryCount in *.
    rewrite Hty, Hw. cbn [QueryDescriptionType_eqb]. rewrite Z.eqb_refl.
    destruct (Z.eqb_spec (QueryMemoryDescriptor.getEntryCount
                            (ResultSetStorage.query_mem_desc_ s)) 0)
      as [E0 | E0].
    + exists 0. rewrite E0. repeat split; try lia; intros; lia.
    + assert (Hlam : forall i,
                 0 <= i < QueryMemoryDescriptor.getEntryCount
                            (ResultSetStorage.query_mem_desc_ s) ->
                 (if QueryMemoryDescriptor.didOutputColumnar
                       (ResultSetStorage.query_mem_desc_ s)
                  then k <- load_int 8 (ResultSetStorage.buff_ s) (8 * i) ;;
                       Ok (k =? EMPTY_KEY_64)
                  else k <- load_int 8 (ResultSetStorage.buff_ s)
                              (row_ptr_rowwise
                                 (ResultSetStorage.query_mem_desc_ s) i) ;;
                       Ok (k =? EMPTY_KEY_64)) = Ok (e i)).
      { intros i Hi. apply isEmptyEntry_projection; auto. }
      destruct (QueryMemoryDescriptor.didOutputColumnar
                  (ResultSetStorage.query_mem_desc_ s)).
      * destruct (make_bin_search_correct _ e _ Hlam Hpacked
                    ltac:(lia) ltac:(lia)) as [k [Hk [Hb [Hlo Hhi]]]].
        exists k. split; [exact Hk |]. split; [exact Hb |]. split.
        -- intros i Hi. rewrite Hfn by lia. rewrite Hlo by lia. reflexivity.
        -- intros i Hi. rewrite Hfn by lia. rewrite Hhi by lia. reflexivity.
      * destruct (make_bin_search_correct _ e _ Hlam Hpacked
                    ltac:(lia) ltac:(lia)) as [k [Hk [Hb [Hlo Hhi]]]].
        exists k. split; [exact Hk |]. split; [exact Hb |]. split.
        -- intros i Hi. rewrite Hfn by lia. rewrite Hlo by lia. reflexivity.
        -- intros i Hi. rewrite Hfn by lia. rewrite Hhi by lia. reflexivity.
  - intros Hty. unfold binSearchRowCount. rewrite Hty. reflexivity.
Qed.

End StorageProperties.

(** C8, as stated, fails on a table-function layout: both entries of
    [Examples.table_function_storage] are valid, so no empty entry precedes a
    valid one and the first empty index would be 2, but [binSearchRowCount]
    stops at its checked assertion. *)
Lemma binSearchRowCount_table_function_fails :
  QueryMemoryDescriptor.getQueryDescriptionType
    (ResultSetStorage.query_mem_desc_ Examples.table_function_storage)
    = TableFunction /\
  (forall i, 0 <= i < 2 ->
     isEmptyEntry (BA := Reference.accessors)
       Examples.table_function_storage i = Ok false) /\
  binSearchRowCount (BA := Reference.accessors)
    Examples.table_function_storage = CheckFailed.
Proof.
  split; [reflexivity |]. split; [| reflexivity].
  intros i Hi. assert (Hc : i = 0 \/ i = 1) by lia.
  destruct Hc as [-> | ->]; vm_compute; reflexivity.
Qed.

Lemma binSearchRowCount_first_empty_witness :
  exists k,
    binSearchRowCount (BA := Reference.accessors) Examples.projection_storage
      = Ok k /\
    0 <= k <= 4 /\
    (forall i, 0 <= i < k ->
       isEmptyEntry (BA := Reference.accessors) Examples.projection_storage i
         = Ok false) /\
    (forall i, k <= i < 4 ->
       isEmptyEntry (BA := Reference.accessors) Examples.projection_storage i
         = Ok true).
Proof.
  refine (proj1 (binSearchRowCount_first_empty (BA := Reference.accessors)
                   Examples.projection_storage Examples.projection_storage_empty
                   _ _ _ _) _).
  - reflexivity.
  - vm_compute. split; discriminate.
  - intros i Hi. change (ResultSetStorage.getEntryCount
                           Examples.projection_storage) with 4 in Hi.
    assert (Hc : i = 0 \/ i = 1 \/ i = 2 \/ i = 3) by lia.
    destruct Hc as [-> | [-> | [-> | ->]]]; vm_compute; reflexivity.
  - intros i j Hij Hj. unfold Examples.projection_storage_empty.
    intros H. apply Z.leb_le in H. apply Z.leb_le. lia.
  - reflexivity.
Defined.

(** ** Emptiness in the two layouts *)

Section EmptinessProperties.

Context {BA : BufferAccessors}.


Lemma load_int_widths (buff : Buffer) (p : Z) :
  load_int (Z.to_nat 8) buff p = load_int 8 buff p /\
  load_int (Z.to_nat 4) buff p = load_int 4 buff p /\
  load_int (Z.to_nat 2) buff p = load_int 2 buff p /\
  load_int (Z.to_nat 1) buff p = load_int 1 buff p.
Proof. repeat split. Qed.

(** In a keyless layout both tests compare the key-target slot with its
    init value. *)
Lemma isEmptyEntry_keyless (s : ResultSetStorage.t) (i : Z) :
  QueryMemoryDescriptor.hasKeylessHash (ResultSetStorage.query_mem_desc_ s)
    = true ->
  check_keyless s = true ->
  isEmptyEntry s i =
    (v <- key_target_slot s i ;;
     init <- target_init_val s
               (to_size_t (QueryMemoryDescriptor.getTargetIdxForKey
                             (ResultSetStorage.query_mem_desc_ s))) ;;
     Ok (v =? init)).
Proof.
  intros Hkl Hchk.
  assert (Hty : QueryMemoryDescriptor.getQueryDescriptionType
                  (ResultSetStorage.query_mem_desc_ s) = GroupByPerfectHash).
  { unfold check_keyless in Hchk.
    apply andb_prop in Hchk. destruct Hchk as [Hchk _].
    apply andb_prop in Hchk. destruct Hchk as [Hchk _].
    destruct (QueryDescriptionType_eqb_spec
                (QueryMemoryDescriptor.getQueryDescriptionType
                   (ResultSetStorage.query_mem_desc_ s)) GroupByPerfectHash);
      [assumption | discriminate]. }
  unfold isEmptyEntry, isEmptyEntry_buff, isEmptyEntryColumnar,
    key_target_slot, key_target_rowwise, key_target_columnar.
  rewrite Hty, Hkl, Hchk. cbn [QueryDescriptionType_eqb].
  destruct (QueryMemoryDescriptor.didOutputColumnar
              (ResultSetStorage.query_mem_desc_ s)).
  - destruct (advance_col_buff_to_slot _ _ _ _); cbn [bind]; try reflexivity.
    destruct (getPaddedSlotWidthBytes _ _); reflexivity.
  - destruct (get_byteoff_of_slot _ _); cbn [bind]; try reflexivity.
    destruct (getPaddedSlotWidthBytes _ _); reflexivity.
Qed.

(** In a keyed layout that passes the checks both tests compare the first
    group key with the sentinel of its width. *)
Lemma isEmptyEntry_keyed (s : ResultSetStorage.t) (i : Z) :
  QueryMemoryDescriptor.hasKeylessHash (ResultSetStorage.query_mem_desc_ s)
    = false ->
  QueryMemoryDescriptor.getQueryDescriptionType
    (ResultSetStorage.query_mem_desc_ s) <> NonGroupedAggregate ->
  ~ (QueryMemoryDescriptor.didOutputColumnar
       (ResultSetStorage.query_mem_desc_ s) = true /\
     QueryMemoryDescriptor.getQueryDescriptionType
       (ResultSetStorage.query_mem_desc_ s) = TableFunction) ->
  layout_checks s = true ->
  exists w sentinel,
    layout_key_width s = Ok w /\ empty_key_sentinel w = Some sentinel /\
    isEmptyEntry s i = (k <- first_key s i ;; Ok (k =? sentinel)).
Proof.
  intros Hkl Hnga Htf Hchk.
  unfold layout_checks in Hchk. rewrite Hkl in Hchk.
  unfold isEmptyEntry, isEmptyEntry_buff, isEmptyEntryColumnar,
    layout_key_width, first_key, first_key_columnar, first_key_rowwise.
  rewrite Hkl.
  destruct (QueryMemoryDescriptor.didOutputColumnar
              (ResultSetStorage.query_mem_desc_ s)) eqn:Hcol.
  - destruct (QueryMemoryDescriptor.getQueryDescriptionType
                (ResultSetStorage.query_mem_desc_ s)) eqn:Hty;
      cbn [QueryDescriptionType_eqb] in *;
      try (exfalso; apply Hnga; reflexivity);
      try (exfalso; apply Htf; split; reflexivity);
      try (exists 8, EMPTY_KEY_64; repeat split; reflexivity).
    all: destruct (QueryMemoryDescriptor.groupColWidth
                     (ResultSetStorage.query_mem_desc_ s) 0) as [w | | |] eqn:Hw;
      try discriminate Hchk.
    all: assert (Hcnt : (0 <? QueryMemoryDescriptor.getGroupbyColCount
                            (ResultSetStorage.query_mem_desc_ s)) = true)
      by (unfold QueryMemoryDescriptor.groupColWidth in Hw;
          destruct (0 <? QueryMemoryDescriptor.getGroupbyColCount
                           (ResultSetStorage.query_mem_desc_ s));
          [reflexivity | discriminate Hw]).
    all: rewrite Hcnt; cbn [bind]; unfold empty_key_sentinel.
    all: exists w.
    all: destruct (Z.eqb_spec w 8) as [-> | ?];
      [eexists; repeat split; reflexivity |].
    all: destruct (Z.eqb_spec w 4) as [-> | ?];
      [eexists; repeat split; reflexivity |].
    all: destruct (Z.eqb_spec w 2) as [-> | ?];
      [eexists; repeat split; reflexivity |].
    all: destruct (Z.eqb_spec w 1) as [-> | ?];
      [eexists; repeat split; reflexivity |].
    all: discriminate Hchk.
  - exists (QueryMemoryDescriptor.getEffectiveKeyWidth
              (ResultSetStorage.query_mem_desc_ s)).
    unfold empty_key_sentinel.
    destruct (QueryDescriptionType_eqb NonGroupedAggregate
                (QueryMemoryDescriptor.getQueryDescriptionType
                   (ResultSetStorage.query_mem_desc_ s))) eqn:E.
    { exfalso. apply Hnga.
      destruct (QueryMemoryDescriptor.getQueryDescriptionType
                  (ResultSetStorage.query_mem_desc_ s)); try discriminate E.
      reflexivity. }
    apply orb_prop in Hchk. destruct Hchk as [Hchk | Hchk].
    + apply Z.eqb_eq in Hchk. rewrite Hchk. cbn [Z.eqb Pos.eqb].
      eexists. repeat split; reflexivity.
    + apply andb_prop in Hchk. destruct Hchk as [H4 Hph].
      apply Z.eqb_eq in H4. rewrite H4. cbn [Z.eqb Pos.eqb].
      assert (Hph' : QueryDescriptionType_eqb GroupByPerfectHash
                (QueryMemoryDescriptor.getQueryDescriptionType
                   (ResultSetStorage.query_mem_desc_ s)) = false).
      { destruct (QueryMemoryDescriptor.getQueryDescriptionType
                    (ResultSetStorage.query_mem_desc_ s));
          try reflexivity; discriminate Hph. }
      rewrite Hph'. cbn [negb].
      eexists. repeat split; reflexivity.
Qed.


(** C2 (amended): [isEmptyEntry] always answers false on a non-grouped
    aggregate layout and, for an entry index below the entry count, on a
    columnar table-function layout, whatever the rest of the descriptor; on
    every other layout that passes its checks it answers true exactly when
    the first component of the key equals the empty-key sentinel of the
    width the layout compares (row-wise: 32 or 64 bits by the effective key
    width; columnar: 64 bits for a projection, else 64/32/16/8 bits by the
    first group column) or, for a keyless layout, when the key-target slot
    equals its init value. *)
Theorem isEmptyEntry_iff_sentinel (s : ResultSetStorage.t) (i : Z) :
  (QueryMemoryDescriptor.getQueryDescriptionType
     (ResultSetStorage.query_mem_desc_ s) = NonGroupedAggregate ->
   isEmptyEntry s i = Ok false) /\
  (QueryMemoryDescriptor.didOutputColumnar
     (ResultSetStorage.query_mem_desc_ s) = true ->
   QueryMemoryDescriptor.getQueryDescriptionType
     (ResultSetStorage.query_mem_desc_ s) = TableFunction ->
   i < ResultSetStorage.getEntryCount s ->
   isEmptyEntry s i = Ok false) /\
  (QueryMemoryDescriptor.getQueryDescriptionType
     (ResultSetStorage.query_mem_desc_ s) <> NonGroupedAggregate ->
   ~ (QueryMemoryDescriptor.didOutputColumnar
        (ResultSetStorage.query_mem_desc_ s) = true /\
      QueryMemoryDescriptor.getQueryDescriptionType
        (ResultSetStorage.query_mem_desc_ s) = TableFunction) ->
   layout_checks s = true ->
   (isEmptyEntry s i = Ok true <-> isEmptyEntry_spec s i)).
Proof.
  split; [| split].
  - intros Hty. unfold isEmptyEntry, isEmptyEntry_buff. rewrite Hty.
    reflexivity.
  - intros Hcol Hty Hi.
    unfold isEmptyEntry, isEmptyEntry_buff, isEmptyEntryColumnar.
    rewrite Hty, Hcol. cbn [QueryDescriptionType_eqb].
    apply Z.ltb_lt in Hi. rewrite Hi. reflexivity.
  - intros Hnga Htf Hchk. unfold isEmptyEntry_spec.
    destruct (QueryMemoryDescriptor.hasKeylessHash
                (ResultSetStorage.query_mem_desc_ s)) eqn:Hkl.
    + assert (Hk : check_keyless s = true)
        by (unfold layout_checks in Hchk; rewrite Hkl in Hchk; exact Hchk).
      rewrite (isEmptyEntry_keyless s i Hkl Hk). split.
      * intros H. inv_bind H. inv_bind H.
        injection H as H. apply Z.eqb_eq in H. subst. eauto.
      * intros [v [H1 H2]]. rewrite H1, H2. cbn [bind].
        rewrite Z.eqb_refl. reflexivity.
    + destruct (isEmptyEntry_keyed s i Hkl Hnga Htf Hchk)
        as [w [sentinel [Hw [Hs Heq]]]].
      rewrite Heq. split.
      * intros H. inv_bind H. injection H as H. apply Z.eqb_eq in H.
        subst. eauto.
      * intros [w' [k [Hw' [Hk Hs']]]].
        rewrite Hw in Hw'. injection Hw' as <-.
        rewrite Hs in Hs'. injection Hs' as <-.
        rewrite Hk. cbn [bind]. rewrite Z.eqb_refl. reflexivity.
Qed.




End EmptinessProperties.

(** The two tests differ only on a row-wise table-function buffer whose
    leading bytes equal the sentinel, a buffer that the source says does
    not occur (the comments at [isEmptyEntryColumnar] and
    [binSearchRowCount]): on the sample, the row-wise test answers true and
    the columnar test false. *)
Remark isEmptyEntry_table_function_marked_empty :
  ResultSetStorage.query_mem_desc_ Examples.table_function_columnar
    = QueryMemoryDescriptor.setOutputColumnar
        (ResultSetStorage.query_mem_desc_ Examples.table_function_rowwise)
        true /\
  isEmptyEntry (BA := Reference.accessors) Examples.table_function_rowwise 0
    = Ok true /\
  isEmptyEntry (BA := Reference.accessors) Examples.table_function_columnar 0
    = Ok false.
Proof.
  split; [reflexivity |]. split; vm_compute; reflexivity.
Qed.


(** C2, as stated, fails on a non-grouped aggregate layout: the key of the
    only entry equals the 64-bit sentinel, yet the entry is not reported
    empty. *)
Lemma isEmptyEntry_non_grouped_not_sentinel :
  isEmptyEntry_spec (BA := Reference.accessors) Examples.non_grouped_storage 0
  /\ isEmptyEntry (BA := Reference.accessors) Examples.non_grouped_storage 0
     = Ok false.
Proof.
  split; [| vm_compute; reflexivity].
  exists 8, Reference.empty_key. vm_compute. repeat split; reflexivity.
Qed.

Lemma isEmptyEntry_iff_sentinel_witness :
  isEmptyEntry (BA := Reference.accessors) Examples.baseline_rowwise 0
    = Ok true
  <-> isEmptyEntry_spec (BA := Reference.accessors)
        Examples.baseline_rowwise 0.
Proof.
  refine (proj2 (proj2 (isEmptyEntry_iff_sentinel (BA := Reference.accessors)
                          Examples.baseline_rowwise 0)) _ _ _).
  - discriminate.
  - intros [H _]. discriminate H.
  - vm_compute. reflexivity.
Defined.

(** ** Storage lookup and random access *)

Section AccessProperties.

Context {BA : BufferAccessors} {TM : TargetMaterializers}.

Lemma entry_counts_before_nonneg (appended : list ResultSetStorage.t) (k : nat) :
  Forall (fun s => 0 <= ResultSetStorage.getEntryCount s) appended ->
  0 <= entry_counts_before appended k.
Proof.
  intros H. revert k. induction H as [| s rest Hs Hrest IH]; intros k.
  - destruct k; unfold entry_counts_before; simpl; lia.
  - destruct k; unfold entry_counts_before in *; simpl; [lia |].
    specialize (IH k). lia.
Qed.

Lemma getStorageIndex_appended_resolves (appended : list ResultSetStorage.t) :
  Forall (fun s => 0 <= ResultSetStorage.getEntryCount s) appended ->
  forall (k : nat) (s : ResultSetStorage.t) (ordinal idx : Z),
    nth_error appended k = Some s ->
    entry_counts_before appended k <= idx
      < entry_counts_before appended k + ResultSetStorage.getEntryCount s ->
    getStorageIndex_appended appended ordinal idx
      = Ok (ordinal + Z.of_nat k, idx - entry_counts_before appended k).
Proof.
  intros H. induction H as [| s0 rest Hs0 Hrest IH]; intros k s ordinal idx Hk Hi.
  - destruct k; discriminate Hk.
  - destruct k as [| k]; cbn [nth_error] in Hk.
    + injection Hk as ->. unfold entry_counts_before in *. simpl in *.
      destruct (Z.ltb_spec idx (ResultSetStorage.getEntryCount s)); [| lia].
      f_equal. f_equal; lia.
    + pose proof (entry_counts_before_nonneg rest k Hrest) as Hnn.
      assert (E : entry_counts_before (s0 :: rest) (S k)
                  = ResultSetStorage.getEntryCount s0
                    + entry_counts_before rest k) by reflexivity.
      rewrite E in *. cbn [getStorageIndex_appended].
      destruct (Z.ltb_spec idx (ResultSetStorage.getEntryCount s0)); [lia |].
      rewrite (IH k s (ordinal + 1)
                 (idx - ResultSetStorage.getEntryCount s0) Hk) by lia.
      f_equal. f_equal; lia.
Qed.

Lemma findStorage_primary (rs : ResultSet.t) (primary : ResultSetStorage.t)
    (i : Z) :
  ResultSet.storage_ rs = Some primary ->
  i < ResultSetStorage.getEntryCount primary ->
  findStorage rs i = Ok (ResultSet.mkStorageLookupResult primary i 0).
Proof.
  intros Hp Hi. unfold findStorage, getStorageIndex. rewrite Hp.
  apply Z.ltb_lt in Hi. rewrite Hi. reflexivity.
Qed.

Lemma findStorage_appended (rs : ResultSet.t) (primary : ResultSetStorage.t)
    (i : Z) (k : nat) (s : ResultSetStorage.t) :
  ResultSet.storage_ rs = Some primary ->
  Forall (fun s => 0 <= ResultSetStorage.getEntryCount s)
    (ResultSet.appended_storage_ rs) ->
  nth_error (ResultSet.appended_storage_ rs) k = Some s ->
  ResultSetStorage.getEntryCount primary
    + entry_counts_before (ResultSet.appended_storage_ rs) k <= i
    < ResultSetStorage.getEntryCount primary
      + entry_counts_before (ResultSet.appended_storage_ rs) k
      + ResultSetStorage.getEntryCount s ->
  findStorage rs i
    = Ok (ResultSet.mkStorageLookupResult s
            (i - (ResultSetStorage.getEntryCount primary
                  + entry_counts_before (ResultSet.appended_storage_ rs) k))
            (Z.of_nat k + 1)).
Proof.
  intros Hp Hnn Hk Hi.
  pose proof (entry_counts_before_nonneg _ k Hnn) as Hb.
  unfold findStorage, getStorageIndex. rewrite Hp.
  destruct (Z.ltb_spec i (ResultSetStorage.getEntryCount primary)); [lia |].
  rewrite (getStorageIndex_appended_resolves _ Hnn k s 1
             (i - ResultSetStorage.getEntryCount primary) Hk) by lia.
  cbn [bind].
  destruct (Z.eqb_spec (1 + Z.of_nat k) 0); [lia |].
  replace (Z.to_nat (1 + Z.of_nat k - 1)) with k by lia.
  rewrite Hk. f_equal. f_equal; lia.
Qed.

(** The scan behind [rowCount] counts the valid positions. *)
Lemma rowCount_scan_count (rs : ResultSet.t) (e : Z -> bool) (len : nat) :
  forall i acc,
    (forall j, i <= j < i + Z.of_nat len -> isEmptyAt rs j = Ok (e j)) ->
    rowCount_scan rs len i acc = Ok (acc + count_valid e i len).
Proof.
  induction len as [| len IH]; intros i acc He.
  - simpl. f_equal. lia.
  - cbn [rowCount_scan count_valid]. rewrite He by lia. cbn [bind].
    rewrite IH by (intros j Hj; apply He; lia).
    f_equal. destruct (e i); lia.
Qed.

Lemma count_valid_all (e : Z -> bool) (len : nat) :
  forall i,
    (forall j, i <= j < i + Z.of_nat len -> e j = false) ->
    count_valid e i len = Z.of_nat len.
Proof.
  induction len as [| len IH]; intros i He; [reflexivity |].
  cbn [count_valid]. rewrite He by lia.
  rewrite IH by (intros j Hj; apply He; lia). lia.
Qed.

Lemma rowCount_all_valid (rs : ResultSet.t) :
  0 <= entryCount rs ->
  (forall j, 0 <= j < entryCount rs -> isEmptyAt rs j = Ok false) ->
  rowCount rs = Ok (entryCount rs).
Proof.
  intros Hn He. unfold rowCount.
  rewrite (rowCount_scan_count rs (fun _ => false)).
  - rewrite count_valid_all by reflexivity. f_equal. lia.
  - intros j Hj. apply He. lia.
Qed.

(** Random access to a valid entry materialises the entry that the lookup
    resolves to. *)
Lemma getRowAt_resolved (rs : ResultSet.t) (i : Z)
    (r : ResultSet.StorageLookupResult) :
  ResultSet.permutation_ rs = [] ->
  i < entryCount rs ->
  findStorage rs i = Ok r ->
  isEmptyAt rs i = Ok false ->
  getRowAt rs i
  = getRowAt_targets rs (ResultSet.storage_ptr r)
      (ResultSet.fixedup_entry_idx r) i true false false [].
Proof.
  intros Hperm Hi Hfind Hvalid.
  unfold getRowAt. destruct (Z.leb_spec (entryCount rs) i); [lia |].
  unfold isEmptyAt in Hvalid. unfold entry_idx_of in *. rewrite Hperm in *.
  cbn [bind] in *. unfold getRowAt_entry. rewrite Hfind in *.
  cbn [bind] in *. rewrite Hvalid. reflexivity.
Qed.

(** C5: a global entry index below the entry count of the primary storage
    resolves to the primary storage (ordinal 0) at the same index; an index
    that falls into the [k]-th appended storage resolves to it (ordinal
    [k + 1]) at the index minus the entry counts of all storages before it.
    For a storage of 5 rows with a storage of 3 rows appended, all valid,
    [rowCount] is 8 and [getRowAt 6] materialises local entry 1 of the second
    storage; the same holds when the storages of 5 and 3 rows are both
    appended to an empty primary storage. *)
Theorem findStorage_resolves (rs : ResultSet.t) (primary : ResultSetStorage.t) :
  ResultSet.storage_ rs = Some primary ->
  Forall (fun s => 0 <= ResultSetStorage.getEntryCount s)
    (ResultSet.appended_storage_ rs) ->
  (forall i, i < ResultSetStorage.getEntryCount primary ->
     findStorage rs i = Ok (ResultSet.mkStorageLookupResult primary i 0)) /\
  (forall i k s,
     nth_error (ResultSet.appended_storage_ rs) k = Some s ->
     ResultSetStorage.getEntryCount primary
       + entry_counts_before (ResultSet.appended_storage_ rs) k <= i
       < ResultSetStorage.getEntryCount primary
         + entry_counts_before (ResultSet.appended_storage_ rs) k
         + ResultSetStorage.getEntryCount s ->
     findStorage rs i
       = Ok (ResultSet.mkStorageLookupResult s
               (i - (ResultSetStorage.getEntryCount primary
                     + entry_counts_before (ResultSet.appended_storage_ rs) k))
               (Z.of_nat k + 1))) /\
  (forall second,
     ResultSetStorage.getEntryCount primary = 5 ->
     ResultSet.appended_storage_ rs = [second] ->
     ResultSetStorage.getEntryCount second = 3 ->
     ResultSet.permutation_ rs = [] ->
     QueryMemoryDescriptor.getEntryCount (ResultSet.query_mem_desc_ rs) = 8 ->
     (forall j, 0 <= j < 8 -> isEmptyAt rs j = Ok false) ->
     rowCount rs = Ok 8 /\
     findStorage rs 6 = Ok (ResultSet.mkStorageLookupResult second 1 1) /\
     getRowAt rs 6 = getRowAt_targets rs second 1 6 true false false []) /\
  (forall first second,
     ResultSetStorage.getEntryCount primary = 0 ->
     ResultSet.appended_storage_ rs = [first; second] ->
     ResultSetStorage.getEntryCount first = 5 ->
     ResultSetStorage.getEntryCount second = 3 ->
     ResultSet.permutation_ rs = [] ->
     QueryMemoryDescriptor.getEntryCount (ResultSet.query_mem_desc_ rs) = 8 ->
     (forall j, 0 <= j < 8 -> isEmptyAt rs j = Ok false) ->
     rowCount rs = Ok 8 /\
     findStorage rs 6 = Ok (ResultSet.mkStorageLookupResult second 1 2) /\
     getRowAt rs 6 = getRowAt_targets rs second 1 6 true false false []).
Proof.
  intros Hp Hnn. split; [| split; [| split]].
  - intros i Hi. apply findStorage_primary; assumption.
  - intros i k s Hk Hi. apply findStorage_appended; assumption.
  - intros second H5 Happ H3 Hperm H8 Hvalid.
    assert (Hn : entryCount rs = 8)
      by (unfold entryCount; rewrite Hperm; exact H8).
    assert (Hfind : findStorage rs 6
                    = Ok (ResultSet.mkStorageLookupResult second 1 1)).
    { rewrite (findStorage_appended rs primary 6 0 second Hp Hnn).
      - rewrite H5. rewrite Happ. reflexivity.
      - rewrite Happ. reflexivity.
      - rewrite H5, H3, Happ. unfold entry_counts_before. simpl. lia. }
    split; [| split].
    + rewrite <- Hn. apply rowCount_all_valid; rewrite Hn; [lia | exact Hvalid].
    + exact Hfind.
    + apply (getRowAt_resolved rs 6 _ Hperm ltac:(lia) Hfind).
      apply Hvalid. lia.
  - intros first second H0 Happ H5 H3 Hperm H8 Hvalid.
    assert (Hn : entryCount rs = 8)
      by (unfold entryCount; rewrite Hperm; exact H8).
    assert (Hfind : findStorage rs 6
                    = Ok (ResultSet.mkStorageLookupResult second 1 2)).
    { rewrite (findStorage_appended rs primary 6 1 second Hp Hnn).
      - rewrite H0. rewrite Happ. unfold entry_counts_before.
        cbn [firstn fold_right]. rewrite H5. reflexivity.
      - rewrite Happ. reflexivity.
      - rewrite H0, H3, Happ. unfold entry_counts_before.
        cbn [firstn fold_right]. rewrite H5. lia. }
    split; [| split].
    + rewrite <- Hn. apply rowCount_all_valid; rewrite Hn; [lia | exact Hvalid].
    + exact Hfind.
    + apply (getRowAt_resolved rs 6 _ Hperm ltac:(lia) Hfind).
      apply Hvalid. lia.
Qed.

(** C10: for a logical index at or beyond [entryCount()], [getRowAt] and
    [getRowAtNoTranslations] return the empty row and [isRowAtEmpty] returns
    true.  The three are read-only functions of the result set, and the
    answer does not depend on the storages: it is the same when they are
    replaced or absent. *)
Theorem out_of_range_access (rs : ResultSet.t) (logical_index : Z)
    (targets_to_skip : list bool) :
  entryCount rs <= logical_index ->
  (getRowAt rs logical_index = Ok [] /\
   getRowAtNoTranslations rs logical_index targets_to_skip = Ok [] /\
   isRowAtEmpty rs logical_index = Ok true) /\
  (forall primary appended,
     getRowAt
       (ResultSet.set_appended_storage_ (ResultSet.set_storage_ rs primary)
          appended) logical_index = Ok [] /\
     getRowAtNoTranslations
       (ResultSet.set_appended_storage_ (ResultSet.set_storage_ rs primary)
          appended) logical_index targets_to_skip = Ok [] /\
     isRowAtEmpty
       (ResultSet.set_appended_storage_ (ResultSet.set_storage_ rs primary)
          appended) logical_index = Ok true).
Proof.
  intros H.
  assert (Hgen : forall rs', entryCount rs' = entryCount rs ->
            getRowAt rs' logical_index = Ok [] /\
            getRowAtNoTranslations rs' logical_index targets_to_skip = Ok [] /\
            isRowAtEmpty rs' logical_index = Ok true).
  { intros rs' E. unfold getRowAt, getRowAtNoTranslations, isRowAtEmpty.
    rewrite E. apply Z.leb_le in H. rewrite H. auto. }
  split; [apply Hgen; reflexivity |].
  intros primary appended. apply Hgen. reflexivity.
Qed.

(** C9: [updateStorageEntryCount] stops at its checked assertion unless the
    layout is a projection or a table function; on those layouts, for a
    result set that has its storage, it sets the entry count of the layout
    descriptor and the entry count of the storage to the new value. *)
Theorem updateStorageEntryCount_guarded (rs : ResultSet.t)
    (new_entry_count : Z) :
  (QueryMemoryDescriptor.getQueryDescriptionType (ResultSet.query_mem_desc_ rs)
     <> Projection ->
   QueryMemoryDescriptor.getQueryDescriptionType (ResultSet.query_mem_desc_ rs)
     <> TableFunction ->
   updateStorageEntryCount rs new_entry_count = CheckFailed) /\
  (QueryMemoryDescriptor.getQueryDescriptionType (ResultSet.query_mem_desc_ rs)
     = Projection \/
   QueryMemoryDescriptor.getQueryDescriptionType (ResultSet.query_mem_desc_ rs)
     = TableFunction ->
   forall s, ResultSet.storage_ rs = Some s ->
   exists rs' s',
     updateStorageEntryCount rs new_entry_count = Ok rs' /\
     QueryMemoryDescriptor.getEntryCount (ResultSet.query_mem_desc_ rs')
       = new_entry_count /\
     ResultSet.storage_ rs' = Some s' /\
     ResultSetStorage.getEntryCount s' = new_entry_count /\
     QueryMemoryDescriptor.getQueryDescriptionType
       (ResultSet.query_mem_desc_ rs')
     = QueryMemoryDescriptor.getQueryDescriptionType
         (ResultSet.query_mem_desc_ rs) /\
     ResultSetStorage.buff_ s' = ResultSetStorage.buff_ s).
Proof.
  split.
  - intros Hp Ht. unfold updateStorageEntryCount.
    destruct (QueryMemoryDescriptor.getQueryDescriptionType
                (ResultSet.query_mem_desc_ rs)); try reflexivity;
      [exfalso; apply Hp | exfalso; apply Ht]; reflexivity.
  - intros Hty s Hs. unfold updateStorageEntryCount.
    assert (E : QueryDescriptionType_eqb
                  (QueryMemoryDescriptor.getQueryDescriptionType
                     (ResultSet.query_mem_desc_ rs)) Projection
                || QueryDescriptionType_eqb
                     (QueryMemoryDescriptor.getQueryDescriptionType
                        (ResultSet.query_mem_desc_ rs)) TableFunction = true)
      by (destruct Hty as [-> | ->]; reflexivity).
    rewrite E. cbn [ResultSet.set_query_mem_desc_ ResultSet.storage_].
    rewrite Hs.
    eexists. eexists. split; [reflexivity |].
    repeat split.
Qed.

End AccessProperties.

Lemma findStorage_resolves_witness :
  rowCount (BA := Reference.accessors) Examples.appended_result_set = Ok 8 /\
  findStorage Examples.appended_result_set 6
    = Ok (ResultSet.mkStorageLookupResult Examples.three_rows 1 1) /\
  getRowAt (BA := Reference.accessors) (TM := Reference.materializers)
    Examples.appended_result_set 6
    = getRowAt_targets (BA := Reference.accessors)
        (TM := Reference.materializers) Examples.appended_result_set
        Examples.three_rows 1 6 true false false [].
Proof.
  refine (proj1 (proj2 (proj2 (findStorage_resolves
                                 (BA := Reference.accessors)
                                 (TM := Reference.materializers)
                                 Examples.appended_result_set
                                 Examples.five_rows _ _)))
            Examples.three_rows _ _ _ _ _ _).
  - reflexivity.
  - repeat constructor; vm_compute; discriminate.
  - reflexivity.
  - reflexivity.
  - reflexivity.
  - reflexivity.
  - reflexivity.
  - intros j Hj.
    assert (Hc : j = 0 \/ j = 1 \/ j = 2 \/ j = 3 \/ j = 4 \/ j = 5 \/ j = 6
                 \/ j = 7) by lia.
    repeat (destruct Hc as [-> | Hc]; [vm_compute; reflexivity |]).
    subst j. vm_compute. reflexivity.
Defined.

Lemma out_of_range_access_witness :
  getRowAt (BA := Reference.accessors) (TM := Reference.materializers)
    Examples.eight_rows_result_set 8 = Ok [] /\
  getRowAtNoTranslations (BA := Reference.accessors)
    (TM := Reference.materializers) Examples.eight_rows_result_set 8 []
    = Ok [] /\
  isRowAtEmpty (BA := Reference.accessors) Examples.eight_rows_result_set 8
    = Ok true.
Proof.
  refine (proj1 (out_of_range_access (BA := Reference.accessors)
                   (TM := Reference.materializers)
                   Examples.eight_rows_result_set 8 [] _)).
  vm_compute. discriminate.
Defined.

Lemma updateStorageEntryCount_guarded_witness :
  exists rs' s',
    updateStorageEntryCount Examples.appended_result_set 6 = Ok rs' /\
    QueryMemoryDescriptor.getEntryCount (ResultSet.query_mem_desc_ rs') = 6 /\
    ResultSet.storage_ rs' = Some s' /\
    ResultSetStorage.getEntryCount s' = 6 /\
    QueryMemoryDescriptor.getQueryDescriptionType
      (ResultSet.query_mem_desc_ rs')
    = QueryMemoryDescriptor.getQueryDescriptionType
        (ResultSet.query_mem_desc_ Examples.appended_result_set) /\
    ResultSetStorage.buff_ s' = ResultSetStorage.buff_ Examples.five_rows.
Proof.
  refine (proj2 (updateStorageEntryCount_guarded
                   Examples.appended_result_set 6) _ Examples.five_rows _).
  - left. reflexivity.
  - reflexivity.
Defined.

(** ** Sequential iteration *)

Section ValidPositions.

Variable e : Z -> bool.
Variable n : Z.

Lemma valid_from_end (c : Z) : n <= c -> valid_from e n c = [].
Proof.
  intros H. unfold valid_from. replace (Z.to_nat (n - c)) with O by lia.
  reflexivity.
Qed.

Lemma valid_from_step (c : Z) :
  c < n ->
  valid_from e n c
  = if e c then valid_from e n (c + 1) else c :: valid_from e n (c + 1).
Proof.
  intros H. unfold valid_from.
  replace (Z.to_nat (n - c)) with (S (Z.to_nat (n - (c + 1)))) by lia.
  cbn [positions filter]. destruct (e c); reflexivity.
Qed.

(** The head of the valid positions from [c] on, and what follows it. *)
Lemma valid_from_cons (len : nat) :
  forall c p rest,
    Z.of_nat len = n - c ->
    valid_from e n c = p :: rest ->
    c <= p < n /\ e p = false /\ valid_from e n (p + 1) = rest /\
    (forall i, c <= i < p -> e i = true).
Proof.
  induction len as [| len IH]; intros c p rest Hlen H.
  - rewrite valid_from_end in H by lia. discriminate H.
  - rewrite valid_from_step in H by lia.
    destruct (e c) eqn:Ec.
    + destruct (IH (c + 1) p rest ltac:(lia) H) as [Hp [Hep [Hrest Hbefore]]].
      repeat split; auto; try lia.
      intros i Hi. destruct (Z.eq_dec i c) as [-> | Hne]; [exact Ec |].
      apply Hbefore. lia.
    + injection H as <- <-. repeat split; auto; try lia.
Qed.

Lemma valid_from_suffix (k : nat) :
  forall c p rest,
    0 <= c <= n ->
    skipn k (valid_from e n c) = p :: rest ->
    c + Z.of_nat k <= p < n /\ e p = false /\ valid_from e n (p + 1) = rest.
Proof.
  induction k as [| k IH]; intros c p rest Hc H.
  - cbn [skipn] in H.
    destruct (valid_from_cons (Z.to_nat (n - c)) c p rest ltac:(lia) H)
      as [Hp [Hep [Hrest _]]].
    repeat split; auto; lia.
  - destruct (valid_from e n c) as [| q tl] eqn:Hv; [discriminate H |].
    cbn [skipn] in H.
    destruct (valid_from_cons (Z.to_nat (n - c)) c q tl ltac:(lia) Hv)
      as [Hq [_ [Htl _]]].
    rewrite <- Htl in H.
    destruct (IH (q + 1) p rest ltac:(lia) H) as [Hp [Hep Hrest]].
    repeat split; auto; lia.
Qed.

(** When the valid entries are exactly the first [v], the valid positions
    are [0, ..., v - 1] and there are [v] of them. *)
Lemma valid_from_prefix (v : Z) (len : nat) :
  forall c,
    (forall i, 0 <= i < v -> e i = false) ->
    (forall i, v <= i < n -> e i = true) ->
    0 <= c -> v <= n -> Z.of_nat len = n - c ->
    valid_from e n c = positions c (Z.to_nat (v - c)) /\
    count_valid e c len = Z.max 0 (v - c).
Proof.
  induction len as [| len IH]; intros c Hlo Hhi Hc Hv Hlen.
  - rewrite valid_from_end by lia.
    replace (Z.to_nat (v - c)) with O by lia. split; [reflexivity |].
    simpl. lia.
  - rewrite valid_from_step by lia. cbn [count_valid].
    destruct (IH (c + 1) Hlo Hhi ltac:(lia) Hv ltac:(lia)) as [E1 E2].
    rewrite E1, E2.
    destruct (Z.lt_ge_cases c v) as [Hcv | Hcv].
    + rewrite Hlo by lia.
      replace (Z.to_nat (v - c)) with (S (Z.to_nat (v - (c + 1)))) by lia.
      split; [reflexivity | lia].
    + rewrite Hhi by lia.
      replace (Z.to_nat (v - (c + 1))) with O by lia.
      replace (Z.to_nat (v - c)) with O by lia.
      split; [reflexivity | lia].
Qed.

End ValidPositions.

Section CursorFacts.

Context {BA : BufferAccessors} {TM : TargetMaterializers}.

Variable rs : ResultSet.t.
Variables c f : Z.

Lemma crt_with_cursor : ResultSet.crt_row_buff_idx_ (with_cursor rs c f) = c.
Proof. reflexivity. Qed.

Lemma fetched_with_cursor : ResultSet.fetched_so_far_ (with_cursor rs c f) = f.
Proof. reflexivity. Qed.

Lemma drop_with_cursor :
  ResultSet.drop_first_ (with_cursor rs c f) = ResultSet.drop_first_ rs.
Proof. reflexivity. Qed.

Lemma keep_with_cursor :
  ResultSet.keep_first_ (with_cursor rs c f) = ResultSet.keep_first_ rs.
Proof. reflexivity. Qed.

Lemma permutation_with_cursor :
  ResultSet.permutation_ (with_cursor rs c f) = ResultSet.permutation_ rs.
Proof. reflexivity. Qed.

Lemma storage_with_cursor :
  ResultSet.storage_ (with_cursor rs c f) = ResultSet.storage_ rs.
Proof. reflexivity. Qed.

Lemma explain_with_cursor :
  ResultSet.just_explain_ (with_cursor rs c f) = ResultSet.just_explain_ rs.
Proof. reflexivity. Qed.

Lemma entryCount_with_cursor : entryCount (with_cursor rs c f) = entryCount rs.
Proof. reflexivity. Qed.

Lemma isEmptyAt_with_cursor (i : Z) :
  isEmptyAt (with_cursor rs c f) i = isEmptyAt rs i.
Proof. reflexivity. Qed.

Lemma permutation_at_with_cursor (i : Z) :
  permutation_at (with_cursor rs c f) i = permutation_at rs i.
Proof. reflexivity. Qed.

Lemma getRowAt_entry_with_cursor (idx : Z) (ts d2d fixup : bool)
    (skip : list bool) :
  getRowAt_entry (with_cursor rs c f) idx ts d2d fixup skip
  = getRowAt_entry rs idx ts d2d fixup skip.
Proof.
  unfold getRowAt_entry, getRowAt_targets.
  assert (L : forall storage local targets ti ai rp kp cp,
             getRowAt_loop (with_cursor rs c f) storage local idx ts d2d fixup
               skip targets ti ai rp kp cp
             = getRowAt_loop rs storage local idx ts d2d fixup skip targets
                 ti ai rp kp cp).
  { intros storage local targets. induction targets as [| t rest IH];
      intros ti ai rp kp cp; [reflexivity |].
    cbn [getRowAt_loop]. rewrite !IH. reflexivity. }
  destruct fixup.
  - change (ResultSet.storage_ (with_cursor rs c f))
      with (ResultSet.storage_ rs).
    destruct (ResultSet.storage_ rs); [| reflexivity]. cbn [bind].
    change (ResultSet.query_mem_desc_ (with_cursor rs c f))
      with (ResultSet.query_mem_desc_ rs).
    rewrite !L. reflexivity.
  - change (findStorage (with_cursor rs c f) idx) with (findStorage rs idx).
    destruct (findStorage rs idx) as [r | | |]; try reflexivity. cbn [bind].
    destruct (isEmptyEntry _ _) as [[|] | | |]; try reflexivity. cbn [bind].
    change (ResultSet.query_mem_desc_ (with_cursor rs c f))
      with (ResultSet.query_mem_desc_ rs).
    rewrite !L. reflexivity.
Qed.

Lemma set_crt_with_cursor (c' : Z) :
  ResultSet.set_crt_row_buff_idx_ (with_cursor rs c f) c' = with_cursor rs c' f.
Proof. reflexivity. Qed.

Lemma set_fetched_with_cursor (f' : Z) :
  ResultSet.set_fetched_so_far_ (with_cursor rs c f) f' = with_cursor rs c f'.
Proof. reflexivity. Qed.

End CursorFacts.

Create Rewrite HintDb cursor.

#[local] Hint Rewrite
  @crt_with_cursor @fetched_with_cursor @drop_with_cursor @keep_with_cursor
  @permutation_with_cursor @storage_with_cursor @explain_with_cursor
  @entryCount_with_cursor @isEmptyAt_with_cursor @permutation_at_with_cursor
  @getRowAt_entry_with_cursor @set_crt_with_cursor @set_fetched_with_cursor
  : cursor.

Section CursorProperties.

Context {BA : BufferAccessors} {TM : TargetMaterializers}.

Variable rs : ResultSet.t.
Variable e : Z -> bool.
Variable row : Z -> Row.
Variables translate_strings decimal_to_double : bool.
Variables n D K : Z.

Hypothesis Hcount : entryCount rs = n.
Hypothesis Hdrop : ResultSet.drop_first_ rs = D.
Hypothesis Hkeep : ResultSet.keep_first_ rs = K.
Hypothesis Hexplain : ResultSet.just_explain_ rs = false.
Hypothesis Hstorage : ResultSet.storage_ rs <> None.
Hypothesis Hn : 0 <= n < 2 ^ 64.
Hypothesis HD : 0 <= D.
Hypothesis HK : 0 <= K.
Hypothesis HDK : D + K < 2 ^ 64.
Hypothesis Hempty : forall i, 0 <= i < n -> isEmptyAt rs i = Ok (e i).
Hypothesis Hrow :
  forall i, 0 <= i < n -> e i = false ->
    exists idx,
      entry_idx_of rs i = Ok idx /\
      getRowAt_entry rs idx translate_strings decimal_to_double false []
        = Ok (row i) /\
      row i <> [].

Lemma hd_valid_from_bounds (c : Z) :
  0 <= c <= n -> c <= hd n (valid_from e n c) <= n.
Proof.
  intros Hc. destruct (valid_from e n c) as [| p rest] eqn:Hv; cbn [hd].
  - lia.
  - destruct (valid_from_cons e n (Z.to_nat (n - c)) c p rest ltac:(lia) Hv)
      as [Hp _]. lia.
Qed.

(** The cursor loop stops at the first valid position at or after [c], or at
    [n]. *)
Lemma advanceCursorToNextEntry_loop_spec (len : nat) :
  forall c f,
    0 <= c -> Z.of_nat len = n - c ->
    advanceCursorToNextEntry_loop len (with_cursor rs c f)
    = Ok (with_cursor rs (hd n (valid_from e n c)) f).
Proof.
  induction len as [| len IH]; intros c f Hc Hlen;
    cbn [advanceCursorToNextEntry_loop]; autorewrite with cursor;
    rewrite Hcount.
  - destruct (Z.ltb_spec c n); [lia |].
    rewrite valid_from_end by lia. cbn [hd]. f_equal.
    replace c with n by lia. reflexivity.
  - destruct (Z.ltb_spec c n); [| lia].
    rewrite Hempty by lia. cbn [bind].
    rewrite valid_from_step by lia.
    destruct (e c); cbn [negb hd]; [| reflexivity].
    rewrite to_size_t_small by lia. apply IH; lia.
Qed.

Lemma advanceCursorToNextEntry_spec (c f : Z) :
  0 <= c <= n ->
  exists idx,
    advanceCursorToNextEntry (with_cursor rs c f)
    = Ok (idx, with_cursor rs (hd n (valid_from e n c)) f) /\
    (hd n (valid_from e n c) < n ->
     entry_idx_of rs (hd n (valid_from e n c)) = Ok idx).
Proof.
  intros Hc. pose proof (hd_valid_from_bounds c Hc) as Hb.
  unfold advanceCursorToNextEntry. autorewrite with cursor. rewrite Hcount.
  rewrite (advanceCursorToNextEntry_loop_spec (Z.to_nat (n - c))) by lia.
  cbn [bind]. autorewrite with cursor.
  set (c' := hd n (valid_from e n c)) in *.
  unfold entry_idx_of. unfold entryCount in Hcount.
  destruct (ResultSet.permutation_ rs) as [| x perm] eqn:Hperm.
  - exists c'. split; reflexivity.
  - destruct (Z.leb_spec c' (Z.of_nat (length (x :: perm)))); [| lia].
    destruct (Z.eqb_spec c' (Z.of_nat (length (x :: perm)))) as [E | E].
    + exists c'. split; [reflexivity | lia].
    + autorewrite with cursor.
      unfold permutation_at. rewrite Hperm.
      destruct (Z.ltb_spec c' 0); [lia |].
      destruct (nth_error (x :: perm) (Z.to_nat c')) as [v |] eqn:Hnth.
      * exists v. split; reflexivity.
      * apply nth_error_None in Hnth. lia.
Qed.

Lemma skipn_nil_any {A : Type} (k : nat) : skipn k (@nil A) = [].
Proof. destruct k; reflexivity. Qed.

(** The [do ... while] loop drops what is left of the first [D] valid
    entries and stops at the next one. *)
Lemma getNextRowImpl_loop_spec (fuel : nat) :
  forall c f,
    0 <= f <= c -> c <= n -> n - c + 1 <= Z.of_nat fuel ->
    K = 0 \/ f < D + K ->
    match skipn (Z.to_nat (D - f)) (valid_from e n c) with
    | [] =>
        exists f',
          getNextRowImpl_loop fuel (with_cursor rs c f)
          = Ok (None, with_cursor rs n f') /\ f <= f' <= n
    | p :: _ =>
        exists idx,
          getNextRowImpl_loop fuel (with_cursor rs c f)
          = Ok (Some idx, with_cursor rs (p + 1) (Z.max f D + 1)) /\
          entry_idx_of rs p = Ok idx
    end.
Proof.
  induction fuel as [| fuel IH]; intros c f Hf Hc Hfuel Hlim; [lia |].
  cbn [getNextRowImpl_loop]. autorewrite with cursor. rewrite Hdrop, Hkeep.
  assert (Hno : negb (K =? 0) && (to_size_t (D + K) <=? f) = false).
  { destruct Hlim as [-> | Hlim]; [reflexivity |].
    rewrite to_size_t_small by lia.
    destruct (Z.leb_spec (D + K) f); [lia |]. apply andb_false_r. }
  rewrite Hno.
  destruct (advanceCursorToNextEntry_spec c f ltac:(lia)) as [idx [Hadv Hidx]].
  rewrite Hadv. cbn [bind]. autorewrite with cursor. rewrite Hcount.
  destruct (valid_from e n c) as [| p rest] eqn:Hv; cbn [hd] in *.
  - rewrite skipn_nil_any.
    destruct (Z.leb_spec n n); [| lia]. rewrite Z.eqb_refl.
    exists f. split; [reflexivity | lia].
  - destruct (valid_from_cons e n (Z.to_nat (n - c)) c p rest ltac:(lia) Hv)
      as [Hp [Hep [Hrest _]]].
    destruct (Z.leb_spec n p); [lia |].
    rewrite Hdrop.
    rewrite (to_size_t_small (p + 1)) by lia.
    rewrite (to_size_t_small (f + 1)) by lia.
    destruct (negb (D =? 0) && (f + 1 <=? D)) eqn:Hdropping.
    + apply andb_prop in Hdropping. destruct Hdropping as [_ Hle].
      apply Z.leb_le in Hle.
      replace (Z.to_nat (D - f)) with (S (Z.to_nat (D - (f + 1)))) by lia.
      cbn [skipn].
      assert (Hlim' : K = 0 \/ f + 1 < D + K) by lia.
      specialize (IH (p + 1) (f + 1) ltac:(lia) ltac:(lia) ltac:(lia) Hlim').
      rewrite Hrest in IH.
      replace (Z.max (f + 1) D) with (Z.max f D) in IH by lia.
      destruct (skipn (Z.to_nat (D - (f + 1))) rest) as [| q tl].
      * destruct IH as [f' [Hloop Hf']]. exists f'. split; [exact Hloop | lia].
      * exact IH.
    + assert (Hge : D <= f).
      { destruct (Z.eqb_spec D 0); [lia |].
        destruct (Z.leb_spec (f + 1) D); [discriminate Hdropping | lia]. }
      replace (Z.to_nat (D - f)) with O by lia. cbn [skipn].
      exists idx. replace (Z.max f D + 1) with (f + 1) by lia.
      split; [reflexivity | apply Hidx; lia].
Qed.

Lemma remaining_end (c f : Z) : n <= c -> remaining e n D K c f = [].
Proof.
  intros Hc. unfold remaining. rewrite valid_from_end by lia.
  rewrite skipn_nil_any. destruct (K =? 0); [reflexivity |].
  apply firstn_nil.
Qed.

(** One call of [getNextRow] when nothing remains. *)
Lemma getNextRow_step_nil (c f : Z) :
  0 <= f <= c -> c <= n ->
  remaining e n D K c f = [] ->
  exists c' f',
    getNextRow translate_strings decimal_to_double (with_cursor rs c f)
    = Ok ([], with_cursor rs c' f') /\
    0 <= f' <= c' /\ c' <= n /\ remaining e n D K c' f' = [].
Proof.
  intros Hf Hc HR.
  unfold getNextRow, getNextRowUnlocked, getNextRowImpl.
  autorewrite with cursor. rewrite Hexplain, Hcount.
  destruct (ResultSet.storage_ rs) as [s |] eqn:Hs; [| contradiction].
  destruct (Z.eq_dec K 0) as [HK0 | HK0];
    [| destruct (Z.le_gt_cases (D + K) f) as [Hreached | Hnot]].
  - pose proof (getNextRowImpl_loop_spec (S (Z.to_nat (n - c))) c f
                  Hf Hc ltac:(lia) (or_introl HK0)) as Hloop.
    unfold remaining in HR. rewrite HK0 in HR. cbn [Z.eqb] in HR.
    rewrite HR in Hloop. destruct Hloop as [f' [Hloop Hf']].
    rewrite Hloop. cbn [bind]. exists n, f'.
    repeat split; try lia. apply remaining_end. lia.
  - cbn [getNextRowImpl_loop]. autorewrite with cursor. rewrite Hdrop, Hkeep.
    rewrite to_size_t_small by lia.
    destruct (Z.eqb_spec K 0); [contradiction |].
    destruct (Z.leb_spec (D + K) f); [| lia]. cbn [negb andb bind].
    exists c, f. repeat split; try lia. exact HR.
  - pose proof (getNextRowImpl_loop_spec (S (Z.to_nat (n - c))) c f
                  Hf Hc ltac:(lia) (or_intror Hnot)) as Hloop.
    unfold remaining in HR.
    destruct (Z.eqb_spec K 0); [contradiction |].
    destruct (skipn (Z.to_nat (D - f)) (valid_from e n c)) as [| p tl].
    + destruct Hloop as [f' [Hloop Hf']].
      rewrite Hloop. cbn [bind]. exists n, f'.
      repeat split; try lia. apply remaining_end. lia.
    + replace (Z.to_nat (D + K - Z.max f D))
        with (S (Z.to_nat (D + K - Z.max f D - 1))) in HR by lia.
      discriminate HR.
Qed.

(** One call of [getNextRow] when position [p] is the next to be yielded. *)
Lemma getNextRow_step_cons (c f p : Z) (R : list Z) :
  0 <= f <= c -> c <= n ->
  remaining e n D K c f = p :: R ->
  getNextRow translate_strings decimal_to_double (with_cursor rs c f)
  = Ok (row p, with_cursor rs (p + 1) (Z.max f D + 1)) /\
  0 <= Z.max f D + 1 <= p + 1 /\ p + 1 <= n /\
  remaining e n D K (p + 1) (Z.max f D + 1) = R.
Proof.
  intros Hf Hc HR.
  assert (Hlim : K = 0 \/ f < D + K).
  { destruct (Z.eq_dec K 0) as [? | HK0]; [left; assumption | right].
    destruct (Z.lt_ge_cases f (D + K)); [assumption |].
    unfold remaining in HR. destruct (Z.eqb_spec K 0); [contradiction |].
    replace (Z.to_nat (D + K - Z.max f D)) with O in HR by lia.
    discriminate HR. }
  pose proof (getNextRowImpl_loop_spec (S (Z.to_nat (n - c))) c f
                Hf Hc ltac:(lia) Hlim) as Hloop.
  assert (Hskip : exists tl,
             skipn (Z.to_nat (D - f)) (valid_from e n c) = p :: tl /\
             R = if K =? 0 then tl
                 else firstn (Z.to_nat (D + K - Z.max f D - 1)) tl).
  { unfold remaining in HR.
    destruct (skipn (Z.to_nat (D - f)) (valid_from e n c)) as [| q tl].
    - destruct (K =? 0); [discriminate HR |].
      rewrite firstn_nil in HR. discriminate HR.
    - destruct (Z.eqb_spec K 0).
      + injection HR as Hq HtlR. subst q. exists tl.
        split; [reflexivity | symmetry; exact HtlR].
      + replace (Z.to_nat (D + K - Z.max f D))
          with (S (Z.to_nat (D + K - Z.max f D - 1))) in HR by lia.
        cbn [firstn] in HR. injection HR as Hq HtlR. subst q. exists tl.
        split; [reflexivity | symmetry; exact HtlR]. }
  destruct Hskip as [tl [Hskip HRdef]].
  rewrite Hskip in Hloop. destruct Hloop as [idx [Hloop Hidx]].
  destruct (valid_from_suffix e n (Z.to_nat (D - f)) c p tl ltac:(lia) Hskip)
    as [Hp [Hep Htl]].
  destruct (Hrow p ltac:(lia) Hep) as [idx' [Hidx' [Hget Hne]]].
  assert (idx' = idx) by congruence. subst idx'.
  unfold getNextRow, getNextRowUnlocked, getNextRowImpl.
  autorewrite with cursor. rewrite Hexplain, Hcount.
  destruct (ResultSet.storage_ rs) as [s |] eqn:Hs; [| contradiction].
  rewrite Hloop. cbn [bind]. autorewrite with cursor. rewrite Hget.
  cbn [bind].
  destruct (row p) as [| v vs] eqn:Hrp; [contradiction |].
  cbn [length Nat.eqb negb].
  split; [reflexivity |]. split; [lia |]. split; [lia |].
  unfold remaining. rewrite Htl.
  replace (Z.to_nat (D - (Z.max f D + 1))) with O by lia. cbn [skipn].
  rewrite HRdef. destruct (K =? 0); [reflexivity |].
  f_equal. lia.
Qed.

(** [m] calls of [getNextRow] return the rows of the remaining positions, in
    order, and then empty rows. *)
Lemma getNextRow_times_spec (m : nat) :
  forall c f,
    0 <= f <= c -> c <= n ->
    exists rs',
      getNextRow_times m translate_strings decimal_to_double
        (with_cursor rs c f)
      = Ok (take_padded [] m (map row (remaining e n D K c f)), rs').
Proof.
  induction m as [| m IH]; intros c f Hf Hc.
  - exists (with_cursor rs c f). reflexivity.
  - cbn [getNextRow_times].
    destruct (remaining e n D K c f) as [| p R] eqn:HR.
    + destruct (getNextRow_step_nil c f Hf Hc HR)
        as [c' [f' [Hstep [Hf' [Hc' HR']]]]].
      rewrite Hstep. cbn [bind].
      destruct (IH c' f' Hf' Hc') as [rs' Hrest].
      rewrite Hrest, HR'. cbn [bind map take_padded].
      exists rs'. reflexivity.
    + destruct (getNextRow_step_cons c f p R Hf Hc HR)
        as [Hstep [Hf' [Hc' HR']]].
      rewrite Hstep. cbn [bind].
      destruct (IH (p + 1) (Z.max f D + 1) Hf' Hc') as [rs' Hrest].
      rewrite Hrest, HR'. cbn [bind map take_padded].
      exists rs'. reflexivity.
Qed.

Lemma remaining_fresh :
  remaining e n D K 0 0 = offset_limit D K (valid_positions e n).
Proof.
  unfold remaining, offset_limit, valid_positions.
  replace (D - 0) with D by lia.
  replace (D + K - Z.max 0 D) with K by lia. reflexivity.
Qed.

(** From a fresh cursor, [m] calls of [getNextRow] return the rows of the
    valid positions after OFFSET and LIMIT, then empty rows. *)
Lemma getNextRow_times_fresh (m : nat) :
  exists rs',
    getNextRow_times m translate_strings decimal_to_double (fresh_cursor rs)
    = Ok (take_padded [] m
            (map row (offset_limit D K (valid_positions e n))), rs').
Proof.
  rewrite <- remaining_fresh.
  apply (getNextRow_times_spec m 0 0); lia.
Qed.

End CursorProperties.

Section IteratorProperties.

Context {BA : BufferAccessors} {TM : TargetMaterializers}.

Variable rs : ResultSet.t.
Variable e : Z -> bool.
Variable row : Z -> Row.
Variables translate_strings decimal_to_double : bool.
Variables n D K : Z.

Hypothesis Hcount : entryCount rs = n.
Hypothesis Hdrop : ResultSet.drop_first_ rs = D.
Hypothesis Hkeep : ResultSet.keep_first_ rs = K.
Hypothesis Hexplain : ResultSet.just_explain_ rs = false.
Hypothesis Hstorage : ResultSet.storage_ rs <> None.
Hypothesis Hn : 0 <= n < 2 ^ 64.
Hypothesis HD : 0 <= D.
Hypothesis HK : 0 <= K.
Hypothesis HDK : D + K < 2 ^ 64.
Hypothesis Hempty : forall i, 0 <= i < n -> isEmptyAt rs i = Ok (e i).
Hypothesis Hrow :
  forall i, 0 <= i < n -> e i = false ->
    exists idx,
      entry_idx_of rs i = Ok idx /\
      getRowAt_entry rs idx translate_strings decimal_to_double false []
        = Ok (row i) /\
      row i <> [].

(** The shape of [remaining]: the limit is reached, or the valid entries
    run out while dropping, or there is a next position. *)
Lemma remaining_cases (c f : Z) :
  0 <= f <= c -> c <= n ->
  (K <> 0 /\ D + K <= f /\ remaining e n D K c f = []) \/
  ((K = 0 \/ f < D + K) /\
   skipn (Z.to_nat (D - f)) (valid_from e n c) = [] /\
   remaining e n D K c f = []) \/
  ((K = 0 \/ f < D + K) /\
   exists p tl,
     skipn (Z.to_nat (D - f)) (valid_from e n c) = p :: tl /\
     remaining e n D K c f
     = p :: remaining e n D K (p + 1) (Z.max f D + 1) /\
     Z.max f D <= p < n /\ e p = false).
Proof.
  intros Hf Hc. unfold remaining at 1 2 3.
  destruct (Z.eqb_spec K 0) as [HK0 | HK0].
  - right.
    destruct (skipn (Z.to_nat (D - f)) (valid_from e n c)) as [| p tl] eqn:Hs.
    + left. auto.
    + right. split; [auto |]. exists p, tl.
      destruct (valid_from_suffix e n _ c p tl ltac:(lia) Hs)
        as [Hp [Hep Htl]].
      split; [reflexivity |]. split; [| split; [lia | exact Hep]].
      unfold remaining. rewrite Htl.
      destruct (Z.eqb_spec K 0); [| contradiction].
      replace (Z.to_nat (D - (Z.max f D + 1))) with O by lia. reflexivity.
  - destruct (Z.le_gt_cases (D + K) f) as [Hreached | Hnot].
    + left. split; [exact HK0 |]. split; [exact Hreached |].
      replace (Z.to_nat (D + K - Z.max f D)) with O by lia. reflexivity.
    + right.
      destruct (skipn (Z.to_nat (D - f)) (valid_from e n c)) as [| p tl] eqn:Hs.
      * left. split; [auto |]. split; [reflexivity |]. apply firstn_nil.
      * right. split; [auto |]. exists p, tl.
        destruct (valid_from_suffix e n _ c p tl ltac:(lia) Hs)
          as [Hp [Hep Htl]].
        split; [reflexivity |]. split; [| split; [lia | exact Hep]].
        replace (Z.to_nat (D + K - Z.max f D))
          with (S (Z.to_nat (D + K - Z.max f D - 1))) by lia.
        cbn [firstn]. f_equal.
        unfold remaining. rewrite Htl.
        destruct (Z.eqb_spec K 0); [contradiction |].
        replace (Z.to_nat (D - (Z.max f D + 1))) with O by lia.
        cbn [skipn]. f_equal. lia.
Qed.

(** The iterator loop drops what is left of the first [D] valid entries and
    stops on the next one. *)
Lemma advanceIterator_loop_spec (len : nat) :
  forall c f g valid,
    0 <= f <= c -> Z.of_nat len = n - c ->
    match skipn (Z.to_nat (D - f)) (valid_from e n c) with
    | [] =>
        exists f',
          advanceIterator_loop len rs (iterator_at translate_strings decimal_to_double c g valid f)
          = Ok (iterator_at translate_strings decimal_to_double n g valid f') /\ f <= f' <= f + (n - c)
    | p :: _ =>
        advanceIterator_loop len rs (iterator_at translate_strings decimal_to_double c g valid f)
        = Ok (iterator_at translate_strings decimal_to_double p g valid (Z.max f D))
    end.
Proof.
  induction len as [| len IH]; intros c f g valid Hf Hlen;
    cbn [advanceIterator_loop iterator_at
           ResultSetRowIterator.crt_row_buff_idx_
           ResultSetRowIterator.fetched_so_far_]; rewrite Hcount.
  - destruct (Z.ltb_spec c n); [lia |].
    rewrite valid_from_end by lia. rewrite skipn_nil_any.
    exists f. replace c with n by lia. split; [reflexivity | lia].
  - destruct (Z.ltb_spec c n); [| lia].
    rewrite Hempty by lia. cbn [bind]. rewrite Hdrop.
    rewrite valid_from_step by lia.
    rewrite (to_size_t_small (c + 1)) by lia.
    destruct (e c); cbn [negb].
    + specialize (IH (c + 1) f g valid ltac:(lia) ltac:(lia)).
      unfold ResultSetRowIterator.set_cursor.
      cbn [ResultSetRowIterator.global_entry_idx_
             ResultSetRowIterator.global_entry_idx_valid_
             ResultSetRowIterator.translate_strings_
             ResultSetRowIterator.decimal_to_double_].
      destruct (skipn (Z.to_nat (D - f)) (valid_from e n (c + 1))).
      * destruct IH as [f' [Hloop Hf']]. exists f'.
        split; [exact Hloop | lia].
      * exact IH.
    + destruct (Z.ltb_spec f D) as [Hlt | Hge].
      * rewrite (to_size_t_small (f + 1)) by lia.
        specialize (IH (c + 1) (f + 1) g valid ltac:(lia) ltac:(lia)).
        unfold ResultSetRowIterator.set_cursor.
        cbn [ResultSetRowIterator.global_entry_idx_
               ResultSetRowIterator.global_entry_idx_valid_
               ResultSetRowIterator.translate_strings_
               ResultSetRowIterator.decimal_to_double_].
        replace (Z.to_nat (D - f)) with (S (Z.to_nat (D - (f + 1)))) by lia.
        cbn [skipn].
        replace (Z.max (f + 1) D) with (Z.max f D) in IH by lia.
        destruct (skipn (Z.to_nat (D - (f + 1))) (valid_from e n (c + 1))).
        -- destruct IH as [f' [Hloop Hf']]. exists f'.
           split; [exact Hloop | lia].
        -- exact IH.
      * replace (Z.to_nat (D - f)) with O by lia. cbn [skipn].
        replace (Z.max f D) with f by lia. reflexivity.
Qed.

(** One [operator++] when nothing remains: the iterator becomes invalid. *)
Lemma iterator_next_nil (c f g : Z) (valid : bool) :
  0 <= f <= c -> c <= n ->
  remaining e n D K c f = [] ->
  exists c' f' g',
    iterator_next rs (iterator_at translate_strings decimal_to_double c g valid f)
    = Ok (iterator_at translate_strings decimal_to_double c' g' false f') /\
    0 <= f' <= c' /\ c' <= n /\ remaining e n D K c' f' = [].
Proof.
  intros Hf Hc HR.
  unfold iterator_next. rewrite Hexplain.
  destruct (ResultSet.storage_ rs) as [s |] eqn:Hs; [| contradiction].
  unfold advanceIterator.
  cbn [iterator_at ResultSetRowIterator.crt_row_buff_idx_
         ResultSetRowIterator.fetched_so_far_
         ResultSetRowIterator.global_entry_idx_].
  rewrite Hdrop, Hkeep, Hcount. rewrite to_size_t_small by lia.
  destruct (remaining_cases c f Hf Hc)
    as [[HK0 [Hreached _]] | [[Hlim [Hskip _]] | [_ [p [tl [_ [HR' _]]]]]]].
  - destruct (Z.eqb_spec K 0); [contradiction |].
    destruct (Z.leb_spec (D + K) f); [| lia]. cbn [negb andb].
    exists c, f, g. repeat split; try lia. exact HR.
  - assert (Hno : negb (K =? 0) && (D + K <=? f) = false).
    { destruct Hlim as [-> | Hlim]; [reflexivity |].
      destruct (Z.leb_spec (D + K) f); [lia |]. apply andb_false_r. }
    rewrite Hno.
    pose proof (advanceIterator_loop_spec (Z.to_nat (n - c)) c f g valid
                  Hf ltac:(lia)) as Hloop.
    rewrite Hskip in Hloop. destruct Hloop as [f' [Hloop Hf']].
    fold (iterator_at translate_strings decimal_to_double c g valid f). rewrite Hloop. cbn [bind].
    cbn [iterator_at ResultSetRowIterator.crt_row_buff_idx_].
    unfold entryCount in Hcount.
    destruct (ResultSet.permutation_ rs) as [| x perm] eqn:Hperm.
    + cbn [bind]. destruct (Z.ltb_spec n n); [lia |].
      exists n, f', n. repeat split; try lia. apply remaining_end. lia.
    + destruct (Z.leb_spec n (Z.of_nat (length (x :: perm)))); [| lia].
      destruct (Z.eqb_spec n (Z.of_nat (length (x :: perm)))); [| lia].
      cbn [bind]. destruct (Z.ltb_spec n n); [lia |].
      exists n, f', n. repeat split; try lia. apply remaining_end. lia.
  - rewrite HR in HR'. discriminate HR'.
Qed.

(** One [operator++] when position [p] is the next to be yielded: the
    iterator becomes valid on the entry behind [p]. *)
Lemma iterator_next_cons (c f g p : Z) (valid : bool) (R : list Z) :
  0 <= f <= c -> c <= n ->
  remaining e n D K c f = p :: R ->
  exists idx,
    iterator_next rs (iterator_at translate_strings decimal_to_double c g valid f)
    = Ok (iterator_at translate_strings decimal_to_double (p + 1) idx true (Z.max f D + 1)) /\
    entry_idx_of rs p = Ok idx /\ 0 <= p < n /\ e p = false /\
    0 <= Z.max f D + 1 <= p + 1 /\ p + 1 <= n /\
    remaining e n D K (p + 1) (Z.max f D + 1) = R.
Proof.
  intros Hf Hc HR.
  unfold iterator_next. rewrite Hexplain.
  destruct (ResultSet.storage_ rs) as [s |] eqn:Hs; [| contradiction].
  unfold advanceIterator.
  cbn [iterator_at ResultSetRowIterator.crt_row_buff_idx_
         ResultSetRowIterator.fetched_so_far_
         ResultSetRowIterator.global_entry_idx_].
  rewrite Hdrop, Hkeep, Hcount. rewrite to_size_t_small by lia.
  destruct (remaining_cases c f Hf Hc)
    as [[_ [_ HR']] | [[_ [_ HR']] | [Hlim [q [tl [Hskip [HR' [Hq Heq]]]]]]]];
    try (rewrite HR in HR'; discriminate HR').
  rewrite HR in HR'. injection HR' as <- HRtl.
  assert (Hno : negb (K =? 0) && (D + K <=? f) = false).
  { destruct Hlim as [-> | Hlim]; [reflexivity |].
    destruct (Z.leb_spec (D + K) f); [lia |]. apply andb_false_r. }
  rewrite Hno.
  pose proof (advanceIterator_loop_spec (Z.to_nat (n - c)) c f g valid
                Hf ltac:(lia)) as Hloop.
  rewrite Hskip in Hloop.
  fold (iterator_at translate_strings decimal_to_double c g valid f). rewrite Hloop. cbn [bind].
  cbn [iterator_at ResultSetRowIterator.crt_row_buff_idx_].
  assert (Hglobal : exists idx,
            match ResultSet.permutation_ rs with
            | [] => Ok p
            | _ :: _ =>
                if p <=? Z.of_nat (length (ResultSet.permutation_ rs))
                then
                  if p =? Z.of_nat (length (ResultSet.permutation_ rs))
                  then Ok p else permutation_at rs p
                else CheckFailed
            end = Ok idx /\ entry_idx_of rs p = Ok idx).
  { unfold entry_idx_of. unfold entryCount in Hcount.
    destruct (ResultSet.permutation_ rs) as [| x perm] eqn:Hperm.
    - exists p. split; reflexivity.
    - destruct (Z.leb_spec p (Z.of_nat (length (x :: perm)))); [| lia].
      destruct (Z.eqb_spec p (Z.of_nat (length (x :: perm)))); [lia |].
      unfold permutation_at. rewrite Hperm.
      destruct (Z.ltb_spec p 0); [lia |].
      destruct (nth_error (x :: perm) (Z.to_nat p)) as [v |] eqn:Hnth.
      + exists v. split; reflexivity.
      + apply nth_error_None in Hnth. lia. }
  destruct Hglobal as [idx [Hglobal Hidx]].
  rewrite Hglobal. cbn [bind].
  destruct (Z.ltb_spec p n); [| lia].
  cbn [iterator_at
         ResultSetRowIterator.set_global ResultSetRowIterator.set_cursor
         ResultSetRowIterator.crt_row_buff_idx_
         ResultSetRowIterator.fetched_so_far_
         ResultSetRowIterator.global_entry_idx_
         ResultSetRowIterator.global_entry_idx_valid_
         ResultSetRowIterator.translate_strings_
         ResultSetRowIterator.decimal_to_double_].
  rewrite (to_size_t_small (p + 1)) by lia.
  rewrite (to_size_t_small (Z.max f D + 1)) by lia.
  exists idx. repeat split; auto; try lia.
Qed.

Lemma iterator_next_positioned (c f g : Z) (valid : bool) :
  0 <= f <= c -> c <= n ->
  exists iter,
    iterator_next rs (iterator_at translate_strings decimal_to_double c g valid f) = Ok iter /\
    positioned rs e n D K translate_strings decimal_to_double iter (remaining e n D K c f).
Proof.
  intros Hf Hc. destruct (remaining e n D K c f) as [| p R] eqn:HR.
  - destruct (iterator_next_nil c f g valid Hf Hc HR)
      as [c' [f' [g' [Hnext [Hf' [Hc' HR']]]]]].
    eexists. split; [exact Hnext |].
    exists c', g', f'. auto.
  - destruct (iterator_next_cons c f g p valid R Hf Hc HR)
      as [idx [Hnext [Hidx [Hp [Hep [Hf' [Hc' HR']]]]]]].
    eexists. split; [exact Hnext |].
    exists (p + 1), idx, (Z.max f D + 1). repeat split; auto; lia.
Qed.

(** [m] rounds of [*iter], [++iter] read the rows of the positions the
    iterator stands on, then empty rows. *)
Lemma iterator_rows_spec (m : nat) :
  forall iter R,
    positioned rs e n D K translate_strings decimal_to_double iter R ->
    iterator_rows m rs iter = Ok (take_padded [] m (map row R)).
Proof.
  induction m as [| m IH]; intros iter R Hpos; [reflexivity |].
  cbn [iterator_rows]. destruct Hpos as [c [g [f [Hf [Hc Hshape]]]]].
  destruct R as [| p R'].
  - destruct Hshape as [-> HR].
    unfold iterator_deref.
    cbn [iterator_at ResultSetRowIterator.global_entry_idx_valid_ negb bind].
    destruct (iterator_next_positioned c f g false Hf Hc) as [it' [Hnext Hpos']].
    fold (iterator_at translate_strings decimal_to_double c g false f). rewrite Hnext. cbn [bind].
    rewrite HR in Hpos'. rewrite (IH it' [] Hpos'). reflexivity.
  - destruct Hshape as [-> [Hg [Hp [Hep HR]]]].
    unfold iterator_deref.
    cbn [iterator_at ResultSetRowIterator.global_entry_idx_valid_ negb
           ResultSetRowIterator.global_entry_idx_
           ResultSetRowIterator.translate_strings_
           ResultSetRowIterator.decimal_to_double_].
    rewrite Hexplain.
    destruct (Hrow p Hp Hep) as [idx [Hidx [Hget _]]].
    assert (idx = g) by congruence. subst idx. rewrite Hget. cbn [bind].
    destruct (iterator_next_positioned c f g true Hf Hc) as [it' [Hnext Hpos']].
    fold (iterator_at translate_strings decimal_to_double c g true f). rewrite Hnext. cbn [bind].
    rewrite HR in Hpos'. rewrite (IH it' R' Hpos'). reflexivity.
Qed.

(** The iterator that [rowIterator] returns for logical index 0 reads the
    rows of the valid positions after OFFSET and LIMIT, then empty rows. *)
Lemma rowIterator_rows (m : nat) :
  exists iter,
    rowIterator rs 0 translate_strings decimal_to_double = Ok iter /\
    iterator_rows m rs iter
    = Ok (take_padded [] m
            (map row (offset_limit D K (valid_positions e n)))).
Proof.
  destruct (iterator_next_positioned 0 0 0 false ltac:(lia) ltac:(lia))
    as [iter [Hnext Hpos]].
  exists iter. split.
  - unfold rowIterator. cbn [iterator_next_times].
    unfold ResultSetRowIterator.make. fold (iterator_at translate_strings decimal_to_double 0 0 false 0).
    rewrite Hnext. reflexivity.
  - rewrite (iterator_rows_spec m iter _ Hpos).
    unfold remaining, offset_limit, valid_positions.
    replace (D - 0) with D by lia.
    replace (D + K - Z.max 0 D) with K by lia. reflexivity.
Qed.

End IteratorProperties.

Section IterationTheorems.

Context {BA : BufferAccessors} {TM : TargetMaterializers}.

Lemma take_padded_all {A : Type} (pad : A) (l : list A) :
  take_padded pad (S (length l)) l = l ++ [pad].
Proof. induction l as [| x l IH]; [reflexivity |]. cbn. cbn in IH. rewrite IH. reflexivity. Qed.

Lemma positions_length (len : nat) : forall c, length (positions c len) = len.
Proof. induction len as [| len IH]; intros c; [reflexivity |]. cbn. rewrite IH. reflexivity. Qed.

Lemma getRowAt_range_spec (rs : ResultSet.t) (row : Z -> Row) (len : nat) :
  forall i,
    (forall j, i <= j < i + Z.of_nat len -> getRowAt rs j = Ok (row j)) ->
    getRowAt_range rs i len = Ok (map row (positions i len)).
Proof.
  induction len as [| len IH]; intros i H; [reflexivity |].
  cbn [getRowAt_range positions map]. rewrite H by lia. cbn [bind].
  rewrite IH by (intros j Hj; apply H; lia). reflexivity.
Qed.

(** C4: from a fresh cursor, successive [getNextRow] calls return the rows
    of the valid entries in order, without the first [drop_first_] of them
    and, when [keep_first_] is not zero, at most [keep_first_] of them; every
    later call returns the empty row.  The row iterator, whose
    [advanceCursorToNextEntry] enforces OFFSET and LIMIT itself, reads the
    same rows.  With 8 valid rows numbered 0..7, [drop_first_ = 2] and
    [keep_first_ = 3], four calls return rows 2, 3, 4 and the empty row. *)
Theorem getNextRow_offset_limit (rs : ResultSet.t) (e : Z -> bool)
    (row : Z -> Row) (translate_strings decimal_to_double : bool) :
  ResultSet.just_explain_ rs = false ->
  ResultSet.storage_ rs <> None ->
  0 <= entryCount rs < 2 ^ 64 ->
  0 <= ResultSet.drop_first_ rs ->
  0 <= ResultSet.keep_first_ rs ->
  ResultSet.drop_first_ rs + ResultSet.keep_first_ rs < 2 ^ 64 ->
  (forall i, 0 <= i < entryCount rs -> isEmptyAt rs i = Ok (e i)) ->
  (forall i, 0 <= i < entryCount rs -> e i = false ->
     exists idx,
       entry_idx_of rs i = Ok idx /\
       getRowAt_entry rs idx translate_strings decimal_to_double false []
         = Ok (row i) /\
       row i <> []) ->
  (forall m,
     exists rs',
       getNextRow_times m translate_strings decimal_to_double (fresh_cursor rs)
       = Ok (take_padded [] m
               (map row
                  (offset_limit (ResultSet.drop_first_ rs)
                     (ResultSet.keep_first_ rs)
                     (valid_positions e (entryCount rs)))), rs')) /\
  (forall m,
     exists iter,
       rowIterator rs 0 translate_strings decimal_to_double = Ok iter /\
       iterator_rows m rs iter
       = Ok (take_padded [] m
               (map row
                  (offset_limit (ResultSet.drop_first_ rs)
                     (ResultSet.keep_first_ rs)
                     (valid_positions e (entryCount rs)))))) /\
  (entryCount rs = 8 ->
   (forall i, 0 <= i < 8 -> e i = false) ->
   ResultSet.drop_first_ rs = 2 ->
   ResultSet.keep_first_ rs = 3 ->
   exists rs',
     getNextRow_times 4 translate_strings decimal_to_double (fresh_cursor rs)
     = Ok ([row 2; row 3; row 4; []], rs')).
Proof.
  intros Hexplain Hstorage Hn HD HK HDK Hempty Hrow.
  assert (Hgen : forall m,
     exists rs',
       getNextRow_times m translate_strings decimal_to_double (fresh_cursor rs)
       = Ok (take_padded [] m
               (map row
                  (offset_limit (ResultSet.drop_first_ rs)
                     (ResultSet.keep_first_ rs)
                     (valid_positions e (entryCount rs)))), rs')).
  { intros m.
    apply (getNextRow_times_fresh rs e row translate_strings decimal_to_double
             (entryCount rs) (ResultSet.drop_first_ rs)
             (ResultSet.keep_first_ rs)); auto. }
  split; [exact Hgen |]. split.
  { intros m.
    apply (rowIterator_rows rs e row translate_strings decimal_to_double
             (entryCount rs) (ResultSet.drop_first_ rs)
             (ResultSet.keep_first_ rs)); auto. }
  intros H8 Hvalid Hd Hk. destruct (Hgen 4%nat) as [rs' Hrs'].
  exists rs'. rewrite Hrs'. rewrite H8, Hd, Hk.
  unfold valid_positions.
  destruct (valid_from_prefix e 8 8 8 0 Hvalid ltac:(intros; lia)
              ltac:(lia) ltac:(lia) ltac:(reflexivity)) as [Hv _].
  rewrite Hv. reflexivity.
Qed.

(** C3 (amended): for a result set without permutation, OFFSET and LIMIT
    whose valid entries are exactly the first [v] entries (no empty entry
    precedes a valid one) and materialise to non-empty rows, [rowCount] is
    [v], and [getRowAt 0, ..., getRowAt (v - 1)] is, element by element and in
    order, the sequence returned by [v] calls of [getNextRow(true, false)]
    from a fresh cursor; the call after them returns the empty row. *)
Theorem getRowAt_matches_getNextRow (rs : ResultSet.t) (v : Z)
    (row : Z -> Row) :
  ResultSet.just_explain_ rs = false ->
  ResultSet.storage_ rs <> None ->
  ResultSet.permutation_ rs = [] ->
  ResultSet.drop_first_ rs = 0 ->
  ResultSet.keep_first_ rs = 0 ->
  0 <= v <= entryCount rs ->
  entryCount rs < 2 ^ 64 ->
  (forall i, 0 <= i < v -> isEmptyAt rs i = Ok false) ->
  (forall i, v <= i < entryCount rs -> isEmptyAt rs i = Ok true) ->
  (forall i, 0 <= i < v ->
     getRowAt_entry rs i true false false [] = Ok (row i) /\ row i <> []) ->
  rowCount rs = Ok v /\
  getRowAt_range rs 0 (Z.to_nat v)
    = Ok (map row (positions 0 (Z.to_nat v))) /\
  exists rs',
    getNextRow_times (S (Z.to_nat v)) true false (fresh_cursor rs)
    = Ok (map row (positions 0 (Z.to_nat v)) ++ [[]], rs').
Proof.
  intros Hexplain Hstorage Hperm Hd Hk Hv Hn Hvalid Hinvalid Hrows.
  set (e := fun i => v <=? i).
  assert (Hlo : forall i, 0 <= i < v -> e i = false)
    by (intros i Hi; unfold e; apply Z.leb_gt; lia).
  assert (Hhi : forall i, v <= i < entryCount rs -> e i = true)
    by (intros i Hi; unfold e; apply Z.leb_le; lia).
  assert (Hempty : forall i, 0 <= i < entryCount rs -> isEmptyAt rs i = Ok (e i)).
  { intros i Hi. destruct (Z.lt_ge_cases i v).
    - rewrite Hlo by lia. apply Hvalid. lia.
    - rewrite Hhi by lia. apply Hinvalid. lia. }
  destruct (valid_from_prefix e (entryCount rs) v
              (Z.to_nat (entryCount rs)) 0 Hlo Hhi ltac:(lia) ltac:(lia)
              ltac:(lia)) as [Hpos Hcnt].
  replace (v - 0) with v in * by lia.
  split; [| split].
  - unfold rowCount.
    rewrite (rowCount_scan_count rs e) by (intros j Hj; apply Hempty; lia).
    rewrite Hcnt. f_equal. lia.
  - apply getRowAt_range_spec. intros j Hj.
    unfold getRowAt. destruct (Z.leb_spec (entryCount rs) j); [lia |].
    unfold entry_idx_of. rewrite Hperm. cbn [bind].
    apply Hrows. lia.
  - destruct (getNextRow_times_fresh rs e row true false (entryCount rs) 0 0
                eq_refl Hd Hk Hexplain Hstorage ltac:(lia) ltac:(lia)
                ltac:(lia) ltac:(lia) Hempty) with (m := S (Z.to_nat v))
      as [rs' Hrs'].
    { intros i Hi Hei. exists i. unfold entry_idx_of. rewrite Hperm.
      assert (i < v) by (unfold e in Hei; apply Z.leb_gt in Hei; lia).
      split; [reflexivity |]. apply Hrows. lia. }
    exists rs'. rewrite Hrs'. unfold offset_limit, valid_positions.
    cbn [Z.to_nat skipn Z.eqb]. rewrite Hpos.
    replace (S (Z.to_nat v))
      with (S (length (map row (positions 0 (Z.to_nat v)))))
      by (rewrite length_map, positions_length; reflexivity).
    rewrite take_padded_all. reflexivity.
Qed.

End IterationTheorems.

Lemma getNextRow_offset_limit_witness :
  exists rs',
    getNextRow_times (BA := Reference.accessors)
      (TM := Reference.materializers) 4 true false
      (fresh_cursor Examples.eight_rows_result_set)
    = Ok ([Examples.eight_rows_row 2; Examples.eight_rows_row 3;
           Examples.eight_rows_row 4; []], rs').
Proof.
  refine (proj2 (proj2 (getNextRow_offset_limit (BA := Reference.accessors)
                          (TM := Reference.materializers)
                          Examples.eight_rows_result_set (fun _ => false)
                          Examples.eight_rows_row true false
                          _ _ _ _ _ _ _ _))
            _ _ _ _).
  - reflexivity.
  - discriminate.
  - vm_compute. split; [discriminate | reflexivity].
  - vm_compute. discriminate.
  - vm_compute. discriminate.
  - vm_compute. reflexivity.
  - intros i Hi. change (entryCount Examples.eight_rows_result_set) with 8 in Hi.
    assert (Hc : i = 0 \/ i = 1 \/ i = 2 \/ i = 3 \/ i = 4 \/ i = 5 \/ i = 6
                 \/ i = 7) by lia.
    repeat (destruct Hc as [-> | Hc]; [vm_compute; reflexivity |]).
    subst i. vm_compute. reflexivity.
  - intros i Hi _. change (entryCount Examples.eight_rows_result_set) with 8 in Hi.
    exists i. split; [reflexivity |]. split; [| discriminate].
    assert (Hc : i = 0 \/ i = 1 \/ i = 2 \/ i = 3 \/ i = 4 \/ i = 5 \/ i = 6
                 \/ i = 7) by lia.
    repeat (destruct Hc as [-> | Hc]; [vm_compute; reflexivity |]).
    subst i. vm_compute. reflexivity.
  - reflexivity.
  - reflexivity.
  - reflexivity.
  - reflexivity.
Defined.

(** C3, as stated, fails on a sparse layout: the first entry of
    [Examples.sparse_result_set] is empty and the second valid, so [rowCount]
    is 1 and [getRowAt 0] is the empty row, while the first [getNextRow]
    returns the row of the second entry. *)
Lemma getRowAt_differs_from_getNextRow :
  ResultSet.permutation_ Examples.sparse_result_set = [] /\
  rowCount (BA := Reference.accessors) Examples.sparse_result_set = Ok 1 /\
  getRowAt_range (BA := Reference.accessors) (TM := Reference.materializers)
    Examples.sparse_result_set 0 1 = Ok [[]] /\
  exists rs',
    getNextRow_times (BA := Reference.accessors)
      (TM := Reference.materializers) 1 true false
      (fresh_cursor Examples.sparse_result_set)
    = Ok ([[IntTV 7]], rs').
Proof.
  split; [reflexivity |]. split; [vm_compute; reflexivity |].
  split; [vm_compute; reflexivity |].
  eexists. vm_compute. reflexivity.
Qed.

Lemma getRowAt_matches_getNextRow_witness :
  rowCount (BA := Reference.accessors) Examples.eight_rows_unlimited = Ok 8 /\
  getRowAt_range (BA := Reference.accessors) (TM := Reference.materializers)
    Examples.eight_rows_unlimited 0 8
    = Ok (map Examples.eight_rows_row (positions 0 8)) /\
  exists rs',
    getNextRow_times (BA := Reference.accessors)
      (TM := Reference.materializers) 9 true false
      (fresh_cursor Examples.eight_rows_unlimited)
    = Ok (map Examples.eight_rows_row (positions 0 8) ++ [[]], rs').
Proof.
  refine (getRowAt_matches_getNextRow (BA := Reference.accessors)
            (TM := Reference.materializers) Examples.eight_rows_unlimited 8
            Examples.eight_rows_row _ _ _ _ _ _ _ _ _ _).
  - reflexivity.
  - discriminate.
  - reflexivity.
  - reflexivity.
  - reflexivity.
  - vm_compute. split; discriminate.
  - vm_compute. reflexivity.
  - intros i Hi.
    assert (Hc : i = 0 \/ i = 1 \/ i = 2 \/ i = 3 \/ i = 4 \/ i = 5 \/ i = 6
                 \/ i = 7) by lia.
    repeat (destruct Hc as [-> | Hc]; [vm_compute; reflexivity |]).
    subst i. vm_compute. reflexivity.
  - intros i Hi. change (entryCount Examples.eight_rows_unlimited) with 8 in Hi.
    lia.
  - intros i Hi. split; [| discriminate].
    assert (Hc : i = 0 \/ i = 1 \/ i = 2 \/ i = 3 \/ i = 4 \/ i = 5 \/ i = 6
                 \/ i = 7) by lia.
    repeat (destruct Hc as [-> | Hc]; [vm_compute; reflexivity |]).
    subst i. vm_compute. reflexivity.
Defined.

(** ** The entry-count invariant *)

Section InvariantProperties.

Context {BA : BufferAccessors} {TM : TargetMaterializers}.

Lemma getStorageIndex_appended_total (appended : list ResultSetStorage.t) :
  Forall (fun s => 0 <= ResultSetStorage.getEntryCount s) appended ->
  forall ordinal idx,
    0 <= idx < entry_counts_before appended (length appended) ->
    exists (k : nat) (local : Z),
      getStorageIndex_appended appended ordinal idx
      = Ok (ordinal + Z.of_nat k, local) /\
      (k < length appended)%nat.
Proof.
  intros H. induction H as [| s rest Hs Hrest IH]; intros ordinal idx Hidx.
  - unfold entry_counts_before in Hidx. simpl in Hidx. lia.
  - assert (E : entry_counts_before (s :: rest) (length (s :: rest))
                = ResultSetStorage.getEntryCount s
                  + entry_counts_before rest (length rest)) by reflexivity.
    rewrite E in Hidx. cbn [getStorageIndex_appended].
    destruct (Z.ltb_spec idx (ResultSetStorage.getEntryCount s)).
    + exists O, idx. split; [f_equal; f_equal; lia | simpl; lia].
    + destruct (IH (ordinal + 1) (idx - ResultSetStorage.getEntryCount s)
                  ltac:(lia)) as [k [local [Hk Hlen]]].
      exists (S k), local. split; [| simpl; lia].
      rewrite Hk. f_equal. f_equal. lia.
Qed.

Lemma findStorage_total (rs : ResultSet.t) (i : Z) :
  Forall (fun s => 0 <= ResultSetStorage.getEntryCount s)
    (ResultSet.appended_storage_ rs) ->
  0 <= i < total_entry_count rs ->
  exists r, findStorage rs i = Ok r.
Proof.
  intros Hnn Hi. unfold total_entry_count in Hi.
  unfold findStorage, getStorageIndex.
  destruct (ResultSet.storage_ rs) as [primary |] eqn:Hp; [| lia].
  destruct (Z.ltb_spec i (ResultSetStorage.getEntryCount primary)).
  - cbn [bind Z.eqb]. eexists. reflexivity.
  - destruct (getStorageIndex_appended_total _ Hnn 1
                (i - ResultSetStorage.getEntryCount primary) ltac:(lia))
      as [k [local [Hk Hlen]]].
    rewrite Hk. cbn [bind].
    destruct (Z.eqb_spec (1 + Z.of_nat k) 0); [lia |].
    replace (Z.to_nat (1 + Z.of_nat k - 1)) with k by lia.
    destruct (nth_error (ResultSet.appended_storage_ rs) k) eqn:Hnth.
    + eexists. reflexivity.
    + apply nth_error_None in Hnth. lia.
Qed.

Lemma with_cursor_same (rs : ResultSet.t) :
  with_cursor rs (ResultSet.crt_row_buff_idx_ rs) (ResultSet.fetched_so_far_ rs)
  = rs.
Proof. destruct rs; reflexivity. Qed.

(** The cursor loops change nothing but the cursor. *)
Lemma advanceCursorToNextEntry_loop_cursor (fuel : nat) :
  forall rs rs',
    advanceCursorToNextEntry_loop fuel rs = Ok rs' ->
    exists c f, rs' = with_cursor rs c f.
Proof.
  induction fuel as [| fuel IH]; intros rs rs' H;
    cbn [advanceCursorToNextEntry_loop] in H;
    destruct (ResultSet.crt_row_buff_idx_ rs <? entryCount rs);
    try discriminate H;
    try (injection H as <-; eexists; eexists;
         symmetry; apply with_cursor_same).
  inv_bind H. destruct v; cbn [negb] in H.
  - apply IH in H. destruct H as [c [f ->]]. exists c, f. reflexivity.
  - injection H as <-. eexists; eexists. symmetry. apply with_cursor_same.
Qed.

Lemma advanceCursorToNextEntry_cursor (rs rs' : ResultSet.t) (idx : Z) :
  advanceCursorToNextEntry rs = Ok (idx, rs') ->
  exists c f, rs' = with_cursor rs c f.
Proof.
  unfold advanceCursorToNextEntry. intros H. inv_bind H.
  apply advanceCursorToNextEntry_loop_cursor in Hv.
  destruct Hv as [c [f ->]].
  destruct (ResultSet.permutation_ (with_cursor rs c f)).
  - injection H as _ <-. eauto.
  - inv_check H.
    destruct (ResultSet.crt_row_buff_idx_ (with_cursor rs c f) =? _).
    + injection H as _ <-. eauto.
    + inv_bind H. injection H as _ <-. eauto.
Qed.

Lemma getNextRowImpl_loop_cursor (fuel : nat) :
  forall rs rs' found,
    getNextRowImpl_loop fuel rs = Ok (found, rs') ->
    exists c f, rs' = with_cursor rs c f.
Proof.
  induction fuel as [| fuel IH]; intros rs rs' found H; [discriminate H |].
  cbn [getNextRowImpl_loop] in H.
  destruct (negb (ResultSet.keep_first_ rs =? 0) && _).
  - injection H as _ <-. eexists; eexists. symmetry. apply with_cursor_same.
  - inv_bind H. destruct v as [idx rs1].
    apply advanceCursorToNextEntry_cursor in Hv. destruct Hv as [c [f ->]].
    destruct (entryCount (with_cursor rs c f) <=? _).
    + inv_check H. injection H as _ <-. eauto.
    + destruct (negb _ && _).
      * apply IH in H. destruct H as [c' [f' ->]]. exists c', f'. reflexivity.
      * injection H as _ <-. eexists; eexists. reflexivity.
Qed.

Lemma getNextRow_cursor (rs rs' : ResultSet.t) (ts d2d : bool) (row : Row) :
  getNextRow ts d2d rs = Ok (row, rs') ->
  exists c f, rs' = with_cursor rs c f.
Proof.
  intros H.
  assert (Himpl : forall r r', getNextRowImpl ts d2d rs = Ok (r, r') ->
                    exists c f, r' = with_cursor rs c f).
  { intros r r' Hi. unfold getNextRowImpl in Hi. inv_bind Hi.
    destruct v as [found rs1].
    apply getNextRowImpl_loop_cursor in Hv. destruct Hv as [c [f ->]].
    destruct found.
    - inv_bind Hi. inv_check Hi. injection Hi as _ <-. eauto.
    - injection Hi as _ <-. eauto. }
  assert (Hunl : forall r r', getNextRowUnlocked ts d2d rs = Ok (r, r') ->
                   exists c f, r' = with_cursor rs c f).
  { intros r r' Hu. unfold getNextRowUnlocked in Hu.
    destruct (ResultSet.just_explain_ rs); [| eauto].
    destruct (negb _).
    - injection Hu as _ <-. eexists; eexists. symmetry.
      apply with_cursor_same.
    - injection Hu as _ <-.
      exists (ResultSet.crt_row_buff_idx_ rs), 1. destruct rs; reflexivity. }
  unfold getNextRow in H.
  destruct (ResultSet.storage_ rs); [eauto |].
  destruct (negb (ResultSet.just_explain_ rs)); [| eauto].
  injection H as _ <-. eexists; eexists. symmetry. apply with_cursor_same.
Qed.

(** C6 (amended): [entryCount] is the size of the permutation when there is
    one and the entry count of the layout descriptor otherwise.  Storage
    lookup is total over [0, entryCount()) whenever neither the layout entry
    count nor the permutation size exceeds the summed entry counts of the
    storages; [getNextRow], [clearPermutation] and [initStatus] preserve
    that condition, and [updateStorageEntryCount] preserves it when no
    permutation is present. *)
Theorem entryCount_lookup_invariant (rs : ResultSet.t) :
  storages_cover rs ->
  (ResultSet.permutation_ rs = [] ->
   entryCount rs
   = QueryMemoryDescriptor.getEntryCount (ResultSet.query_mem_desc_ rs)) /\
  (ResultSet.permutation_ rs <> [] ->
   entryCount rs = Z.of_nat (length (ResultSet.permutation_ rs))) /\
  (forall i, 0 <= i < entryCount rs -> exists r, findStorage rs i = Ok r) /\
  (forall ts d2d row rs',
     getNextRow ts d2d rs = Ok (row, rs') -> storages_cover rs') /\
  storages_cover (clearPermutation rs) /\
  storages_cover (initStatus rs) /\
  (forall new_entry_count rs',
     ResultSet.permutation_ rs = [] -> 0 <= new_entry_count ->
     updateStorageEntryCount rs new_entry_count = Ok rs' ->
     storages_cover rs').
Proof.
  intros [Hnn [Hlayout Hperm]].
  assert (Hcp : storages_cover (clearPermutation rs)).
  { unfold clearPermutation. destruct (ResultSet.permutation_ rs) eqn:E.
    - unfold storages_cover. rewrite E. auto.
    - unfold storages_cover, total_entry_count in *.
      cbn [ResultSet.set_permutation_ ResultSet.appended_storage_
             ResultSet.query_mem_desc_ ResultSet.permutation_
             ResultSet.storage_ length].
      repeat split; auto. lia. }
  split; [| split; [| split; [| split; [| split; [| split]]]]].
  - intros E. unfold entryCount. rewrite E. reflexivity.
  - intros E. unfold entryCount.
    destruct (ResultSet.permutation_ rs); [contradiction | reflexivity].
  - intros i Hi. apply findStorage_total; [exact Hnn |].
    unfold entryCount in Hi. destruct (ResultSet.permutation_ rs); lia.
  - intros ts d2d row rs' H. apply getNextRow_cursor in H.
    destruct H as [c [f ->]]. unfold storages_cover. auto.
  - exact Hcp.
  - unfold initStatus, fresh_cursor.
    destruct Hcp as [A [B C]].
    unfold clearPermutation, storages_cover, total_entry_count in *.
    destruct (ResultSet.permutation_ rs) eqn:E.
    + change (ResultSet.permutation_
                (ResultSet.set_fetched_so_far_
                   (ResultSet.set_crt_row_buff_idx_ rs 0) 0))
        with (ResultSet.permutation_ rs).
      rewrite E. cbn. rewrite E. auto.
    + change (ResultSet.permutation_
                (ResultSet.set_fetched_so_far_
                   (ResultSet.set_crt_row_buff_idx_ rs 0) 0))
        with (ResultSet.permutation_ rs).
      rewrite E. cbn. cbn in A, B, C. auto.
  - intros new_entry_count rs' E Hnew H.
    unfold updateStorageEntryCount in H. inv_check H.
    cbn [ResultSet.set_query_mem_desc_ ResultSet.storage_] in H.
    destruct (ResultSet.storage_ rs) as [s |] eqn:Hs; [| discriminate H].
    injection H as <-.
    pose proof (entry_counts_before_nonneg _
                  (length (ResultSet.appended_storage_ rs)) Hnn) as Hb.
    unfold storages_cover, total_entry_count.
    cbn [ResultSet.set_storage_ ResultSet.set_query_mem_desc_
           ResultSet.appended_storage_ ResultSet.query_mem_desc_
           ResultSet.permutation_ ResultSet.storage_].
    rewrite E.
    unfold ResultSetStorage.getEntryCount, ResultSetStorage.updateEntryCount.
    cbn [ResultSetStorage.query_mem_desc_ QueryMemoryDescriptor.getEntryCount
           QueryMemoryDescriptor.setEntryCount
           QueryMemoryDescriptor.entry_count_ length].
    repeat split; auto.
    + fold (ResultSetStorage.getEntryCount). lia.
    + change (Z.of_nat 0) with 0. lia.
Qed.

End InvariantProperties.

(** C6, as stated, fails after [updateStorageEntryCount] on a sorted result:
    [Examples.sorted_result_set] has five rows, a permutation over the five
    and a total lookup; after the entry count is updated to 2 its
    [entryCount] is still 5, and neither index 3 nor the entry behind
    logical position 0 can be looked up. *)
Lemma lookup_partial_after_update :
  storages_cover Examples.sorted_result_set /\
  exists rs',
    updateStorageEntryCount Examples.sorted_result_set 2 = Ok rs' /\
    entryCount rs' = 5 /\
    findStorage rs' 3 = CheckFailed /\
    isEmptyAt (BA := Reference.accessors) rs' 0 = CheckFailed.
Proof.
  split.
  - unfold storages_cover. split; [constructor |].
    vm_compute. split; discriminate.
  - eexists. split; [reflexivity |]. vm_compute. repeat split; reflexivity.
Qed.

Lemma entryCount_lookup_invariant_witness :
  entryCount Examples.sorted_result_set = 5 /\
  exists r, findStorage Examples.sorted_result_set 3 = Ok r.
Proof.
  assert (Hcover : storages_cover Examples.sorted_result_set).
  { unfold storages_cover. split; [constructor |].
    vm_compute. split; discriminate. }
  split.
  - refine (proj1 (proj2 (entryCount_lookup_invariant
                            (BA := Reference.accessors)
                            (TM := Reference.materializers)
                            Examples.sorted_result_set Hcover)) _).
    discriminate.
  - refine (proj1 (proj2 (proj2 (entryCount_lookup_invariant
                                   (BA := Reference.accessors)
                                   (TM := Reference.materializers)
                                   Examples.sorted_result_set Hcover)))
              3 _).
    vm_compute. split; [discriminate | reflexivity].
Defined.

(** ** The AVG pair *)

Section AvgProperties.

Context {BA : BufferAccessors} {TM : TargetMaterializers}.





End AvgProperties.


(** The same value through random access to the result set. *)
Example avg_row :
  getRowAt (BA := Reference.accessors) (TM := Reference.materializers)
    Examples.avg_result_set 0 = Ok [DoubleTV 5%float].
Proof. vm_compute. reflexivity. Qed.

(** ** Integer narrowing *)

Section NarrowingProperties.

Lemma narrow_range (bits ival : Z) :
  0 < bits -> - 2 ^ (bits - 1) <= narrow bits ival < 2 ^ (bits - 1).
Proof.
  intros Hb. unfold narrow, to_signed.
  assert (Hp : 2 ^ bits = 2 * 2 ^ (bits - 1)).
  { replace bits with (1 + (bits - 1)) at 1 by lia.
    rewrite Z.pow_add_r by lia. reflexivity. }
  assert (Hpos : 0 < 2 ^ (bits - 1)) by (apply Z.pow_pos_nonneg; lia).
  pose proof (Z.mod_pos_bound ival (2 ^ bits) ltac:(lia)) as Hm.
  destruct (Z.ltb_spec (ival mod 2 ^ bits) (2 ^ (bits - 1))); lia.
Qed.

Lemma narrow_congruent (bits ival : Z) :
  0 < bits -> (narrow bits ival - ival) mod 2 ^ bits = 0.
Proof.
  intros Hb. unfold narrow, to_signed.
  assert (Hpos : 0 < 2 ^ bits) by (apply Z.pow_pos_nonneg; lia).
  pose proof (Z.div_mod ival (2 ^ bits) ltac:(lia)) as Hd.
  destruct (Z.ltb_spec (ival mod 2 ^ bits) (2 ^ (bits - 1))).
  - replace (ival mod 2 ^ bits - ival)
      with (- (ival / 2 ^ bits) * 2 ^ bits) by lia.
    apply Z.mod_mul. lia.
  - replace (ival mod 2 ^ bits - 2 ^ bits - ival)
      with ((- (ival / 2 ^ bits) - 1) * 2 ^ bits) by lia.
    apply Z.mod_mul. lia.
Qed.

Lemma narrow_fixed (bits ival : Z) :
  0 < bits -> - 2 ^ (bits - 1) <= ival < 2 ^ (bits - 1) ->
  narrow bits ival = ival.
Proof.
  intros Hb Hr. unfold narrow, to_signed.
  assert (Hp : 2 ^ bits = 2 * 2 ^ (bits - 1)).
  { replace bits with (1 + (bits - 1)) at 1 by lia.
    rewrite Z.pow_add_r by lia. reflexivity. }
  destruct (Z.lt_ge_cases ival 0) as [Hneg | Hnn].
  - assert (E : ival mod 2 ^ bits = ival + 2 ^ bits)
      by (symmetry; apply Z.mod_unique with (q := - 1); lia).
    rewrite E. destruct (Z.ltb_spec (ival + 2 ^ bits) (2 ^ (bits - 1))); lia.
  - rewrite Z.mod_small by lia.
    destruct (Z.ltb_spec ival (2 ^ (bits - 1))); lia.
Qed.

(** [int_resize_cast] narrows a 64-bit integer to [sz] bytes, for [sz] one
    of 1, 2, 4 and 8: the result lies in the signed range of [sz] bytes and
    agrees with the argument on its low [8 * sz] bits; an argument that is
    already in that range is returned as it is, so that the cast is
    idempotent.  For any other size the function is unreachable code. *)
Theorem int_resize_cast_narrows (ival sz : Z) :
  - 2 ^ 63 <= ival < 2 ^ 63 ->
  (sz = 1 \/ sz = 2 \/ sz = 4 \/ sz = 8 ->
   exists r,
     int_resize_cast ival sz = Ok r /\
     - 2 ^ (8 * sz - 1) <= r < 2 ^ (8 * sz - 1) /\
     (r - ival) mod 2 ^ (8 * sz) = 0 /\
     (- 2 ^ (8 * sz - 1) <= ival < 2 ^ (8 * sz - 1) -> r = ival) /\
     int_resize_cast r sz = Ok r) /\
  (sz <> 1 -> sz <> 2 -> sz <> 4 -> sz <> 8 ->
   int_resize_cast ival sz = CheckFailed).
Proof.
  intros Hi. split.
  - intros [-> | [-> | [-> | ->]]]; cbn [int_resize_cast Z.eqb Pos.eqb Z.mul
                                          Pos.mul Z.sub Z.add Z.opp Z.pos_sub
                                          Pos.pred_double].
    + exists (narrow 8 ival).
      pose proof (narrow_range 8 ival ltac:(lia)) as Hr.
      split; [reflexivity |]. split; [exact Hr |].
      split; [apply (narrow_congruent 8); lia |].
      split; [intros H; apply (narrow_fixed 8); [lia | exact H] |].
      rewrite (narrow_fixed 8 (narrow 8 ival)) by (try lia; exact Hr).
      reflexivity.
    + exists (narrow 16 ival).
      pose proof (narrow_range 16 ival ltac:(lia)) as Hr.
      split; [reflexivity |]. split; [exact Hr |].
      split; [apply (narrow_congruent 16); lia |].
      split; [intros H; apply (narrow_fixed 16); [lia | exact H] |].
      rewrite (narrow_fixed 16 (narrow 16 ival)) by (try lia; exact Hr).
      reflexivity.
    + exists (narrow 32 ival).
      pose proof (narrow_range 32 ival ltac:(lia)) as Hr.
      split; [reflexivity |]. split; [exact Hr |].
      split; [apply (narrow_congruent 32); lia |].
      split; [intros H; apply (narrow_fixed 32); [lia | exact H] |].
      rewrite (narrow_fixed 32 (narrow 32 ival)) by (try lia; exact Hr).
      reflexivity.
    + exists ival. split; [reflexivity |]. split; [exact Hi |].
      split; [rewrite Z.sub_diag; reflexivity |]. split; [reflexivity |].
      reflexivity.
  - intros H1 H2 H4 H8. unfold int_resize_cast.
    destruct (Z.eqb_spec sz 8); [contradiction |].
    destruct (Z.eqb_spec sz 4); [contradiction |].
    destruct (Z.eqb_spec sz 2); [contradiction |].
    destruct (Z.eqb_spec sz 1); [contradiction |]. reflexivity.
Qed.

End NarrowingProperties.

Lemma int_resize_cast_narrows_witness :
  exists r,
    int_resize_cast 65535 2 = Ok r /\
    - 2 ^ (8 * 2 - 1) <= r < 2 ^ (8 * 2 - 1) /\
    (r - 65535) mod 2 ^ (8 * 2) = 0 /\
    (- 2 ^ (8 * 2 - 1) <= 65535 < 2 ^ (8 * 2 - 1) -> r = 65535) /\
    int_resize_cast r 2 = Ok r.
Proof.
  refine (proj1 (int_resize_cast_narrows 65535 2 _) _).
  - lia.
  - right. left. reflexivity.
Defined.
(** ** Fragments of lazily fetched columns *)

Lemma vec_at_Ok {A : Type} (v : list A) (i : Z) (a : A) :
  vec_at v i = Ok a -> 0 <= i < Z.of_nat (length v) /\ nth_error v (Z.to_nat i) = Some a.
Proof.
  unfold vec_at. intros H.
  destruct (Z.ltb_spec i 0); [discriminate H |].
  destruct (nth_error v (Z.to_nat i)) eqn:E; [| discriminate H].
  injection H as ->. split; [| reflexivity].
  assert (Hlt : (Z.to_nat i < length v)%nat)
    by (apply nth_error_Some; rewrite E; discriminate).
  lia.
Qed.

Lemma vec_at_in_range {A : Type} (v : list A) (i : Z) :
  0 <= i < Z.of_nat (length v) -> exists a, vec_at v i = Ok a.
Proof.
  intros H. unfold vec_at.
  destruct (Z.ltb_spec i 0); [lia |].
  destruct (nth_error v (Z.to_nat i)) eqn:E; [eauto |].
  apply nth_error_None in E. lia.
Qed.

Lemma get_frag_id_and_local_idx_loop_spec (frag_offsets : list (list Z))
    (col g : Z) :
  0 <= col -> 0 <= g < 2 ^ 63 ->
  (forall k, 1 <= k < Z.of_nat (length frag_offsets) ->
     exists off, frag_offset frag_offsets col k = Ok off /\ 0 <= off) ->
  forall n : nat,
    Z.of_nat n < Z.of_nat (length frag_offsets) \/ n = O ->
    exists f l,
      get_frag_id_and_local_idx_loop frag_offsets col g n = Ok (f, l) /\
      (forall k off, Z.max f 0 < k <= Z.of_nat n ->
         frag_offset frag_offsets col k = Ok off -> g <= off) /\
      ((f = - 1 /\ l = - 1) \/
       (1 <= f <= Z.of_nat n /\ frag_offset frag_offsets col f = Ok (g - l) /\
        1 <= l <= g)).
Proof.
  intros Hcol Hg Hwf. induction n as [| n IH]; intros Hn.
  - exists (- 1), (- 1). split; [reflexivity |]. split; [| left; auto].
    intros k off Hk. cbn in Hk. lia.
  - destruct Hn as [Hn | Hn]; [| discriminate Hn].
    destruct (Hwf (Z.of_nat (S n)) ltac:(lia)) as [off [Hoff Hoff0]].
    cbn [get_frag_id_and_local_idx_loop].
    unfold frag_offset in Hoff.
    destruct (vec_at frag_offsets (Z.of_nat (S n))) as [offsets | | |] eqn:Ev;
      try discriminate Hoff.
    cbn [bind] in Hoff |- *.
    destruct (vec_at_Ok _ _ _ Hoff) as [Hrange _].
    destruct (Z.ltb_spec col (Z.of_nat (length offsets))); [| lia].
    rewrite Hoff. cbn [bind].
    destruct (Z.ltb_spec off g) as [Hlt | Hge].
    + destruct (Z.ltb_spec (g - off) (2 ^ 63)); [| lia].
      exists (Z.of_nat (S n)), (g - off). split; [reflexivity |]. split.
      * intros k off' Hk. lia.
      * right. split; [lia |]. split; [| lia].
        unfold frag_offset. rewrite Ev. cbn [bind].
        replace (g - (g - off)) with off by lia. exact Hoff.
    + destruct (IH ltac:(lia)) as [f [l [Hloop [Habove Hres]]]].
      exists f, l. split; [exact Hloop |]. split.
      * intros k off' Hk Hk'.
        destruct (Z.eq_dec k (Z.of_nat (S n))) as [-> | Hne].
        -- unfold frag_offset in Hk'. rewrite Ev in Hk'. cbn [bind] in Hk'.
           rewrite Hoff in Hk'. injection Hk' as <-. exact Hge.
        -- apply (Habove k off'); [lia | exact Hk'].
      * destruct Hres as [Hres | [Hf Hres]]; [left; exact Hres |].
        right. split; [lia | exact Hres].
Qed.

Lemma get_frag_id_and_local_idx_result (frag_offsets : list (list Z))
    (col g : Z) :
  0 <= col -> 0 <= g < 2 ^ 63 ->
  (forall k, 1 <= k < Z.of_nat (length frag_offsets) ->
     exists off, frag_offset frag_offsets col k = Ok off /\ 0 <= off) ->
  exists f l,
    get_frag_id_and_local_idx frag_offsets col g = Ok (f, l) /\
    (forall k off, Z.max f 0 < k < Z.of_nat (length frag_offsets) ->
       frag_offset frag_offsets col k = Ok off -> g <= off) /\
    ((f = - 1 /\ l = - 1) \/
     (1 <= f < Z.of_nat (length frag_offsets) /\
      frag_offset frag_offsets col f = Ok (g - l) /\ 1 <= l <= g)).
Proof.
  intros Hcol Hg Hwf. unfold get_frag_id_and_local_idx.
  destruct (Z.leb_spec 0 g); [| lia].
  destruct (get_frag_id_and_local_idx_loop_spec frag_offsets col g Hcol Hg
              Hwf (length frag_offsets - 1)%nat)
    as [f [l [Hloop [Habove Hres]]]].
  { destruct (length frag_offsets); [right; reflexivity | left; lia]. }
  exists f, l. split; [exact Hloop |]. split.
  - intros k off Hk. apply Habove. lia.
  - destruct Hres as [Hres | [Hf Hres]]; [left; exact Hres |].
    right. split; [lia | exact Hres].
Qed.

(** [get_frag_id_and_local_idx] scans the fragments from the last one down
    to fragment 1 and stops at the first whose row offset is strictly below
    the global index: it returns that fragment and the distance of the index
    from its offset, which is at least 1, and every later fragment starts at
    or after the index.  When no fragment from 1 on starts below the index
    the answer is [(-1, -1)]; fragment 0 is never returned. *)
Theorem get_frag_id_and_local_idx_last_below (frag_offsets : list (list Z))
    (col g : Z) :
  0 <= col -> 0 <= g < 2 ^ 63 ->
  (forall k, 1 <= k < Z.of_nat (length frag_offsets) ->
     exists off, frag_offset frag_offsets col k = Ok off /\ 0 <= off) ->
  exists f l,
    get_frag_id_and_local_idx frag_offsets col g = Ok (f, l) /\
    (forall k off, Z.max f 0 < k < Z.of_nat (length frag_offsets) ->
       frag_offset frag_offsets col k = Ok off -> g <= off) /\
    ((f = - 1 /\ l = - 1) \/
     (1 <= f < Z.of_nat (length frag_offsets) /\
      frag_offset frag_offsets col f = Ok (g - l) /\ 1 <= l <= g)).
Proof. exact (get_frag_id_and_local_idx_result frag_offsets col g). Qed.

Lemma get_frag_id_and_local_idx_last_below_witness :
  exists f l,
    get_frag_id_and_local_idx [[0]; [10]; [20]] 0 20 = Ok (f, l) /\
    (forall k off, Z.max f 0 < k < 3 ->
       frag_offset [[0]; [10]; [20]] 0 k = Ok off -> 20 <= off) /\
    ((f = - 1 /\ l = - 1) \/
     (1 <= f < 3 /\
      frag_offset [[0]; [10]; [20]] 0 f = Ok (20 - l) /\ 1 <= l <= 20)).
Proof.
  refine (get_frag_id_and_local_idx_last_below [[0]; [10]; [20]] 0 20 _ _ _).
  - lia.
  - lia.
  - intros k Hk. change (Z.of_nat (length [[0]; [10]; [20]])) with 3 in Hk.
    assert (Hc : k = 1 \/ k = 2) by lia.
    destruct Hc as [-> | ->]; eexists; (split; [reflexivity | lia]).
Defined.
Section ColumnFragProperties.

Variable fb : FragmentBuffers.t.
Variables storage_idx col : Z.
Variable buffers : list (list Z).

Hypothesis Hbuffers :
  vec_at (FragmentBuffers.col_buffers_ fb) storage_idx = Ok buffers.

Lemma getColumnFrag_storage_checked :
  (storage_idx <? Z.of_nat (length (FragmentBuffers.col_buffers_ fb))) = true.
Proof.
  destruct (vec_at_Ok _ _ _ Hbuffers) as [H _]. apply Z.ltb_lt. lia.
Qed.

(** [getColumnFrag] on a column whose fragments all have [size] rows: the
    global index [g] is split into the fragment [g / size] and the index
    [g mod size] inside it, so that [frag * size + local = g] with
    [0 <= local < size]; the call fails its check when that fragment does
    not exist.  With a single fragment the index is returned untouched, and
    without any fragment the check fails. *)
Theorem getColumnFrag_consistent_sizes (sizes : list Z) (size g : Z) :
  vec_at (FragmentBuffers.consistent_frag_sizes_ fb) storage_idx = Ok sizes ->
  vec_at sizes col = Ok size ->
  0 < size -> 0 <= g ->
  (1 < Z.of_nat (length buffers) ->
   (g / size < Z.of_nat (length buffers) ->
    exists frag,
      getColumnFrag fb storage_idx col g = Ok (frag, g mod size) /\
      vec_at buffers (g / size) = Ok frag /\
      g / size * size + g mod size = g /\ 0 <= g mod size < size) /\
   (Z.of_nat (length buffers) <= g / size ->
    getColumnFrag fb storage_idx col g = CheckFailed)) /\
  (forall frag, buffers = [frag] ->
     getColumnFrag fb storage_idx col g = Ok (frag, g)) /\
  (buffers = [] -> getColumnFrag fb storage_idx col g = CheckFailed).
Proof.
  intros Hsizes Hsize Hpos Hg.
  pose proof getColumnFrag_storage_checked as Hchk.
  split; [| split].
  - intros Hmany.
    assert (Hq : Z.quot g size = g / size) by (apply Z.quot_div_nonneg; lia).
    assert (Hr : Z.rem g size = g mod size) by (apply Z.rem_mod_nonneg; lia).
    assert (Hq0 : 0 <= g / size) by (apply Z.div_pos; lia).
    assert (Hshape :
      getColumnFrag fb storage_idx col g =
      (CHECK (g / size <? Z.of_nat (length buffers)) ;;
       frag <- vec_at buffers (g / size) ;; Ok (frag, g mod size))).
    { unfold getColumnFrag. rewrite Hchk, Hbuffers. cbn [bind].
      apply Z.ltb_lt in Hmany. rewrite Hmany. rewrite Hsizes. cbn [bind].
      rewrite Hsize. cbn [bind].
      destruct (Z.eqb_spec size (- 1)); [lia |]. cbn [negb].
      destruct (Z.eqb_spec size 0); [lia |]. cbn [bind].
      rewrite Hq, Hr.
      destruct (Z.leb_spec 0 (g / size)); [reflexivity | lia]. }
    split.
    + intros Hlt.
      destruct (vec_at_in_range buffers (g / size) ltac:(lia)) as [frag Hfrag].
      exists frag. rewrite Hshape.
      apply Z.ltb_lt in Hlt. rewrite Hlt, Hfrag. cbn [bind].
      split; [reflexivity |]. split; [reflexivity |].
      pose proof (Z.div_mod g size ltac:(lia)).
      pose proof (Z.mod_pos_bound g size Hpos). lia.
    + intros Hge. rewrite Hshape.
      destruct (Z.ltb_spec (g / size) (Z.of_nat (length buffers)));
        [lia | reflexivity].
  - intros frag ->. unfold getColumnFrag. rewrite Hchk, Hbuffers. reflexivity.
  - intros ->. unfold getColumnFrag. rewrite Hchk, Hbuffers. reflexivity.
Qed.

(** [getColumnFrag] on a column whose fragments differ in size (the recorded
    size is [-1]): a global index that no fragment from 1 on starts strictly
    below, in particular every row of fragment 0, fails the check on the
    fragment id; a call that returns has chosen a fragment [f >= 1] whose
    row offset plus the returned index, which is at least 1, is the global
    index. *)
Theorem getColumnFrag_uneven_sizes (sizes : list Z) (offsets : list (list Z))
    (g : Z) :
  vec_at (FragmentBuffers.consistent_frag_sizes_ fb) storage_idx = Ok sizes ->
  vec_at sizes col = Ok (- 1) ->
  vec_at (FragmentBuffers.frag_offsets_ fb) storage_idx = Ok offsets ->
  1 < Z.of_nat (length buffers) ->
  0 <= g < 2 ^ 63 ->
  (forall k, 1 <= k < Z.of_nat (length offsets) ->
     exists off, frag_offset offsets col k = Ok off /\ 0 <= off) ->
  ((forall k off, 1 <= k < Z.of_nat (length offsets) ->
      frag_offset offsets col k = Ok off -> g <= off) ->
   getColumnFrag fb storage_idx col g = CheckFailed) /\
  (forall frag l,
     getColumnFrag fb storage_idx col g = Ok (frag, l) ->
     exists f,
       1 <= f /\ vec_at buffers f = Ok frag /\
       frag_offset offsets col f = Ok (g - l) /\ 1 <= l <= g).
Proof.
  intros Hsizes Hsize Hoffsets Hmany Hg Hwf.
  pose proof getColumnFrag_storage_checked as Hchk.
  assert (Hcol : 0 <= col) by (destruct (vec_at_Ok _ _ _ Hsize); lia).
  destruct (get_frag_id_and_local_idx_result offsets col g Hcol Hg Hwf)
    as [f [l [Hfl [Habove Hres]]]].
  assert (Hshape :
    getColumnFrag fb storage_idx col g =
    (CHECK (l <=? g) ;; CHECK (0 <=? f) ;;
     CHECK (f <? Z.of_nat (length buffers)) ;;
     frag <- vec_at buffers f ;; Ok (frag, l))).
  { unfold getColumnFrag. rewrite Hchk, Hbuffers. cbn [bind].
    apply Z.ltb_lt in Hmany. rewrite Hmany. rewrite Hsizes. cbn [bind].
    rewrite Hsize. cbn [bind Z.eqb Pos.eqb negb]. rewrite Hoffsets.
    cbn [bind]. rewrite Hfl. cbn [bind].
    destruct (l <=? g); reflexivity. }
  split.
  - intros Hall. rewrite Hshape.
    destruct Hres as [[-> ->] | [Hf [Hoff Hl]]].
    + destruct (Z.leb_spec (- 1) g); [reflexivity | lia].
    + specialize (Hall f (g - l) Hf Hoff). lia.
  - intros frag l' H. rewrite Hshape in H.
    destruct (l <=? g); [| discriminate H].
    destruct (Z.leb_spec 0 f) as [Hf0 |]; [| discriminate H].
    destruct (f <? Z.of_nat (length buffers)); [| discriminate H].
    destruct (vec_at buffers f) as [frag' | | |] eqn:Efrag;
      try discriminate H.
    cbn [bind] in H. injection H as -> ->.
    destruct Hres as [[-> _] | [Hf [Hoff Hl]]]; [lia |].
    exists f. split; [lia |]. split; [exact Efrag |]. split; assumption.
Qed.

End ColumnFragProperties.

Lemma getColumnFrag_consistent_sizes_witness :
  exists frag,
    getColumnFrag
      (FragmentBuffers.mk [[[100]; [200]; [300]]] [[[0]; [10]; [20]]] [[10]])
      0 0 25 = Ok (frag, 25 mod 10) /\
    vec_at [[100]; [200]; [300]] (25 / 10) = Ok frag /\
    25 / 10 * 10 + 25 mod 10 = 25 /\ 0 <= 25 mod 10 < 10.
Proof.
  refine (proj1 (proj1 (getColumnFrag_consistent_sizes
                          (FragmentBuffers.mk [[[100]; [200]; [300]]]
                             [[[0]; [10]; [20]]] [[10]])
                          0 0 [[100]; [200]; [300]] _ [10] 10 25 _ _ _ _)
                   _) _).
  - reflexivity.
  - reflexivity.
  - reflexivity.
  - lia.
  - lia.
  - vm_compute. reflexivity.
  - vm_compute. reflexivity.
Defined.

Lemma getColumnFrag_uneven_sizes_witness :
  getColumnFrag
    (FragmentBuffers.mk [[[100]; [200]; [300]]] [[[0]; [10]; [25]]] [[- 1]])
    0 0 7 = CheckFailed.
Proof.
  refine (proj1 (getColumnFrag_uneven_sizes
                   (FragmentBuffers.mk [[[100]; [200]; [300]]]
                      [[[0]; [10]; [25]]] [[- 1]])
                   0 0 [[100]; [200]; [300]] _ [- 1] [[0]; [10]; [25]] 7
                   _ _ _ _ _ _) _).
  - reflexivity.
  - reflexivity.
  - reflexivity.
  - reflexivity.
  - vm_compute. reflexivity.
  - lia.
  - intros k Hk. change (Z.of_nat (length [[0]; [10]; [25]])) with 3 in Hk.
    assert (Hc : k = 1 \/ k = 2) by lia.
    destruct Hc as [-> | ->]; eexists; (split; [reflexivity | lia]).
  - intros k off Hk. change (Z.of_nat (length [[0]; [10]; [25]])) with 3 in Hk.
    assert (Hc : k = 1 \/ k = 2) by lia.
    destruct Hc as [-> | ->]; intros H; injection H as <-; lia.
Defined.
(** ** Slot offsets *)

Section SlotOffsetProperties.

Context {BA : BufferAccessors}.

Lemma to_size_t_range (z : Z) : 0 <= to_size_t z < 2 ^ 64.
Proof. unfold to_size_t, size_t_modulus. apply Z.mod_pos_bound. lia. Qed.

Lemma to_size_t_add_l (a b : Z) : to_size_t (to_size_t a + b) = to_size_t (a + b).
Proof. unfold to_size_t. apply Z.add_mod_idemp_l. unfold size_t_modulus. lia. Qed.

Lemma to_size_t_add_r (a b : Z) : to_size_t (a + to_size_t b) = to_size_t (a + b).
Proof. unfold to_size_t. apply Z.add_mod_idemp_r. unfold size_t_modulus. lia. Qed.

(** The accumulator of the loop only adds to what the loop sums. *)
Lemma getPaddedColWidthForRange_loop_acc (d : QueryMemoryDescriptor.t)
    (n : nat) :
  forall i ret,
    0 <= ret < 2 ^ 64 ->
    getPaddedColWidthForRange_loop d n i ret
    = (r <- getPaddedColWidthForRange_loop d n i 0 ;;
       Ok (to_size_t (ret + r))).
Proof.
  induction n as [| n IH]; intros i ret Hret.
  - cbn. rewrite Z.add_0_r, (to_size_t_small ret) by lia. reflexivity.
  - cbn [getPaddedColWidthForRange_loop].
    destruct (getPaddedSlotWidthBytes d i) as [w | | |]; try reflexivity.
    cbn [bind].
    rewrite (IH _ (to_size_t (ret + to_size_t w))) by apply to_size_t_range.
    rewrite (IH _ (to_size_t (0 + to_size_t w))) by apply to_size_t_range.
    destruct (getPaddedColWidthForRange_loop d n (to_size_t (i + 1)) 0)
      as [r | | |]; try reflexivity.
    cbn [bind]. f_equal.
    rewrite Z.add_0_l.
    rewrite !to_size_t_add_l, !to_size_t_add_r.
    replace (ret + to_size_t w + r) with (ret + r + to_size_t w) by lia.
    rewrite to_size_t_add_r. f_equal. lia.
Qed.

(** Summing [n1 + n2] slots is summing the first [n1] and then the next
    [n2]. *)
Lemma getPaddedColWidthForRange_loop_app (d : QueryMemoryDescriptor.t)
    (n1 n2 : nat) :
  forall i ret,
    0 <= i -> i + Z.of_nat n1 < 2 ^ 64 ->
    getPaddedColWidthForRange_loop d (n1 + n2) i ret
    = (r <- getPaddedColWidthForRange_loop d n1 i ret ;;
       getPaddedColWidthForRange_loop d n2 (i + Z.of_nat n1) r).
Proof.
  induction n1 as [| n1 IH]; intros i ret Hi Hn.
  - cbn. rewrite Z.add_0_r. reflexivity.
  - cbn [Nat.add getPaddedColWidthForRange_loop].
    destruct (getPaddedSlotWidthBytes d i) as [w | | |]; try reflexivity.
    cbn [bind].
    rewrite (to_size_t_small (i + 1)) by lia.
    rewrite IH by lia.
    replace (i + 1 + Z.of_nat n1) with (i + Z.of_nat (S n1)) by lia.
    reflexivity.
Qed.

(** [getPaddedColWidthForRange] composes over adjacent ranges: the padded
    width of [range1 + range2] slots from [offset] is the width of the first
    [range1] slots plus the width of the [range2] slots that follow, in
    [size_t] arithmetic.  Hence [get_byteoff_of_slot] is 0 for slot 0 and
    grows from one slot to the next by the padded width of the slot. *)
Theorem getPaddedColWidthForRange_adjacent (d : QueryMemoryDescriptor.t)
    (offset range1 range2 slot : Z) :
  (0 <= offset -> 0 <= range1 -> 0 <= range2 ->
   offset + range1 + range2 < 2 ^ 64 ->
   getPaddedColWidthForRange d offset (range1 + range2)
   = (w1 <- getPaddedColWidthForRange d offset range1 ;;
      w2 <- getPaddedColWidthForRange d (offset + range1) range2 ;;
      Ok (to_size_t (w1 + w2)))) /\
  get_byteoff_of_slot 0 d = Ok 0 /\
  (0 <= slot -> slot + 1 < 2 ^ 64 ->
   get_byteoff_of_slot (slot + 1) d
   = (off <- get_byteoff_of_slot slot d ;;
      w <- getPaddedSlotWidthBytes d slot ;;
      Ok (to_size_t (off + to_size_t w)))).
Proof.
  assert (Hcompose : forall offset range1 range2,
    0 <= offset -> 0 <= range1 -> 0 <= range2 ->
    offset + range1 + range2 < 2 ^ 64 ->
    getPaddedColWidthForRange d offset (range1 + range2)
    = (w1 <- getPaddedColWidthForRange d offset range1 ;;
       w2 <- getPaddedColWidthForRange d (offset + range1) range2 ;;
       Ok (to_size_t (w1 + w2)))).
  { clear offset range1 range2. intros offset range1 range2 Ho H1 H2 Hsum.
    unfold getPaddedColWidthForRange.
    rewrite !to_size_t_small by lia.
    replace (Z.to_nat (offset + (range1 + range2) - offset))
      with (Z.to_nat range1 + Z.to_nat range2)%nat by lia.
    replace (Z.to_nat (offset + range1 - offset)) with (Z.to_nat range1)
      by lia.
    replace (Z.to_nat (offset + range1 + range2 - (offset + range1)))
      with (Z.to_nat range2) by lia.
    rewrite getPaddedColWidthForRange_loop_app by lia.
    rewrite Z2Nat.id by lia.
    destruct (getPaddedColWidthForRange_loop d (Z.to_nat range1) offset 0)
      as [w1 | | |] eqn:E1; try reflexivity.
    cbn [bind].
    apply getPaddedColWidthForRange_loop_acc.
    assert (Hw : forall n i ret, 0 <= ret < 2 ^ 64 ->
              forall r, getPaddedColWidthForRange_loop d n i ret = Ok r ->
                        0 <= r < 2 ^ 64).
    { induction n as [| n IH]; intros i ret Hret r Hr.
      - cbn in Hr. injection Hr as <-. exact Hret.
      - cbn [getPaddedColWidthForRange_loop] in Hr.
        destruct (getPaddedSlotWidthBytes d i); try discriminate Hr.
        cbn [bind] in Hr. apply IH in Hr; [exact Hr | apply to_size_t_range]. }
    apply (Hw (Z.to_nat range1) offset 0 ltac:(lia) w1 E1). }
  split; [apply Hcompose |]. split; [reflexivity |].
  intros Hs Hs1. unfold get_byteoff_of_slot. rewrite Hcompose by lia.
  destruct (getPaddedColWidthForRange d 0 slot) as [off | | |];
    try reflexivity.
  cbn [bind]. unfold getPaddedColWidthForRange.
  rewrite !to_size_t_small by lia.
  replace (Z.to_nat (0 + slot + 1 - (0 + slot))) with 1%nat by lia.
  cbn [getPaddedColWidthForRange_loop]. rewrite Z.add_0_l.
  destruct (getPaddedSlotWidthBytes d slot) as [w | | |]; try reflexivity.
  cbn [bind]. rewrite Z.add_0_l, to_size_t_add_r, to_size_t_add_r.
  reflexivity.
Qed.

End SlotOffsetProperties.

Lemma getPaddedColWidthForRange_adjacent_witness :
  getPaddedColWidthForRange (BA := Reference.accessors)
    Examples.avg_descriptor 0 (1 + 1)
  = (w1 <- getPaddedColWidthForRange (BA := Reference.accessors)
             Examples.avg_descriptor 0 1 ;;
     w2 <- getPaddedColWidthForRange (BA := Reference.accessors)
             Examples.avg_descriptor (0 + 1) 1 ;;
     Ok (to_size_t (w1 + w2))) /\
  get_byteoff_of_slot (BA := Reference.accessors) (1 + 1)
    Examples.avg_descriptor
  = (off <- get_byteoff_of_slot (BA := Reference.accessors) 1
              Examples.avg_descriptor ;;
     w <- getPaddedSlotWidthBytes (BufferAccessors := Reference.accessors)
            Examples.avg_descriptor 1 ;;
     Ok (to_size_t (off + to_size_t w))).
Proof.
  split.
  - refine (proj1 (getPaddedColWidthForRange_adjacent
                     (BA := Reference.accessors)
                     Examples.avg_descriptor 0 1 1 1) _ _ _ _); lia.
  - refine (proj2 (proj2 (getPaddedColWidthForRange_adjacent
                            (BA := Reference.accessors)
                            Examples.avg_descriptor 0 1 1 1)) _ _); lia.
Defined.

(** ** The shape of a row *)

Section RowShapeProperties.

Context {BA : BufferAccessors} {TM : TargetMaterializers}.

Lemma getRowAt_loop_length (rs : ResultSet.t) (storage : ResultSetStorage.t)
    (local_entry_idx global_entry_idx : Z) (ts d2d fixup : bool)
    (targets_to_skip : list bool) (targets : list TargetInfo) :
  forall target_idx agg_col_idx rowwise_target_ptr keys_ptr crt_col_ptr row,
    getRowAt_loop rs storage local_entry_idx global_entry_idx ts d2d fixup
      targets_to_skip targets target_idx agg_col_idx rowwise_target_ptr
      keys_ptr crt_col_ptr = Ok row ->
    length row = length targets.
Proof.
  induction targets as [| agg_info rest IH];
    intros target_idx agg_col_idx rowwise_target_ptr keys_ptr crt_col_ptr row H.
  - cbn in H. injection H as <-. reflexivity.
  - cbn [getRowAt_loop] in H.
    destruct (QueryMemoryDescriptor.didOutputColumnar
                (ResultSet.query_mem_desc_ rs)).
    + inv_bind H. inv_bind H. injection H as <-.
      cbn [length]. f_equal. eapply IH. eassumption.
    + inv_bind H. inv_bind H. injection H as <-.
      cbn [length]. f_equal. eapply IH. eassumption.
Qed.

(** Where [isRowAtEmpty] answers true, the out-of-range positions
    included, [getRowAt] and [getRowAtNoTranslations] return the empty row;
    where it answers false, a row that is returned holds one value for each
    target of the storage that the position resolves to; and wherever one
    of the two returns, [isRowAtEmpty] returns as well.  So a returned row
    is empty exactly when [isRowAtEmpty] answers true or the storage has no
    targets. *)
Theorem getRowAt_row_shape (rs : ResultSet.t) (i : Z)
    (targets_to_skip : list bool) :
  (isRowAtEmpty rs i = Ok true ->
   getRowAt rs i = Ok [] /\
   getRowAtNoTranslations rs i targets_to_skip = Ok []) /\
  (isRowAtEmpty rs i = Ok false ->
   exists idx r,
     entry_idx_of rs i = Ok idx /\ findStorage rs idx = Ok r /\
     forall row,
       getRowAt rs i = Ok row \/
       getRowAtNoTranslations rs i targets_to_skip = Ok row ->
       length row
       = length (ResultSetStorage.targets_ (ResultSet.storage_ptr r))) /\
  (forall row,
     getRowAt rs i = Ok row \/
     getRowAtNoTranslations rs i targets_to_skip = Ok row ->
     (exists b, isRowAtEmpty rs i = Ok b) /\
     (row = [] <->
      isRowAtEmpty rs i = Ok true \/
      exists idx r,
        entry_idx_of rs i = Ok idx /\ findStorage rs idx = Ok r /\
        ResultSetStorage.targets_ (ResultSet.storage_ptr r) = [])).
Proof.
  unfold isRowAtEmpty, getRowAt, getRowAtNoTranslations.
  destruct (entryCount rs <=? i).
  - split; [auto |]. split; [discriminate |].
    intros row Hrow. split; [eauto |].
    split; [auto |]. intros _. destruct Hrow as [H | H]; congruence.
  - destruct (entry_idx_of rs i) as [idx | | |]; cbn [bind];
      try (split; [discriminate |]; split; [discriminate |];
           intros row [H | H]; discriminate H).
    unfold getRowAt_entry.
    destruct (findStorage rs idx) as [r | | |] eqn:Efind; cbn [bind];
      try (split; [discriminate |]; split; [discriminate |];
           intros row [H | H]; discriminate H).
    destruct (isEmptyEntry (ResultSet.storage_ptr r)
                (ResultSet.fixedup_entry_idx r)) as [empty | | |];
      cbn [bind];
      try (split; [discriminate |]; split; [discriminate |];
           intros row [H | H]; discriminate H).
    assert (Hlen : empty = false ->
              forall row,
                getRowAt_targets rs (ResultSet.storage_ptr r)
                  (ResultSet.fixedup_entry_idx r) idx true false false []
                = Ok row \/
                getRowAt_targets rs (ResultSet.storage_ptr r)
                  (ResultSet.fixedup_entry_idx r) idx false false false
                  targets_to_skip = Ok row ->
                length row
                = length (ResultSetStorage.targets_
                            (ResultSet.storage_ptr r))).
    { intros _ row [H | H]; unfold getRowAt_targets in H;
        destruct (QueryMemoryDescriptor.didOutputColumnar
                    (ResultSet.query_mem_desc_ rs));
        eapply getRowAt_loop_length; eassumption. }
    split; [| split].
    + intros H. injection H as ->. auto.
    + intros H. injection H as ->.
      exists idx, r. split; [reflexivity |]. split; [exact Efind |].
      exact (Hlen eq_refl).
    + intros row Hrow. split; [eauto |]. destruct empty.
      * split; [auto |]. intros _. destruct Hrow as [H | H]; congruence.
      * specialize (Hlen eq_refl row Hrow). split.
        -- intros ->. right. exists idx, r.
           split; [reflexivity |]. split; [exact Efind |].
           destruct (ResultSetStorage.targets_ (ResultSet.storage_ptr r));
             [reflexivity | discriminate Hlen].
        -- intros [H | [idx' [r' [Hidx [Hfind Hnone]]]]];
             [discriminate H |].
           injection Hidx as <-. rewrite Efind in Hfind.
           injection Hfind as <-. rewrite Hnone in Hlen.
           destruct row; [reflexivity | discriminate Hlen].
Qed.

Lemma getRowAt_loop_skip (rs : ResultSet.t) (storage : ResultSetStorage.t)
    (local_entry_idx global_entry_idx : Z) (ts d2d fixup : bool)
    (targets_to_skip : list bool) :
  Z.of_nat (length targets_to_skip) < 2 ^ 64 ->
  forall (targets : list TargetInfo) (k : nat)
         agg_col_idx rowwise_target_ptr keys_ptr crt_col_ptr full,
    (k + length targets <= length targets_to_skip)%nat ->
    getRowAt_loop rs storage local_entry_idx global_entry_idx ts d2d fixup
      [] targets (Z.of_nat k) agg_col_idx rowwise_target_ptr keys_ptr
      crt_col_ptr = Ok full ->
    getRowAt_loop rs storage local_entry_idx global_entry_idx ts d2d fixup
      targets_to_skip targets (Z.of_nat k) agg_col_idx rowwise_target_ptr
      keys_ptr crt_col_ptr
    = Ok (skip_targets (skipn k targets_to_skip) full).
Proof.
  intros Hlen. induction targets as [| agg_info rest IH];
    intros k agg_col_idx rowwise_target_ptr keys_ptr crt_col_ptr full Hk H.
  - cbn in H. injection H as <-. cbn.
    unfold skip_targets. rewrite combine_nil. reflexivity.
  - cbn [length] in Hk.
    assert (Hnth : exists s tl, skipn k targets_to_skip = s :: tl /\
                                nth_error targets_to_skip k = Some s /\
                                skipn (S k) targets_to_skip = tl).
    { destruct (skipn k targets_to_skip) as [| s tl] eqn:E.
      - apply (f_equal (@length bool)) in E. rewrite length_skipn in E.
        cbn in E. lia.
      - exists s, tl. split; [reflexivity |]. split.
        + rewrite <- (firstn_skipn k targets_to_skip) at 1.
          rewrite nth_error_app2 by (rewrite length_firstn; lia).
          rewrite length_firstn.
          replace (k - Nat.min k (length targets_to_skip))%nat with O by lia.
          rewrite E. reflexivity.
        + replace (S k) with (1 + k)%nat by lia.
          rewrite <- skipn_skipn. rewrite E. reflexivity. }
    destruct Hnth as [s [tl [Hskip [Hnth Htl]]]].
    assert (Hsucc : to_size_t (Z.of_nat k + 1) = Z.of_nat (S k))
      by (rewrite to_size_t_small; lia).
    assert (Hskip_or : forall v,
              skip_or targets_to_skip (Z.of_nat k) v
              = if s then Ok NullStringTV else v).
    { intros v. unfold skip_or.
      destruct targets_to_skip as [| s0 tl0] eqn:Ets;
        [destruct k; discriminate Hnth |].
      rewrite <- Ets in *. rewrite Nat2Z.id, Hnth. destruct s; reflexivity. }
    cbn [getRowAt_loop] in H |- *.
    rewrite Hskip, Hsucc in *. unfold skip_or in H at 1.
    destruct (QueryMemoryDescriptor.didOutputColumnar
                (ResultSet.query_mem_desc_ rs)).
    + rewrite Hskip_or. unfold skip_or in H.
      inv_bind H. inv_bind H. injection H as <-.
      rewrite (IH (S k) _ _ _ _ _ ltac:(lia) Hv0). rewrite Htl.
      destruct s; cbn [bind]; [reflexivity |].
      rewrite Hv. reflexivity.
    + rewrite Hskip_or. unfold skip_or in H.
      inv_bind H. inv_bind H. injection H as <-.
      rewrite (IH (S k) _ _ _ _ _ ltac:(lia) Hv0). rewrite Htl.
      destruct s; cbn [bind]; [reflexivity |].
      rewrite Hv. reflexivity.
Qed.

(** Skipping targets does not change the rest of the row: when
    [getRowAtNoTranslations] returns the row of a position in full and
    [targets_to_skip] has an entry for every value of that row, the call
    with [targets_to_skip] returns the full row with the marked targets
    replaced by null strings. *)
Theorem getRowAtNoTranslations_skips (rs : ResultSet.t) (i : Z)
    (targets_to_skip : list bool) (full : Row) :
  Z.of_nat (length targets_to_skip) < 2 ^ 64 ->
  (length full <= length targets_to_skip)%nat ->
  getRowAtNoTranslations rs i [] = Ok full ->
  getRowAtNoTranslations rs i targets_to_skip
  = Ok (skip_targets targets_to_skip full).
Proof.
  intros Hbound Hlen H. unfold getRowAtNoTranslations in *.
  assert (Hnil : skip_targets targets_to_skip [] = [])
    by (unfold skip_targets; rewrite combine_nil; reflexivity).
  destruct (entryCount rs <=? i).
  { injection H as <-. rewrite Hnil. reflexivity. }
  destruct (entry_idx_of rs i) as [idx | | |]; try discriminate H.
  cbn [bind] in *. unfold getRowAt_entry in *.
  destruct (findStorage rs idx) as [r | | |]; try discriminate H.
  cbn [bind] in *.
  destruct (isEmptyEntry (ResultSet.storage_ptr r)
              (ResultSet.fixedup_entry_idx r)) as [empty | | |];
    try discriminate H.
  cbn [bind] in *. destruct empty.
  { injection H as <-. rewrite Hnil. reflexivity. }
  unfold getRowAt_targets in *.
  destruct (QueryMemoryDescriptor.didOutputColumnar
              (ResultSet.query_mem_desc_ rs)).
  - pose proof (getRowAt_loop_length _ _ _ _ _ _ _ _ _ _ _ _ _ _ _ H) as Hl.
    change 0 with (Z.of_nat 0) at 2.
    rewrite (getRowAt_loop_skip _ _ _ _ _ _ _ targets_to_skip Hbound _ O _ _ _
               _ full); [reflexivity | cbn; lia | exact H].
  - pose proof (getRowAt_loop_length _ _ _ _ _ _ _ _ _ _ _ _ _ _ _ H) as Hl.
    change 0 with (Z.of_nat 0) at 1.
    rewrite (getRowAt_loop_skip _ _ _ _ _ _ _ targets_to_skip Hbound _ O _ _ _
               _ full); [reflexivity | cbn; lia | exact H].
Qed.

End RowShapeProperties.

Lemma getRowAt_row_shape_witness :
  (getRowAt (BA := Reference.accessors) (TM := Reference.materializers)
     Samples.two_targets_result_set 1 = Ok [] /\
   getRowAtNoTranslations (BA := Reference.accessors)
     (TM := Reference.materializers) Samples.two_targets_result_set 1 []
   = Ok []) /\
  exists idx r,
    entry_idx_of Samples.two_targets_result_set 0 = Ok idx /\
    findStorage Samples.two_targets_result_set idx = Ok r /\
    forall row,
      getRowAt (BA := Reference.accessors) (TM := Reference.materializers)
        Samples.two_targets_result_set 0 = Ok row \/
      getRowAtNoTranslations (BA := Reference.accessors)
        (TM := Reference.materializers) Samples.two_targets_result_set 0 []
      = Ok row ->
      length row
      = length (ResultSetStorage.targets_ (ResultSet.storage_ptr r)).
Proof.
  split.
  - refine (proj1 (getRowAt_row_shape (BA := Reference.accessors)
                     (TM := Reference.materializers)
                     Samples.two_targets_result_set 1 []) _).
    vm_compute. reflexivity.
  - refine (proj1 (proj2 (getRowAt_row_shape (BA := Reference.accessors)
                            (TM := Reference.materializers)
                            Samples.two_targets_result_set 0 [])) _).
    vm_compute. reflexivity.
Defined.

Lemma getRowAtNoTranslations_skips_witness :
  getRowAtNoTranslations (BA := Reference.accessors)
    (TM := Reference.materializers) Samples.two_targets_result_set 0
    [true; false]
  = Ok (skip_targets [true; false] [IntTV 10; IntTV 20]).
Proof.
  refine (getRowAtNoTranslations_skips (BA := Reference.accessors)
            (TM := Reference.materializers) Samples.two_targets_result_set 0
            [true; false] [IntTV 10; IntTV 20] _ _ _).
  - vm_compute. reflexivity.
  - cbn. lia.
  - vm_compute. reflexivity.
Defined.

(** ** The end of an iteration *)

Section IterationEndProperties.

Context {BA : BufferAccessors} {TM : TargetMaterializers}.

(** The cursor is at its end: the LIMIT is used up or every entry has been
    consumed. *)
Lemma getNextRowImpl_loop_None (fuel : nat) :
  forall rs rs1,
    getNextRowImpl_loop fuel rs = Ok (None, rs1) ->
    (exists c f, rs1 = with_cursor rs c f) /\
    (negb (ResultSet.keep_first_ rs1 =? 0)
     && (to_size_t (ResultSet.drop_first_ rs1 + ResultSet.keep_first_ rs1)
         <=? ResultSet.fetched_so_far_ rs1) = true \/
     entryCount rs1 = ResultSet.crt_row_buff_idx_ rs1).
Proof.
  induction fuel as [| fuel IH]; intros rs rs1 H; [discriminate H |].
  cbn [getNextRowImpl_loop] in H.
  match type of H with
  | (if ?b then _ else _) = _ => destruct b eqn:Ekeep
  end.
  - injection H as <-. split; [| left; exact Ekeep].
    eexists; eexists. symmetry. apply with_cursor_same.
  - inv_bind H. destruct v as [idx rs2].
    apply advanceCursorToNextEntry_cursor in Hv. destruct Hv as [c [f ->]].
    match type of H with
    | (if ?b then _ else _) = _ => destruct b eqn:Eend
    end.
    + inv_check H. injection H as <-. split; [eauto |].
      right. apply Z.eqb_eq in Hchk. exact Hchk.
    + cbv zeta in H.
      match type of H with
      | (if ?b then _ else _) = _ => destruct b eqn:Edrop
      end; [| discriminate H].
      apply IH in H. destruct H as [[c' [f' ->]] Hend].
      split; [| exact Hend]. exists c', f'. reflexivity.
Qed.

Lemma getNextRowImpl_loop_at_end (rs : ResultSet.t) (fuel : nat) :
  negb (ResultSet.keep_first_ rs =? 0)
  && (to_size_t (ResultSet.drop_first_ rs + ResultSet.keep_first_ rs)
      <=? ResultSet.fetched_so_far_ rs) = true \/
  entryCount rs = ResultSet.crt_row_buff_idx_ rs ->
  getNextRowImpl_loop (S fuel) rs = Ok (None, rs).
Proof.
  intros Hend. cbn [getNextRowImpl_loop].
  match goal with
  | |- (if ?b then _ else _) = _ => destruct b eqn:Ekeep
  end; [reflexivity |].
  destruct Hend as [Hend | Hend]; [discriminate Hend |].
  assert (Hadv : advanceCursorToNextEntry rs
                 = Ok (ResultSet.crt_row_buff_idx_ rs, rs)).
  { unfold advanceCursorToNextEntry.
    replace (Z.to_nat (entryCount rs - ResultSet.crt_row_buff_idx_ rs))
      with O by lia.
    cbn [advanceCursorToNextEntry_loop].
    rewrite Hend, Z.ltb_irrefl. cbn [bind].
    unfold entryCount in Hend.
    destruct (ResultSet.permutation_ rs) eqn:Eperm; [reflexivity |].
    rewrite <- Hend. rewrite Z.leb_refl, Z.eqb_refl. reflexivity. }
  rewrite Hadv. cbn [bind]. rewrite Hend, Z.leb_refl, Z.eqb_refl.
  reflexivity.
Qed.

(** Once [getNextRow] has returned the empty row it keeps returning it, and
    the cursor no longer moves: reading past the end of a result set is
    harmless, whether the end is the LIMIT, the last entry, an explanation
    already delivered or a missing storage. *)
Theorem getNextRow_end_is_stable (rs rs' : ResultSet.t) (ts d2d : bool) :
  getNextRow ts d2d rs = Ok ([], rs') ->
  getNextRow ts d2d rs' = Ok ([], rs').
Proof.
  intros H.
  destruct (getNextRow_cursor _ _ _ _ _ H) as [c [f Hrs']].
  assert (Hst : ResultSet.storage_ rs' = ResultSet.storage_ rs)
    by (rewrite Hrs'; reflexivity).
  assert (Hex : ResultSet.just_explain_ rs' = ResultSet.just_explain_ rs)
    by (rewrite Hrs'; reflexivity).
  assert (Hunl : getNextRowUnlocked ts d2d rs = Ok ([], rs') ->
                 getNextRowUnlocked ts d2d rs' = Ok ([], rs')).
  { clear H. intros H. unfold getNextRowUnlocked in *. rewrite Hex.
    destruct (ResultSet.just_explain_ rs).
    - destruct (negb (ResultSet.fetched_so_far_ rs =? 0)) eqn:Ef;
        [| discriminate H].
      injection H as <-. rewrite Ef. reflexivity.
    - unfold getNextRowImpl in *. inv_bind H. destruct v as [found rs1].
      destruct found as [idx |].
      + inv_bind H. inv_check H. injection H as -> _.
        discriminate Hchk.
      + injection H as ->.
        apply getNextRowImpl_loop_None in Hv. destruct Hv as [_ Hend].
        rewrite (getNextRowImpl_loop_at_end rs' _ Hend). reflexivity. }
  unfold getNextRow in *. rewrite Hst, Hex.
  destruct (ResultSet.storage_ rs); [auto |].
  destruct (negb (ResultSet.just_explain_ rs)); [| auto].
  injection H as <-. reflexivity.
Qed.

End IterationEndProperties.

Lemma getNextRow_end_is_stable_witness :
  getNextRow (BA := Reference.accessors) (TM := Reference.materializers)
    true false (with_cursor Examples.eight_rows_result_set 5 5)
  = Ok ([], with_cursor Examples.eight_rows_result_set 5 5).
Proof.
  refine (getNextRow_end_is_stable (BA := Reference.accessors)
            (TM := Reference.materializers)
            (with_cursor Examples.eight_rows_result_set 5 5)
            (with_cursor Examples.eight_rows_result_set 5 5) true false _).
  vm_compute. reflexivity.
Defined.
Section IteratorEndProperties.

Context {BA : BufferAccessors} {TM : TargetMaterializers}.

Lemma set_global_same (iter : ResultSetRowIterator.t) :
  ResultSetRowIterator.global_entry_idx_valid_ iter = false ->
  ResultSetRowIterator.set_global iter
    (ResultSetRowIterator.global_entry_idx_ iter) false = iter.
Proof. destruct iter. cbn. intros ->. reflexivity. Qed.

Lemma advanceIterator_at_end (rs : ResultSet.t)
    (iter iter' : ResultSetRowIterator.t) :
  advanceIterator rs iter = Ok iter' ->
  ResultSetRowIterator.global_entry_idx_valid_ iter' = false ->
  advanceIterator rs iter' = Ok iter'.
Proof.
  unfold advanceIterator. intros H Hvalid.
  match goal with
  | |- (if ?b then _ else _) = _ => destruct b eqn:Ekeep'
  end; [rewrite set_global_same by exact Hvalid; reflexivity |].
  match type of H with
  | (if ?b then _ else _) = _ => destruct b eqn:Ekeep
  end.
  { injection H as <-. cbn in Ekeep'. rewrite Ekeep in Ekeep'.
    discriminate Ekeep'. }
  inv_bind H. rename v into iter1. inv_bind H. rename v into global.
  cbv zeta in H.
  destruct (ResultSetRowIterator.crt_row_buff_idx_ iter1 <? entryCount rs)
    eqn:Elt.
  { injection H as <-. discriminate Hvalid. }
  injection H as <-.
  cbn [ResultSetRowIterator.set_global ResultSetRowIterator.crt_row_buff_idx_
         ResultSetRowIterator.fetched_so_far_
         ResultSetRowIterator.global_entry_idx_].
  assert (Hloop : forall fuel,
            advanceIterator_loop fuel rs
              (ResultSetRowIterator.mk
                 (ResultSetRowIterator.crt_row_buff_idx_ iter1) global false
                 (ResultSetRowIterator.fetched_so_far_ iter1)
                 (ResultSetRowIterator.translate_strings_ iter1)
                 (ResultSetRowIterator.decimal_to_double_ iter1))
            = Ok (ResultSetRowIterator.mk
                    (ResultSetRowIterator.crt_row_buff_idx_ iter1) global
                    false (ResultSetRowIterator.fetched_so_far_ iter1)
                    (ResultSetRowIterator.translate_strings_ iter1)
                    (ResultSetRowIterator.decimal_to_double_ iter1))).
  { intros fuel. destruct fuel; cbn [advanceIterator_loop
      ResultSetRowIterator.crt_row_buff_idx_]; rewrite Elt; reflexivity. }
  rewrite Hloop. cbn [bind ResultSetRowIterator.crt_row_buff_idx_].
  rewrite Hv0. cbn [bind]. rewrite Elt. reflexivity.
Qed.

(** An exhausted row iterator stays exhausted: once [operator++] has left
    the iterator invalid, a further [operator++] changes nothing and
    [operator*] returns the empty row. *)
Theorem iterator_end_is_stable (rs : ResultSet.t)
    (iter iter' : ResultSetRowIterator.t) :
  iterator_next rs iter = Ok iter' ->
  ResultSetRowIterator.global_entry_idx_valid_ iter' = false ->
  iterator_next rs iter' = Ok iter' /\ iterator_deref rs iter' = Ok [].
Proof.
  intros H Hvalid. split.
  - unfold iterator_next in *.
    destruct (ResultSet.storage_ rs), (ResultSet.just_explain_ rs).
    + injection H as <-. destruct iter.
      cbn [ResultSetRowIterator.set_global ResultSetRowIterator.set_cursor
             ResultSetRowIterator.global_entry_idx_valid_
             ResultSetRowIterator.global_entry_idx_
             ResultSetRowIterator.fetched_so_far_
             ResultSetRowIterator.crt_row_buff_idx_
             ResultSetRowIterator.translate_strings_
             ResultSetRowIterator.decimal_to_double_] in *.
      rewrite Hvalid. reflexivity.
    + apply (advanceIterator_at_end rs iter iter'); assumption.
    + injection H as <-. destruct iter.
      cbn [ResultSetRowIterator.set_global ResultSetRowIterator.set_cursor
             ResultSetRowIterator.global_entry_idx_valid_
             ResultSetRowIterator.global_entry_idx_
             ResultSetRowIterator.fetched_so_far_
             ResultSetRowIterator.crt_row_buff_idx_
             ResultSetRowIterator.translate_strings_
             ResultSetRowIterator.decimal_to_double_] in *.
      rewrite Hvalid. reflexivity.
    + injection H as <-. reflexivity.
  - unfold iterator_deref. rewrite Hvalid. reflexivity.
Qed.

End IteratorEndProperties.

Lemma iterator_end_is_stable_witness :
  iterator_next (BA := Reference.accessors) Examples.eight_rows_result_set
    (iterator_at true false 5 4 false 5)
  = Ok (iterator_at true false 5 4 false 5) /\
  iterator_deref (BA := Reference.accessors) (TM := Reference.materializers)
    Examples.eight_rows_result_set (iterator_at true false 5 4 false 5)
  = Ok [].
Proof.
  refine (iterator_end_is_stable (BA := Reference.accessors)
            (TM := Reference.materializers) Examples.eight_rows_result_set
            (iterator_at true false 5 4 true 5)
            (iterator_at true false 5 4 false 5) _ _).
  - vm_compute. reflexivity.
  - reflexivity.
Defined.

(** ** Explanations *)

Section ExplainProperties.

Context {BA : BufferAccessors} {TM : TargetMaterializers}.

Lemma getNextRow_times_explained (rs : ResultSet.t) (ts d2d : bool) (m : nat) :
  ResultSet.just_explain_ rs = true ->
  ResultSet.fetched_so_far_ rs <> 0 ->
  getNextRow_times m ts d2d rs = Ok (repeat [] m, rs).
Proof.
  intros Hex Hf. induction m as [| m IH]; [reflexivity |].
  cbn [getNextRow_times repeat].
  assert (H1 : getNextRow ts d2d rs = Ok ([], rs)).
  { unfold getNextRow, getNextRowUnlocked. rewrite Hex. cbn [negb].
    apply Z.eqb_neq in Hf. rewrite Hf.
    destruct (ResultSet.storage_ rs); reflexivity. }
  rewrite H1. cbn [bind]. rewrite IH. reflexivity.
Qed.

Lemma iterator_rows_explained (rs : ResultSet.t)
    (iter : ResultSetRowIterator.t) (m : nat) :
  ResultSet.just_explain_ rs = true ->
  ResultSetRowIterator.global_entry_idx_valid_ iter = false ->
  ResultSetRowIterator.fetched_so_far_ iter = 1 ->
  iterator_rows m rs iter = Ok (repeat [] m).
Proof.
  intros Hex Hvalid Hf. induction m as [| m IH]; [reflexivity |].
  cbn [iterator_rows repeat].
  unfold iterator_deref at 1. rewrite Hvalid. cbn [negb bind].
  assert (Hnext : iterator_next rs iter = Ok iter).
  { unfold iterator_next. rewrite Hex.
    destruct iter. cbn in Hvalid, Hf. subst.
    destruct (ResultSet.storage_ rs); reflexivity. }
  rewrite Hnext. cbn [bind]. rewrite IH. reflexivity.
Qed.

(** A result set that carries an explanation yields, from a fresh cursor,
    exactly one row, which holds the explanation, and then empty rows; its
    storage is never consulted.  The row iterator reads the same rows. *)
Theorem explanation_is_the_only_row (rs : ResultSet.t) (ts d2d : bool)
    (m : nat) :
  ResultSet.just_explain_ rs = true ->
  (exists rs',
     getNextRow_times (S m) ts d2d (fresh_cursor rs)
     = Ok ([StringTV (ResultSet.explanation_ rs)] :: repeat [] m, rs')) /\
  (exists iter,
     rowIterator rs 0 ts d2d = Ok iter /\
     iterator_rows (S m) rs iter
     = Ok ([StringTV (ResultSet.explanation_ rs)] :: repeat [] m)).
Proof.
  intros Hex. split.
  - exists (ResultSet.set_fetched_so_far_ (fresh_cursor rs) 1).
    cbn [getNextRow_times].
    assert (H1 : getNextRow ts d2d (fresh_cursor rs)
                 = Ok ([StringTV (ResultSet.explanation_ rs)],
                       ResultSet.set_fetched_so_far_ (fresh_cursor rs) 1)).
    { unfold getNextRow, getNextRowUnlocked.
      change (ResultSet.just_explain_ (fresh_cursor rs))
        with (ResultSet.just_explain_ rs).
      rewrite Hex.
      destruct (ResultSet.storage_ (fresh_cursor rs)); reflexivity. }
    rewrite H1. cbn [bind].
    rewrite getNextRow_times_explained; [reflexivity | exact Hex |].
    cbn. discriminate.
  - exists (ResultSetRowIterator.mk 0 0 true 1 ts d2d). split.
    + unfold rowIterator. cbn [iterator_next_times].
      unfold iterator_next. rewrite Hex.
      destruct (ResultSet.storage_ rs); reflexivity.
    + cbn [iterator_rows]. unfold iterator_deref at 1.
      cbn [ResultSetRowIterator.global_entry_idx_valid_ negb]. rewrite Hex.
      cbn [bind].
      assert (Hnext : iterator_next rs (ResultSetRowIterator.mk 0 0 true 1 ts d2d)
                      = Ok (ResultSetRowIterator.mk 0 0 false 1 ts d2d)).
      { unfold iterator_next. rewrite Hex.
        destruct (ResultSet.storage_ rs); reflexivity. }
      rewrite Hnext. cbn [bind].
      rewrite iterator_rows_explained; [reflexivity | exact Hex | |];
        reflexivity.
Qed.

End ExplainProperties.

Lemma explanation_is_the_only_row_witness :
  (exists rs',
     getNextRow_times (BA := Reference.accessors)
       (TM := Reference.materializers) 3 true false
       (fresh_cursor Samples.explain_result_set)
     = Ok ([StringTV Samples.plan_text] :: repeat [] 2, rs')) /\
  (exists iter,
     rowIterator (BA := Reference.accessors) Samples.explain_result_set 0
       true false = Ok iter /\
     iterator_rows (BA := Reference.accessors)
       (TM := Reference.materializers) 3 Samples.explain_result_set iter
     = Ok ([StringTV Samples.plan_text] :: repeat [] 2)).
Proof.
  refine (explanation_is_the_only_row (BA := Reference.accessors)
            (TM := Reference.materializers) Samples.explain_result_set
            true false 2 _).
  reflexivity.
Defined.

(** ** The position of a valid iterator *)

Section IteratorPositionProperties.

Context {BA : BufferAccessors} {TM : TargetMaterializers}.

Lemma advanceIterator_loop_stops (rs : ResultSet.t) (fuel : nat) :
  entryCount rs < 2 ^ 64 ->
  forall iter iter1,
    0 <= ResultSetRowIterator.crt_row_buff_idx_ iter ->
    advanceIterator_loop fuel rs iter = Ok iter1 ->
    ResultSetRowIterator.crt_row_buff_idx_ iter
      <= ResultSetRowIterator.crt_row_buff_idx_ iter1 /\
    (ResultSetRowIterator.crt_row_buff_idx_ iter1 < entryCount rs ->
     isEmptyAt rs (ResultSetRowIterator.crt_row_buff_idx_ iter1) = Ok false) /\
    ResultSetRowIterator.translate_strings_ iter1
      = ResultSetRowIterator.translate_strings_ iter /\
    ResultSetRowIterator.decimal_to_double_ iter1
      = ResultSetRowIterator.decimal_to_double_ iter.
Proof.
  intros Hn. induction fuel as [| fuel IH]; intros iter iter1 Hc H;
    cbn [advanceIterator_loop] in H;
    destruct (Z.ltb_spec (ResultSetRowIterator.crt_row_buff_idx_ iter)
                (entryCount rs)) as [Hlt | Hge];
    try discriminate H;
    try (injection H as <-; repeat split; try lia; reflexivity).
  destruct (isEmptyAt rs (ResultSetRowIterator.crt_row_buff_idx_ iter))
    as [empty | | |] eqn:Eempty; try discriminate H.
  cbn [bind] in H. destruct empty; cbn [negb] in H.
  - apply IH in H.
    + cbn [ResultSetRowIterator.set_cursor
             ResultSetRowIterator.crt_row_buff_idx_
             ResultSetRowIterator.translate_strings_
             ResultSetRowIterator.decimal_to_double_] in H.
      rewrite to_size_t_small in H by lia.
      destruct H as [H1 [H2 [H3 H4]]]. repeat split; try assumption. lia.
    + cbn. rewrite to_size_t_small by lia. lia.
  - destruct (ResultSetRowIterator.fetched_so_far_ iter
              <? ResultSet.drop_first_ rs).
    + apply IH in H.
      * cbn [ResultSetRowIterator.set_cursor
               ResultSetRowIterator.crt_row_buff_idx_
               ResultSetRowIterator.translate_strings_
               ResultSetRowIterator.decimal_to_double_] in H.
        rewrite to_size_t_small in H by lia.
        destruct H as [H1 [H2 [H3 H4]]]. repeat split; try assumption. lia.
      * cbn. rewrite to_size_t_small by lia. lia.
    + injection H as <-. repeat split; try lia. intros _. exact Eempty.
Qed.

(** Where a valid iterator stands.  After an [operator++] that leaves the
    iterator valid on a result set that is not an explanation,
    [getCurrentRowBufferIndex] does not throw and gives a logical position
    inside the result set, at or after where the iterator stood, whose
    entry is not empty; [global_entry_idx_] is the entry behind that
    position (through the permutation, if any), and [operator*]
    materialises that entry.  On a result set that is an explanation the
    iterator is valid after its first [operator++] only, [operator*] gives
    the explanation, and [crt_row_buff_idx_] has not moved: for an iterator
    that started at 0, [getCurrentRowBufferIndex] throws although the
    iterator is valid. *)
Theorem valid_iterator_stands_on_a_row (rs : ResultSet.t)
    (iter iter' : ResultSetRowIterator.t) :
  entryCount rs < 2 ^ 64 ->
  0 <= ResultSetRowIterator.crt_row_buff_idx_ iter ->
  iterator_next rs iter = Ok iter' ->
  ResultSetRowIterator.global_entry_idx_valid_ iter' = true ->
  (ResultSet.just_explain_ rs = false ->
   exists p,
     getCurrentRowBufferIndex iter' = Some p /\
     ResultSetRowIterator.crt_row_buff_idx_ iter <= p < entryCount rs /\
     isEmptyAt rs p = Ok false /\
     entry_idx_of rs p = Ok (ResultSetRowIterator.global_entry_idx_ iter') /\
     iterator_deref rs iter'
     = getRowAt_entry rs (ResultSetRowIterator.global_entry_idx_ iter')
         (ResultSetRowIterator.translate_strings_ iter)
         (ResultSetRowIterator.decimal_to_double_ iter) false []) /\
  (ResultSet.just_explain_ rs = true ->
   ResultSetRowIterator.fetched_so_far_ iter = 0 /\
   ResultSetRowIterator.crt_row_buff_idx_ iter'
   = ResultSetRowIterator.crt_row_buff_idx_ iter /\
   iterator_deref rs iter' = Ok [StringTV (ResultSet.explanation_ rs)] /\
   (ResultSetRowIterator.crt_row_buff_idx_ iter = 0 ->
    getCurrentRowBufferIndex iter' = None)).
Proof.
  intros Hn Hc H Hvalid. split.
  - intros Hex.
    unfold iterator_next in H. rewrite Hex in H.
    destruct (ResultSet.storage_ rs) as [primary |];
      [| injection H as <-; discriminate Hvalid].
    unfold advanceIterator in H.
    match type of H with
    | (if ?b then _ else _) = _ => destruct b
    end; [injection H as <-; discriminate Hvalid |].
    inv_bind H. rename v into iter1. inv_bind H. rename v into global.
    cbv zeta in H.
    destruct (advanceIterator_loop_stops rs _ Hn _ _ Hc Hv)
      as [Hle [Hstop [Hts Hd2d]]].
    destruct (Z.ltb_spec (ResultSetRowIterator.crt_row_buff_idx_ iter1)
                (entryCount rs)) as [Hlt | Hge];
      [| injection H as <-; discriminate Hvalid].
    injection H as <-.
    exists (ResultSetRowIterator.crt_row_buff_idx_ iter1).
    assert (Hglobal :
              entry_idx_of rs (ResultSetRowIterator.crt_row_buff_idx_ iter1)
              = Ok global).
    { unfold entry_idx_of. unfold entryCount in Hlt.
      destruct (ResultSet.permutation_ rs) eqn:Eperm; [exact Hv0 |].
      rewrite <- Eperm in *. inv_check Hv0.
      destruct (Z.eqb_spec (ResultSetRowIterator.crt_row_buff_idx_ iter1)
                  (Z.of_nat (length (ResultSet.permutation_ rs))));
        [lia | exact Hv0]. }
    split; [| split; [| split; [| split]]].
    + unfold getCurrentRowBufferIndex.
      cbn [ResultSetRowIterator.set_cursor ResultSetRowIterator.set_global
             ResultSetRowIterator.crt_row_buff_idx_].
      rewrite (to_size_t_small (_ + 1)) by lia.
      destruct (Z.eqb_spec
                  (ResultSetRowIterator.crt_row_buff_idx_ iter1 + 1) 0);
        [lia |].
      rewrite to_size_t_small by lia. f_equal. lia.
    + lia.
    + apply Hstop. exact Hlt.
    + exact Hglobal.
    + unfold iterator_deref.
      cbn [ResultSetRowIterator.set_cursor ResultSetRowIterator.set_global
             ResultSetRowIterator.global_entry_idx_valid_
             ResultSetRowIterator.global_entry_idx_
             ResultSetRowIterator.translate_strings_
             ResultSetRowIterator.decimal_to_double_ negb].
      rewrite Hex, Hts, Hd2d. reflexivity.
  - intros Hex.
    unfold iterator_next in H. rewrite Hex in H.
    assert (H' : Ok (ResultSetRowIterator.set_cursor
                       (ResultSetRowIterator.set_global iter
                          (ResultSetRowIterator.global_entry_idx_ iter)
                          (0 =? ResultSetRowIterator.fetched_so_far_ iter))
                       (ResultSetRowIterator.crt_row_buff_idx_
                          (ResultSetRowIterator.set_global iter
                             (ResultSetRowIterator.global_entry_idx_ iter)
                             (0 =? ResultSetRowIterator.fetched_so_far_ iter)))
                       1) = Ok iter')
      by (destruct (ResultSet.storage_ rs); exact H).
    injection H' as <-.
    cbn [ResultSetRowIterator.set_cursor ResultSetRowIterator.set_global
           ResultSetRowIterator.global_entry_idx_valid_
           ResultSetRowIterator.crt_row_buff_idx_] in Hvalid |- *.
    change (match ResultSetRowIterator.fetched_so_far_ iter with
            | 0 => true
            | _ => false
            end)
      with (0 =? ResultSetRowIterator.fetched_so_far_ iter) in Hvalid.
    split; [apply Z.eqb_eq in Hvalid; lia |].
    split; [reflexivity |]. split.
    + unfold iterator_deref.
      cbn [ResultSetRowIterator.set_cursor ResultSetRowIterator.set_global
             ResultSetRowIterator.global_entry_idx_valid_].
      change (match ResultSetRowIterator.fetched_so_far_ iter with
              | 0 => true
              | _ => false
              end)
        with (0 =? ResultSetRowIterator.fetched_so_far_ iter).
      rewrite Hvalid, Hex. reflexivity.
    + intros H0. unfold getCurrentRowBufferIndex.
      cbn [ResultSetRowIterator.set_cursor ResultSetRowIterator.set_global
             ResultSetRowIterator.crt_row_buff_idx_].
      rewrite H0. reflexivity.
Qed.

End IteratorPositionProperties.

Lemma valid_iterator_stands_on_a_row_witness :
  (exists p,
     getCurrentRowBufferIndex (iterator_at true false 2 1 true 1) = Some p /\
     ResultSetRowIterator.crt_row_buff_idx_
       (ResultSetRowIterator.make true false)
       <= p < entryCount Examples.sparse_result_set /\
     isEmptyAt (BA := Reference.accessors) Examples.sparse_result_set p
       = Ok false /\
     entry_idx_of Examples.sparse_result_set p
       = Ok (ResultSetRowIterator.global_entry_idx_
               (iterator_at true false 2 1 true 1)) /\
     iterator_deref (BA := Reference.accessors)
       (TM := Reference.materializers) Examples.sparse_result_set
       (iterator_at true false 2 1 true 1)
     = getRowAt_entry (BA := Reference.accessors)
         (TM := Reference.materializers) Examples.sparse_result_set
         (ResultSetRowIterator.global_entry_idx_
            (iterator_at true false 2 1 true 1))
         (ResultSetRowIterator.translate_strings_
            (ResultSetRowIterator.make true false))
         (ResultSetRowIterator.decimal_to_double_
            (ResultSetRowIterator.make true false)) false []) /\
  getCurrentRowBufferIndex (iterator_at true false 0 0 true 1) = None.
Proof.
  split.
  - refine (proj1 (valid_iterator_stands_on_a_row (BA := Reference.accessors)
                     (TM := Reference.materializers)
                     Examples.sparse_result_set
                     (ResultSetRowIterator.make true false)
                     (iterator_at true false 2 1 true 1) _ _ _ _) _).
    + vm_compute. reflexivity.
    + vm_compute. discriminate.
    + vm_compute. reflexivity.
    + reflexivity.
    + reflexivity.
  - refine (proj2 (proj2 (proj2
              (proj2 (valid_iterator_stands_on_a_row
                        (BA := Reference.accessors)
                        (TM := Reference.materializers)
                        Samples.explain_result_set
                        (ResultSetRowIterator.make true false)
                        (iterator_at true false 0 0 true 1) _ _ _ _) _))) _).
    + vm_compute. reflexivity.
    + vm_compute. discriminate.
    + reflexivity.
    + reflexivity.
    + reflexivity.
    + reflexivity.
Defined.

(** ** Access to one cell *)

Lemma In_positions (p : Z) (len : nat) :
  forall c, In p (positions c len) -> c <= p < c + Z.of_nat len.
Proof.
  induction len as [| len IH]; intros c H; [contradiction |].
  cbn [positions] in H. destruct H as [<- | H]; [lia |].
  apply IH in H. lia.
Qed.

Lemma In_valid_from (e : Z -> bool) (n c p : Z) :
  In p (valid_from e n c) -> c <= p < n /\ e p = false.
Proof.
  unfold valid_from. intros H. apply filter_In in H. destruct H as [H He].
  apply In_positions in H. split; [lia |].
  destruct (e p); [discriminate He | reflexivity].
Qed.

Lemma In_offset_limit {A : Type} (drop keep : Z) (l : list A) (x : A) :
  In x (offset_limit drop keep l) -> In x l.
Proof.
  assert (Hskip : forall (k : nat) (l' : list A), In x (skipn k l') -> In x l').
  { intros k l' H. rewrite <- (firstn_skipn k l'). apply in_or_app. right.
    exact H. }
  assert (Hfirst : forall (k : nat) (l' : list A), In x (firstn k l') -> In x l').
  { intros k l' H. rewrite <- (firstn_skipn k l'). apply in_or_app. left.
    exact H. }
  unfold offset_limit. intros H.
  destruct (keep =? 0).
  - eapply Hskip. exact H.
  - apply Hfirst in H. eapply Hskip. exact H.
Qed.

Lemma take_padded_rows {A : Type} (pad : A) (P : A -> Prop) (k : nat) :
  forall l : list A,
    (k < length l)%nat -> Forall P l ->
    Forall P (take_padded pad (S k) l) /\
    nth_error l k = Some (last (take_padded pad (S k) l) pad).
Proof.
  induction k as [| k IH]; intros l Hk Hl.
  - destruct l as [| x l]; [cbn in Hk; lia |].
    inversion Hl; subst. cbn. split; [constructor; [assumption | constructor] |].
    reflexivity.
  - destruct l as [| x l]; [cbn in Hk; lia |].
    inversion Hl; subst. cbn [length] in Hk.
    destruct (IH l ltac:(lia) ltac:(assumption)) as [IH1 IH2].
    split.
    + change (take_padded pad (S (S k)) (x :: l))
        with (x :: take_padded pad (S k) l).
      constructor; assumption.
    + change (take_padded pad (S (S k)) (x :: l))
        with (x :: take_padded pad (S k) l).
      cbn [nth_error]. rewrite IH2.
      destruct l as [| y l']; [cbn in Hk; lia |]. reflexivity.
Qed.

Lemma take_padded_pads {A : Type} (pad : A) (k : nat) :
  forall l : list A,
    (length l <= k)%nat -> Exists (eq pad) (take_padded pad (S k) l).
Proof.
  induction k as [| k IH]; intros l Hk.
  - destruct l as [| x l]; [| cbn in Hk; lia].
    cbn. constructor. reflexivity.
  - destruct l as [| x l].
    + cbn. constructor. reflexivity.
    + change (take_padded pad (S (S k)) (x :: l))
        with (x :: take_padded pad (S k) l).
      apply Exists_cons_tl. apply IH. cbn in Hk. lia.
Qed.

Section CellAccessProperties.

Context {BA : BufferAccessors} {TM : TargetMaterializers}.

Variable moveToBegin : ResultSet.t -> ResultSet.t.
Variables ts d2d : bool.
Variable col_idx : Z.

(** The rest of [getRowAt_cell] once the cursor is at the beginning. *)
Lemma getRowAt_cell_rows (k : nat) :
  forall rs0 rows rs',
    ResultSet.storage_ rs0 <> None ->
    getNextRow_times (S k) ts d2d rs0 = Ok (rows, rs') ->
    (Forall (fun r : Row => r <> []) rows ->
     (rs1 <- getRowAt_cell_loop k ts d2d rs0 ;;
      '(crt_row, rs2) <- getNextRowUnlocked ts d2d rs1 ;;
      CHECK (negb (Nat.eqb (length crt_row) 0)) ;;
      v <- vec_at crt_row col_idx ;; Ok (v, rs2))
     = (v <- vec_at (last rows []) col_idx ;; Ok (v, rs'))) /\
    (Exists (eq []) rows ->
     (rs1 <- getRowAt_cell_loop k ts d2d rs0 ;;
      '(crt_row, rs2) <- getNextRowUnlocked ts d2d rs1 ;;
      CHECK (negb (Nat.eqb (length crt_row) 0)) ;;
      v <- vec_at crt_row col_idx ;; Ok (v, rs2))
     = CheckFailed).
Proof.
  assert (Hsame : forall rs0, ResultSet.storage_ rs0 <> None ->
            getNextRow ts d2d rs0 = getNextRowUnlocked ts d2d rs0).
  { intros rs0 H. unfold getNextRow.
    destruct (ResultSet.storage_ rs0); [reflexivity | contradiction]. }
  induction k as [| k IH]; intros rs0 rows rs' Hst H.
  - cbn [getNextRow_times] in H. inv_bind H. destruct v as [r rs1].
    cbn [bind] in H. injection H as <- <-.
    rewrite Hsame in Hv by exact Hst.
    cbn [getRowAt_cell_loop bind last]. rewrite Hv. cbn [bind].
    split.
    + intros Hall. inversion Hall as [| ? ? Hr _]; subst.
      destruct r; [contradiction | reflexivity].
    + intros Hex. inversion Hex as [? ? Hr | ? ? Hr]; subst;
        [reflexivity | inversion Hr].
  - remember (S k) as k1. cbn [getNextRow_times] in H. subst k1.
    inv_bind H. destruct v as [r rs1]. inv_bind H. destruct v as [rows' rs2].
    injection H as <- <-.
    assert (Hst1 : ResultSet.storage_ rs1 <> None).
    { destruct (getNextRow_cursor _ _ _ _ _ Hv) as [c [f ->]]. exact Hst. }
    rewrite Hsame in Hv by exact Hst.
    destruct (IH rs1 rows' rs2 Hst1 Hv0) as [IH1 IH2].
    cbn [getRowAt_cell_loop]. rewrite Hv. cbn [bind].
    split.
    + intros Hall. inversion Hall as [| ? ? Hr Hrest]; subst.
      destruct r as [| x r]; [contradiction |].
      cbn [length Nat.eqb negb]. rewrite (IH1 Hrest).
      destruct rows' as [| r' rows'']; [| reflexivity].
      cbn [getNextRow_times] in Hv0. inv_bind Hv0. destruct v as [a b].
      inv_bind Hv0. destruct v as [a' b']. discriminate Hv0.
    + intros Hex. inversion Hex as [? ? Hr | ? ? Hr]; subst.
      * reflexivity.
      * destruct r as [| x r]; [reflexivity |].
        cbn [length Nat.eqb negb]. exact (IH2 Hr).
Qed.

(** [getRowAt(row_idx, col_idx, ...)] rewinds the cursor and reads rows in
    iteration order: wherever the cursor stood before, it returns value
    [col_idx] of the row that [row_idx + 1] calls of [getNextRow] from a
    fresh cursor deliver last, OFFSET and LIMIT applied, and it fails its
    check when the iteration has no such row. *)
Theorem getRowAt_cell_reads_iteration_order (rs : ResultSet.t)
    (e : Z -> bool) (row : Z -> Row) (row_idx : Z) :
  (forall r, moveToBegin r = fresh_cursor r) ->
  ResultSet.just_explain_ rs = false ->
  ResultSet.storage_ rs <> None ->
  0 <= entryCount rs < 2 ^ 64 ->
  0 <= ResultSet.drop_first_ rs ->
  0 <= ResultSet.keep_first_ rs ->
  ResultSet.drop_first_ rs + ResultSet.keep_first_ rs < 2 ^ 64 ->
  (forall i, 0 <= i < entryCount rs -> isEmptyAt rs i = Ok (e i)) ->
  (forall i, 0 <= i < entryCount rs -> e i = false ->
     exists idx,
       entry_idx_of rs i = Ok idx /\
       getRowAt_entry rs idx ts d2d false [] = Ok (row i) /\
       row i <> []) ->
  0 <= row_idx ->
  (forall p v,
     nth_error (offset_limit (ResultSet.drop_first_ rs)
                  (ResultSet.keep_first_ rs)
                  (valid_positions e (entryCount rs))) (Z.to_nat row_idx)
     = Some p ->
     vec_at (row p) col_idx = Ok v ->
     exists rs',
       getRowAt_cell moveToBegin rs row_idx col_idx ts d2d = Ok (v, rs')) /\
  (Z.of_nat (length (offset_limit (ResultSet.drop_first_ rs)
                       (ResultSet.keep_first_ rs)
                       (valid_positions e (entryCount rs)))) <= row_idx ->
   getRowAt_cell moveToBegin rs row_idx col_idx ts d2d = CheckFailed).
Proof.
  intros Hbegin Hexplain Hstorage Hn HD HK HDK Hempty Hrow Hidx.
  set (L := offset_limit (ResultSet.drop_first_ rs) (ResultSet.keep_first_ rs)
              (valid_positions e (entryCount rs))).
  destruct (getNextRow_times_fresh rs e row ts d2d (entryCount rs)
              (ResultSet.drop_first_ rs) (ResultSet.keep_first_ rs)
              eq_refl eq_refl eq_refl Hexplain Hstorage Hn HD HK HDK Hempty
              Hrow (S (Z.to_nat row_idx))) as [rs' Hrows].
  fold L in Hrows.
  assert (Hst0 : ResultSet.storage_ (fresh_cursor rs) <> None) by exact Hstorage.
  destruct (getRowAt_cell_rows (Z.to_nat row_idx) (fresh_cursor rs) _ rs'
              Hst0 Hrows) as [Hgood Hbad].
  assert (Hnonempty : Forall (fun r : Row => r <> []) (map row L)).
  { apply Forall_forall. intros r Hr. apply in_map_iff in Hr.
    destruct Hr as [p [<- Hp]]. unfold L in Hp.
    apply In_offset_limit in Hp. apply In_valid_from in Hp.
    destruct Hp as [Hp He].
    destruct (Hrow p ltac:(lia) He) as [idx [_ [_ Hne]]]. exact Hne. }
  unfold getRowAt_cell. rewrite Hbegin. split.
  - intros p v Hp Hv.
    assert (Hlt : (Z.to_nat row_idx < length (map row L))%nat).
    { rewrite length_map. apply nth_error_Some. rewrite Hp. discriminate. }
    destruct (take_padded_rows (A := Row) [] _ (Z.to_nat row_idx)
                (map row L) Hlt Hnonempty) as [Hall Hlast].
    rewrite (Hgood Hall).
    rewrite nth_error_map, Hp in Hlast. cbn [option_map] in Hlast.
    apply (f_equal (fun o : option Row =>
                      match o with Some r => r | None => [] end)) in Hlast.
    cbv beta iota in Hlast.
    match goal with
    | |- context [vec_at ?t col_idx] =>
        replace t with (row p) by exact Hlast
    end.
    rewrite Hv. cbn [bind]. eauto.
  - intros Hshort. apply Hbad.
    apply take_padded_pads. rewrite length_map. lia.
Qed.

End CellAccessProperties.

Lemma getRowAt_cell_reads_iteration_order_witness :
  exists rs',
    getRowAt_cell (BA := Reference.accessors) (TM := Reference.materializers)
      fresh_cursor (with_cursor Examples.eight_rows_result_set 6 4) 1 0
      true false
    = Ok (IntTV 103, rs').
Proof.
  refine (proj1 (getRowAt_cell_reads_iteration_order
                   (BA := Reference.accessors)
                   (TM := Reference.materializers) fresh_cursor true false 0
                   (with_cursor Examples.eight_rows_result_set 6 4)
                   (fun _ => false) Examples.eight_rows_row 1
                   _ _ _ _ _ _ _ _ _ _) 3 (IntTV 103) _ _).
  - reflexivity.
  - reflexivity.
  - discriminate.
  - vm_compute. split; [discriminate | reflexivity].
  - vm_compute. discriminate.
  - vm_compute. discriminate.
  - vm_compute. reflexivity.
  - intros i Hi.
    change (entryCount (with_cursor Examples.eight_rows_result_set 6 4))
      with 8 in Hi.
    assert (Hc : i = 0 \/ i = 1 \/ i = 2 \/ i = 3 \/ i = 4 \/ i = 5 \/ i = 6
                 \/ i = 7) by lia.
    repeat (destruct Hc as [-> | Hc]; [vm_compute; reflexivity |]).
    subst i. vm_compute. reflexivity.
  - intros i Hi _.
    change (entryCount (with_cursor Examples.eight_rows_result_set 6 4))
      with 8 in Hi.
    exists i. split; [reflexivity |]. split; [| discriminate].
    assert (Hc : i = 0 \/ i = 1 \/ i = 2 \/ i = 3 \/ i = 4 \/ i = 5 \/ i = 6
                 \/ i = 7) by lia.
    repeat (destruct Hc as [-> | Hc]; [vm_compute; reflexivity |]).
    subst i. vm_compute. reflexivity.
  - lia.
  - vm_compute. reflexivity.
  - vm_compute. reflexivity.
Defined.

(** ** Single-column rows *)

Section OneColumnProperties.

Context {BA : BufferAccessors} {TM : TargetMaterializers}.

(** [getOneColRow] is the single-column short cut of random access: on a
    row-wise result set whose only target is the one its storages hold, it
    answers [{0, false}] where [getRowAt] without translations returns the
    empty row, [{v, true}] where that row is the single integer [v], and
    fails its check where the value is not an integer.  On a columnar
    result set it answers [{0, false}] for an empty entry and fails its
    check for any other. *)
Theorem getOneColRow_agrees_with_getRowAt (rs : ResultSet.t)
    (front : TargetInfo) (rest : list TargetInfo) (idx : Z)
    (r : ResultSet.StorageLookupResult) :
  findStorage rs idx = Ok r ->
  (QueryMemoryDescriptor.didOutputColumnar (ResultSet.query_mem_desc_ rs)
   = false ->
   ResultSetStorage.targets_ (ResultSet.storage_ptr r) = [front] ->
   (getRowAt_entry rs idx false false false [] = Ok [] ->
    getOneColRow (front :: rest) rs idx = Ok (0, false)) /\
   (forall v,
      getRowAt_entry rs idx false false false [] = Ok [IntTV v] ->
      getOneColRow (front :: rest) rs idx = Ok (v, true)) /\
   (forall tv,
      (forall v, tv <> IntTV v) ->
      getRowAt_entry rs idx false false false [] = Ok [tv] ->
      getOneColRow (front :: rest) rs idx = CheckFailed)) /\
  (QueryMemoryDescriptor.didOutputColumnar (ResultSet.query_mem_desc_ rs)
   = true ->
   (isEmptyEntry (ResultSet.storage_ptr r) (ResultSet.fixedup_entry_idx r)
    = Ok true ->
    getOneColRow (front :: rest) rs idx = Ok (0, false)) /\
   (isEmptyEntry (ResultSet.storage_ptr r) (ResultSet.fixedup_entry_idx r)
    = Ok false ->
    getOneColRow (front :: rest) rs idx = CheckFailed)).
Proof.
  intros Hfind. split.
  - intros Hrow Htargets.
    assert (Hshape : forall row,
      getRowAt_entry rs idx false false false [] = Ok row ->
      (row = [] /\ getOneColRow (front :: rest) rs idx = Ok (0, false)) \/
      (exists tv,
         row = [tv] /\
         getOneColRow (front :: rest) rs idx
         = match tv with IntTV ival => Ok (ival, true) | _ => CheckFailed end)).
    { intros row H. unfold getRowAt_entry, getOneColRow in *.
      rewrite Hfind in *. cbn [bind] in *.
      destruct (isEmptyEntry (ResultSet.storage_ptr r)
                  (ResultSet.fixedup_entry_idx r)) as [empty | | |];
        try discriminate H.
      cbn [bind] in *. destruct empty.
      - injection H as <-. left. split; reflexivity.
      - right. unfold getRowAt_targets in H. rewrite Hrow in *.
        rewrite Htargets in H. cbn [getRowAt_loop negb] in H |- *.
        rewrite Hrow in H. unfold skip_or in H.
        destruct (getTargetValueFromBufferRowwise _ _ _ _ _ _ _ _ _ _ _ _)
          as [tv | | |]; try discriminate H.
        cbn [bind] in H |- *. injection H as <-.
        exists tv. split; reflexivity. }
    split; [| split].
    + intros H. destruct (Hshape _ H) as [[_ Hone] | [tv [Habs _]]];
        [exact Hone | discriminate Habs].
    + intros v H. destruct (Hshape _ H) as [[Habs _] | [tv [Htv Hone]]];
        [discriminate Habs |].
      injection Htv as <-. exact Hone.
    + intros tv Hnot H.
      destruct (Hshape _ H) as [[Habs _] | [tv' [Htv Hone]]];
        [discriminate Habs |].
      injection Htv as <-. rewrite Hone.
      destruct tv; try reflexivity. exfalso. apply (Hnot v). reflexivity.
  - intros Hcol. unfold getOneColRow. rewrite Hfind. cbn [bind].
    split; intros ->; cbn [bind]; [reflexivity |].
    rewrite Hcol. reflexivity.
Qed.

End OneColumnProperties.

Lemma getOneColRow_agrees_with_getRowAt_witness :
  getOneColRow (BA := Reference.accessors) (TM := Reference.materializers)
    [Reference.plain_target] Examples.sparse_result_set 1 = Ok (7, true).
Proof.
  refine (proj1 (proj2 (proj1 (getOneColRow_agrees_with_getRowAt
                                 (BA := Reference.accessors)
                                 (TM := Reference.materializers)
                                 Examples.sparse_result_set
                                 Reference.plain_target [] 1
                                 (ResultSet.mkStorageLookupResult
                                    Examples.baseline_rowwise 1 0) _)
                          _ _)) 7 _).
  - reflexivity.
  - reflexivity.
  - reflexivity.
  - vm_compute. reflexivity.
Defined.

(** ** The binary-searched row count and the iteration *)

Section RowCountProperties.

Context {BA : BufferAccessors} {TM : TargetMaterializers}.

Lemma binSearchRowCount_packed (s : ResultSetStorage.t) (e : Z -> bool) :
  QueryMemoryDescriptor.getQueryDescriptionType
    (ResultSetStorage.query_mem_desc_ s) = Projection ->
  QueryMemoryDescriptor.getEffectiveKeyWidth
    (ResultSetStorage.query_mem_desc_ s) = 8 ->
  0 <= ResultSetStorage.getEntryCount s <= 2 ^ 63 ->
  (forall i, 0 <= i < ResultSetStorage.getEntryCount s ->
             isEmptyEntry s i = Ok (e i)) ->
  (forall i j, 0 <= i <= j -> j < ResultSetStorage.getEntryCount s ->
               e i = true -> e j = true) ->
  exists k,
    binSearchRowCount s = Ok k /\
    0 <= k <= ResultSetStorage.getEntryCount s /\
    (forall i, 0 <= i < k -> e i = false) /\
    (forall i, k <= i < ResultSetStorage.getEntryCount s -> e i = true).
Proof.
  intros Hty Hw Hn Hfn Hpacked. unfold binSearchRowCount.
  unfold ResultSetStorage.getEntryCount in *.
  rewrite Hty, Hw. cbn [QueryDescriptionType_eqb]. rewrite Z.eqb_refl.
  destruct (Z.eqb_spec (QueryMemoryDescriptor.getEntryCount
                          (ResultSetStorage.query_mem_desc_ s)) 0)
    as [E0 | E0].
  - exists 0. rewrite E0. repeat split; try lia; intros; lia.
  - assert (Hlam : forall i,
               0 <= i < QueryMemoryDescriptor.getEntryCount
                          (ResultSetStorage.query_mem_desc_ s) ->
               (if QueryMemoryDescriptor.didOutputColumnar
                     (ResultSetStorage.query_mem_desc_ s)
                then k <- load_int 8 (ResultSetStorage.buff_ s) (8 * i) ;;
                     Ok (k =? EMPTY_KEY_64)
                else k <- load_int 8 (ResultSetStorage.buff_ s)
                            (row_ptr_rowwise
                               (ResultSetStorage.query_mem_desc_ s) i) ;;
                     Ok (k =? EMPTY_KEY_64)) = Ok (e i)).
    { intros i Hi. apply isEmptyEntry_projection; auto. }
    destruct (QueryMemoryDescriptor.didOutputColumnar
                (ResultSetStorage.query_mem_desc_ s));
      apply (make_bin_search_correct _ e _ Hlam Hpacked); lia.
Qed.

(** The binary-searched row count and the rows of the iteration.  Take a
    result set that is not an explanation and has no permutation, whose
    entry count is that of its primary storage, a projection with 8-byte
    keys in which no empty entry precedes a valid one and whose valid
    entries materialise to rows with at least one value.  Then
    [binSearchRowCount] returns the number [k] of valid entries, and from
    a fresh cursor the calls of [getNextRow] return the rows of the
    entries [0, ..., k - 1] after OFFSET [drop_first_] and LIMIT
    [keep_first_] have been applied to them, and the empty row from then
    on.  With neither OFFSET nor LIMIT, [k] is the number of rows that the
    iteration delivers: [k] calls return the rows of the entries
    [0, ..., k - 1] and the call after them returns the empty row. *)
Theorem binSearchRowCount_counts_the_rows (rs : ResultSet.t)
    (s : ResultSetStorage.t) (e : Z -> bool) (row : Z -> Row)
    (ts d2d : bool) :
  ResultSet.just_explain_ rs = false ->
  ResultSet.storage_ rs = Some s ->
  ResultSet.permutation_ rs = [] ->
  0 <= ResultSet.drop_first_ rs ->
  0 <= ResultSet.keep_first_ rs ->
  ResultSet.drop_first_ rs + ResultSet.keep_first_ rs < 2 ^ 64 ->
  QueryMemoryDescriptor.getEntryCount (ResultSet.query_mem_desc_ rs)
  = ResultSetStorage.getEntryCount s ->
  QueryMemoryDescriptor.getQueryDescriptionType
    (ResultSetStorage.query_mem_desc_ s) = Projection ->
  QueryMemoryDescriptor.getEffectiveKeyWidth
    (ResultSetStorage.query_mem_desc_ s) = 8 ->
  0 <= ResultSetStorage.getEntryCount s <= 2 ^ 63 ->
  (forall i, 0 <= i < ResultSetStorage.getEntryCount s ->
     isEmptyEntry s i = Ok (e i)) ->
  (forall i j, 0 <= i <= j -> j < ResultSetStorage.getEntryCount s ->
     e i = true -> e j = true) ->
  (forall i, 0 <= i < ResultSetStorage.getEntryCount s -> e i = false ->
     getRowAt_entry rs i ts d2d false [] = Ok (row i) /\ row i <> []) ->
  exists k,
    binSearchRowCount s = Ok k /\
    0 <= k <= ResultSetStorage.getEntryCount s /\
    (forall i, 0 <= i < k -> e i = false) /\
    (forall i, k <= i < ResultSetStorage.getEntryCount s -> e i = true) /\
    (forall m, exists rs',
       getNextRow_times m ts d2d (fresh_cursor rs)
       = Ok (take_padded [] m
               (map row
                  (offset_limit (ResultSet.drop_first_ rs)
                     (ResultSet.keep_first_ rs)
                     (positions 0 (Z.to_nat k)))), rs')) /\
    (ResultSet.drop_first_ rs = 0 -> ResultSet.keep_first_ rs = 0 ->
     exists rs',
       getNextRow_times (S (Z.to_nat k)) ts d2d (fresh_cursor rs)
       = Ok (map row (positions 0 (Z.to_nat k)) ++ [[]], rs')).
Proof.
  intros Hexplain Hstorage Hperm Hd Hk Hdk Hcount Hty Hw Hn Hfn Hpacked
    Hrows.
  destruct (binSearchRowCount_packed s e Hty Hw Hn Hfn Hpacked)
    as [k [Hbin [Hk0 [Hlo Hhi]]]].
  assert (Hec : entryCount rs = ResultSetStorage.getEntryCount s)
    by (unfold entryCount; rewrite Hperm; exact Hcount).
  assert (Hempty : forall i, 0 <= i < entryCount rs ->
                     isEmptyAt rs i = Ok (e i)).
  { intros i Hi. unfold isEmptyAt, entry_idx_of. rewrite Hperm. cbn [bind].
    rewrite (findStorage_primary rs s i Hstorage) by lia. cbn [bind].
    apply Hfn. lia. }
  destruct (valid_from_prefix e (entryCount rs) k
              (Z.to_nat (entryCount rs)) 0 Hlo
              ltac:(intros i Hi; apply Hhi; lia) ltac:(lia) ltac:(lia)
              ltac:(lia)) as [Hpos _].
  replace (k - 0) with k in Hpos by lia.
  assert (Htimes : forall m, exists rs',
             getNextRow_times m ts d2d (fresh_cursor rs)
             = Ok (take_padded [] m
                     (map row
                        (offset_limit (ResultSet.drop_first_ rs)
                           (ResultSet.keep_first_ rs)
                           (positions 0 (Z.to_nat k)))), rs')).
  { intros m.
    destruct (getNextRow_times_fresh rs e row ts d2d (entryCount rs)
                (ResultSet.drop_first_ rs) (ResultSet.keep_first_ rs)
                eq_refl eq_refl eq_refl Hexplain
                ltac:(rewrite Hstorage; discriminate)
                ltac:(lia) Hd Hk Hdk Hempty)
      with (m := m) as [rs' Hrs'].
    { intros i Hi Hei. exists i. unfold entry_idx_of. rewrite Hperm.
      split; [reflexivity |]. apply Hrows; [lia | exact Hei]. }
    exists rs'. rewrite Hrs'. unfold valid_positions. rewrite Hpos.
    reflexivity. }
  exists k. split; [exact Hbin |]. split; [exact Hk0 |].
  split; [exact Hlo |]. split; [exact Hhi |]. split; [exact Htimes |].
  intros HD0 HK0. destruct (Htimes (S (Z.to_nat k))) as [rs' Hrs'].
  exists rs'. rewrite Hrs', HD0, HK0. unfold offset_limit.
  cbn [Z.to_nat skipn Z.eqb].
  replace (S (Z.to_nat k))
    with (S (length (map row (positions 0 (Z.to_nat k)))))
    by (rewrite length_map, positions_length; reflexivity).
  rewrite take_padded_all. reflexivity.
Qed.

End RowCountProperties.

Lemma binSearchRowCount_counts_the_rows_witness :
  exists k,
    binSearchRowCount (BA := Reference.accessors) Examples.projection_storage
    = Ok k /\
    0 <= k <= ResultSetStorage.getEntryCount Examples.projection_storage /\
    exists rs',
      getNextRow_times (BA := Reference.accessors)
        (TM := Reference.materializers) (S (Z.to_nat k)) true false
        (fresh_cursor Samples.projection_result_set)
      = Ok (map (fun i => [IntTV (10 * (i + 1))]) (positions 0 (Z.to_nat k))
            ++ [[]], rs').
Proof.
  destruct (binSearchRowCount_counts_the_rows (BA := Reference.accessors)
              (TM := Reference.materializers) Samples.projection_result_set
              Examples.projection_storage Examples.projection_storage_empty
              (fun i => [IntTV (10 * (i + 1))]) true false)
    as [k [Hbin [Hk [_ [_ [_ Hrows]]]]]].
  - reflexivity.
  - reflexivity.
  - reflexivity.
  - vm_compute. discriminate.
  - vm_compute. discriminate.
  - vm_compute. reflexivity.
  - reflexivity.
  - reflexivity.
  - reflexivity.
  - vm_compute. split; discriminate.
  - intros i Hi. change (ResultSetStorage.getEntryCount
                           Examples.projection_storage) with 4 in Hi.
    assert (Hc : i = 0 \/ i = 1 \/ i = 2 \/ i = 3) by lia.
    destruct Hc as [-> | [-> | [-> | ->]]]; vm_compute; reflexivity.
  - intros i j Hij Hj. unfold Examples.projection_storage_empty.
    intros H. apply Z.leb_le in H. apply Z.leb_le. lia.
  - intros i Hi He. change (ResultSetStorage.getEntryCount
                              Examples.projection_storage) with 4 in Hi.
    unfold Examples.projection_storage_empty in He. apply Z.leb_gt in He.
    assert (Hc : i = 0 \/ i = 1) by lia.
    destruct Hc as [-> | ->]; (split; [vm_compute; reflexivity | discriminate]).
  - exists k. split; [exact Hbin |]. split; [exact Hk |].
    apply Hrows; reflexivity.
Defined.

(** ** Direct access to columns *)

Lemma read_bytes_Ok (buff : Buffer) (p n : Z) (bytes : list byte) :
  read_bytes buff p n = Ok bytes ->
  0 <= p /\ 0 <= n /\ p + n <= Z.of_nat (length buff) /\
  bytes = firstn (Z.to_nat n) (skipn (Z.to_nat p) buff) /\
  Z.of_nat (length bytes) = n.
Proof.
  unfold read_bytes. intros H.
  destruct (Z.ltb_spec p 0); [discriminate H |].
  destruct (Z.ltb_spec n 0); [discriminate H |].
  destruct (Z.ltb_spec (Z.of_nat (length buff)) (p + n)); [discriminate H |].
  cbn [orb] in H. injection H as <-.
  repeat split; try lia.
  rewrite length_firstn, length_skipn. lia.
Qed.

Lemma write_bytes_Ok (dst : Buffer) (p : Z) (src out : list byte) :
  write_bytes dst p src = Ok out ->
  0 <= p /\ p + Z.of_nat (length src) <= Z.of_nat (length dst) /\
  out = firstn (Z.to_nat p) dst ++ src
        ++ skipn (Z.to_nat p + length src) dst.
Proof.
  unfold write_bytes. intros H.
  destruct (Z.ltb_spec p 0); [discriminate H |].
  destruct (Z.ltb_spec (Z.of_nat (length dst)) (p + Z.of_nat (length src)));
    [discriminate H |].
  cbn [orb] in H. injection H as <-. repeat split; lia.
Qed.

(** Writing [src] at [p] and then [more] right behind it is writing
    [src ++ more] at [p]. *)
Lemma written_region (dst src more : list byte) (p : nat) :
  (p + length src + length more <= length dst)%nat ->
  let out1 := firstn p dst ++ src ++ skipn (p + length src) dst in
  firstn (p + length src) out1 ++ more
  ++ skipn (p + length src + length more) out1
  = firstn p dst ++ (src ++ more)
    ++ skipn (p + length (src ++ more)) dst.
Proof.
  intros Hlen out1.
  assert (Hp : length (firstn p dst) = p) by (rewrite length_firstn; lia).
  assert (Hsplit : out1 = (firstn p dst ++ src) ++ skipn (p + length src) dst)
    by (subst out1; rewrite app_assoc; reflexivity).
  assert (Hl : length (firstn p dst ++ src) = (p + length src)%nat)
    by (rewrite length_app, Hp; reflexivity).
  assert (Hfirst : firstn (p + length src) out1 = firstn p dst ++ src).
  { rewrite Hsplit, firstn_app, Hl.
    rewrite (firstn_all2 (firstn p dst ++ src)) by lia.
    replace (p + length src - (p + length src))%nat with O by lia.
    cbn [firstn]. apply app_nil_r. }
  assert (Hskip : skipn (p + length src + length more) out1
                  = skipn (p + length (src ++ more)) dst).
  { rewrite Hsplit, skipn_app, Hl.
    rewrite (skipn_all2 (firstn p dst ++ src)) by lia.
    cbn [app].
    replace (p + length src + length more - (p + length src))%nat
      with (length more) by lia.
    rewrite skipn_skipn, length_app. f_equal. lia. }
  rewrite Hfirst, Hskip. rewrite <- !app_assoc. reflexivity.
Qed.

Section ColumnCopyProperties.

Context {BA : BufferAccessors} {CA : ColumnarAccessors}.

Lemma copyColumnIntoBuffer_loop_spec (column_idx w size : Z)
    (appended : list ResultSetStorage.t) :
  forall off out0 out,
    0 <= off <= Z.of_nat (length out0) ->
    Z.of_nat (length out0) < 2 ^ 64 ->
    copyColumnIntoBuffer_loop appended column_idx w size off out0 = Ok out ->
    exists bytes,
      columns_bytes column_idx w (non_empty_storages appended) = Ok bytes /\
      out = firstn (Z.to_nat off) out0 ++ bytes
            ++ skipn (Z.to_nat off + length bytes) out0 /\
      off + Z.of_nat (length bytes) <= Z.of_nat (length out0) /\
      off + Z.of_nat (length bytes) <= Z.max off size.
Proof.
  induction appended as [| s rest IH]; intros off out0 out Hoff Hlen H.
  - cbn in H. injection H as <-. exists []. split; [reflexivity |].
    cbn [app length]. rewrite Nat.add_0_r, firstn_skipn.
    repeat split; lia.
  - cbn [copyColumnIntoBuffer_loop] in H.
    unfold non_empty_storages. cbn [filter]. fold (non_empty_storages rest).
    destruct (QueryMemoryDescriptor.getEntryCount
                (ResultSetStorage.query_mem_desc_ s) =? 0) eqn:Ecount;
      cbn [negb].
    + apply IH; assumption.
    + cbv zeta in H. inv_check H. inv_check H.
      inv_bind H. rename v into bytes. inv_bind H. rename v into out1.
      destruct (read_bytes_Ok _ _ _ _ Hv) as [_ [_ [_ [_ Hbl]]]].
      destruct (write_bytes_Ok _ _ _ _ Hv0) as [_ [Hfit Hout1]].
      rewrite <- Hbl in *.
      rewrite (to_size_t_small (off + Z.of_nat (length bytes))) in * by lia.
      apply Z.leb_le in Hchk0.
      assert (Hl1 : length out1 = length out0).
      { rewrite Hout1. rewrite !length_app, length_firstn, length_skipn. lia. }
      apply IH in H; [| rewrite Hl1; lia | rewrite Hl1; lia].
      destruct H as [more [Hmore [Hout [Hfit' Hsize]]]].
      exists (bytes ++ more). split.
      * cbn [columns_bytes]. unfold column_bytes at 1. rewrite <- Hbl.
        rewrite Hv. cbn [bind]. rewrite Hmore. reflexivity.
      * rewrite Hl1 in Hfit'. rewrite length_app. split; [| split; lia].
        rewrite Hout.
        replace (Z.to_nat (off + Z.of_nat (length bytes)))
          with (Z.to_nat off + length bytes)%nat by lia.
        rewrite Hout1.
        rewrite <- length_app.
        apply (written_region out0 bytes more (Z.to_nat off)). lia.
Qed.

(** [copyColumnIntoBuffer] lays the column out contiguously: a call that
    returns has written, from the start of the output buffer, the bytes of
    the column in the primary storage followed by its bytes in every
    appended storage that holds entries, in order; these bytes fit in
    [output_buffer_size], and the rest of the output buffer is as it
    was. *)
Theorem copyColumnIntoBuffer_concatenates (rs : ResultSet.t) (column_idx : Z)
    (output_buffer out : Buffer) (output_buffer_size : Z) :
  Z.of_nat (length output_buffer) < 2 ^ 64 ->
  copyColumnIntoBuffer rs column_idx output_buffer output_buffer_size
  = Ok out ->
  exists w primary bytes,
    getPaddedSlotWidthBytes (ResultSet.query_mem_desc_ rs) column_idx = Ok w /\
    ResultSet.storage_ rs = Some primary /\
    columns_bytes column_idx w
      (primary :: non_empty_storages (ResultSet.appended_storage_ rs))
    = Ok bytes /\
    out = bytes ++ skipn (length bytes) output_buffer /\
    Z.of_nat (length bytes) <= output_buffer_size /\
    length out = length output_buffer.
Proof.
  intros Hlen H. unfold copyColumnIntoBuffer in H.
  inv_check H. inv_check H. inv_check H. inv_bind H. rename v into w.
  destruct (ResultSet.storage_ rs) as [primary |]; [| discriminate H].
  cbv zeta in H. inv_check H. inv_bind H. rename v into bytes.
  inv_bind H. rename v into out1.
  destruct (read_bytes_Ok _ _ _ _ Hv0) as [_ [_ [_ [_ Hbl]]]].
  destruct (write_bytes_Ok _ _ _ _ Hv1) as [_ [Hfit Hout1]].
  rewrite <- Hbl in *. apply Z.leb_le in Hchk2. apply Z.ltb_lt in Hchk1.
  assert (Hl1 : length out1 = length output_buffer).
  { rewrite Hout1. rewrite !length_app, length_firstn, length_skipn. lia. }
  apply copyColumnIntoBuffer_loop_spec in H;
    [| rewrite Hl1; lia | rewrite Hl1; lia].
  destruct H as [more [Hmore [Hout [Hfit' Hsize]]]].
  exists w, primary, (bytes ++ more).
  split; [exact Hv |]. split; [reflexivity |]. split.
  { cbn [columns_bytes]. unfold column_bytes at 1. rewrite <- Hbl, Hv0.
    cbn [bind]. rewrite Hmore. reflexivity. }
  rewrite Hl1 in Hfit'. rewrite length_app.
  assert (Heq : out = (bytes ++ more)
                      ++ skipn (length (bytes ++ more)) output_buffer).
  { rewrite Hout. rewrite Nat2Z.id. rewrite Hout1.
    cbn [Z.to_nat firstn app Nat.add].
    pose proof (written_region output_buffer bytes more 0 ltac:(lia)) as Hw.
    cbn [firstn app Nat.add] in Hw. exact Hw. }
  split; [rewrite Heq, length_app; reflexivity |].
  split; [lia |].
  rewrite Heq. rewrite length_app, length_skipn, length_app. lia.
Qed.

End ColumnCopyProperties.

Lemma byte_at_app_l (l1 l2 : Buffer) (p : Z) :
  0 <= p < Z.of_nat (length l1) -> byte_at (l1 ++ l2) p = byte_at l1 p.
Proof.
  intros Hp. unfold byte_at. destruct (Z.ltb_spec p 0); [lia |].
  rewrite nth_error_app1 by lia. reflexivity.
Qed.

Lemma byte_at_slice (buff : Buffer) (p0 n q : Z) :
  0 <= p0 -> 0 <= q < n -> p0 + n <= Z.of_nat (length buff) ->
  byte_at (firstn (Z.to_nat n) (skipn (Z.to_nat p0) buff)) q
  = byte_at buff (p0 + q).
Proof.
  intros Hp0 Hq Hfit. unfold byte_at.
  destruct (Z.ltb_spec q 0); [lia |].
  destruct (Z.ltb_spec (p0 + q) 0); [lia |].
  rewrite nth_error_firstn.
  destruct (Nat.ltb_spec (Z.to_nat q) (Z.to_nat n)); [| lia].
  rewrite nth_error_skipn.
  replace (Z.to_nat p0 + Z.to_nat q)%nat with (Z.to_nat (p0 + q)) by lia.
  reflexivity.
Qed.

Lemma load_unsigned_ext (k : nat) (b1 b2 : Buffer) :
  forall p1 p2,
    (forall j, 0 <= j < Z.of_nat k -> byte_at b1 (p1 + j) = byte_at b2 (p2 + j)) ->
    load_unsigned k b1 p1 = load_unsigned k b2 p2.
Proof.
  induction k as [| k IH]; intros p1 p2 H; [reflexivity |].
  cbn [load_unsigned].
  pose proof (H 0 ltac:(lia)) as H0. rewrite !Z.add_0_r in H0. rewrite H0.
  rewrite (IH (p1 + 1) (p2 + 1)); [reflexivity |].
  intros j Hj. replace (p1 + 1 + j) with (p1 + (1 + j)) by lia.
  replace (p2 + 1 + j) with (p2 + (1 + j)) by lia. apply H. lia.
Qed.

Section ColumnEntryProperties.

Context {BA : BufferAccessors} {CA : ColumnarAccessors}.

Lemma copyColumnIntoBuffer_primary (rs : ResultSet.t) (column_idx : Z)
    (output_buffer out : Buffer) (output_buffer_size : Z) :
  Z.of_nat (length output_buffer) < 2 ^ 64 ->
  copyColumnIntoBuffer rs column_idx output_buffer output_buffer_size
  = Ok out ->
  exists w primary bytes tail,
    getPaddedSlotWidthBytes (ResultSet.query_mem_desc_ rs) column_idx = Ok w /\
    ResultSet.storage_ rs = Some primary /\
    column_bytes column_idx w primary = Ok bytes /\
    out = bytes ++ tail.
Proof.
  intros Hlen H. unfold copyColumnIntoBuffer in H.
  inv_check H. inv_check H. inv_check H. inv_bind H. rename v into w.
  destruct (ResultSet.storage_ rs) as [primary |]; [| discriminate H].
  cbv zeta in H. inv_check H. inv_bind H. rename v into bytes.
  inv_bind H. rename v into out1.
  destruct (read_bytes_Ok _ _ _ _ Hv0) as [_ [_ [_ [_ Hbl]]]].
  destruct (write_bytes_Ok _ _ _ _ Hv1) as [_ [Hfit Hout1]].
  assert (Hl1 : length out1 = length output_buffer).
  { rewrite Hout1. rewrite !length_app, length_firstn, length_skipn. lia. }
  apply copyColumnIntoBuffer_loop_spec in H;
    [| rewrite Hl1; lia | rewrite Hl1; lia].
  destruct H as [more [_ [Hout _]]].
  exists w, primary, bytes.
  exists (more ++ skipn (Z.to_nat (to_size_t
                                     (QueryMemoryDescriptor.getEntryCount
                                        (ResultSetStorage.query_mem_desc_
                                           primary) * to_size_t w))
                          + length more) out1).
  split; [exact Hv |]. split; [reflexivity |]. split; [exact Hv0 |].
  rewrite Hout. rewrite <- Hbl, Nat2Z.id.
  assert (Hfirst : firstn (length bytes) out1 = bytes).
  { rewrite Hout1. cbn [Z.to_nat firstn app].
    rewrite firstn_app, firstn_all, Nat.sub_diag. cbn [firstn].
    apply app_nil_r. }
  rewrite Hfirst. reflexivity.
Qed.

(** What [copyColumnIntoBuffer] has copied can be read back entry by
    entry: for a column of [nbytes]-byte integers, the [row_idx]-th value
    of the output buffer is what [getColumnarPerfectHashEntryAt] reads at
    [row_idx] in the primary storage, for every entry of that storage. *)
Theorem copied_column_reads_back (rs : ResultSet.t) (column_idx : Z)
    (output_buffer out : Buffer) (output_buffer_size : Z)
    (primary : ResultSetStorage.t) (nbytes : nat) (row_idx target_idx : Z) :
  Z.of_nat (length output_buffer) < 2 ^ 64 ->
  copyColumnIntoBuffer rs column_idx output_buffer output_buffer_size
  = Ok out ->
  ResultSet.storage_ rs = Some primary ->
  getPaddedSlotWidthBytes (ResultSet.query_mem_desc_ rs) column_idx
  = Ok (Z.of_nat nbytes) ->
  QueryMemoryDescriptor.getEntryCount (ResultSetStorage.query_mem_desc_ primary)
  * Z.of_nat nbytes < 2 ^ 64 ->
  0 <= row_idx
  < QueryMemoryDescriptor.getEntryCount
      (ResultSetStorage.query_mem_desc_ primary) ->
  load_int nbytes out (Z.of_nat nbytes * row_idx)
  = getColumnarPerfectHashEntryAt nbytes rs row_idx target_idx column_idx.
Proof.
  intros Hlen H Hst Hw Hsmall Hrow.
  destruct (copyColumnIntoBuffer_primary _ _ _ _ _ Hlen H)
    as [w [primary' [bytes [tail [Hw' [Hst' [Hbytes Hout]]]]]]].
  rewrite Hw in Hw'. injection Hw' as <-.
  rewrite Hst in Hst'. injection Hst' as <-.
  unfold getColumnarPerfectHashEntryAt. rewrite Hst.
  unfold column_bytes in Hbytes.
  rewrite (to_size_t_small (Z.of_nat nbytes)) in Hbytes by nia.
  rewrite to_size_t_small in Hbytes by nia.
  destruct (read_bytes_Ok _ _ _ _ Hbytes) as [Hoff [Hn [Hfit [Hb Hbl]]]].
  unfold load_int. f_equal. subst out.
  apply load_unsigned_ext. intros j Hj.
  assert (Hin : 0 <= Z.of_nat nbytes * row_idx + j
                < QueryMemoryDescriptor.getEntryCount
                    (ResultSetStorage.query_mem_desc_ primary)
                  * Z.of_nat nbytes) by nia.
  rewrite byte_at_app_l by lia.
  rewrite Hb. rewrite byte_at_slice by lia.
  f_equal. lia.
Qed.

End ColumnEntryProperties.

Lemma copyColumnIntoBuffer_concatenates_witness :
  exists w primary bytes,
    getPaddedSlotWidthBytes (BufferAccessors := Reference.accessors)
      (ResultSet.query_mem_desc_ ReferenceColumns.two_parts) 0 = Ok w /\
    ResultSet.storage_ ReferenceColumns.two_parts = Some primary /\
    columns_bytes (CA := ReferenceColumns.columnar_accessors) 0 w
      (primary
       :: non_empty_storages
            (ResultSet.appended_storage_ ReferenceColumns.two_parts))
    = Ok bytes /\
    Reference.encode_ints 8 [10; 20; 30; 0]
    = bytes ++ skipn (length bytes) (Reference.encode_ints 8 [0; 0; 0; 0]) /\
    Z.of_nat (length bytes) <= 32 /\
    length (Reference.encode_ints 8 [10; 20; 30; 0])
    = length (Reference.encode_ints 8 [0; 0; 0; 0]).
Proof.
  refine (copyColumnIntoBuffer_concatenates (BA := Reference.accessors)
            (CA := ReferenceColumns.columnar_accessors)
            ReferenceColumns.two_parts 0
            (Reference.encode_ints 8 [0; 0; 0; 0])
            (Reference.encode_ints 8 [10; 20; 30; 0]) 32 _ _).
  - vm_compute. reflexivity.
  - vm_compute. reflexivity.
Defined.

Lemma copied_column_reads_back_witness :
  load_int 8 (Reference.encode_ints 8 [10; 20; 30; 0]) (Z.of_nat 8 * 1)
  = getColumnarPerfectHashEntryAt (CA := ReferenceColumns.columnar_accessors)
      8 ReferenceColumns.two_parts 1 0 0.
Proof.
  refine (copied_column_reads_back (BA := Reference.accessors)
            (CA := ReferenceColumns.columnar_accessors)
            ReferenceColumns.two_parts 0
            (Reference.encode_ints 8 [0; 0; 0; 0])
            (Reference.encode_ints 8 [10; 20; 30; 0]) 32
            ReferenceColumns.first_part 8 1 0 _ _ _ _ _ _).
  - vm_compute. reflexivity.
  - vm_compute. reflexivity.
  - reflexivity.
  - reflexivity.
  - vm_compute. reflexivity.
  - vm_compute. split; [discriminate | reflexivity].
Defined.

Section TargetAccessorProperties.

Context {BA : BufferAccessors} {TM : TargetMaterializers}.

Lemma RowWiseTargetAccessor_offsets_length :
  forall rs key_width targets p a row,
    RowWiseTargetAccessor_offsets rs key_width targets p a = Ok row ->
    length row = length targets.
Proof.
  intros rs kw targets; induction targets as [|t rest IH]; intros p a row H;
    cbn [RowWiseTargetAccessor_offsets] in H.
  - inversion H; reflexivity.
  - cbv zeta in H. inv_bind H. inv_bind H. destruct v0 as [p2 s2].
    inv_bind H. inversion H; subst. cbn [length]. f_equal.
    eapply IH; eassumption.
Qed.

Lemma ColumnWiseTargetAccessor_offsets_length :
  forall rs key_width d targets p a row,
    ColumnWiseTargetAccessor_offsets rs key_width d targets p a = Ok row ->
    length row = length targets.
Proof.
  intros rs kw d targets; induction targets as [|t rest IH]; intros p a row H;
    cbn [ColumnWiseTargetAccessor_offsets] in H.
  - inversion H; reflexivity.
  - cbv zeta in H. inv_bind H. inv_bind H. inv_bind H.
    inversion H; subst. cbn [length]. f_equal. eapply IH; eassumption.
Qed.

Lemma RowWiseTargetAccessor_storages_shape :
  forall rs key_width targets n table,
    RowWiseTargetAccessor_storages rs key_width targets n = Ok table ->
    length table = n /\
    forall row, In row table ->
      RowWiseTargetAccessor_offsets rs key_width targets 0 0 = Ok row.
Proof.
  intros rs kw targets n; induction n as [|n IH]; intros table H;
    cbn [RowWiseTargetAccessor_storages] in H.
  - inversion H; split; [reflexivity | intros row []].
  - inv_bind H. inv_check H. inv_bind H. inversion H; subst.
    destruct (IH _ Hv0) as [Hlen Hrows]. split.
    + cbn [length]; congruence.
    + intros row [<- | Hin]; [exact Hv | exact (Hrows _ Hin)].
Qed.

Lemma ColumnWiseTargetAccessor_storages_shape :
  forall rs key_width targets storages table,
    ColumnWiseTargetAccessor_storages rs key_width targets storages
      = Ok table ->
    length table = length storages /\
    forall i s row,
      nth_error storages i = Some s -> nth_error table i = Some row ->
      ColumnWiseTargetAccessor_offsets rs key_width
        (ResultSetStorage.query_mem_desc_ s) targets
        (get_cols_ptr (ResultSetStorage.query_mem_desc_ s)) 0 = Ok row.
Proof.
  intros rs kw targets storages; induction storages as [|s0 rest IH];
    intros table H; cbn [ColumnWiseTargetAccessor_storages] in H.
  - inversion H; split; [reflexivity | intros [|i] s row Hs; discriminate Hs].
  - cbv zeta in H. inv_bind H. inv_check H. inv_bind H. inversion H; subst.
    destruct (IH _ Hv0) as [Hlen Hrows]. split.
    + cbn [length]; congruence.
    + intros [|i] s row Hs Hrow; cbn [nth_error] in Hs, Hrow.
      * inversion Hs; inversion Hrow; subst. exact Hv.
      * exact (Hrows _ _ _ Hs Hrow).
Qed.

Lemma target_slot_grows :
  forall separate_varlen targets a k,
    (forall j t, In t targets -> j < advance_slot j t separate_varlen) ->
    a <= target_slot separate_varlen targets a k.
Proof.
  intros sep targets; induction targets as [|t rest IH]; intros a k Hmono.
  - destruct k; cbn [target_slot]; lia.
  - destruct k as [|k]; cbn [target_slot]; [lia|].
    specialize (IH (advance_slot a t sep) k
                  (fun j t' Hin => Hmono j t' (or_intror Hin))).
    specialize (Hmono a t (or_introl eq_refl)). lia.
Qed.

Lemma ColumnWiseTargetAccessor_offsets_slot :
  forall rs key_width d targets crt_col_ptr agg_col_idx row k ofs,
    let separate_varlen := ResultSet.separate_varlen_storage_valid_ rs in
    let slot := target_slot separate_varlen targets agg_col_idx k in
    ColumnWiseTargetAccessor_offsets rs key_width d targets crt_col_ptr
      agg_col_idx = Ok row ->
    nth_error row k = Some ofs ->
    (forall t, In t targets -> is_real_str_or_array t = false) ->
    (forall j t, In t targets ->
       j + (if is_agg t && SQLAgg_eqb (agg_kind t) kAVG then 2 else 1)
       <= advance_slot j t separate_varlen) ->
    0 <= agg_col_idx ->
    (slot <= getBufferColSlotCount d < 2 ^ 64) ->
    advance_col_buff_to_slot_loop d targets slot separate_varlen crt_col_ptr
      agg_col_idx = Ok (ptr1 ofs) /\
    (slot < getBufferColSlotCount d ->
     forall t, nth_error targets k = Some t ->
     is_agg t && SQLAgg_eqb (agg_kind t) kAVG = true ->
     exists col2,
       ptr2 ofs = Some col2 /\
       advance_col_buff_to_slot_loop d targets (slot + 1) separate_varlen
         crt_col_ptr agg_col_idx = Ok col2).
Proof.
  intros rs kw d targets; induction targets as [|t rest IH];
    intros p a row k ofs sep slot H Hk Hstr Hmono Ha Hcount;
    cbn [ColumnWiseTargetAccessor_offsets] in H.
  - inversion H; subst. destruct k; discriminate Hk.
  - cbv zeta in H. inv_bind H. inv_bind H. inv_bind H.
    inversion H; subst row; clear H.
    assert (Hmono' : forall j t', In t' (t :: rest) ->
              j < advance_slot j t' sep).
    { intros j t' Hin. specialize (Hmono j t' Hin).
      destruct (is_agg t' && SQLAgg_eqb (agg_kind t') kAVG); lia. }
    rewrite (Hstr t (or_introl eq_refl)), orb_false_r in Hv0, Hv1.
    pose proof (Hmono a t (or_introl eq_refl)) as Hstep.
    destruct k as [|k]; cbn [nth_error] in Hk.
    + inversion Hk; subst ofs; clear Hk. subst slot.
      cbn [target_slot ptr1 ptr2 advance_col_buff_to_slot_loop]. split.
      * rewrite Z.eqb_refl. reflexivity.
      * intros Hlt t' Ht' Havg. cbn [nth_error] in Ht'.
        inversion Ht'; subst t'.
        rewrite (Hstr t (or_introl eq_refl)), orb_false_r, Havg.
        eexists; split; [reflexivity|].
        replace (a =? a + 1) with false by (symmetry; apply Z.eqb_neq; lia).
        apply Z.ltb_lt in Hlt. rewrite Hlt. cbn [bind].
        rewrite to_size_t_small by lia. rewrite Z.eqb_refl. reflexivity.
    + subst slot. cbn [target_slot] in *.
      set (a' := advance_slot a t sep) in *.
      set (slot := target_slot sep rest a' k) in *.
      assert (Hge : a' <= slot).
      { apply target_slot_grows. intros j t' Hin.
        apply Hmono'. right; exact Hin. }
      assert (Hrest_str : forall t', In t' rest ->
                is_real_str_or_array t' = false)
        by (intros t' Hin; apply Hstr; right; exact Hin).
      assert (Hrest_mono : forall j t', In t' rest ->
                j + (if is_agg t' && SQLAgg_eqb (agg_kind t') kAVG
                     then 2 else 1) <= advance_slot j t' sep)
        by (intros j t' Hin; apply Hmono; right; exact Hin).
      assert (Ha' : 0 <= a')
        by (destruct (is_agg t && SQLAgg_eqb (agg_kind t) kAVG); lia).
      destruct (IH _ _ _ _ _ Hv1 Hk Hrest_str Hrest_mono Ha' Hcount)
        as [IH1 IH2].
      fold sep in IH1, IH2. fold a' in IH1, IH2. fold slot in IH1, IH2.
      assert (Hlt : (a <? getBufferColSlotCount d) = true)
        by (apply Z.ltb_lt;
            destruct (is_agg t && SQLAgg_eqb (agg_kind t) kAVG); lia).
      cbn [advance_col_buff_to_slot_loop]. fold sep. fold a'.
      replace (a =? slot) with false
        by (symmetry; apply Z.eqb_neq;
            destruct (is_agg t && SQLAgg_eqb (agg_kind t) kAVG); lia).
      replace (a =? slot + 1) with false
        by (symmetry; apply Z.eqb_neq;
            destruct (is_agg t && SQLAgg_eqb (agg_kind t) kAVG); lia).
      rewrite Hlt. cbn [bind].
      destruct (is_agg t && SQLAgg_eqb (agg_kind t) kAVG) eqn:Havg.
      * replace (to_size_t (a + 1) =? slot) with false
          by (rewrite to_size_t_small by lia; symmetry; apply Z.eqb_neq; lia).
        split; [exact IH1|].
        intros Hslot t' Ht' Havg'. cbn [nth_error] in Ht'.
        replace (to_size_t (a + 1) =? slot + 1) with false
          by (rewrite to_size_t_small by lia; symmetry; apply Z.eqb_neq; lia).
        exact (IH2 Hslot t' Ht' Havg').
      * split; [exact IH1|].
        intros Hslot t' Ht' Havg'. cbn [nth_error] in Ht'.
        exact (IH2 Hslot t' Ht' Havg').
Qed.

Lemma RowWiseTargetAccessor_storages_unchecked :
  forall rs key_width targets n,
    RowWiseTargetAccessor_storages rs key_width targets (S n)
    = (row <- RowWiseTargetAccessor_offsets rs key_width targets 0 0 ;;
       Ok (repeat row (S n))).
Proof.
  intros rs kw targets n.
  destruct (RowWiseTargetAccessor_offsets rs kw targets 0 0) as [row | | |]
    eqn:Erow.
  - cbn [bind].
    assert (Hlen : Nat.eqb (length row) (length targets) = true)
      by (apply Nat.eqb_eq;
          exact (RowWiseTargetAccessor_offsets_length _ _ _ _ _ _ Erow)).
    induction n as [| n IH].
    + cbn [RowWiseTargetAccessor_storages]. rewrite Erow. cbn [bind].
      rewrite Hlen. reflexivity.
    + change (RowWiseTargetAccessor_storages rs kw targets (S (S n)))
        with (offsets <- RowWiseTargetAccessor_offsets rs kw targets 0 0 ;;
              CHECK (Nat.eqb (length offsets) (length targets)) ;;
              tl <- RowWiseTargetAccessor_storages rs kw targets (S n) ;;
              Ok (offsets :: tl)).
      rewrite Erow. cbn [bind]. rewrite Hlen, IH. reflexivity.
  - cbn [RowWiseTargetAccessor_storages]. rewrite Erow. reflexivity.
  - cbn [RowWiseTargetAccessor_storages]. rewrite Erow. reflexivity.
  - cbn [RowWiseTargetAccessor_storages]. rewrite Erow. reflexivity.
Qed.

Lemma ColumnWiseTargetAccessor_storages_unchecked :
  forall rs key_width targets storages,
    ColumnWiseTargetAccessor_storages rs key_width targets storages
    = collect
        (fun s =>
           ColumnWiseTargetAccessor_offsets rs key_width
             (ResultSetStorage.query_mem_desc_ s) targets
             (get_cols_ptr (ResultSetStorage.query_mem_desc_ s)) 0)
        storages.
Proof.
  intros rs kw targets storages. induction storages as [| s rest IH].
  - reflexivity.
  - cbn [ColumnWiseTargetAccessor_storages collect]. cbv zeta.
    destruct (ColumnWiseTargetAccessor_offsets rs kw
                (ResultSetStorage.query_mem_desc_ s) targets
                (get_cols_ptr (ResultSetStorage.query_mem_desc_ s)) 0)
      as [row | | |] eqn:Erow; try reflexivity.
    cbn [bind].
    rewrite (proj2 (Nat.eqb_eq _ _)
               (ColumnWiseTargetAccessor_offsets_length _ _ _ _ _ _ _ Erow)).
    rewrite IH. reflexivity.
Qed.

(** The offset tables of the two target accessors, on a result set that
    has a primary storage.  The [CHECK_EQ] that closes each round of
    [initializeOffsetsForStorage] cannot fail: the row-wise table is the
    row that the loop over the targets computes, once for the primary
    storage and once for each appended storage, and the column-wise table
    collects the rows that the loop over the targets computes for the
    primary storage and for each appended storage in turn, so that
    [initializeOffsetsForStorage] fails only where a loop over the targets
    fails.  A table that is built has one row for each storage, every row
    has one entry for each target, and in the row-wise accessor all the
    rows are the same. *)
Theorem accessor_offsets_cover_storages_and_targets :
  forall (rs : ResultSet.t) (storage : ResultSetStorage.t),
    let key_width :=
      QueryMemoryDescriptor.getEffectiveKeyWidth
        (ResultSet.query_mem_desc_ rs) in
    let targets := ResultSetStorage.targets_ storage in
    ResultSet.storage_ rs = Some storage ->
    RowWiseTargetAccessor_initializeOffsetsForStorage rs
    = (row <- RowWiseTargetAccessor_offsets rs key_width targets 0 0 ;;
       Ok (repeat row (S (length (ResultSet.appended_storage_ rs))))) /\
    ColumnWiseTargetAccessor_initializeOffsetsForStorage rs
    = collect
        (fun s =>
           ColumnWiseTargetAccessor_offsets rs key_width
             (ResultSetStorage.query_mem_desc_ s) targets
             (get_cols_ptr (ResultSetStorage.query_mem_desc_ s)) 0)
        (storage :: ResultSet.appended_storage_ rs) /\
    (forall table,
       RowWiseTargetAccessor_initializeOffsetsForStorage rs = Ok table \/
       ColumnWiseTargetAccessor_initializeOffsetsForStorage rs = Ok table ->
       length table = S (length (ResultSet.appended_storage_ rs)) /\
       (forall row, In row table -> length row = length targets) /\
       (RowWiseTargetAccessor_initializeOffsetsForStorage rs = Ok table ->
        forall row row', In row table -> In row' table -> row = row')).
Proof.
  intros rs storage key_width targets Hstorage.
  unfold RowWiseTargetAccessor_initializeOffsetsForStorage,
    ColumnWiseTargetAccessor_initializeOffsetsForStorage.
  rewrite Hstorage. fold key_width. fold targets.
  split; [apply RowWiseTargetAccessor_storages_unchecked |].
  split; [apply ColumnWiseTargetAccessor_storages_unchecked |].
  intros table H. destruct H as [H | H].
  - destruct (RowWiseTargetAccessor_storages_shape _ _ _ _ _ H)
      as [Hlen Hrows].
    split; [exact Hlen|]. split.
    + intros row Hin.
      exact (RowWiseTargetAccessor_offsets_length _ _ _ _ _ _ (Hrows _ Hin)).
    + intros _ row row' Hin Hin'.
      pose proof (Hrows _ Hin) as E. rewrite (Hrows _ Hin') in E.
      inversion E; reflexivity.
  - destruct (ColumnWiseTargetAccessor_storages_shape _ _ _ _ _ H)
      as [Hlen Hrows].
    split; [exact Hlen|]. split.
    + intros row Hin. apply In_nth_error in Hin. destruct Hin as [i Hi].
      assert (Hlt : (i < length (storage :: ResultSet.appended_storage_ rs))%nat).
      { rewrite <- Hlen. apply nth_error_Some. congruence. }
      destruct (nth_error (storage :: ResultSet.appended_storage_ rs) i)
        as [s|] eqn:Es; [ | apply nth_error_None in Es; lia ].
      exact (ColumnWiseTargetAccessor_offsets_length _ _ _ _ _ _ _
               (Hrows _ _ _ Es Hi)).
    + intros Hrow row row' Hin Hin'.
      destruct (RowWiseTargetAccessor_storages_shape _ _ _ _ _ Hrow)
        as [_ Hrows'].
      pose proof (Hrows' _ Hin) as E. rewrite (Hrows' _ Hin') in E.
      inversion E; reflexivity.
Qed.

(** In the column-wise accessor, the first pointer recorded for a target
    is the column that [advance_col_buff_to_slot] finds for the target's
    first slot, and for an average the second pointer is the column of the
    next slot.  This holds for targets that are not real strings or arrays,
    when [advance_slot] moves past the one slot of a plain target and the
    two slots of an average, and the slot is within the slot count of the
    storage. *)
Theorem column_wise_offsets_are_slot_columns :
  forall (rs : ResultSet.t) (storage s : ResultSetStorage.t)
         (table : list (list TargetOffsets)) (row : list TargetOffsets)
         (i k : nat) (ofs : TargetOffsets),
    let separate_varlen := ResultSet.separate_varlen_storage_valid_ rs in
    let targets := ResultSetStorage.targets_ storage in
    let d := ResultSetStorage.query_mem_desc_ s in
    let slot := target_slot separate_varlen targets 0 k in
    ResultSet.storage_ rs = Some storage ->
    ColumnWiseTargetAccessor_initializeOffsetsForStorage rs = Ok table ->
    nth_error (storage :: ResultSet.appended_storage_ rs) i = Some s ->
    nth_error table i = Some row ->
    nth_error row k = Some ofs ->
    (forall t, In t targets -> is_real_str_or_array t = false) ->
    (forall j t, In t targets ->
       j + (if is_agg t && SQLAgg_eqb (agg_kind t) kAVG then 2 else 1)
       <= advance_slot j t separate_varlen) ->
    (slot <= getBufferColSlotCount d < 2 ^ 64) ->
    advance_col_buff_to_slot d targets slot separate_varlen
      = Ok (ptr1 ofs) /\
    (slot < getBufferColSlotCount d ->
     forall t, nth_error targets k = Some t ->
     is_agg t && SQLAgg_eqb (agg_kind t) kAVG = true ->
     exists col2,
       ptr2 ofs = Some col2 /\
       advance_col_buff_to_slot d targets (slot + 1) separate_varlen
         = Ok col2).
Proof.
  intros rs storage s table row i k ofs sep targets d slot
    Hstorage Hinit Hs Hrow Hk Hstr Hmono Hcount.
  unfold ColumnWiseTargetAccessor_initializeOffsetsForStorage in Hinit.
  rewrite Hstorage in Hinit.
  destruct (ColumnWiseTargetAccessor_storages_shape _ _ _ _ _ Hinit)
    as [_ Hrows].
  unfold advance_col_buff_to_slot.
  exact (ColumnWiseTargetAccessor_offsets_slot rs _ d targets _ 0 row k ofs
           (Hrows _ _ _ Hs Hrow) Hk Hstr Hmono (Z.le_refl 0) Hcount).
Qed.

End TargetAccessorProperties.

Lemma accessor_offsets_cover_storages_and_targets_witness :
  ColumnWiseTargetAccessor_initializeOffsetsForStorage
    (BA := Reference.accessors) (TM := Reference.materializers)
    AccessorSamples.avg_result_set
  = collect
      (fun s =>
         ColumnWiseTargetAccessor_offsets (BA := Reference.accessors)
           (TM := Reference.materializers) AccessorSamples.avg_result_set
           (QueryMemoryDescriptor.getEffectiveKeyWidth
              (ResultSet.query_mem_desc_ AccessorSamples.avg_result_set))
           (ResultSetStorage.query_mem_desc_ s)
           (ResultSetStorage.targets_ AccessorSamples.avg_storage)
           (get_cols_ptr (BufferAccessors := Reference.accessors)
              (ResultSetStorage.query_mem_desc_ s)) 0)
      (AccessorSamples.avg_storage
       :: ResultSet.appended_storage_ AccessorSamples.avg_result_set) /\
  exists table,
    ColumnWiseTargetAccessor_initializeOffsetsForStorage
      (BA := Reference.accessors) (TM := Reference.materializers)
      AccessorSamples.avg_result_set = Ok table /\
    length table = 2%nat /\
    forall row, In row table -> length row = 2%nat.
Proof.
  destruct (accessor_offsets_cover_storages_and_targets
              (BA := Reference.accessors) (TM := Reference.materializers)
              AccessorSamples.avg_result_set AccessorSamples.avg_storage
              eq_refl) as [_ [Hcol Hshape]].
  split; [exact Hcol |].
  eexists. split; [vm_compute; reflexivity |].
  destruct (Hshape _ (or_intror eq_refl)) as [Hlen [Hrows _]].
  split; [exact Hlen | exact Hrows].
Defined.

Lemma column_wise_offsets_are_slot_columns_witness :
  advance_col_buff_to_slot (BA := Reference.accessors)
    AccessorSamples.avg_descriptor
    [Reference.avg_target; Reference.plain_target] 2 false = Ok 48 /\
  advance_col_buff_to_slot (BA := Reference.accessors)
    AccessorSamples.avg_descriptor
    [Reference.avg_target; Reference.plain_target] 1 false = Ok 32.
Proof.
  assert (Hstr : forall t,
            In t [Reference.avg_target; Reference.plain_target] ->
            is_real_str_or_array (TargetMaterializers := Reference.materializers)
              t = false) by reflexivity.
  assert (Hmono : forall j t,
            In t [Reference.avg_target; Reference.plain_target] ->
            j + (if is_agg t && SQLAgg_eqb (agg_kind t) kAVG then 2 else 1)
            <= advance_slot (BufferAccessors := Reference.accessors)
                 j t false).
  { intros j t [<- | [<- | []]]; cbn; lia. }
  split.
  - refine (proj1 (column_wise_offsets_are_slot_columns
                     (BA := Reference.accessors)
                     (TM := Reference.materializers)
                     AccessorSamples.avg_result_set
                     AccessorSamples.avg_storage AccessorSamples.avg_storage
                     _ _ 1 1 (mkTargetOffsets 48 8 None 0)
                     eq_refl eq_refl eq_refl eq_refl eq_refl Hstr Hmono _)).
    vm_compute. split; [discriminate | reflexivity].
  - destruct (proj2 (column_wise_offsets_are_slot_columns
                     (BA := Reference.accessors)
                     (TM := Reference.materializers)
                     AccessorSamples.avg_result_set
                     AccessorSamples.avg_storage AccessorSamples.avg_storage
                     _ _ 1 0 (mkTargetOffsets 16 8 (Some 32) 8)
                     eq_refl eq_refl eq_refl eq_refl eq_refl Hstr Hmono
                     ltac:(vm_compute; split; [discriminate | reflexivity]))
                  eq_refl Reference.avg_target eq_refl eq_refl)
      as [col2 [E2 Hcol]].
    inversion E2; subst col2. exact Hcol.
Defined.

Section ResetProperties.

Context {BA : BufferAccessors} {TM : TargetMaterializers}.

Lemma getNextRow_times_cursor (ts d2d : bool) :
  forall (k : nat) (rs rs1 : ResultSet.t) (rows : list Row),
    getNextRow_times k ts d2d rs = Ok (rows, rs1) ->
    exists c f, rs1 = with_cursor rs c f.
Proof.
  induction k as [|k IH]; intros rs rs1 rows H; cbn [getNextRow_times] in H.
  - inversion H; subst. eexists; eexists. symmetry. apply with_cursor_same.
  - inv_bind H. destruct v as [r rs2]. inv_bind H. destruct v as [rs' rs3].
    inversion H; subst; clear H.
    apply getNextRow_cursor in Hv. destruct Hv as [c [f ->]].
    apply IH in Hv0. destruct Hv0 as [c' [f' ->]].
    exists c', f'. destruct rs; reflexivity.
Qed.

Lemma initStatus_with_cursor (rs : ResultSet.t) (c f : Z) :
  initStatus (with_cursor rs c f) = initStatus rs.
Proof.
  destruct rs as [d s a c0 f0 dr ke p sv ex je].
  unfold initStatus, clearPermutation, fresh_cursor, with_cursor.
  cbn. destruct p; reflexivity.
Qed.

Lemma initStatus_fields (rs : ResultSet.t) :
  fresh_cursor (initStatus rs) = initStatus rs /\
  ResultSet.permutation_ (initStatus rs) = [] /\
  ResultSet.drop_first_ (initStatus rs) = 0 /\
  ResultSet.keep_first_ (initStatus rs) = 0 /\
  ResultSet.just_explain_ (initStatus rs) = ResultSet.just_explain_ rs /\
  ResultSet.storage_ (initStatus rs) = ResultSet.storage_ rs /\
  ResultSet.query_mem_desc_ (initStatus rs) = ResultSet.query_mem_desc_ rs.
Proof.
  destruct rs as [d s a c0 f0 dr ke p sv ex je].
  unfold initStatus, clearPermutation, fresh_cursor.
  cbn. destruct p; cbn; repeat split; reflexivity.
Qed.

(** [initStatus] makes a result set ready to be read again, whatever was
    done with it before: after any number of calls of [getNextRow] on a
    result set that may be sorted and carry an OFFSET and a LIMIT,
    [initStatus] gives the same state as on the untouched result set, and
    from it [getNextRow] returns the rows of all the non-empty entries in
    storage order, then empty rows. *)
Theorem initStatus_restarts_iteration
    (rs rs1 : ResultSet.t) (e : Z -> bool) (row : Z -> Row)
    (ts d2d : bool) (k : nat) (rows : list Row) :
  let n := QueryMemoryDescriptor.getEntryCount (ResultSet.query_mem_desc_ rs) in
  getNextRow_times k ts d2d rs = Ok (rows, rs1) ->
  ResultSet.just_explain_ rs = false ->
  ResultSet.storage_ rs <> None ->
  0 <= n < 2 ^ 64 ->
  (forall i, 0 <= i < n -> isEmptyAt (initStatus rs) i = Ok (e i)) ->
  (forall i, 0 <= i < n -> e i = false ->
     getRowAt_entry (initStatus rs) i ts d2d false [] = Ok (row i) /\
     row i <> []) ->
  initStatus rs1 = initStatus rs /\
  forall m, exists rs',
    getNextRow_times m ts d2d (initStatus rs1)
    = Ok (take_padded [] m (map row (valid_positions e n)), rs').
Proof.
  intros n Hk Hexplain Hstorage Hn Hempty Hrow.
  destruct (getNextRow_times_cursor _ _ _ _ _ _ Hk) as [c [f ->]].
  rewrite initStatus_with_cursor. split; [reflexivity|].
  destruct (initStatus_fields rs)
    as [Hfresh [Hperm [Hdrop [Hkeep [Hje [Hst Hd]]]]]].
  assert (Hcount : entryCount (initStatus rs) = n).
  { unfold entryCount. rewrite Hperm, Hd. reflexivity. }
  intros m.
  destruct (getNextRow_times_fresh (initStatus rs) e row ts d2d n 0 0
              Hcount Hdrop Hkeep ltac:(congruence) ltac:(congruence) Hn
              ltac:(lia) ltac:(lia) ltac:(lia) Hempty
              ltac:(intros i Hi He; exists i; split;
                    [unfold entry_idx_of; rewrite Hperm; reflexivity
                    | exact (Hrow i Hi He)]) m) as [rs' Hrows].
  rewrite Hfresh in Hrows. exists rs'. exact Hrows.
Qed.

End ResetProperties.

Lemma initStatus_restarts_iteration_witness :
  exists rows rs1 rs',
    getNextRow_times (BA := Reference.accessors)
      (TM := Reference.materializers) 2 true false
      Examples.sorted_result_set = Ok (rows, rs1) /\
    getNextRow_times (BA := Reference.accessors)
      (TM := Reference.materializers) 6 true false (initStatus rs1)
    = Ok ([[IntTV 100]; [IntTV 101]; [IntTV 102]; [IntTV 103]; [IntTV 104];
           []], rs').
Proof.
  eexists. eexists.
  assert (H : forall m, exists rs',
    getNextRow_times (BA := Reference.accessors)
      (TM := Reference.materializers) m true false
      (initStatus
         (with_cursor Examples.sorted_result_set 2 2))
    = Ok (take_padded [] m
            (map Examples.eight_rows_row
               (valid_positions (fun _ => false) 5)), rs')).
  { refine (proj2 (initStatus_restarts_iteration
                     (BA := Reference.accessors)
                     (TM := Reference.materializers)
                     Examples.sorted_result_set _ (fun _ => false)
                     Examples.eight_rows_row true false 2
                     [[IntTV 104]; [IntTV 103]] _ _ _ _ _ _)).
    - vm_compute. reflexivity.
    - reflexivity.
    - discriminate.
    - vm_compute. split; [discriminate | reflexivity].
    - intros i Hi.
      change (QueryMemoryDescriptor.getEntryCount
                (ResultSet.query_mem_desc_ Examples.sorted_result_set))
        with 5 in Hi.
      assert (Hc : i = 0 \/ i = 1 \/ i = 2 \/ i = 3 \/ i = 4) by lia.
      repeat (destruct Hc as [-> | Hc]; [vm_compute; reflexivity |]).
      subst i. vm_compute. reflexivity.
    - intros i Hi _.
      change (QueryMemoryDescriptor.getEntryCount
                (ResultSet.query_mem_desc_ Examples.sorted_result_set))
        with 5 in Hi.
      split; [| discriminate].
      assert (Hc : i = 0 \/ i = 1 \/ i = 2 \/ i = 3 \/ i = 4) by lia.
      repeat (destruct Hc as [-> | Hc]; [vm_compute; reflexivity |]).
      subst i. vm_compute. reflexivity. }
  destruct (H 6%nat) as [rs' Hrows]. exists rs'.
  split; [vm_compute; reflexivity | exact Hrows].
Defined.

Section SlotLookupProperties.

Context {BA : BufferAccessors}.

Lemma advance_col_buff_to_slot_loop_beyond :
  forall d targets slot_idx separate_varlen crt_col_ptr agg_col_idx,
    (forall j t, In t targets ->
       j + (if is_agg t && SQLAgg_eqb (agg_kind t) kAVG then 2 else 1)
       <= advance_slot j t separate_varlen) ->
    0 <= agg_col_idx ->
    target_slot separate_varlen targets agg_col_idx (length targets)
      <= slot_idx ->
    slot_idx < 2 ^ 64 ->
    advance_col_buff_to_slot_loop d targets slot_idx separate_varlen
      crt_col_ptr agg_col_idx = CheckFailed.
Proof.
  intros d targets slot_idx sep; induction targets as [|t rest IH];
    intros p a Hmono Ha Hslot Hmax; cbn [advance_col_buff_to_slot_loop].
  - reflexivity.
  - cbn [length target_slot] in Hslot.
    pose proof (Hmono a t (or_introl eq_refl)) as Hstep.
    assert (Hrest : forall j t', In t' rest ->
              j + (if is_agg t' && SQLAgg_eqb (agg_kind t') kAVG
                   then 2 else 1) <= advance_slot j t' sep)
      by (intros j t' Hin; apply Hmono; right; exact Hin).
    assert (Hge : advance_slot a t sep
                  <= target_slot sep rest (advance_slot a t sep)
                       (length rest)).
    { apply target_slot_grows. intros j t' Hin.
      specialize (Hrest j t' Hin).
      destruct (is_agg t' && SQLAgg_eqb (agg_kind t') kAVG); lia. }
    assert (Ha' : 0 <= advance_slot a t sep)
      by (destruct (is_agg t && SQLAgg_eqb (agg_kind t) kAVG); lia).
    replace (a =? slot_idx) with false
      by (symmetry; apply Z.eqb_neq;
          destruct (is_agg t && SQLAgg_eqb (agg_kind t) kAVG); lia).
    destruct (a <? getBufferColSlotCount d); cbn [bind]; [|reflexivity].
    destruct (is_agg t && SQLAgg_eqb (agg_kind t) kAVG) eqn:Havg.
    + replace (to_size_t (a + 1) =? slot_idx) with false
        by (rewrite to_size_t_small by lia; symmetry; apply Z.eqb_neq; lia).
      apply IH; assumption.
    + apply IH; assumption.
Qed.

(** [advance_col_buff_to_slot] never returns a column for a slot that no
    target owns: when the slot index is at or beyond the slots of all the
    targets (in particular when there is no target), it stops at a failed
    check.  [advance_slot] is taken to move past the one slot of a plain
    target and the two slots of an average. *)
Theorem advance_col_buff_to_slot_unknown_slot
    (d : QueryMemoryDescriptor.t) (targets : list TargetInfo)
    (slot_idx : Z) (separate_varlen_storage : bool) :
  (forall j t, In t targets ->
     j + (if is_agg t && SQLAgg_eqb (agg_kind t) kAVG then 2 else 1)
     <= advance_slot j t separate_varlen_storage) ->
  target_slot separate_varlen_storage targets 0 (length targets)
    <= slot_idx ->
  slot_idx < 2 ^ 64 ->
  advance_col_buff_to_slot d targets slot_idx separate_varlen_storage
    = CheckFailed.
Proof.
  intros Hmono Hslot Hmax. unfold advance_col_buff_to_slot.
  apply advance_col_buff_to_slot_loop_beyond; try assumption. lia.
Qed.

End SlotLookupProperties.

Lemma advance_col_buff_to_slot_unknown_slot_witness :
  advance_col_buff_to_slot (BA := Reference.accessors)
    AccessorSamples.avg_descriptor
    [Reference.avg_target; Reference.plain_target] 3 false = CheckFailed.
Proof.
  apply (advance_col_buff_to_slot_unknown_slot (BA := Reference.accessors)).
  - intros j t [<- | [<- | []]]; cbn; lia.
  - vm_compute. discriminate.
  - reflexivity.
Defined.

Section LazyFetchProperties.

Context {LF : LazyFetchers}.

Lemma no_lazy_column (lazy_fetch_info_ : list ColumnLazyFetchInfo) :
  getNumColumnsLazyFetched lazy_fetch_info_ = 0 ->
  forall info, In info lazy_fetch_info_ -> is_lazily_fetched info = false.
Proof.
  unfold getNumColumnsLazyFetched. intros H info Hin.
  destruct (is_lazily_fetched info) eqn:E; [| reflexivity].
  assert (Hf : In info (filter is_lazily_fetched lazy_fetch_info_))
    by (apply filter_In; split; assumption).
  destruct (filter is_lazily_fetched lazy_fetch_info_); [destruct Hf |].
  cbn [length] in H. lia.
Qed.

(** In a result set without lazily fetched columns, that is when
    [getNumColumnsLazyFetched] is zero, [areAnyColumnsLazyFetched] is false
    and [lazyReadInt] hands back the value it is given; it fails its check
    only when [lazy_fetch_info_] is not empty and has no entry for the
    target. *)
Theorem lazyReadInt_without_lazy_columns
    (lazy_fetch_info_ : list ColumnLazyFetchInfo)
    (targets_ : list TargetInfo) (fb : FragmentBuffers.t)
    (ival target_logical_idx : Z)
    (storage_lookup_result : ResultSet.StorageLookupResult) :
  getNumColumnsLazyFetched lazy_fetch_info_ = 0 ->
  0 <= target_logical_idx ->
  areAnyColumnsLazyFetched lazy_fetch_info_ = false /\
  (lazy_fetch_info_ = [] \/
   target_logical_idx < Z.of_nat (length lazy_fetch_info_) ->
   lazyReadInt lazy_fetch_info_ targets_ fb ival target_logical_idx
     storage_lookup_result = Ok ival) /\
  (lazy_fetch_info_ <> [] ->
   Z.of_nat (length lazy_fetch_info_) <= target_logical_idx ->
   lazyReadInt lazy_fetch_info_ targets_ fb ival target_logical_idx
     storage_lookup_result = CheckFailed).
Proof.
  intros Hnum Hidx. pose proof (no_lazy_column _ Hnum) as Hnone.
  split; [| split].
  - unfold areAnyColumnsLazyFetched.
    destruct (existsb is_lazily_fetched lazy_fetch_info_) eqn:E;
      [| reflexivity].
    apply existsb_exists in E. destruct E as [info [Hin Hlazy]].
    rewrite (Hnone _ Hin) in Hlazy. discriminate Hlazy.
  - intros [-> | Hlt]; [reflexivity |].
    unfold lazyReadInt.
    destruct lazy_fetch_info_ as [| info0 rest] eqn:El; [reflexivity |].
    rewrite <- El in *.
    apply Z.ltb_lt in Hlt. rewrite Hlt. cbn [bind].
    apply Z.ltb_lt in Hlt.
    destruct (vec_at_in_range lazy_fetch_info_ target_logical_idx
                ltac:(lia)) as [info Hinfo].
    rewrite Hinfo. cbn [bind].
    assert (Hin : In info lazy_fetch_info_).
    { unfold vec_at in Hinfo.
      destruct (target_logical_idx <? 0); [discriminate Hinfo |].
      destruct (nth_error lazy_fetch_info_ (Z.to_nat target_logical_idx))
        eqn:En; [| discriminate Hinfo].
      inversion Hinfo; subst. eapply nth_error_In; eassumption. }
    rewrite (Hnone _ Hin). reflexivity.
  - intros Hne Hge. unfold lazyReadInt.
    destruct lazy_fetch_info_ as [| info0 rest] eqn:El; [contradiction |].
    rewrite <- El in *.
    destruct (Z.ltb_spec target_logical_idx
                (Z.of_nat (length lazy_fetch_info_))); [lia | reflexivity].
Qed.

(** For a lazily fetched column whose fragments all have [size] rows,
    [lazyReadInt] takes the value it is given as the row number [ival] in
    the source table: it decodes row [ival mod size] of the column buffer
    [local_col_id] of fragment [ival / size].  It fails its check when the
    target is an aggregate. *)
Theorem lazyReadInt_decodes_fragment_row
    (lazy_fetch_info_ : list ColumnLazyFetchInfo)
    (targets_ : list TargetInfo) (fb : FragmentBuffers.t)
    (ival target_logical_idx : Z)
    (storage_lookup_result : ResultSet.StorageLookupResult)
    (col_lazy_fetch : ColumnLazyFetchInfo) (target_info : TargetInfo)
    (buffers : list (list Z)) (sizes : list Z) (size : Z)
    (frag_col_buffers : list Z) (frag_col_buffer : Z) :
  let storage_idx := ResultSet.storage_idx storage_lookup_result in
  vec_at lazy_fetch_info_ target_logical_idx = Ok col_lazy_fetch ->
  is_lazily_fetched col_lazy_fetch = true ->
  vec_at targets_ target_logical_idx = Ok target_info ->
  vec_at (FragmentBuffers.col_buffers_ fb) storage_idx = Ok buffers ->
  (1 < Z.of_nat (length buffers)) ->
  vec_at (FragmentBuffers.consistent_frag_sizes_ fb) storage_idx = Ok sizes ->
  vec_at sizes target_logical_idx = Ok size ->
  0 < size -> 0 <= ival ->
  vec_at buffers (ival / size) = Ok frag_col_buffers ->
  vec_at frag_col_buffers (local_col_id col_lazy_fetch)
    = Ok frag_col_buffer ->
  (is_agg target_info = true ->
   lazyReadInt lazy_fetch_info_ targets_ fb ival target_logical_idx
     storage_lookup_result = CheckFailed) /\
  (is_agg target_info = false ->
   is_string (sql_type target_info)
   && is_none_encoded (sql_type target_info) = false ->
   lazyReadInt lazy_fetch_info_ targets_ fb ival target_logical_idx
     storage_lookup_result
   = Ok (lazy_decode col_lazy_fetch frag_col_buffer (ival mod size))).
Proof.
  intros storage_idx Hinfo Hlazy Htarget Hbuffers Hmany Hsizes Hsize Hpos
    Hival Hfrag Hbuf.
  destruct (vec_at_Ok _ _ _ Hinfo) as [Hi _].
  destruct (vec_at_Ok _ _ _ Htarget) as [Ht _].
  destruct (vec_at_Ok _ _ _ Hbuffers) as [Hs _].
  destruct (vec_at_Ok _ _ _ Hfrag) as [Hf _].
  assert (Hq : Z.quot ival size = ival / size)
    by (apply Z.quot_div_nonneg; lia).
  assert (Hr : Z.rem ival size = ival mod size)
    by (apply Z.rem_mod_nonneg; lia).
  assert (Hfrag' :
    getColumnFrag fb storage_idx target_logical_idx ival
    = Ok (frag_col_buffers, ival mod size)).
  { unfold getColumnFrag.
    replace (storage_idx <? Z.of_nat (length (FragmentBuffers.col_buffers_ fb)))
      with true by (symmetry; apply Z.ltb_lt; lia).
    rewrite Hbuffers. cbn [bind].
    replace (1 <? Z.of_nat (length buffers)) with true
      by (symmetry; apply Z.ltb_lt; lia).
    rewrite Hsizes. cbn [bind]. rewrite Hsize. cbn [bind].
    destruct (Z.eqb_spec size (- 1)); [lia |]. cbn [negb].
    destruct (Z.eqb_spec size 0); [lia |]. cbn [bind].
    rewrite Hq, Hr.
    replace (0 <=? ival / size) with true by (symmetry; apply Z.leb_le; lia).
    replace (ival / size <? Z.of_nat (length buffers)) with true
      by (symmetry; apply Z.ltb_lt; lia).
    rewrite Hfrag. reflexivity. }
  assert (Hshape :
    lazyReadInt lazy_fetch_info_ targets_ fb ival target_logical_idx
      storage_lookup_result
    = (CHECK (negb (is_agg target_info)) ;;
       if is_string (sql_type target_info)
          && is_none_encoded (sql_type target_info) then
         let '(vd, is_end) :=
           ChunkIter_get_nth frag_col_buffer (ival mod size) in
         CHECK (negb is_end) ;;
         if vd_is_null vd then Ok 0
         else Ok (addString (vd_pointer vd) (vd_length vd))
       else Ok (lazy_decode col_lazy_fetch frag_col_buffer (ival mod size)))).
  { unfold lazyReadInt.
    destruct lazy_fetch_info_ as [| info0 rest] eqn:El.
    - unfold vec_at in Hinfo.
      destruct (target_logical_idx <? 0); [discriminate Hinfo |].
      destruct (Z.to_nat target_logical_idx); discriminate Hinfo.
    - rewrite <- El in *.
      replace (target_logical_idx <? Z.of_nat (length lazy_fetch_info_))
        with true by (symmetry; apply Z.ltb_lt; lia).
      rewrite Hinfo. cbn [bind]. rewrite Hlazy. fold storage_idx.
      replace (storage_idx
               <? Z.of_nat (length (FragmentBuffers.col_buffers_ fb)))
        with true by (symmetry; apply Z.ltb_lt; lia).
      rewrite Hfrag'. cbn [bind]. rewrite Hbuf. cbn [bind].
      replace (target_logical_idx <? Z.of_nat (length targets_))
        with true by (symmetry; apply Z.ltb_lt; lia).
      rewrite Htarget. reflexivity. }
  rewrite Hshape. split.
  - intros ->. reflexivity.
  - intros -> ->. reflexivity.
Qed.

End LazyFetchProperties.

Lemma lazyReadInt_without_lazy_columns_witness :
  lazyReadInt (LF := LazySamples.fetchers)
    [mkColumnLazyFetchInfo false 0 Reference.integer_type]
    [Reference.plain_target] LazySamples.fragments 25 0
    (ResultSet.mkStorageLookupResult Examples.five_rows 0 0) = Ok 25.
Proof.
  refine (proj1 (proj2 (lazyReadInt_without_lazy_columns
                          (LF := LazySamples.fetchers)
                          [mkColumnLazyFetchInfo false 0
                             Reference.integer_type]
                          [Reference.plain_target] LazySamples.fragments
                          25 0
                          (ResultSet.mkStorageLookupResult
                             Examples.five_rows 0 0) _ _)) _).
  - reflexivity.
  - lia.
  - right. cbn. lia.
Defined.

Lemma lazyReadInt_decodes_fragment_row_witness :
  lazyReadInt (LF := LazySamples.fetchers) LazySamples.lazy_fetch_info
    [Reference.plain_target; Reference.plain_target] LazySamples.fragments
    25 1 (ResultSet.mkStorageLookupResult Examples.five_rows 0 0)
  = Ok (3100 + 5).
Proof.
  refine (proj2 (lazyReadInt_decodes_fragment_row
                   (LF := LazySamples.fetchers) LazySamples.lazy_fetch_info
                   [Reference.plain_target; Reference.plain_target]
                   LazySamples.fragments 25 1
                   (ResultSet.mkStorageLookupResult Examples.five_rows 0 0)
                   (mkColumnLazyFetchInfo true 1 Reference.integer_type)
                   Reference.plain_target
                   [[1000; 1100]; [2000; 2100]; [3000; 3100]] [10; 10] 10
                   [3000; 3100] 3100 _ _ _ _ _ _ _ _ _ _ _) _ _);
    try reflexivity; try lia.
Defined.

Section DirectFetchProperties.

Context {BA : BufferAccessors} {TM : TargetMaterializers} {LF : LazyFetchers}.

Lemma convert_value_int (T : LazyValueType) (sz ival : Z) :
  sizeof_int T = Some sz ->
  int_resize_cast ival sz = Ok (match convert_value T ival with
                                | IntValue v => v
                                | _ => 0
                                end) /\
  exists v, convert_value T ival = IntValue v.
Proof.
  destruct T; intros H; inversion H; subst; cbn; eauto.
Qed.

(** The direct fetch of a lazily fetched column agrees with [lazyReadInt]:
    for an integer type [T] and a lazily fetched target that is neither an
    aggregate nor a none-encoded string, [fetchLazyColumnValue<T>] returns
    what [lazyReadInt] returns for the row number that [getKeyInfo] locates
    in the storage, narrowed to [sizeof(T)] as [int_resize_cast] does, and
    it fails where one of these fails; in addition it rejects a negative
    row number. *)
Theorem fetchLazyColumnValue_agrees_with_lazyReadInt
    (T : LazyValueType) (sz : Z) (rs : ResultSet.t)
    (lazy_fetch_info_ : list ColumnLazyFetchInfo)
    (targets_ : list TargetInfo) (fb : FragmentBuffers.t)
    (global_entry_idx col_idx : Z)
    (col_lazy_fetch : ColumnLazyFetchInfo) (target_info : TargetInfo) :
  sizeof_int T = Some sz ->
  vec_at lazy_fetch_info_ col_idx = Ok col_lazy_fetch ->
  is_lazily_fetched col_lazy_fetch = true ->
  vec_at targets_ col_idx = Ok target_info ->
  is_agg target_info = false ->
  is_string (sql_type target_info) && is_none_encoded (sql_type target_info)
  = false ->
  fetchLazyColumnValue T rs lazy_fetch_info_ fb global_entry_idx col_idx
  = (storage_lookup_result <- findStorage rs global_entry_idx ;;
     let storage := ResultSet.storage_ptr storage_lookup_result in
     '(key_ptr, key_width) <-
       getKeyInfo storage col_idx
         (ResultSet.fixedup_entry_idx storage_lookup_result) ;;
     ival <- read_int_from_buff (ResultSetStorage.buff_ storage) key_ptr
               (to_int8 key_width) ;;
     CHECK (0 <=? ival) ;;
     v <- lazyReadInt lazy_fetch_info_ targets_ fb ival col_idx
            storage_lookup_result ;;
     r <- int_resize_cast v sz ;;
     Ok (IntValue r)).
Proof.
  intros HT Hinfo Hlazy Htarget Hagg Hstr.
  destruct (vec_at_Ok _ _ _ Hinfo) as [Hi _].
  destruct (vec_at_Ok _ _ _ Htarget) as [Ht _].
  unfold fetchLazyColumnValue. rewrite Hinfo. cbn [bind].
  destruct (findStorage rs global_entry_idx) as [r | | |] eqn:Hfind;
    cbn [bind]; try reflexivity.
  assert (Hidx : getStorageIndex rs global_entry_idx
                 = Ok (ResultSet.storage_idx r, ResultSet.fixedup_entry_idx r)).
  { unfold findStorage in Hfind. inv_bind Hfind. destruct v as [stg fixedup].
    rewrite Hv. f_equal.
    destruct (if stg =? 0 then ResultSet.storage_ rs
              else nth_error (ResultSet.appended_storage_ rs)
                     (Z.to_nat (stg - 1))); [| discriminate Hfind].
    inversion Hfind; reflexivity. }
  cbv zeta.
  destruct (getKeyInfo (ResultSet.storage_ptr r) col_idx
              (ResultSet.fixedup_entry_idx r)) as [[key_ptr key_width] | | |];
    cbn [bind]; try reflexivity.
  destruct (read_int_from_buff _ key_ptr (to_int8 key_width))
    as [ival | | |]; cbn [bind]; try reflexivity.
  destruct (0 <=? ival); cbn [bind]; [| reflexivity].
  rewrite Hidx. cbn [bind fst].
  unfold lazyReadInt.
  destruct lazy_fetch_info_ as [| info0 rest] eqn:El.
  { unfold vec_at in Hinfo. destruct (col_idx <? 0); [discriminate Hinfo |].
    destruct (Z.to_nat col_idx); discriminate Hinfo. }
  rewrite <- El in *.
  replace (col_idx <? Z.of_nat (length lazy_fetch_info_)) with true
    by (symmetry; apply Z.ltb_lt; lia).
  cbn [bind]. rewrite Hinfo. cbn [bind]. rewrite Hlazy.
  destruct (ResultSet.storage_idx r
            <? Z.of_nat (length (FragmentBuffers.col_buffers_ fb)));
    cbn [bind]; [| reflexivity].
  destruct (getColumnFrag fb (ResultSet.storage_idx r) col_idx ival)
    as [[frag_col_buffers ival_copy] | | |]; cbn [bind]; try reflexivity.
  destruct (vec_at frag_col_buffers (local_col_id col_lazy_fetch))
    as [frag_col_buffer | | |]; cbn [bind]; try reflexivity.
  replace (col_idx <? Z.of_nat (length targets_)) with true
    by (symmetry; apply Z.ltb_lt; lia).
  cbn [bind]. rewrite Htarget. cbn [bind]. rewrite Hagg. cbn [negb bind].
  rewrite Hstr. cbn [bind].
  destruct (convert_value_int T sz
              (lazy_decode col_lazy_fetch frag_col_buffer ival_copy) HT)
    as [Hcast [v Hv]].
  rewrite Hcast, Hv. reflexivity.
Qed.

End DirectFetchProperties.

Lemma fetchLazyColumnValue_agrees_with_lazyReadInt_witness :
  fetchLazyColumnValue (BA := Reference.accessors)
    (LF := LazySamples.fetchers) T_int32
    DirectFetchSamples.row_ids_result_set DirectFetchSamples.lazy_fetch_info
    LazySamples.fragments 0 0
  = Ok (IntValue 3105).
Proof.
  rewrite (fetchLazyColumnValue_agrees_with_lazyReadInt
             (BA := Reference.accessors) (LF := LazySamples.fetchers)
             T_int32 4 DirectFetchSamples.row_ids_result_set
             DirectFetchSamples.lazy_fetch_info [Reference.plain_target]
             LazySamples.fragments 0 0
             (mkColumnLazyFetchInfo true 1 Reference.integer_type)
             Reference.plain_target eq_refl eq_refl eq_refl eq_refl eq_refl
             eq_refl).
  vm_compute. reflexivity.
Defined.

Section CursorBounds.

Context {BA : BufferAccessors} {TM : TargetMaterializers}.

Lemma advanceCursorToNextEntry_loop_bounds (fuel : nat) :
  forall rs rs',
    advanceCursorToNextEntry_loop fuel rs = Ok rs' ->
    0 <= ResultSet.crt_row_buff_idx_ rs <= entryCount rs ->
    entryCount rs < 2 ^ 64 ->
    exists c',
      rs' = with_cursor rs c' (ResultSet.fetched_so_far_ rs) /\
      ResultSet.crt_row_buff_idx_ rs <= c' <= entryCount rs.
Proof.
  induction fuel as [| fuel IH]; intros rs rs' H Hc Hn;
    cbn [advanceCursorToNextEntry_loop] in H;
    destruct (Z.ltb_spec (ResultSet.crt_row_buff_idx_ rs) (entryCount rs))
      as [Hlt | Hge];
    try discriminate H;
    try (injection H as <-; exists (ResultSet.crt_row_buff_idx_ rs);
         split; [symmetry; apply with_cursor_same | lia]).
  inv_bind H. destruct v; cbn [negb] in H.
  - apply IH in H.
    + destruct H as [c' [-> Hc']]. exists c'.
      split; [destruct rs; reflexivity |].
      change (ResultSet.crt_row_buff_idx_
                (ResultSet.set_crt_row_buff_idx_ rs
                   (to_size_t (ResultSet.crt_row_buff_idx_ rs + 1))))
        with (to_size_t (ResultSet.crt_row_buff_idx_ rs + 1)) in Hc'.
      change (entryCount
                (ResultSet.set_crt_row_buff_idx_ rs
                   (to_size_t (ResultSet.crt_row_buff_idx_ rs + 1))))
        with (entryCount rs) in Hc'.
      rewrite to_size_t_small in Hc' by lia. lia.
    + change (0 <= to_size_t (ResultSet.crt_row_buff_idx_ rs + 1)
              <= entryCount rs).
      rewrite to_size_t_small by lia. lia.
    + exact Hn.
  - injection H as <-. exists (ResultSet.crt_row_buff_idx_ rs).
    split; [symmetry; apply with_cursor_same | lia].
Qed.

Lemma advanceCursorToNextEntry_bounds (rs rs' : ResultSet.t) (idx : Z) :
  advanceCursorToNextEntry rs = Ok (idx, rs') ->
  0 <= ResultSet.crt_row_buff_idx_ rs <= entryCount rs ->
  entryCount rs < 2 ^ 64 ->
  exists c',
    rs' = with_cursor rs c' (ResultSet.fetched_so_far_ rs) /\
    ResultSet.crt_row_buff_idx_ rs <= c' <= entryCount rs.
Proof.
  unfold advanceCursorToNextEntry. intros H Hc Hn. inv_bind H.
  apply advanceCursorToNextEntry_loop_bounds in Hv; [| exact Hc | exact Hn].
  destruct Hv as [c' [-> Hc']]. exists c'. split; [| exact Hc'].
  destruct (ResultSet.permutation_
              (with_cursor rs c' (ResultSet.fetched_so_far_ rs))).
  - injection H as _ <-. reflexivity.
  - inv_check H.
    destruct (ResultSet.crt_row_buff_idx_ _ =? _).
    + injection H as _ <-. reflexivity.
    + inv_bind H. injection H as _ <-. reflexivity.
Qed.

Lemma getNextRowImpl_loop_bounds (fuel : nat) :
  forall rs rs' found,
    getNextRowImpl_loop fuel rs = Ok (found, rs') ->
    0 <= ResultSet.fetched_so_far_ rs <= ResultSet.crt_row_buff_idx_ rs ->
    ResultSet.crt_row_buff_idx_ rs <= entryCount rs ->
    entryCount rs < 2 ^ 64 ->
    exists c' f',
      rs' = with_cursor rs c' f' /\
      ResultSet.crt_row_buff_idx_ rs <= c' <= entryCount rs /\
      ResultSet.fetched_so_far_ rs <= f' <= c' /\
      f' - ResultSet.fetched_so_far_ rs
      <= c' - ResultSet.crt_row_buff_idx_ rs /\
      (found <> None ->
       ResultSet.crt_row_buff_idx_ rs < c' /\
       ResultSet.fetched_so_far_ rs < f').
Proof.
  induction fuel as [| fuel IH]; intros rs rs' found H Hf Hc Hn;
    [discriminate H |].
  cbn [getNextRowImpl_loop] in H.
  match type of H with
  | (if ?b then _ else _) = _ => destruct b
  end.
  - injection H as <- <-.
    exists (ResultSet.crt_row_buff_idx_ rs), (ResultSet.fetched_so_far_ rs).
    split; [symmetry; apply with_cursor_same |].
    repeat split; try lia; congruence.
  - inv_bind H. destruct v as [idx rs1].
    apply advanceCursorToNextEntry_bounds in Hv; [| lia | exact Hn].
    destruct Hv as [c1 [-> Hc1]].
    set (f := ResultSet.fetched_so_far_ rs) in *.
    set (c := ResultSet.crt_row_buff_idx_ rs) in *.
    change (entryCount (with_cursor rs c1 f)) with (entryCount rs) in H.
    change (ResultSet.crt_row_buff_idx_ (with_cursor rs c1 f)) with c1 in H.
    destruct (Z.leb_spec (entryCount rs) c1) as [Hend | Hin].
    + inv_check H. injection H as <- <-.
      exists c1, f. split; [reflexivity |].
      repeat split; try lia; congruence.
    + cbv zeta in H.
      set (a := to_size_t (c1 + 1)) in H.
      change (ResultSet.fetched_so_far_
                (ResultSet.set_crt_row_buff_idx_ (with_cursor rs c1 f) a))
        with f in H.
      set (b := to_size_t (f + 1)) in H.
      set (rs2 := ResultSet.set_fetched_so_far_
                    (ResultSet.set_crt_row_buff_idx_ (with_cursor rs c1 f) a)
                    b) in H.
      assert (Ea : a = c1 + 1) by (apply to_size_t_small; lia).
      assert (Eb : b = f + 1) by (apply to_size_t_small; lia).
      assert (E1 : ResultSet.crt_row_buff_idx_ rs2 = c1 + 1)
        by (rewrite <- Ea; reflexivity).
      assert (E2 : ResultSet.fetched_so_far_ rs2 = f + 1)
        by (rewrite <- Eb; reflexivity).
      assert (E3 : entryCount rs2 = entryCount rs) by reflexivity.
      assert (E4 : forall x y, with_cursor rs2 x y = with_cursor rs x y)
        by (intros; destruct rs; reflexivity).
      match type of H with
      | (if ?t then _ else _) = _ => destruct t
      end.
      * apply IH in H; [| rewrite E1, E2; lia | rewrite E1, E3; lia
                        | rewrite E3; exact Hn].
        destruct H as [c' [f' [-> [H1 [H2 [H3 H4]]]]]].
        rewrite E1, E3 in H1. rewrite E2 in H2. rewrite E1, E2 in H3, H4.
        exists c', f'. split; [apply E4 |].
        repeat split; lia.
      * injection H as <- <-.
        exists (c1 + 1), (f + 1).
        split.
        -- rewrite <- (E4 (c1 + 1) (f + 1)), <- E1, <- E2.
           symmetry. apply with_cursor_same.
        -- repeat split; lia.
Qed.

(** [getNextRow] keeps the cursor in order: on a result set without an
    explanation whose cursor satisfies
    [0 <= fetched_so_far_ <= crt_row_buff_idx_ <= entryCount()], a call
    changes nothing but the cursor, moves neither counter backwards, keeps
    the same bounds, counts no more fetched entries than positions passed,
    and moves both counters forward when it returns a row. *)
Theorem getNextRow_keeps_cursor_in_bounds (rs rs' : ResultSet.t)
    (ts d2d : bool) (row : Row) :
  ResultSet.just_explain_ rs = false ->
  0 <= ResultSet.fetched_so_far_ rs <= ResultSet.crt_row_buff_idx_ rs ->
  ResultSet.crt_row_buff_idx_ rs <= entryCount rs ->
  entryCount rs < 2 ^ 64 ->
  getNextRow ts d2d rs = Ok (row, rs') ->
  rs' = with_cursor rs (ResultSet.crt_row_buff_idx_ rs')
          (ResultSet.fetched_so_far_ rs') /\
  ResultSet.crt_row_buff_idx_ rs <= ResultSet.crt_row_buff_idx_ rs'
    <= entryCount rs' /\
  ResultSet.fetched_so_far_ rs <= ResultSet.fetched_so_far_ rs'
    <= ResultSet.crt_row_buff_idx_ rs' /\
  ResultSet.fetched_so_far_ rs' - ResultSet.fetched_so_far_ rs
    <= ResultSet.crt_row_buff_idx_ rs' - ResultSet.crt_row_buff_idx_ rs /\
  (row <> [] ->
   ResultSet.crt_row_buff_idx_ rs < ResultSet.crt_row_buff_idx_ rs' /\
   ResultSet.fetched_so_far_ rs < ResultSet.fetched_so_far_ rs').
Proof.
  intros Hexplain Hf Hc Hn H.
  assert (Hsame : rs' = rs ->
    rs' = with_cursor rs (ResultSet.crt_row_buff_idx_ rs')
            (ResultSet.fetched_so_far_ rs') /\
    ResultSet.crt_row_buff_idx_ rs <= ResultSet.crt_row_buff_idx_ rs'
      <= entryCount rs' /\
    ResultSet.fetched_so_far_ rs <= ResultSet.fetched_so_far_ rs'
      <= ResultSet.crt_row_buff_idx_ rs' /\
    ResultSet.fetched_so_far_ rs' - ResultSet.fetched_so_far_ rs
      <= ResultSet.crt_row_buff_idx_ rs' - ResultSet.crt_row_buff_idx_ rs).
  { intros ->. split; [symmetry; apply with_cursor_same | lia]. }
  unfold getNextRow, getNextRowUnlocked in H. rewrite Hexplain in H.
  cbn [negb] in H.
  destruct (ResultSet.storage_ rs).
  - unfold getNextRowImpl in H. inv_bind H. destruct v as [found rs1].
    apply getNextRowImpl_loop_bounds in Hv; try assumption.
    destruct Hv as [c' [f' [-> [H1 [H2 [H3 H4]]]]]].
    assert (Hrs' : rs' = with_cursor rs c' f').
    { destruct found.
      - inv_bind H. inv_check H. injection H as _ <-. reflexivity.
      - injection H as _ <-. reflexivity. }
    subst rs'.
    change (ResultSet.crt_row_buff_idx_ (with_cursor rs c' f')) with c'.
    change (ResultSet.fetched_so_far_ (with_cursor rs c' f')) with f'.
    change (entryCount (with_cursor rs c' f')) with (entryCount rs).
    split; [reflexivity |]. repeat split; try lia.
    + destruct found; [apply H4; discriminate | congruence].
    + destruct found; [apply H4; discriminate | congruence].
  - injection H as <- <-.
    destruct (Hsame eq_refl) as [E [B1 [B2 B3]]].
    split; [exact E |]. repeat split; try lia; contradiction.
Qed.

End CursorBounds.

Lemma getNextRow_keeps_cursor_in_bounds_witness :
  exists rs',
    getNextRow (BA := Reference.accessors) (TM := Reference.materializers)
      true false Examples.eight_rows_result_set = Ok ([IntTV 102], rs') /\
    0 < ResultSet.crt_row_buff_idx_ rs' <= 8 /\
    0 < ResultSet.fetched_so_far_ rs' <= ResultSet.crt_row_buff_idx_ rs'.
Proof.
  eexists. split; [vm_compute; reflexivity |].
  pose proof (getNextRow_keeps_cursor_in_bounds
                (BA := Reference.accessors) (TM := Reference.materializers)
                Examples.eight_rows_result_set _ true false [IntTV 102]
                eq_refl ltac:(cbn; lia) ltac:(vm_compute; discriminate)
                eq_refl eq_refl) as [_ [H1 [H2 [_ H3]]]].
  destruct (H3 ltac:(discriminate)) as [H4 H5].
  split.
  - split; [exact H4 | exact (proj2 H1)].
  - split; [exact H5 | exact (proj2 H2)].
Defined.
